(* ===== verification/_CoqProject ===== *)
-Q . S2P
Prelude.v
Fairness.v
Environment.v
Float64.v
Float64Round.v
GoTime.v
Float64Mag.v
LeakyBucket.v
Json.v
ArgusTypes.v
Detectors.v
ArgusDb.v
PolicyEngine.v
PolicyEngineFacts.v
PolicyEngineProps.v
ArgusWorker.v
ArgusWorkerProps.v
AlertPath.v
ArgusRun.v
ArgusLive.v
AlertRecovery.v
Provenance.v
Reports.v
AgentConfig.v
ControlPlane.v
ServerRun.v
Supervisor.v
Stamp.v
StampProps.v
StampProbe.v
ReflectorLife.v
Scamper.v
ScamperProcess.v
AgentPipeline.v
DispatcherLife.v
Processors.v
ProcessorsProps.v
ProcessorRun.v
ProcessorSpec.v
ProcessorLive.v
JetStream.v
AgentRun.v
System.v
Pipeline.v
Sha256.v
TraceLinks.v
TraceProcessor.v
TraceProcessorProps.v
TraceRun.v
TraceLive.v
TraceQueries.v
CopyFrom.v
