(* ===== verification/Prelude.v ===== *)
(** * Cepheus: a verification library

    Cepheus measures networks.  Agents run STAMP, ping and traceroute probes and
    publish reports on NATS; one processor per probe type stores them in
    Postgres and publishes a measurement event; Argus folds the events into
    statistical baselines, and a policy engine turns findings into events that
    open and close.  A control plane hands agents their configuration.

    This library models the Go code under src/ and proves what makes it correct.
    Functions of the code are Gallina functions of the same name where that is
    possible; code that mutates is written in a small state monad ([go], below)
    whose computations return a value, return an error or panic, and keep what
    was mutated on every outcome.  What a function cannot decide itself (clocks,
    sockets, which database statement fails, what a [select] chooses, the order
    in which Go ranges over a map) is an argument, so theorems hold for all of it.

    ** Files, in dependency order

    Foundations:
    - Prelude: this documentation, machine integers, results, the monad, hints.
    - Fairness: infinite runs, weakly fair schedulers, progress by rank, the run of
      a component inside a run of a system, and finite scripts as runs.
    - Float64, Float64Round, Float64Mag: IEEE binary64 on the Standard Library's
      SpecFloat, order, signs, the monotonicity of rounding, and magnitudes.
    - GoTime: [time.Time] as nanoseconds since year 1, [time.Duration] in 64 bits.
    - Json: encoding/json on syntax trees, encoders, decoders, round trips.
    - Environment: the config.go of the services, libs/common/env.go,
      libs/telemetry, and the main functions with their exit status.
    - Sha256: crypto/sha256 and encoding/hex, executable, with test vectors.

    Argus (services/argus):
    - LeakyBucket: leaky_bucket.go.
    - ArgusTypes: types/*.go.  Detectors: ewma.go (module [Ewma]) and betab.go
      (module [BetaBinomial]).
    - ArgusDb: the tables of db/queries.sql.go with their keys, and the queries as
      operations that any call may see fail.  google/uuid is the class [UuidLib].
      UpdateEventOnFinding, which nothing calls, is there with what it maintains.
    - PolicyEngine: policy_engine.go (InsertFinding, ApplyFinding, openEvent,
      Sweep and the rest, transactions included).  PolicyEngineFacts holds its
      invariant and PolicyEngineProps its theorems.
    - ArgusWorker: registry.go, router.go, worker.go.  ArgusWorkerProps: theorems.
    - AlertPath: from worker.report over the policy engine to the sweep that
      closes the event.
    - ArgusRun: the running service, Router.Start, Worker.process and the sweeper
      of PolicyEngine.Start as one transition system.  ArgusLive: its fair runs.
    - AlertRecovery: what keeps a firing series able to recover, over all lives of
      the service.  Provenance: which event a stored finding is about.

    Agent and control plane:
    - Reports: libs/common/types.go, what travels between the services, as JSON.
    - AgentConfig: services/server/handler/agent_config.go and
      services/agent/config_from_proto.go, from database rows over the protobuf
      message (records [Pb*]) to tasks.
    - ControlPlane: services/server/server.go and the generated connect client
      and handler, from the agent's base URL to GetAgentConfig.  ServerRun: the
      running server, its requests and its shutdown.
    - Supervisor: reconciliation, schedules and the result buffer
      (services/agent/supervisor*.go, task.go, utils.go, data_stream.go).
    - Stamp, StampProps: libs/stamp, the wire format on octets, sender, reflector.
    - StampProbe: the STAMP executors.  ReflectorLife: the reflector executor and
      the goroutine of Serve, interleaved, with Close between them.
    - Scamper: the queue and the lines of libs/scamper-client.  ScamperProcess:
      its reader on octets, and Start and Stop of the process.
    - AgentPipeline: the scamper executors, runOnce and the dispatcher.
      DispatcherLife: its Start and Stop around the goroutine.
    - AgentRun: agent.go, the set-up of Run with its retried pull, and the running
      agent (pull ticker, tasks, dispatcher, shutdown) as one transition system.

    Processors:
    - Processors, ProcessorsProps: services/stamp-processor and ping-processor.
    - ProcessorRun: their Start loops, consumer and flusher over a channel, as one
      transition system; module [PingProcessor] is its instance for pings.
      ProcessorSpec: the ledger it promises to be.  ProcessorLive: its fair runs.
    - JetStream: the streams and consumers every service sets up, and what is
      stored in them and offered from them while services start and publish.
    - TraceLinks: services/trace-processor/extract_links.go.
    - TraceProcessor, TraceProcessorProps: its processor.go and queries.
    - TraceRun: its Start loop.  TraceLive: its fair runs.  TraceQueries: the
      queries that read traceroutes back.  CopyFrom: db/copyfrom.go of the
      processors.

    Everything together:
    - System: any number of agents, the probe stream, a processor and Argus as one
      system in which publications and deliveries repeat or get lost and every
      process may stop and start again.
    - Pipeline: the same parts while broker and processes stay up, on fair runs.

    ** How state corresponds

    [PolicyEngine.engine] is the map of policy states together with [ArgusDb.env],
    the tables with the list of statements that will fail.  A worker's [monitor]
    is its struct; router inboxes and the agent's result buffer are the lists of
    what the channels hold.  [Supervisor] keeps desired tasks, the handles of
    running ones, each under a number, and which of their goroutines have not
    returned, be it stopped or by themselves.  The scamper client keeps
    its queue and waiters, a channel being a number with what was sent on it.
    The processors' [store] and [trace_env] are tables, failing statements, the
    next identifier, and the messages settled or events published so far.
    Transactions copy the tables at Begin and restore them on Rollback.
    A running service ([agent_run], [argus], [processor], [trace_processor]) is
    its goroutines' positions, its channels and its store; an event is one turn
    of one goroutine together with everything the outside decides in it, a
    delivery is known by its place in the log of what was fetched, and a turn
    that cannot be taken gives [None].

    ** What the theorems show

    - Policy engine: reachable states are well formed; on a healthy database no
      call fails; a finding and a sweep refine two small status machines; opening
      an event is atomic; findings are stored once; and an alert runs its course,
      from the finding that opens its event to the sweep that closes it.  After
      any lives of the service every firing series is above the close threshold
      with an event, so silence always closes its alert: none is stuck.  This
      rests on the severity of findings, which the detectors guarantee.
    - End to end: in every state of the whole system each stored row is what the
      processor computes from a report that the agent of its serial made, an
      acknowledged report stays stored with its event published, and each finding
      is about a measurement computed from such a report.  On a fair run in which
      the streams deliver and no process stops, every result of an executor that
      can be encoded is made into a report; unless every attempt to publish it
      fails, or the processor cannot read it or meets a failing publication or
      statement, its rows are stored and its event is acknowledged by Argus; the liveness of each part is proved on its own and carried over by projecting
      the run.
    - Running services: in every interleaving each delivery is in exactly one
      place, what is stored is what was acknowledged, buffers are bounded, the
      agent holds the tasks of the configuration it last pulled, with a goroutine
      for each but those that ended by themselves, and a shutdown takes boundedly
      many turns besides ticks.  A processor refines a ledger of deliveries in
      which rows appear together with their acknowledgement and a refusal has a
      cause.  Under a fair scheduler every processor and Argus settle every
      delivery and the dispatcher's Stop returns; the reflector executor stops in
      every interleaving and leaves no socket open.  Whatever the order and the
      failures of the starts, a service that started is offered every message
      published for it from then on, while its consumer lasts.
    - Detectors and bucket: baselines stay finite and decode to themselves,
      findings are reported exactly under the documented conditions, edges
      exclude each other and scores move the right way, for all floats.
    - Workers and router: redelivered batches are no-ops, cursors never go back,
      dynamic type assertions never fail, samples are routed in order.
    - Pipelines: the reports of the three probe types, as the dispatcher encodes
      them, are accepted by their processor and reach the inbox of their series in
      Argus with the percentiles (or fingerprints) of the stored row.
    - Processors: a batch, and a trace, is committed and acknowledged as one or
      refused as one; a committed trace reads back through the queries; no
      statistic indexes out of range; links join neighbouring hops, one for each
      pair of addresses, and the fingerprint does not depend on map order.
    - Agent: reconciliation converges to the desired tasks and is idempotent;
      schedules; a configuration arrives as stored, or is refused, exactly when;
      the agent's calls reach the control plane's handler.
    - STAMP and scamper: codecs round trip, an exchange completes, delays are
      exact to a nanosecond; a measurement is delivered once, to its command; the
      reader frames every payload and stops on every input, by a panic exactly
      when a DATA line announces a length that cannot be allocated.
    - Some theorems show what the code does where that is surprising: a sweep
      that closes a live event, a trace whose repeated address is refused, a
      server that ends without answering the requests in flight.

    ** Bounds and fuel

    Integers wrap at their width.  Loops are structural (over lists, or over a
    counter that the source's bound fixes).  Two take fuel: SHA-256 bounds its
    number of blocks by the length of the padded message, and the reader of the
    scamper client takes one more than the octets of its input, which
    [StartRead_fuel] and [reader_terminates] show to be enough.  Float
    operations are not fused, as on amd64, and out-of-range conversions of floats
    yield the smallest int64, as there.  Statistics assume slices of at most 2^53
    elements.

    ** What is not modelled

    The insides of Postgres, NATS, net/http and the operating system: the outcome
    of connecting, listening, publishing and running a process is an argument,
    and statements act on tables with their keys.  avast/retry-go and the NATS
    broker with its subject matching are classes ([RetryLib], [Broker],
    [Messages], [Subjects]) whose laws state documented behaviour and which have instances.
    Log messages and attributes, the protobuf wire format (messages are records),
    the map form of traceroute results in libs/scamper-client/types.go and the
    tracelb payload, which nothing uses, and the frontend are left out.  The
    processors of [System] are those of pings and STAMP, which share their run
    loop; the trace processor has its own ([TraceRun]).  math.Lgamma, Exp and
    Log10, google/uuid, net/netip, the protobuf well-known types, sort.Slice's
    order of equal elements, the order of rows that ORDER BY leaves open, NOW()
    minus an interval and the ASN client are parameters, with what is used of them
    as class laws or hypotheses that are witnessed.

    A statement that returns an error has not taken effect; a commit that did and
    whose answer was lost is not modelled.  Errors of statements come from the
    environment for any reason.  The keys and foreign keys of Argus, the
    primary key of as_details and the foreign keys of trace_measurements are
    checked on the tables; that of stamp_measurements and ping_measurements to
    agent_config is among the reasons of an environment error.  The tables of the
    processors keep rows as they are handed to the driver, and the queries that
    read them cut instants to microseconds; those of Argus keep microseconds.
    Messages do not age out of a stream.  A turn of an Argus worker on a batch is
    one step, so no sweep falls between the insertion of a finding and its
    application.  A base URL of the agent with octets outside the plain ones, or
    of https, leads to a request whose fate is an argument ([elsewhere]).

    Liveness is conditional where the code is: that a stream delivers what it
    stores is a hypothesis of [Pipeline] on its runs ([delivering]), fairness one
    on the Go scheduler, and both are witnessed by a concrete run.  [System] and
    [Pipeline] have one processor and one Argus; nothing in them shares state
    with a second instance but the database and the streams. *)

From stdpp Require Export base list gmap strings sorting.
From Stdlib Require Export ZArith Lia.
From Stdlib Require Import Bool.

(** ** Scopes and hint databases of the development *)

Declare Scope go_scope.
Delimit Scope go_scope with go.
Create HintDb cepheus.
Create Rewrite HintDb cepheus_rw.

(** ** Machine integers

    A Go integer of [w] bits is a [Z] in its range; conversions and arithmetic
    wrap, as the language specification says. *)

Module GoInt.

Definition wrapU (w : Z) (z : Z) : Z := (z mod 2 ^ w)%Z.

Definition wrapS (w : Z) (z : Z) : Z :=
  ((z + 2 ^ (w - 1)) mod 2 ^ w - 2 ^ (w - 1))%Z.

Definition uint8 : Z → Z := wrapU 8.
Definition uint16 : Z → Z := wrapU 16.
Definition uint32 : Z → Z := wrapU 32.
Definition uint64 : Z → Z := wrapU 64.
Definition int32 : Z → Z := wrapS 32.
Definition int64 : Z → Z := wrapS 64.

Definition inU (w z : Z) : Prop := (0 ≤ z < 2 ^ w)%Z.
Definition inS (w z : Z) : Prop := (- 2 ^ (w - 1) ≤ z < 2 ^ (w - 1))%Z.

Definition in_int64 (z : Z) : bool :=
  (Z.leb (- 9223372036854775808) z && Z.ltb z 9223372036854775808).

Definition int64_ok (z : Z) : Prop := (-9223372036854775808 ≤ z ≤ 9223372036854775807)%Z.

Lemma wrapU_range w z : (0 ≤ w)%Z → inU w (wrapU w z).
Proof. intros. apply Z.mod_pos_bound. by apply Z.pow_pos_nonneg. Qed.

Lemma wrapU_id w z : inU w z → wrapU w z = z.
Proof. apply Z.mod_small. Qed.

Lemma wrapS_range w z : (0 < w)%Z → inS w (wrapS w z).
Proof.
  intros Hw. unfold inS, wrapS.
  pose proof (Z.mod_pos_bound (z + 2 ^ (w - 1)) (2 ^ w)) as H.
  assert (2 ^ w = 2 * 2 ^ (w - 1))%Z as E.
  { rewrite <- Z.pow_succ_r by lia. f_equal. lia. }
  assert (0 < 2 ^ (w - 1))%Z by (apply Z.pow_pos_nonneg; lia). lia.
Qed.

Lemma wrapS_id w z : (0 < w)%Z → inS w z → wrapS w z = z.
Proof.
  intros Hw [H1 H2]. unfold wrapS.
  assert (2 ^ w = 2 * 2 ^ (w - 1))%Z as E.
  { rewrite <- Z.pow_succ_r by lia. f_equal. lia. }
  rewrite Z.mod_small; lia.
Qed.

Lemma int32_id z : (- 2147483648 ≤ z < 2147483648)%Z → int32 z = z.
Proof. intros. apply wrapS_id; [lia|]. unfold inS. simpl. lia. Qed.

Lemma int64_id z :
  (- 9223372036854775808 ≤ z < 9223372036854775808)%Z → int64 z = z.
Proof. intros. apply wrapS_id; [lia|]. unfold inS. simpl. lia. Qed.

Lemma int64_range z :
  (- 9223372036854775808 ≤ int64 z < 9223372036854775808)%Z.
Proof. apply (wrapS_range 64 z). lia. Qed.

End GoInt.
Export GoInt.

#[export] Hint Resolve wrapU_range wrapS_range int64_range : cepheus.
#[export] Hint Rewrite int32_id int64_id using lia : cepheus_rw.

(** ** Results of Go calls

    A call returns a value, returns an error, or panics.  [go S A] threads a
    state of type [S] that is kept on all three outcomes: what a function
    mutated before an early [return err] (or a panic) stays mutated. *)

Inductive res (A : Type) : Type :=
| ROk (a : A)
| RErr (e : string)
| RPanic (e : string).
Arguments ROk {A} a.
Arguments RErr {A} e.
Arguments RPanic {A} e.

Definition res_bind {A B} (x : res A) (f : A → res B) : res B :=
  match x with ROk a => f a | RErr e => RErr e | RPanic e => RPanic e end.

Definition is_ok {A} (x : res A) : bool :=
  match x with ROk _ => true | _ => false end.

Definition is_panic {A} (x : res A) : bool :=
  match x with RPanic _ => true | _ => false end.

Notation "'let?' x ':=' c 'in' k" := (res_bind c (fun x => k))
  (at level 10, x pattern, c at level 100, k at level 200) : go_scope.

Definition go (S A : Type) : Type := S → S * res A.

Definition go_ret {S A} (a : A) : go S A := fun s => (s, ROk a).
Definition go_err {S A} (e : string) : go S A := fun s => (s, RErr e).
Definition go_panic {S A} (e : string) : go S A := fun s => (s, RPanic e).

Definition go_bind {S A B} (c : go S A) (k : A → go S B) : go S B :=
  fun s =>
    match c s with
    | (s', ROk a) => k a s'
    | (s', RErr e) => (s', RErr e)
    | (s', RPanic e) => (s', RPanic e)
    end.

(** [x, err := c] where the caller looks at [err] itself. *)
Definition go_try {S A} (c : go S A) : go S (string + A) :=
  fun s =>
    match c s with
    | (s', ROk a) => (s', ROk (inr a))
    | (s', RErr e) => (s', ROk (inl e))
    | (s', RPanic e) => (s', RPanic e)
    end.

Definition go_get {S} : go S S := fun s => (s, ROk s).
Definition go_modify {S} (f : S → S) : go S unit := fun s => (f s, ROk tt).

Notation "'let*' x ':=' c 'in' k" := (go_bind c (fun x => k))
  (at level 10, x pattern, c at level 100, k at level 200) : go_scope.
Notation "c ;;; k" := (go_bind c (fun _ => k))
  (at level 100, k at level 200, right associativity) : go_scope.

(** A [for _, x := range l] loop whose body may return early with an error. *)
Fixpoint go_each {S A} (f : A → go S unit) (l : list A) : go S unit :=
  match l with
  | [] => go_ret tt
  | x :: l' => go_bind (f x) (fun _ => go_each f l')
  end.

(** [c] never leaves the states described by [I], whatever its outcome. *)
Definition go_inv {S A} (I : S → Prop) (c : go S A) : Prop :=
  ∀ s, I s → I (fst (c s)).

(** [triple I P c Q]: from a state with [I] and [P], [c] ends in a state with
    [I] on every outcome, and with [Q] of its value when it returns one. *)
Definition triple {S A} (I P : S → Prop) (c : go S A) (Q : A → S → Prop) : Prop :=
  ∀ s, I s → P s →
    I (fst (c s)) ∧ match snd (c s) with ROk a => Q a (fst (c s)) | _ => True end.

Section GoLemmas.
Context {S : Type}.

Lemma go_inv_ret {A} (I : S → Prop) (a : A) : go_inv I (go_ret a).
Proof. by intros s ?. Qed.

Lemma go_inv_err {A} (I : S → Prop) e : go_inv I (go_err (A:=A) e).
Proof. by intros s ?. Qed.

Lemma go_inv_panic {A} (I : S → Prop) e : go_inv I (go_panic (A:=A) e).
Proof. by intros s ?. Qed.

Lemma go_inv_bind {A B} (I : S → Prop) (c : go S A) (k : A → go S B) :
  go_inv I c → (∀ a, go_inv I (k a)) → go_inv I (go_bind c k).
Proof.
  intros Hc Hk s Hs. unfold go_bind. specialize (Hc s Hs).
  destruct (c s) as [s' [a|e|e]]; simpl in *; auto. by apply Hk.
Qed.

Lemma go_inv_try {A} (I : S → Prop) (c : go S A) :
  go_inv I c → go_inv I (go_try c).
Proof.
  intros Hc s Hs. unfold go_try. specialize (Hc s Hs).
  by destruct (c s) as [s' [a|e|e]].
Qed.

Lemma go_inv_get (I : S → Prop) : go_inv I go_get.
Proof. by intros s ?. Qed.

Lemma go_inv_modify (I : S → Prop) f :
  (∀ s, I s → I (f s)) → go_inv I (go_modify f).
Proof. intros Hf s Hs. by apply Hf. Qed.

Lemma go_inv_each {A} (I : S → Prop) (f : A → go S unit) l :
  (∀ x, x ∈ l → go_inv I (f x)) → go_inv I (go_each f l).
Proof.
  induction l as [|x l IH]; intros Hf; simpl.
  - apply go_inv_ret.
  - apply go_inv_bind; [apply Hf; set_solver|]. intros _. apply IH. set_solver.
Qed.

Lemma triple_bind {A B} (I P : S → Prop) (c : go S A) (k : A → go S B) Q R :
  triple I P c Q → (∀ a, triple I (Q a) (k a) R) → triple I P (go_bind c k) R.
Proof.
  intros Hc Hk s HI HP. unfold go_bind. destruct (Hc s HI HP) as [H1 H2].
  destruct (c s) as [s' [a|e|e]]; simpl in *; auto. by apply Hk.
Qed.

Lemma triple_ret {A} (I P : S → Prop) (a : A) (Q : A → S → Prop) :
  (∀ s, I s → P s → Q a s) → triple I P (go_ret a) Q.
Proof. intros HQ s HI HP. simpl. auto. Qed.

Lemma triple_get (I P : S → Prop) : triple I P go_get (λ a s, a = s ∧ P s).
Proof. intros s HI HP. simpl. auto. Qed.

Lemma triple_err {A} (I P : S → Prop) e (Q : A → S → Prop) : triple I P (go_err e) Q.
Proof. intros s HI HP. simpl. auto. Qed.

Lemma triple_panic {A} (I P : S → Prop) e (Q : A → S → Prop) : triple I P (go_panic e) Q.
Proof. intros s HI HP. simpl. auto. Qed.

Lemma triple_try {A} (I P : S → Prop) (c : go S A) (Q : A → S → Prop) :
  triple I P c Q →
  triple I P (go_try c) (λ r s, match r with inr a => Q a s | inl _ => True end).
Proof.
  intros Hc s HI HP. unfold go_try. destruct (Hc s HI HP) as [H1 H2].
  by destruct (c s) as [s' [a|e|e]].
Qed.

Lemma triple_weaken {A} (I P P' : S → Prop) (c : go S A) (Q Q' : A → S → Prop) :
  triple I P' c Q' → (∀ s, I s → P s → P' s) → (∀ a s, I s → Q' a s → Q a s) →
  triple I P c Q.
Proof.
  intros Hc HP HQ s HI Hs. destruct (Hc s HI (HP s HI Hs)) as [H1 H2].
  split; [done|]. destruct (snd (c s)); auto.
Qed.

Lemma triple_inv {A} (I P : S → Prop) (c : go S A) : go_inv I c → triple I P c (λ _ _, True).
Proof. intros Hc s HI _. split; [by apply Hc|]. by destruct (snd (c s)). Qed.

Lemma inv_triple {A} (I : S → Prop) (c : go S A) Q : triple I (λ _, True) c Q → go_inv I c.
Proof. intros Hc s HI. by apply Hc. Qed.

Lemma go_bind_ok {A B} (c : go S A) (k : A → go S B) s s' a :
  c s = (s', ROk a) → go_bind c k s = k a s'.
Proof. intros H. unfold go_bind. by rewrite H. Qed.

Lemma go_bind_inv {A B} (c : go S A) (k : A → go S B) s s' b :
  go_bind c k s = (s', ROk b) → ∃ s1 a, c s = (s1, ROk a) ∧ k a s1 = (s', ROk b).
Proof. unfold go_bind. destruct (c s) as [s1 [a|e|e]]; [eauto|done..]. Qed.

Lemma go_bind_err {A B} (c : go S A) (k : A → go S B) s s' e :
  c s = (s', RErr e) → go_bind c k s = (s', RErr e).
Proof. intros H. unfold go_bind. by rewrite H. Qed.

Lemma go_bind_panic {A B} (c : go S A) (k : A → go S B) s s' e :
  c s = (s', RPanic e) → go_bind c k s = (s', RPanic e).
Proof. intros H. unfold go_bind. by rewrite H. Qed.

End GoLemmas.

#[export] Hint Resolve go_inv_ret go_inv_err go_inv_panic go_inv_bind
  go_inv_try go_inv_get go_inv_each : cepheus.

(** Concatenation of strings. *)
Lemma str_app_nil_r (s : string) : s +:+ "" = s.
Proof. induction s as [|c s IH]; [done|]. change (String c (s +:+ "") = String c s). by rewrite IH. Qed.

Lemma str_app_assoc (a b c : string) : (a +:+ b) +:+ c = a +:+ (b +:+ c).
Proof.
  induction a as [|x a IH]; [done|].
  change (String x ((a +:+ b) +:+ c) = String x (a +:+ (b +:+ c))). by rewrite IH.
Qed.

Lemma str_length_app (a b : string) : String.length (a +:+ b) = (String.length a + String.length b)%nat.
Proof.
  induction a as [|x a IH]; [done|].
  change (S (String.length (a +:+ b)) = S (String.length a + String.length b)). by rewrite IH.
Qed.

(** Run the first call of a bind whose outcome is known. *)
Ltac go_step E := rewrite (go_bind_ok _ _ _ _ _ E).

(** Case analysis on the scrutinee of a [match] in the goal or context. *)
Ltac case_goal :=
  match goal with
  | |- context [match ?x with _ => _ end] => destruct x eqn:?
  end.
