(* ===== verification/Fairness.v ===== *)
(** * Fair runs

    Infinite runs of a system given by a partial step function, and the rule
    by which a weakly fair scheduler makes progress.  A run is a sequence of
    states with the event taken at each instant ([None] when the system is idle
    or something else runs).  A class of events is treated fairly when again
    and again one of them is taken or none is possible. *)

From S2P Require Import Prelude.

Section Runs.
Context {S E : Type} (step : E → S → option S).

Record execution := {
  ex_state : nat → S;
  ex_event : nat → option E;
  ex_step n : match ex_event n with
              | Some e => step e (ex_state n) = Some (ex_state (Datatypes.S n))
              | None => ex_state (Datatypes.S n) = ex_state n
              end;
}.

Definition fair (A : E → bool) (x : execution) : Prop :=
  ∀ n, ∃ k, n ≤ k ∧
    ((∃ e, ex_event x k = Some e ∧ A e = true) ∨ ∀ e, A e = true → step e (ex_state x k) = None).

(** What every step preserves holds along a run. *)
Lemma execution_inv (I : S → Prop) x :
  (∀ e s s', step e s = Some s' → I s → I s') → I (ex_state x 0) → ∀ n, I (ex_state x n).
Proof.
  intros HI H0 n. induction n as [|n IH]; [done|]. pose proof (ex_step x n) as Hs.
  destruct (ex_event x n); [by eapply HI|by rewrite Hs].
Qed.

(** What every step lets grow has grown. *)
Lemma execution_grows (R : S → S → Prop) x : PreOrder R → (∀ e s s', step e s = Some s' → R s s') →
  ∀ n m, n ≤ m → R (ex_state x n) (ex_state x m).
Proof.
  intros HR Hst n m. induction 1 as [|m Hm IH]; [done|]. etrans; [exact IH|].
  pose proof (ex_step x m) as Hx. destruct (ex_event x m); [by eapply Hst|by rewrite Hx].
Qed.

(** [P] is kept until [Q], a fair class of events leads from [P] to [Q], and in
    [P] one of them is possible: [Q] is reached. *)
Lemma fair_leads_to (A : E → bool) (P Q : S → Prop) x :
  fair A x →
  (∀ n, P (ex_state x n) → P (ex_state x (Datatypes.S n)) ∨ Q (ex_state x (Datatypes.S n))) →
  (∀ n e, P (ex_state x n) → ex_event x n = Some e → A e = true → Q (ex_state x (Datatypes.S n))) →
  (∀ n, P (ex_state x n) → ∃ e, A e = true ∧ is_Some (step e (ex_state x n))) →
  ∀ n, P (ex_state x n) → ∃ m, n ≤ m ∧ Q (ex_state x m).
Proof.
  intros Hf Hkeep Hact Hen n HP. destruct (Hf n) as (k & Hk & Hor).
  assert (∀ d, (∃ m, n ≤ m ∧ Q (ex_state x m)) ∨ P (ex_state x (n + d))) as Hd.
  { intros d. induction d as [|d [IH|IH]]; [right; by rewrite Nat.add_0_r|by left|].
    rewrite Nat.add_succ_r. destruct (Hkeep _ IH) as [?|HQ]; [by right|].
    left. exists (Datatypes.S (n + d)). split; [lia|done]. }
  destruct (Hd (k - n)) as [?|HPk]; [done|]. replace (n + (k - n)) with k in HPk by lia.
  destruct Hor as [(e & He & HA)|Hnone].
  - exists (Datatypes.S k). split; [lia|]. by eapply Hact.
  - destruct (Hen k HPk) as (e & HA & [s' Hs]). by rewrite (Hnone e HA) in Hs.
Qed.

(** Progress by rank: ranks are ordered by a well-founded relation, each has a
    fair class of events that help it, and from every rank a step leads to the
    goal, to a lower rank, or, when the event does not help, nowhere. *)
Lemma fair_rank_wf {R : Type} (lt : R → R → Prop) (A : R → E → bool) (P : R → S → Prop) (Q : S → Prop) x :
  well_founded lt → (∀ r, fair (A r) x) →
  (∀ n r, P r (ex_state x n) →
    Q (ex_state x (Datatypes.S n)) ∨ (∃ r', P r' (ex_state x (Datatypes.S n)) ∧ lt r' r) ∨
    (P r (ex_state x (Datatypes.S n)) ∧ ∀ e, ex_event x n = Some e → A r e = false)) →
  (∀ n r, P r (ex_state x n) → ∃ e, A r e = true ∧ is_Some (step e (ex_state x n))) →
  ∀ n r, P r (ex_state x n) → ∃ m, n ≤ m ∧ Q (ex_state x m).
Proof.
  intros Hwf Hf Hst Hen n r. revert n. induction (Hwf r) as [r _ IH]. intros n HP.
  set (L s := Q s ∨ ∃ r', lt r' r ∧ P r' s).
  destruct (fair_leads_to (A r) (P r) L x (Hf r)) with (n := n) as (m & Hm & [HQ|(r' & Hr & HP')]).
  - intros k Hk. destruct (Hst k r Hk) as [?|[(r' & HP' & Hlt)|[? _]]]; [right; by left| |by left].
    right; right. by exists r'.
  - intros k e Hk He HA. destruct (Hst k r Hk) as [?|[(r' & HP' & Hlt)|[_ Hno]]]; [by left|right; by exists r'|].
    by rewrite (Hno e He) in HA.
  - intros k Hk. by apply Hen.
  - done.
  - by exists m.
  - destruct (IH r' Hr m HP') as (m' & Hm' & HQ). exists m'. split; [lia|done].
Qed.

(** The same for ranks that are numbers. *)
Lemma fair_rank (A : nat → E → bool) (P : nat → S → Prop) (Q : S → Prop) x :
  (∀ r, fair (A r) x) →
  (∀ n r, P r (ex_state x n) →
    Q (ex_state x (Datatypes.S n)) ∨ ∃ r', P r' (ex_state x (Datatypes.S n)) ∧ r' ≤ r ∧
      ∀ e, ex_event x n = Some e → A r e = true → r' < r) →
  (∀ n r, P r (ex_state x n) → ∃ e, A r e = true ∧ is_Some (step e (ex_state x n))) →
  ∀ n r, P r (ex_state x n) → ∃ m, n ≤ m ∧ Q (ex_state x m).
Proof.
  intros Hf Hst. apply (fair_rank_wf Nat.lt A P Q x lt_wf Hf). intros n r HP.
  destruct (Hst n r HP) as [?|(r' & HP' & Hle & Hlt)]; [by left|right].
  destruct (decide (r' < r)) as [?|Hge]; [left; eauto|right]. assert (r' = r) as -> by lia. split; [done|].
  intros e He. destruct (A r e) eqn:Ea; [|done]. by specialize (Hlt e He Ea).
Qed.

End Runs.

(** ** Projections

    A run of a composite system shows a run of a component: its state and the
    events that are its own. *)

Section Project.
Context {S E S' E' : Type} (step : E → S → option S) (step' : E' → S' → option S').
Context (view : S → S') (own : E → S → option E').
Context (view_step : ∀ e s s', step e s = Some s' →
  match own e s with Some e' => step' e' (view s) = Some (view s') | None => view s' = view s end).

Definition own_event (x : execution step) (n : nat) : option E' :=
  ex_event _ x n ≫= λ e, own e (ex_state _ x n).

Lemma project_step (x : execution step) n :
  match own_event x n with
  | Some e' => step' e' (view (ex_state _ x n)) = Some (view (ex_state _ x (Datatypes.S n)))
  | None => view (ex_state _ x (Datatypes.S n)) = view (ex_state _ x n)
  end.
Proof.
  pose proof (ex_step _ x n) as Hx. unfold own_event. destruct (ex_event _ x n) as [e|]; simpl.
  - by apply view_step.
  - by rewrite Hx.
Qed.

Definition project (x : execution step) : execution step' :=
  {| ex_state := λ n, view (ex_state _ x n); ex_event := own_event x; ex_step := project_step x |}.

(** A class of the system's events that are the component's, and possible when
    those are. *)
Lemma project_fair (A : E → bool) (A' : E' → bool) (x : execution step) :
  (∀ e s, A e = true → is_Some (step e s) → ∃ e', own e s = Some e' ∧ A' e' = true) →
  (∀ e' s, A' e' = true → is_Some (step' e' (view s)) → ∃ e, A e = true ∧ is_Some (step e s)) →
  fair step A x → fair step' A' (project x).
Proof.
  intros Hown Hen Hf n. destruct (Hf n) as (k & Hk & Hor). exists k. split; [done|].
  destruct Hor as [(e & He & HA)|Hnone].
  - left. pose proof (ex_step _ x k) as Hx. rewrite He in Hx.
    destruct (Hown e (ex_state _ x k) HA ltac:(by rewrite Hx)) as (e' & Ho & HA'). exists e'. split; [|done].
    simpl. unfold own_event. by rewrite He.
  - right. intros e' HA. simpl. destruct (step' e' (view (ex_state _ x k))) eqn:Es; [|done].
    destruct (Hen e' (ex_state _ x k) HA ltac:(by rewrite Es)) as (e & HA' & [s' Hs]).
    by rewrite (Hnone e HA') in Hs.
Qed.

End Project.

(** ** Scripts

    A finite list of events as a run: once they are taken it is idle, or takes
    for ever an event that changes nothing. *)

Section Script.
Context {S E : Type} (step : E → S → option S) (es : list E) (s : S) (loop : option E).

Fixpoint script_state_from (es : list E) (s : S) (n : nat) : S :=
  match n, es with
  | Datatypes.S n', e :: es' => script_state_from es' (default s (step e s)) n'
  | _, _ => s
  end.

Fixpoint script_check_from (es : list E) (s : S) : bool :=
  match es with
  | [] => true
  | e :: es' => match step e s with Some s' => script_check_from es' s' | None => false end
  end.

Definition script_state : nat → S := script_state_from es s.
Definition script_final : S := script_state (length es).

Definition script_event (n : nat) : option E := match es !! n with Some e => Some e | None => loop end.

Record script_ok : Prop := {
  sc_check : script_check_from es s = true;
  sc_loop e : loop = Some e → step e script_final = Some script_final;
}.

Lemma script_end n : length es ≤ n → script_state n = script_final.
Proof.
  unfold script_final, script_state. generalize s. revert n. induction es as [|e es' IH]; intros n s' Hn; [by destruct n|].
  destruct n as [|n]; simpl in *; [lia|]. apply IH. lia.
Qed.

Lemma script_taken n e :
  script_ok → es !! n = Some e → step e (script_state n) = Some (script_state (Datatypes.S n)).
Proof.
  intros [Hc _]. unfold script_state. revert Hc. generalize s. revert n.
  induction es as [|e' es' IH]; intros n s' Hc; [done|]. simpl in Hc. destruct (step e' s') as [s2|] eqn:Es; [|done].
  destruct n as [|n]; simpl; rewrite Es; simpl; [intros [= <-]; rewrite Es; by destruct es'|by apply IH].
Qed.

Lemma script_step n :
  script_ok →
  match script_event n with
  | Some e => step e (script_state n) = Some (script_state (Datatypes.S n))
  | None => script_state (Datatypes.S n) = script_state n
  end.
Proof.
  intros Hok. unfold script_event. destruct (es !! n) as [e|] eqn:En; [by apply script_taken|].
  apply lookup_ge_None_1 in En. rewrite (script_end n), (script_end (Datatypes.S n)) by lia.
  destruct loop as [e|] eqn:El; [|done]. by apply (sc_loop Hok).
Qed.

Definition script_run (Hok : script_ok) : execution step :=
  {| ex_state := script_state; ex_event := script_event; ex_step n := script_step n Hok |}.

(** Every class of events that is not possible at the end, or in which the loop
    is, is treated fairly. *)
Lemma script_fair (A : E → bool) Hok :
  (∀ e, A e = true → step e script_final = None) ∨ (∃ e, loop = Some e ∧ A e = true) → fair step A (script_run Hok).
Proof.
  intros HA n. exists (n + length es). split; [lia|]. simpl. destruct HA as [HA|(e & He & HA)].
  - right. intros e He. rewrite script_end by lia. auto.
  - left. exists e. split; [|done]. unfold script_event. rewrite lookup_ge_None_2 by lia. done.
Qed.

(** What holds at each of its instants holds always. *)
Lemma script_always (I : S → Prop) : (∀ n, n ≤ length es → I (script_state n)) → ∀ n, I (script_state n).
Proof.
  intros HI n. destruct (decide (n ≤ length es)); [by apply HI|]. rewrite script_end by lia. by apply HI.
Qed.

End Script.
