(* ===== verification/Environment.v ===== *)
(** * Starting the services: environment, command lines, telemetry

    libs/common/env.go, the config.go and cmd/main.go of the services, and
    libs/telemetry.  What the operating system, YAML, OpenTelemetry and the
    service itself return are arguments.  [RErr] from a GetConfig is the
    process exiting with status 1 after logging the message. *)

From S2P Require Import Prelude.
From stdpp Require Import pretty.
From Stdlib Require Import Ascii.

Local Open Scope Z_scope.
Local Open Scope go_scope.

(** ** Environment variables *)

(** [os.Getenv]: the empty string for a variable that is not set. *)
Definition environ : Type := string → string.

Definition TryGetFromEnv (env : environ) (k : string) : res string :=
  let val := env k in
  if String.eqb val "" then RErr ("missing environment variable: " +:+ k) else ROk val.

Record ProcessorConfig := {
  pc_OtelSink : string;
  pc_OtelEndpoint : string;
  pc_NatsListenSubject : string;
  pc_NatsConnectURL : string;
  pc_DatabaseURL : string;
}.

Definition processor_GetConfig (env : environ) : res ProcessorConfig :=
  let? otelSink := TryGetFromEnv env "OTEL_SINK" in
  let? otelEndpoint := TryGetFromEnv env "OTEL_ENDPOINT" in
  let? natsListenSubject := TryGetFromEnv env "NATS_LISTEN_SUBJECT" in
  let? natsConnectUrl := TryGetFromEnv env "NATS_LISTEN_URL" in
  let? databaseUrl := TryGetFromEnv env "CEPHEUS_DB_URL" in
  ROk {| pc_OtelSink := otelSink; pc_OtelEndpoint := otelEndpoint;
         pc_NatsListenSubject := natsListenSubject; pc_NatsConnectURL := natsConnectUrl;
         pc_DatabaseURL := databaseUrl |}.

(** The three processors have the same text here. *)
Definition Stamp_GetConfig : environ → res ProcessorConfig := processor_GetConfig.
Definition Ping_GetConfig : environ → res ProcessorConfig := processor_GetConfig.
Definition Trace_GetConfig : environ → res ProcessorConfig := processor_GetConfig.

(** *** strconv.Atoi on 64 bits *)

Definition digit (c : ascii) : option Z :=
  let n := Z.of_nat (nat_of_ascii c) in
  if Z.leb 48 n && Z.leb n 57 then Some (n - 48) else None.

Fixpoint digits (acc : Z) (s : string) : option Z :=
  match s with
  | EmptyString => Some acc
  | String c s' => d ← digit c; digits (acc * 10 + d) s'
  end.

Definition unsigned (s : string) : option Z :=
  match s with EmptyString => None | _ => digits 0 s end.

Definition Atoi (s : string) : res Z :=
  let value :=
    match s with
    | String "-" s' => Z.opp <$> unsigned s'
    | String "+" s' => unsigned s'
    | _ => unsigned s
    end in
  match value with
  | None => RErr "invalid syntax"
  | Some z => if in_int64 z then ROk z else RErr "value out of range"
  end.

Record DetectorConfig := {
  dc_OtelSink : string;
  dc_OtelEndpoint : string;
  dc_DatabaseURL : string;
  dc_NatsConnectURL : string;
  dc_DetectionIntervalSeconds : Z;
}.

Definition Argus_GetConfig (env : environ) : res DetectorConfig :=
  let? otelSink := TryGetFromEnv env "OTEL_SINK" in
  let? otelEndpoint := TryGetFromEnv env "OTEL_ENDPOINT" in
  let? databaseUrl := TryGetFromEnv env "CEPHEUS_DB_URL" in
  let? natsConnectUrl := TryGetFromEnv env "NATS_CONNECT_URL" in
  let? intervalStr := TryGetFromEnv env "DETECTION_INTERVAL_SECONDS" in
  let? interval := Atoi intervalStr in
  ROk {| dc_OtelSink := otelSink; dc_OtelEndpoint := otelEndpoint; dc_DatabaseURL := databaseUrl;
         dc_NatsConnectURL := natsConnectUrl; dc_DetectionIntervalSeconds := interval |}.

(** ** Telemetry *)

(** Log levels of log/slog. *)
Definition LevelDebug : Z := -4.
Definition LevelInfo : Z := 0.

(** Handlers, as SetupLogging nests them. *)
Inductive slog_handler :=
| JSONHandler (dest : string) (level : Z) (attrs : list (string * string))
| OtelHandler (service : string)
| LevelFilter (level : Z) (inner : slog_handler)
| Fanout (first second : slog_handler).

(** What a setup hands back to be called at the end. *)
Inductive shutdown := NoShutdown | ProviderShutdown.

(** The state is the default handler of slog.  [exporter], [resource] and
    [file] are what creating them returns. *)
Definition SetupLogging (sink endpoint serviceName instanceID : string)
    (exporter resource file : res unit) : go slog_handler shutdown :=
  if negb (String.eqb sink "otel") then
    go_modify (λ _, JSONHandler "stderr" LevelInfo [("service.instance.id", instanceID)]) ;;;
    go_ret NoShutdown
  else
    match exporter, resource with
    | ROk _, ROk _ =>
        let otelHandler := OtelHandler serviceName in
        go_modify (λ _, LevelFilter LevelInfo otelHandler) ;;;
        match file with
        | ROk _ =>
            go_modify (λ _, Fanout otelHandler (JSONHandler "/tmp/agent.log" LevelInfo [])) ;;;
            go_ret ProviderShutdown
        | RErr e => go_err e
        | RPanic e => go_panic e
        end
    | RErr e, _ | ROk _, RErr e => go_err e
    | RPanic e, _ | ROk _, RPanic e => go_panic e
    end.

(** The state is the global tracer provider, [None] being the initial no-op
    provider and [Some service] a batching one. *)
Definition SetupTracing (sink endpoint serviceName instanceID : string) (exporter resource : res unit)
    : go (option string) shutdown :=
  if negb (String.eqb sink "otel") then go_ret NoShutdown
  else
    match exporter, resource with
    | ROk _, ROk _ => go_modify (λ _, Some serviceName) ;;; go_ret ProviderShutdown
    | RErr e, _ | ROk _, RErr e => go_err e
    | RPanic e, _ | ROk _, RPanic e => go_panic e
    end.

(** The closure of [SpanWithErr] that ends a span: the error it records.  The
    outer option is the pointer, the inner one the error it points to. *)
Definition span_end (err : option (option string)) : option string :=
  match err with Some (Some e) => Some e | _ => None end.

(** [Enabled] of a handler; [otel] and [fanout] are the libraries'. *)
Fixpoint Enabled (otel : Z → bool) (fanout : bool → bool → bool) (h : slog_handler) (l : Z) : bool :=
  match h with
  | JSONHandler _ level _ => Z.leb level l
  | OtelHandler _ => otel l
  | LevelFilter level _ => Z.leb level l
  | Fanout a b => fanout (Enabled otel fanout a l) (Enabled otel fanout b l)
  end.

(** ** Processes *)

(** How a process ends: its status, and the shutdown functions it called;
    [os.Exit] skips what was deferred. *)
Inductive process_end :=
| Exited (status : Z) (called : list string)
| Panicked (why : string).

(** What creating exporters, resources and the log file returns. *)
Record telemetry_io := {
  io_log_exporter : res unit; io_log_resource : res unit; io_log_file : res unit;
  io_trace_exporter : res unit; io_trace_resource : res unit;
}.

(** The two setups every main makes in turn, with what they leave behind. *)
Definition setup_telemetry (sink endpoint service instance : string) (io : telemetry_io)
    (h : slog_handler) : slog_handler * option string * res (shutdown * shutdown) :=
  let '(h', logging) := SetupLogging sink endpoint service instance (io_log_exporter io)
                          (io_log_resource io) (io_log_file io) h in
  match logging with
  | RErr e => (h', None, RErr e)
  | RPanic e => (h', None, RPanic e)
  | ROk l =>
      let '(t, tracing) := SetupTracing sink endpoint service instance (io_trace_exporter io)
                             (io_trace_resource io) None in
      (h', t, let? tr := tracing in ROk (l, tr))
  end.

(** main of the processors and of Argus, from the configuration on; [started]
    is what Start returns.  [exits] tells whether main exits with 1 when Start
    fails. *)
Definition service_main {C} (exits : bool) (name instance : string) (config : res C)
    (telemetry : C → string * string) (io : telemetry_io) (h : slog_handler) (started : C → res unit)
    : process_end :=
  match config with
  | RErr _ => Exited 1 []
  | RPanic e => Panicked e
  | ROk c =>
      match snd (setup_telemetry (fst (telemetry c)) (snd (telemetry c)) name instance io h) with
      | RErr _ => Exited 1 []
      | RPanic e => Panicked e
      | ROk _ =>
          match started c with
          | ROk _ => Exited 0 ["tracing"; "logging"]
          | RErr _ => if exits then Exited 1 [] else Exited 0 ["tracing"; "logging"]
          | RPanic e => Panicked e
          end
      end
  end.

Definition processor_telemetry (c : ProcessorConfig) : string * string := (pc_OtelSink c, pc_OtelEndpoint c).

Definition stamp_main (env : environ) (instance : string) :=
  service_main false "stamp-processor" instance (Stamp_GetConfig env) processor_telemetry.
Definition ping_main (env : environ) (instance : string) :=
  service_main true "ping-processor" instance (Ping_GetConfig env) processor_telemetry.
Definition trace_main (env : environ) (instance : string) :=
  service_main true "trace-processor" instance (Trace_GetConfig env) processor_telemetry.
Definition argus_main (env : environ) (instance : string) :=
  service_main true "argus" instance (Argus_GetConfig env) (λ c, (dc_OtelSink c, dc_OtelEndpoint c)).

(** *** path.Join *)

(** The components of a path. *)
Fixpoint components (cur : string) (s : string) : list string :=
  match s with
  | EmptyString => [cur]
  | String c s' =>
      if Ascii.eqb c "/" then cur :: components "" s' else components (cur +:+ String c "") s'
  end.

(** [Clean] eliminates empty and "." components and resolves ".."; [stack] is
    what was kept, last first. *)
Definition clean_step (rooted : bool) (stack : list string) (c : string) : list string :=
  if String.eqb c "" || String.eqb c "." then stack
  else if String.eqb c ".." then
    match stack with
    | [] => if rooted then [] else [".."]
    | top :: stack' => if String.eqb top ".." then ".." :: stack else stack'
    end
  else c :: stack.

Definition rooted (s : string) : bool := match s with String c _ => Ascii.eqb c "/" | _ => false end.

Definition Clean (s : string) : string :=
  let body := String.concat "/" (rev (foldl (clean_step (rooted s)) [] (components "" s))) in
  if rooted s then "/" +:+ body else if String.eqb body "" then "." else body.

(** [path.Join(a, b)] for a non-empty [b]. *)
Definition Join (a b : string) : string := Clean (if String.eqb a "" then b else a +:+ "/" +:+ b).

(** *** The agent and the control plane *)

Record ControlPlaneConfig := {
  cp_URL : string;
  cp_ConfigPullIntervalSeconds : Z;
  cp_Sink : string;
  cp_OTelCollectorURL : string;
}.

Record AgentInitConfig := {
  ai_SerialId : string;
  ai_ControlPlaneConfig : ControlPlaneConfig;
  ai_ScamperBinPath : string;
}.

(** [args] is os.Args, [folder] what osext.ExecutableFolder returns (the empty
    string with an error), [read] the file system, [yaml] the decoder and [run]
    Agent.Run of the agent that main makes. *)
Definition agent_main (args : list string) (folder : string) (read : string → res string)
    (yaml : string → res ControlPlaneConfig) (io : telemetry_io) (h : slog_handler)
    (run : AgentInitConfig → res unit) : process_end :=
  let serialID := default "" (args !! 1%nat) in
  if String.eqb serialID "" then Exited 1 []
  else
    let cfgPath := default "agent.config.yaml" (args !! 2%nat) in
    let scamperBinPath := default (Join folder "scamper") (args !! 3%nat) in
    match read cfgPath with
    | RErr _ => Exited 1 []
    | RPanic e => Panicked e
    | ROk data =>
        match yaml data with
        | RErr _ => Exited 1 []
        | RPanic e => Panicked e
        | ROk cfg =>
            if String.eqb (cp_URL cfg) "" then Exited 1 []
            else if String.eqb (cp_Sink cfg) "otel" && String.eqb (cp_OTelCollectorURL cfg) "" then
              Panicked "sink == otel requires otel_collector_url to be non-empty"
            else
              match snd (setup_telemetry (cp_Sink cfg) (cp_OTelCollectorURL cfg) "agent" "" io h) with
              | RErr _ => Exited 1 []
              | RPanic e => Panicked e
              | ROk _ =>
                  match run {| ai_SerialId := serialID; ai_ControlPlaneConfig := cfg;
                               ai_ScamperBinPath := scamperBinPath |} with
                  | ROk _ => Exited 0 ["tracing"; "logging"]
                  | RErr _ => Exited 1 []
                  | RPanic e => Panicked e
                  end
              end
        end
    end.

Record ServerConfig := { sv_Listen : string; sv_Sink : string; sv_OTelCollectorURL : string }.

(** [serve] is Start of the server that listens at an address with a database
    pool; [inr tt] is http.ErrServerClosed. *)
Definition server_main (args : list string) (read : string → res string)
    (yaml : string → res ServerConfig) (env : environ) (io : telemetry_io) (h : slog_handler)
    (pool : string → res unit) (serve : string → string + unit) : process_end :=
  match read (default "cepheus-server.config.yaml" (args !! 1%nat)) with
  | RErr _ => Exited 1 []
  | RPanic e => Panicked e
  | ROk data =>
      match yaml data with
      | RErr _ => Exited 1 []
      | RPanic e => Panicked e
      | ROk cfg =>
          let listen := if String.eqb (sv_Listen cfg) "" then ":8080" else sv_Listen cfg in
          if String.eqb (sv_Sink cfg) "otel" && String.eqb (sv_OTelCollectorURL cfg) "" then
            Panicked "sink == otel requires otel_collector_url to be non-empty"
          else
            match snd (setup_telemetry (sv_Sink cfg) (sv_OTelCollectorURL cfg) "server" "" io h) with
            | RErr _ => Exited 1 []
            | RPanic e => Panicked e
            | ROk _ =>
                match (let? url := TryGetFromEnv env "CEPHEUS_DB_URL" in pool url) with
                | RErr _ => Exited 1 []
                | RPanic e => Panicked e
                | ROk _ =>
                    match serve listen with
                    | inl _ => Exited 1 []
                    | inr _ => Exited 0 ["tracing"; "logging"]
                    end
                end
            end
      end
  end.

(** ** Theorems *)

Lemma TryGetFromEnv_ok env k v : TryGetFromEnv env k = ROk v ↔ env k = v ∧ v ≠ "".
Proof. unfold TryGetFromEnv. destruct (String.eqb_spec (env k) ""); naive_solver congruence. Qed.

Lemma TryGetFromEnv_err env k e :
  TryGetFromEnv env k = RErr e ↔ env k = "" ∧ e = "missing environment variable: " +:+ k.
Proof. unfold TryGetFromEnv. destruct (String.eqb_spec (env k) ""); naive_solver. Qed.

Lemma res_bind_ok {A B} (r : res A) (f : A → res B) b : res_bind r f = ROk b ↔ ∃ a, r = ROk a ∧ f a = ROk b.
Proof. destruct r; naive_solver. Qed.

(** A processor starts exactly when its five variables are set, with their
    values. *)
Lemma processor_GetConfig_ok env c :
  processor_GetConfig env = ROk c ↔
  Forall (λ k, env k ≠ "") ["OTEL_SINK"; "OTEL_ENDPOINT"; "NATS_LISTEN_SUBJECT"; "NATS_LISTEN_URL"; "CEPHEUS_DB_URL"] ∧
  c = {| pc_OtelSink := env "OTEL_SINK"; pc_OtelEndpoint := env "OTEL_ENDPOINT";
         pc_NatsListenSubject := env "NATS_LISTEN_SUBJECT"; pc_NatsConnectURL := env "NATS_LISTEN_URL";
         pc_DatabaseURL := env "CEPHEUS_DB_URL" |}.
Proof.
  unfold processor_GetConfig. repeat setoid_rewrite res_bind_ok. setoid_rewrite TryGetFromEnv_ok.
  rewrite !Forall_cons, Forall_nil. split.
  - intros (? & [<- ?] & ? & [<- ?] & ? & [<- ?] & ? & [<- ?] & ? & [<- ?] & [= <-]). by repeat split.
  - intros ((? & ? & ? & ? & ? & _) & ->). eauto 20.
Qed.

(** *** Atoi reads what is printed *)

Lemma digit_pretty n : (n < 10)%N → digit (pretty_N_char n) = Some (Z.of_N n).
Proof.
  intros Hn. destruct n as [|p]; [done|].
  do 4 (destruct p as [p|p|]; try done; try lia).
Qed.

Lemma digits_pretty n s : (0 < n)%N → digits 0 (pretty_N_go n s) = digits (Z.of_N n) s.
Proof.
  revert s. induction (N.lt_wf_0 n) as [n _ IH]. intros s Hn. rewrite pretty_N_go_step by done.
  assert (n = 10 * (n / 10) + n mod 10)%N as E by (apply N.div_mod; lia).
  pose proof (N.mod_lt n 10 ltac:(lia)) as Hm.
  destruct (decide (n / 10 = 0)%N) as [E0|Hne].
  - rewrite E0, pretty_N_go_0. cbn [digits]. rewrite digit_pretty by done. simpl. f_equal. lia.
  - rewrite IH; [|apply N.div_lt; lia|lia]. cbn [digits]. rewrite digit_pretty by done. simpl. f_equal. lia.
Qed.

Lemma digits_nonempty n s : (0 < n)%N → unsigned (pretty_N_go n s) = digits 0 (pretty_N_go n s).
Proof.
  revert s. induction (N.lt_wf_0 n) as [n _ IH]. intros s Hn. rewrite pretty_N_go_step by done.
  destruct (decide (n / 10 = 0)%N) as [->|Hne]; [by rewrite pretty_N_go_0|].
  apply IH; [apply N.div_lt; lia|by apply N.neq_0_lt_0].
Qed.

Lemma unsigned_pretty n : unsigned (pretty n) = Some (Z.of_N n).
Proof.
  unfold pretty, pretty_N. destruct (decide (n = 0%N)) as [->|Hn]; [done|].
  rewrite digits_nonempty, digits_pretty by lia. done.
Qed.

(** A decimal numeral does not begin with a sign. *)
Lemma pretty_N_head (n : N) : ∃ c s, pretty n = String c s ∧ digit c ≠ None.
Proof.
  pose proof (unsigned_pretty n) as H. destruct (pretty n) as [|c s]; [done|].
  exists c, s. split; [done|]. simpl in H. by destruct (digit c).
Qed.

(** Atoi inverts the decimal notation on the whole of int64 and refuses what is
    outside. *)
Lemma Atoi_pretty z : Atoi (pretty z) = if in_int64 z then ROk z else RErr "value out of range".
Proof.
  assert (∀ n : N, Atoi (pretty n) = if in_int64 (Z.of_N n) then ROk (Z.of_N n) else RErr "value out of range") as HN.
  { intros n. destruct (pretty_N_head n) as (c & s & E & Hc). pose proof (unsigned_pretty n) as Hu.
    unfold Atoi. rewrite E in *.
    assert (match String c s with
            | String "-" s' => Z.opp <$> unsigned s' | String "+" s' => unsigned s' | _ => unsigned (String c s) end
            = Some (Z.of_N n)) as ->; [|done].
    rewrite <- Hu. destruct c as [[] [] [] [] [] [] [] []]; try done; by destruct Hc. }
  destruct z as [|p|p]; [done|apply (HN (N.pos p))|].
  assert (pretty (Z.neg p) = String "-" (pretty (N.pos p))) as -> by done.
  unfold Atoi. by rewrite unsigned_pretty.
Qed.

(** *** Logging *)

(** After a setup with the otel sink the level filter is gone: what the
    collector's handler accepts is let through, debug records included. *)
Lemma otel_setup_unfiltered otel fanout endpoint service instance h :
  (∀ a b, fanout a b = a || b) →
  let '(h', r) := SetupLogging "otel" endpoint service instance (ROk tt) (ROk tt) (ROk tt) h in
  r = ROk ProviderShutdown ∧ ∀ l, otel l = true → Enabled otel fanout h' l = true.
Proof. intros Hf. simpl. split; [done|]. intros l Hl. by rewrite Hf, Hl. Qed.

(** With any other sink records below info are dropped. *)
Lemma json_setup_filters otel fanout sink endpoint service instance e r f h l :
  sink ≠ "otel" → l < LevelInfo →
  Enabled otel fanout (fst (SetupLogging sink endpoint service instance e r f h)) l = false.
Proof.
  intros Hs Hl. unfold SetupLogging. destruct (String.eqb_spec sink "otel"); [done|].
  simpl. by apply Z.leb_gt.
Qed.

(** *** Exit status *)

(** Argus, the ping and the trace processor end with status 0 exactly when they
    started and were shut down, and then both providers are flushed. *)
Lemma service_main_status {C} name instance (config : res C) tel io h started called :
  service_main true name instance config tel io h started = Exited 0 called ↔
  called = ["tracing"; "logging"] ∧
  ∃ c, config = ROk c ∧ is_ok (snd (setup_telemetry (fst (tel c)) (snd (tel c)) name instance io h)) = true ∧
    started c = ROk tt.
Proof.
  unfold service_main. destruct config as [c|e|e]; [|naive_solver..].
  destruct (snd (setup_telemetry _ _ _ _ _ _)) as [[]|e|e] eqn:E.
  2, 3: split; [done|]; intros (_ & c' & [= <-] & H & _); by rewrite E in H.
  destruct (started c) as [[]|e|e] eqn:Es; split; try done.
  - intros [= <-]. split; [done|]. exists c. by rewrite E.
  - by intros [-> _].
  - intros (_ & c' & [= <-] & _ & H). congruence.
  - intros (_ & c' & [= <-] & _ & H). congruence.
Qed.

(** The stamp processor also ends with status 0 when it could not start. *)
Lemma stamp_main_hides_failure env instance io h c e :
  Stamp_GetConfig env = ROk c →
  is_ok (snd (setup_telemetry (pc_OtelSink c) (pc_OtelEndpoint c) "stamp-processor" instance io h)) = true →
  stamp_main env instance io h (λ _, RErr e) = Exited 0 ["tracing"; "logging"].
Proof.
  intros Hc Ht. unfold stamp_main, service_main. rewrite Hc. simpl. by destruct (snd _).
Qed.
