(* ===== verification/Float64.v ===== *)
(** * float64

    Go's [float64] is IEEE 754 binary64.  The type and the correctly rounded
    operations are the Standard Library's executable specification
    ([SpecFloat], precision 53, maximal exponent 1024); [math.Max], [math.Min],
    [math.Abs] and the integer conversions follow the documentation of the Go
    packages.  The first half holds the definitions, the second the order and
    sign lemmas the components use. *)

From S2P Require Import Prelude.
From Stdlib Require Import SpecFloat.

Local Open Scope Z_scope.

Abbreviation float64 := spec_float.
Abbreviation PREC := 53%Z.
Abbreviation EMAX := 1024%Z.

(** ** Operations *)

Definition fadd : float64 → float64 → float64 := SFadd PREC EMAX.
Definition fsub : float64 → float64 → float64 := SFsub PREC EMAX.
Definition fmul : float64 → float64 → float64 := SFmul PREC EMAX.
Definition fdiv : float64 → float64 → float64 := SFdiv PREC EMAX.
Definition fsqrt : float64 → float64 := SFsqrt PREC EMAX.
Definition fneg : float64 → float64 := SFopp.
Definition fabs : float64 → float64 := SFabs.

(** [x < y], [x <= y], [x == y]: false whenever an operand is a NaN. *)
Definition fltb : float64 → float64 → bool := SFltb.
Definition fleb : float64 → float64 → bool := SFleb.
Definition feqb : float64 → float64 → bool := SFeqb.

(** [float64(z)] for an integer [z]. *)
Definition f64 (z : Z) : float64 := binary_normalize PREC EMAX z 0 false.

(** The decimal constant [n / d], rounded to nearest (both exactly
    representable). *)
Definition fconst (n d : Z) : float64 := fdiv (f64 n) (f64 d).

Definition fzero : float64 := S754_zero false.

Definition is_nan (f : float64) : bool :=
  match f with S754_nan => true | _ => false end.

Definition is_finite (f : float64) : bool :=
  match f with S754_zero _ | S754_finite _ _ _ => true | _ => false end.

Definition sign_bit (f : float64) : bool :=
  match f with
  | S754_zero s | S754_infinity s | S754_finite s _ _ => s
  | S754_nan => false
  end.

(** [math.Max] and [math.Min], special cases in the order of the library. *)
Definition fmax (x y : float64) : float64 :=
  match x, y with
  | S754_infinity false, _ | _, S754_infinity false => S754_infinity false
  | S754_nan, _ | _, S754_nan => S754_nan
  | S754_zero sx, S754_zero _ => if sx then y else x
  | _, _ => if fltb y x then x else y
  end.

Definition fmin (x y : float64) : float64 :=
  match x, y with
  | S754_infinity true, _ | _, S754_infinity true => S754_infinity true
  | S754_nan, _ | _, S754_nan => S754_nan
  | S754_zero sx, S754_zero _ => if sx then x else y
  | _, _ => if fltb x y then x else y
  end.

(** [int64(f)]: truncation toward zero; a value out of range (or a NaN)
    converts to the smallest int64, as on amd64. *)
Definition ftrunc (f : float64) : Z :=
  match f with
  | S754_finite s m e =>
      let a := match e with
               | Z0 => Zpos m
               | Zpos _ => Zpos m * 2 ^ e
               | Zneg _ => Zpos m / 2 ^ (- e)
               end in
      if s then - a else a
  | _ => 0
  end.

Definition f64_to_int64 (f : float64) : Z :=
  if is_finite f && in_int64 (ftrunc f) then ftrunc f
  else -9223372036854775808.

#[global] Arguments fadd : simpl never.
#[global] Arguments fsub : simpl never.
#[global] Arguments fmul : simpl never.
#[global] Arguments fdiv : simpl never.
#[global] Arguments fsqrt : simpl never.
#[global] Arguments fneg : simpl never.
#[global] Arguments fabs : simpl never.
#[global] Arguments fltb : simpl never.
#[global] Arguments fleb : simpl never.
#[global] Arguments feqb : simpl never.
#[global] Arguments f64 : simpl never.
#[global] Arguments fconst : simpl never.
#[global] Arguments fmax : simpl never.
#[global] Arguments fmin : simpl never.

(** ** Order

    [SFcompare] is the lexicographic order of the keys below, so the boolean
    comparisons inherit the order laws. *)

Definition fkey (f : float64) : option (Z * Z * Z) :=
  match f with
  | S754_nan => None
  | S754_infinity true => Some (-2, 0, 0)
  | S754_finite true m e => Some (-1, - e, - Zpos m)
  | S754_zero _ => Some (0, 0, 0)
  | S754_finite false m e => Some (1, e, Zpos m)
  | S754_infinity false => Some (2, 0, 0)
  end.

Definition key_lt (k1 k2 : Z * Z * Z) : Prop :=
  let '(a1, b1, c1) := k1 in let '(a2, b2, c2) := k2 in
  a1 < a2 ∨ a1 = a2 ∧ (b1 < b2 ∨ b1 = b2 ∧ c1 < c2).

Lemma Pos_compare_cont_Eq m n : Pos.compare_cont Eq m n = Pos.compare m n.
Proof. reflexivity. Qed.

Lemma SFcompare_key f g kf kg :
  fkey f = Some kf → fkey g = Some kg →
  match SFcompare f g with
  | Some Lt => key_lt kf kg
  | Some Gt => key_lt kg kf
  | Some Eq => kf = kg
  | None => False
  end.
Proof.
  intros Hf Hg.
  destruct f as [[]|[]| |[] m1 e1], g as [[]|[]| |[] m2 e2]; simplify_eq/=;
    try (left; lia); try done;
    rewrite ?Pos_compare_cont_Eq;
    (destruct (Z.compare_spec e1 e2);
     [destruct (Pos.compare_spec m1 m2)| |]; simpl; simplify_eq/=;
     first [done | f_equal; lia | unfold key_lt; lia]).
Qed.

Lemma fkey_nan f : fkey f = None ↔ f = S754_nan.
Proof. by destruct f as [[]|[]| |[] ? ?]. Qed.

Lemma SFcompare_None f g : fkey f = None ∨ fkey g = None → SFcompare f g = None.
Proof. rewrite !fkey_nan. intros [->| ->]; [done|]. by destruct f. Qed.

(** Comparisons as relations on keys. *)
Definition key_rel (R : Z * Z * Z → Z * Z * Z → Prop) (f g : float64) : Prop :=
  match fkey f, fkey g with
  | Some kf, Some kg => R kf kg
  | _, _ => False
  end.

Lemma key_lt_irrefl k : ¬ key_lt k k.
Proof. destruct k as [[a b] c]. unfold key_lt. lia. Qed.

Lemma key_lt_asym k1 k2 : key_lt k1 k2 → ¬ key_lt k2 k1.
Proof. destruct k1 as [[a b] c], k2 as [[a' b'] c']. unfold key_lt. lia. Qed.

Lemma fltb_spec f g : fltb f g = true ↔ key_rel key_lt f g.
Proof.
  unfold fltb, SFltb, key_rel.
  destruct (fkey f) as [kf|] eqn:Hf, (fkey g) as [kg|] eqn:Hg;
    try (rewrite SFcompare_None by auto; done).
  pose proof (SFcompare_key f g _ _ Hf Hg) as H.
  destruct (SFcompare f g) as [[]|]; split; intros H'; try done; exfalso.
  - subst. by eapply key_lt_irrefl.
  - by eapply key_lt_asym.
Qed.

Lemma fleb_spec f g : fleb f g = true ↔ key_rel (λ a b, key_lt a b ∨ a = b) f g.
Proof.
  unfold fleb, SFleb, key_rel.
  destruct (fkey f) as [kf|] eqn:Hf, (fkey g) as [kg|] eqn:Hg;
    try (rewrite SFcompare_None by auto; done).
  pose proof (SFcompare_key f g _ _ Hf Hg) as H.
  destruct (SFcompare f g) as [[]|]; split; intros H'; try done; auto.
  exfalso. destruct H' as [H'| ->]; [by eapply key_lt_asym|by eapply key_lt_irrefl].
Qed.

(** Turn every comparison into keys and close the goal with [lia]. *)
Ltac forder :=
  repeat match goal with
  | H : fltb _ _ = true |- _ => apply fltb_spec in H
  | H : fleb _ _ = true |- _ => apply fleb_spec in H
  end;
  rewrite ?fltb_spec, ?fleb_spec; unfold key_rel in *;
  repeat match goal with
  | H : context [match fkey ?f with _ => _ end] |- _ =>
      destruct (fkey f) as [[[? ?] ?]|] eqn:?; try done
  end;
  unfold key_lt in *;
  repeat match goal with H : _ ∨ _ = _ |- _ => destruct H; simplify_eq end;
  try lia; try (left; lia); try (right; f_equal; lia).

Lemma fltb_leb f g : fltb f g = true → fleb f g = true.
Proof. intros. forder. Qed.

Lemma fltb_trans f g h : fltb f g = true → fltb g h = true → fltb f h = true.
Proof. intros. forder. Qed.

Lemma fleb_ltb_trans f g h : fleb f g = true → fltb g h = true → fltb f h = true.
Proof. intros. forder. Qed.

Lemma fltb_leb_trans f g h : fltb f g = true → fleb g h = true → fltb f h = true.
Proof. intros. forder. Qed.

Lemma fleb_trans f g h : fleb f g = true → fleb g h = true → fleb f h = true.
Proof. intros. forder. all: destruct (decide (z = z5)); lia. Qed.

Lemma fltb_irrefl f : fltb f f = false.
Proof. apply not_true_is_false. rewrite fltb_spec. unfold key_rel.
  destruct (fkey f); [apply key_lt_irrefl|tauto]. Qed.

(** ** Signs and NaNs *)

Definition fnonneg (f : float64) : Prop := fleb fzero f = true.

Lemma fnonneg_spec f :
  fnonneg f ↔ match f with
              | S754_zero _ | S754_infinity false | S754_finite false _ _ => True
              | _ => False
              end.
Proof.
  unfold fnonneg. rewrite fleb_spec. unfold key_rel, fzero.
  destruct f as [[]|[]| |[] m e]; simpl; split; intros; try done; auto;
    try (left; lia); naive_solver lia.
Qed.

Lemma fnonneg_not_nan f : fnonneg f → is_nan f = false.
Proof. rewrite fnonneg_spec. by destruct f. Qed.

(** Shifting a nonnegative mantissa keeps it nonnegative. *)
Lemma shr_1_nonneg mrs : 0 ≤ shr_m mrs → 0 ≤ shr_m (shr_1 mrs).
Proof. destruct mrs as [[|[]|[]] r s]; simpl; lia. Qed.

Lemma iter_pos_ind {A} (P : A → Prop) f (n : positive) x :
  (∀ y, P y → P (f y)) → P x → P (iter_pos f n x).
Proof. intros Hf. revert x. induction n; simpl; auto. Qed.

Lemma shr_nonneg mrs e n : 0 ≤ shr_m mrs → 0 ≤ shr_m (fst (shr mrs e n)).
Proof.
  destruct n; simpl; auto. intros.
  by apply (iter_pos_ind (λ r, 0 ≤ shr_m r)); [apply shr_1_nonneg|].
Qed.

Lemma shr_fexp_nonneg m e l :
  0 ≤ m → 0 ≤ shr_m (fst (shr_fexp PREC EMAX m e l)).
Proof. intros. apply shr_nonneg. by destruct l as [|[]]. Qed.

Lemma round_nearest_even_nonneg m l : 0 ≤ m → 0 ≤ round_nearest_even m l.
Proof. destruct l as [|[]]; simpl; try case_match; lia. Qed.

Lemma binary_round_aux_sign s m e l :
  0 ≤ m →
  is_nan (binary_round_aux PREC EMAX s m e l) = false ∧
  sign_bit (binary_round_aux PREC EMAX s m e l) = s.
Proof.
  intros Hm. unfold binary_round_aux.
  pose proof (shr_fexp_nonneg m e l Hm) as H1.
  destruct (shr_fexp PREC EMAX m e l) as [mrs e1]. simpl in H1.
  pose proof (shr_fexp_nonneg _ e1 loc_Exact
    (round_nearest_even_nonneg _ (loc_of_shr_record mrs) H1)) as H2.
  destruct (shr_fexp PREC EMAX (round_nearest_even _ _) e1 loc_Exact) as [mrs2 e2].
  simpl in H2. destruct (shr_m mrs2); [done| |lia]. by case_match.
Qed.

Lemma binary_round_sign s m e :
  is_nan (binary_round PREC EMAX s m e) = false ∧
  sign_bit (binary_round PREC EMAX s m e) = s.
Proof.
  unfold binary_round. destruct (shl_align _ _ _). by apply binary_round_aux_sign.
Qed.

Lemma binary_normalize_not_nan m e s :
  is_nan (binary_normalize PREC EMAX m e s) = false.
Proof. destruct m; simpl; [done|apply binary_round_sign..]. Qed.

Lemma nonneg_of_sign f : is_nan f = false → sign_bit f = false → fnonneg f.
Proof. rewrite fnonneg_spec. by destruct f as [[]|[]| |[] ? ?]. Qed.

Lemma fabs_nonneg f : is_nan f = false → fnonneg (fabs f).
Proof. rewrite fnonneg_spec. by destruct f. Qed.

Lemma binary_normalize_nonneg m e : 0 ≤ m → fnonneg (binary_normalize PREC EMAX m e false).
Proof.
  intros. apply nonneg_of_sign; [apply binary_normalize_not_nan|].
  destruct m; [done|apply binary_round_sign|lia].
Qed.

Lemma f64_nonneg z : 0 ≤ z → fnonneg (f64 z).
Proof. apply binary_normalize_nonneg. Qed.

Lemma fadd_nonneg x y : fnonneg x → fnonneg y → fnonneg (fadd x y).
Proof.
  rewrite (fnonneg_spec x), (fnonneg_spec y). intros Hx Hy.
  destruct x as [[]|[]| |[] mx ex], y as [[]|[]| |[] my ey]; try done.
  by apply binary_normalize_nonneg.
Qed.

Lemma fmul_sign x y :
  is_nan (fmul x y) = false → sign_bit (fmul x y) = xorb (sign_bit x) (sign_bit y).
Proof.
  intros Hn. destruct x as [sx|sx| |sx mx ex], y as [sy|sy| |sy my ey]; try done.
  by apply binary_round_aux_sign.
Qed.

Lemma fmul_nonneg x y :
  fnonneg x → fnonneg y → is_nan (fmul x y) = false → fnonneg (fmul x y).
Proof.
  rewrite (fnonneg_spec x), (fnonneg_spec y). intros Hx Hy Hn.
  destruct x as [[]|[]| |[] mx ex], y as [[]|[]| |[] my ey]; try done.
  apply nonneg_of_sign; [done|]. by apply binary_round_aux_sign.
Qed.

Lemma SFdiv_core_nonneg mx ex my ey :
  0 ≤ fst (fst (SFdiv_core_binary PREC EMAX (Zpos mx) ex (Zpos my) ey)).
Proof.
  unfold SFdiv_core_binary.
  set (m' := match _ with Z0 => _ | Zpos _ => _ | Zneg _ => _ end).
  assert (0 ≤ m') as Hm.
  { subst m'. case_match; try lia. apply Z.shiftl_nonneg. lia. }
  pose proof (Z.div_pos m' (Zpos my) Hm ltac:(lia)) as Hq. unfold Z.div in Hq.
  by destruct (Z.div_eucl m' (Z.pos my)).
Qed.

Lemma fdiv_finite s1 mx ex s2 my ey :
  is_nan (fdiv (S754_finite s1 mx ex) (S754_finite s2 my ey)) = false ∧
  sign_bit (fdiv (S754_finite s1 mx ex) (S754_finite s2 my ey)) = xorb s1 s2.
Proof.
  unfold fdiv, SFdiv. pose proof (SFdiv_core_nonneg mx ex my ey) as H.
  destruct (SFdiv_core_binary _ _ _ _ _ _) as [[q e] l].
  by apply binary_round_aux_sign.
Qed.

Lemma fdiv_not_nan x y :
  is_nan x = false → is_finite y = true → feqb y fzero = false →
  is_nan (fdiv x y) = false.
Proof.
  intros Hx Hf Hy.
  destruct x as [[]|[]| |[] mx ex], y as [[]|[]| |[] my ey]; try done;
    apply fdiv_finite.
Qed.

Lemma fdiv_nonneg x y :
  sign_bit x = false → sign_bit y = false →
  is_nan (fdiv x y) = false → fnonneg (fdiv x y).
Proof.
  intros Hx Hy Hn. apply nonneg_of_sign; [done|].
  destruct x as [[]|[]| |[] mx ex], y as [[]|[]| |[] my ey]; try done.
  apply fdiv_finite.
Qed.

(** Subtracting anything but a NaN from a finite number gives no NaN. *)
Lemma fsub_not_nan x y :
  is_finite x = true → is_nan y = false → is_nan (fsub x y) = false.
Proof.
  intros Hx Hy.
  destruct x as [[]|[]| |[] mx ex], y as [[]|[]| |[] my ey]; try done;
    apply binary_normalize_not_nan.
Qed.

(** ** Max and Min *)

Lemma not_ltb_leb x y :
  is_nan x = false → is_nan y = false → fltb x y = false → fleb y x = true.
Proof.
  intros Hx Hy H. apply not_true_iff_false in H. rewrite fltb_spec in H.
  apply fleb_spec. unfold key_rel in *.
  destruct (fkey x) as [[[a b] c]|] eqn:Ex; [|by apply fkey_nan in Ex; subst].
  destruct (fkey y) as [[[a' b'] c']|] eqn:Ey; [|by apply fkey_nan in Ey; subst].
  unfold key_lt in *. destruct (decide ((a', b', c') = (a, b, c))); [by right|left].
  destruct (decide (a = a')), (decide (b = b')), (decide (c = c')); subst; try lia; done.
Qed.

Lemma fmax_ub_l x y : is_nan x = false → is_nan y = false → fleb x (fmax x y) = true.
Proof.
  intros Hx Hy.
  assert (fleb x x = true) as Hr by (apply not_ltb_leb; auto using fltb_irrefl).
  destruct x as [[]|[]| |[] mx ex], y as [[]|[]| |[] my ey]; try done;
    unfold fmax; case_match; auto; by apply not_ltb_leb.
Qed.

Lemma fmax_ub_r x y : is_nan x = false → is_nan y = false → fleb y (fmax x y) = true.
Proof.
  intros Hx Hy.
  assert (fleb y y = true) as Hr by (apply not_ltb_leb; auto using fltb_irrefl).
  destruct x as [[]|[]| |[] mx ex], y as [[]|[]| |[] my ey]; try done;
    unfold fmax; case_match; auto; by apply fltb_leb.
Qed.

Lemma fmax_cases x y : fmax x y = x ∨ fmax x y = y.
Proof.
  destruct x as [[]|[]| |[] mx ex], y as [[]|[]| |[] my ey];
    unfold fmax; try case_match; auto.
Qed.

Lemma fneg_nonneg x : fleb x fzero = true → fnonneg (fneg x).
Proof. rewrite fnonneg_spec. by destruct x as [[]|[]| |[] ? ?]. Qed.

Lemma fmax_zero_nonneg y : is_nan y = false → fnonneg (fmax fzero y).
Proof. intros. by apply fmax_ub_l. Qed.

Lemma fmax_zero_nan y : is_nan (fmax fzero y) = is_nan y.
Proof. destruct y as [[]|[]| |[] my ey]; done. Qed.

Lemma fmin_lb_l x y : is_nan x = false → is_nan y = false → fleb (fmin x y) x = true.
Proof.
  intros Hx Hy.
  assert (fleb x x = true) as Hr by (apply not_ltb_leb; auto using fltb_irrefl).
  destruct x as [[]|[]| |[] mx ex], y as [[]|[]| |[] my ey]; try done;
    unfold fmin; case_match; auto; by apply not_ltb_leb.
Qed.

Lemma fmin_cases x y : fmin x y = x ∨ fmin x y = y.
Proof.
  destruct x as [[]|[]| |[] mx ex], y as [[]|[]| |[] my ey];
    unfold fmin; try case_match; auto.
Qed.

Lemma fmin_glb z x y :
  fleb z x = true → fleb z y = true → fleb z (fmin x y) = true.
Proof. by destruct (fmin_cases x y) as [-> | ->]. Qed.

#[export] Hint Resolve fabs_nonneg fadd_nonneg fmax_zero_nonneg f64_nonneg
  fnonneg_not_nan fltb_leb : cepheus.
