(* ===== verification/Float64Round.v ===== *)
(** * Rounding

    What the development needs of round-to-nearest-even on binary64: the
    rounded result is a valid float, it is not below (above) a representable
    number that the exact value is not below (above).  From these follow that
    adding a nonnegative number never decreases a float and subtracting one
    never increases it. *)

From S2P Require Import Prelude Float64.
From Stdlib Require Import SpecFloat.

Local Open Scope Z_scope.

Abbreviation EMIN := (-1074)%Z.
Definition fexp64 (e : Z) : Z := Z.max (e - 53) EMIN.

Lemma fexp64_eq e : fexp PREC EMAX e = fexp64 e.
Proof. reflexivity. Qed.

Definition valid (f : float64) : Prop := valid_binary PREC EMAX f = true.

(** ** Binary digits *)

Definition digits (m : positive) : Z := Zpos (digits2_pos m).

Lemma digits_bounds m : 2 ^ (digits m - 1) ≤ Zpos m < 2 ^ digits m.
Proof.
  unfold digits. induction m as [m IH|m IH|]; simpl digits2_pos; [| |done].
  all: rewrite Pos2Z.inj_succ; replace (Z.succ (Z.pos (digits2_pos m)) - 1)
         with (Z.succ (Z.pos (digits2_pos m) - 1)) by lia;
       rewrite !Z.pow_succ_r by lia; lia.
Qed.

Lemma digits_le m d : 0 ≤ d → Zpos m < 2 ^ d → digits m ≤ d.
Proof.
  intros Hd H. pose proof (digits_bounds m) as [H1 _].
  assert (2 ^ (digits m - 1) < 2 ^ d) as H2 by lia.
  apply Z.pow_lt_mono_r_iff in H2; lia.
Qed.

Lemma digits_ge m d : 0 ≤ d → 2 ^ d ≤ Zpos m → d < digits m.
Proof.
  intros Hd H. pose proof (digits_bounds m) as [_ H1].
  assert (2 ^ d < 2 ^ digits m) as H2 by lia.
  apply Z.pow_lt_mono_r_iff in H2; unfold digits in *; lia.
Qed.

(** ** Shifting right with round and sticky bits *)

Lemma iter_pos_nat {A} (f : A → A) n x : iter_pos f n x = Nat.iter (Pos.to_nat n) f x.
Proof.
  revert x. induction n as [n IH|n IH|]; intros x; cbn [iter_pos]; [| |done].
  - rewrite !IH, Pos2Nat.inj_xI. rewrite Nat.iter_succ_r.
    replace (2 * Pos.to_nat n)%nat with (Pos.to_nat n + Pos.to_nat n)%nat by lia.
    by rewrite Nat.iter_add.
  - rewrite !IH, Pos2Nat.inj_xO.
    replace (2 * Pos.to_nat n)%nat with (Pos.to_nat n + Pos.to_nat n)%nat by lia.
    by rewrite Nat.iter_add.
Qed.

Lemma shr_1_div mrs : 0 ≤ shr_m mrs → shr_m (shr_1 mrs) = shr_m mrs / 2.
Proof.
  destruct mrs as [[|[p|p|]|p] r s]; simpl; intros; try lia; try done;
    Z.div_mod_to_equations; lia.
Qed.

Lemma shr_1_exact mrs m :
  shr_m mrs = 2 * m → 0 ≤ m → shr_r mrs = false → shr_s mrs = false →
  shr_r (shr_1 mrs) = false ∧ shr_s (shr_1 mrs) = false.
Proof.
  destruct mrs as [[|[p|p|]|p] r s]; simpl; intros; subst; try lia; done.
Qed.

Lemma shr_iter n m :
  0 ≤ m →
  let r := Nat.iter n shr_1 (Build_shr_record m false false) in
  shr_m r = m / 2 ^ Z.of_nat n ∧
  (m mod 2 ^ Z.of_nat n = 0 → shr_r r = false ∧ shr_s r = false).
Proof.
  intros Hm. induction n as [|n IH]; simpl Nat.iter.
  - simpl. rewrite Z.div_1_r. done.
  - destruct IH as [IH1 IH2]. cbv zeta.
    set (r := Nat.iter n shr_1 _) in *.
    assert (0 < 2 ^ Z.of_nat n) by (apply Z.pow_pos_nonneg; lia).
    assert (0 ≤ shr_m r) by (rewrite IH1; apply Z.div_pos; lia).
    rewrite Nat2Z.inj_succ, Z.pow_succ_r by lia. split.
    + rewrite shr_1_div by done. rewrite IH1, Z.div_div by lia. f_equal. lia.
    + intros Hd. apply Z.mod_divide in Hd as [k Hk]; [|lia].
      assert (m mod 2 ^ Z.of_nat n = 0) as Hz.
      { apply Z.mod_divide; [lia|]. exists (2 * k). lia. }
      destruct (IH2 Hz) as [Hr Hs].
      apply (shr_1_exact r k); auto; [|nia].
      rewrite IH1, Hk. replace (k * (2 * 2 ^ Z.of_nat n)) with ((2 * k) * 2 ^ Z.of_nat n) by lia.
      by rewrite Z.div_mul by lia.
Qed.

Lemma round_nearest_even_bounds m l :
  m ≤ round_nearest_even m l ≤ m + 1.
Proof. destruct l as [|[]]; simpl; try case_match; lia. Qed.

(** One shift to the canonical exponent: the quotient, and exactness. *)
Definition scaled (m : Z) (k : Z) (q : Z) : Prop :=
  m / 2 ^ k ≤ q ≤ m / 2 ^ k + 1 ∧ (m mod 2 ^ k = 0 → q = m / 2 ^ k).

Lemma shr_fexp_scaled m e :
  let E := fexp64 (digits m + e) in
  0 ≤ E - e →
  let '(mrs, e1) := shr_fexp PREC EMAX (Zpos m) e loc_Exact in
  e1 = E ∧ scaled (Zpos m) (E - e) (round_nearest_even (shr_m mrs) (loc_of_shr_record mrs)).
Proof.
  cbv zeta. intros HE. unfold shr_fexp, shr. simpl Zdigits2.
  rewrite fexp64_eq. fold (digits m). set (E := fexp64 (digits m + e)) in *.
  destruct (E - e) as [|n|n] eqn:En; [|clear HE|lia].
  - split; [lia|]. unfold scaled. simpl. rewrite Z.div_1_r. lia.
  - rewrite iter_pos_nat. split; [lia|].
    destruct (shr_iter (Pos.to_nat n) (Zpos m) ltac:(lia)) as [H1 H2].
    rewrite positive_nat_Z in H1, H2.
    set (r := Nat.iter _ _ _) in *. simpl in r. fold r. unfold scaled.
    change (shr_record_of_loc (Z.pos m) loc_Exact) with (Build_shr_record (Zpos m) false false).
    fold r. rewrite <- H1. split; [apply round_nearest_even_bounds|].
    intros Hz. destruct (H2 Hz) as [Hr Hs].
    destruct r as [rm rr rs]. simpl in *. by subst.
Qed.

(** The float with mantissa [q] at exponent [E], [0 ≤ q ≤ 2^53]. *)
Definition pack (s : bool) (q : Z) (E : Z) : float64 :=
  match q with
  | Zpos p =>
      if Z.eqb q (2 ^ 53)
      then if Z.leb (E + 1) 971 then S754_finite s 4503599627370496 (E + 1) else S754_infinity s
      else if Z.leb E 971 then S754_finite s p E else S754_infinity s
  | _ => S754_zero s
  end.

Lemma shr_fexp_pack s q E :
  0 ≤ q ≤ 2 ^ 53 → EMIN ≤ E →
  (let '(mrs, e) := shr_fexp PREC EMAX q E loc_Exact in
   match shr_m mrs with
   | Z0 => S754_zero s
   | Zpos m => if Z.leb e (EMAX - PREC) then S754_finite s m e else S754_infinity s
   | _ => S754_nan
   end) = pack s q E.
Proof.
  intros Hq HE. destruct q as [|p|p]; [|clear - Hq HE|lia].
  - unfold shr_fexp, shr. simpl Zdigits2. rewrite fexp64_eq.
    assert (fexp64 (0 + E) - E ≤ 0) as Hn by (unfold fexp64; lia).
    destruct (fexp64 (0 + E) - E) as [|n|n]; [|lia|]; reflexivity.
  - unfold pack. destruct (Z.eqb_spec (Zpos p) (2 ^ 53)) as [Hp|Hp].
    + assert (p = 9007199254740992%positive) as -> by lia.
      unfold shr_fexp. change (Zdigits2 9007199254740992) with 54.
      rewrite fexp64_eq. unfold fexp64.
      replace (Z.max (54 + E - 53) EMIN - E) with 1 by lia. reflexivity.
    + pose proof (digits_le p 53 ltac:(lia) ltac:(lia)) as Hd.
      unfold shr_fexp. simpl Zdigits2. rewrite fexp64_eq. fold (digits p).
      assert (fexp64 (digits p + E) - E ≤ 0) as Hn by (unfold fexp64; lia).
      destruct (fexp64 (digits p + E) - E) as [|n|n]; [|lia|]; reflexivity.
Qed.

Lemma binary_round_aux_pack s m e :
  0 ≤ fexp64 (digits m + e) - e →
  ∃ q, scaled (Zpos m) (fexp64 (digits m + e) - e) q ∧
       0 ≤ q ≤ 2 ^ 53 ∧
       binary_round_aux PREC EMAX s (Zpos m) e loc_Exact =
         pack s q (fexp64 (digits m + e)).
Proof.
  intros HE. set (E := fexp64 (digits m + e)) in *.
  pose proof (shr_fexp_scaled m e HE) as H. unfold binary_round_aux.
  destruct (shr_fexp PREC EMAX (Z.pos m) e loc_Exact) as [mrs e1].
  destruct H as [-> Hs]. fold E in Hs |- *. eexists. split; [exact Hs|].
  destruct Hs as [[Hl Hu] _].
  set (q := round_nearest_even _ _) in *.
  assert (0 < 2 ^ (E - e)) as Hp by (apply Z.pow_pos_nonneg; lia).
  assert (0 ≤ Z.pos m / 2 ^ (E - e)) by (apply Z.div_pos; lia).
  assert (Z.pos m / 2 ^ (E - e) < 2 ^ 53) as Hlt.
  { apply Z.div_lt_upper_bound; [done|]. rewrite <- Z.pow_add_r by lia.
    pose proof (digits_bounds m) as [_ Hb]. eapply Z.lt_le_trans; [exact Hb|].
    apply Z.pow_le_mono_r; [lia|]. subst E. unfold fexp64. lia. }
  assert (0 ≤ q ≤ 2 ^ 53) as Hq by lia. split; [done|].
  apply (shr_fexp_pack s q E Hq). subst E. unfold fexp64. lia.
Qed.

(** Aligning the mantissa to the canonical exponent does not change the value. *)
Lemma digits_shift m d : digits (Pos.iter xO m d) = digits m + Zpos d.
Proof.
  unfold digits. induction d as [|d IH] using Pos.peano_ind; [simpl; lia|].
  rewrite Pos.iter_succ. simpl. lia.
Qed.

Lemma shift_value m d : Zpos (Pos.iter xO m d) = Zpos m * 2 ^ Zpos d.
Proof.
  induction d as [|d IH] using Pos.peano_ind; [simpl; lia|].
  rewrite Pos.iter_succ, Pos2Z.inj_succ, Z.pow_succ_r by lia. lia.
Qed.

Lemma binary_round_pack s m e :
  let E := fexp64 (digits m + e) in
  ∃ q, (if Z.leb E e then q = Zpos m * 2 ^ (e - E)
        else scaled (Zpos m) (E - e) q) ∧
       0 ≤ q ≤ 2 ^ 53 ∧ binary_round PREC EMAX s m e = pack s q E.
Proof.
  cbv zeta. set (E := fexp64 (digits m + e)).
  unfold binary_round, shl_align. rewrite fexp64_eq. fold (digits m). fold E.
  destruct (E - e) as [|d|d] eqn:Hd.
  - destruct (binary_round_aux_pack s m e) as (q & Hs & Hq & Hr); [fold E; lia|].
    fold E in Hs, Hr. exists q. rewrite Hr. split; [|done].
    destruct (Z.leb_spec E e); [|lia]. rewrite Hd in Hs. destruct Hs as [_ Hs].
    rewrite Hs by (rewrite Z.pow_0_r; apply Z.mod_1_r).
    replace (e - E) with 0 by lia. rewrite Z.pow_0_r, Z.div_1_r. lia.
  - destruct (binary_round_aux_pack s m e) as (q & Hs & Hq & Hr); [fold E; lia|].
    fold E in Hs, Hr. exists q. split; [|done]. rewrite Hd in Hs.
    by destruct (Z.leb_spec E e); [lia|].
  - destruct (binary_round_aux_pack s (Pos.iter xO m d) E) as (q & Hs & Hq & Hr).
    + rewrite digits_shift. replace (digits m + Z.pos d + E) with (digits m + e) by lia.
      fold E. lia.
    + rewrite digits_shift in Hs, Hr.
      replace (digits m + Z.pos d + E) with (digits m + e) in Hs, Hr by lia.
      fold E in Hs, Hr. exists q. rewrite Hr. split; [|done].
      destruct (Z.leb_spec E e); [|lia]. rewrite Z.sub_diag in Hs. destruct Hs as [_ Hs].
      rewrite Hs by (rewrite Z.pow_0_r; apply Z.mod_1_r).
      rewrite Z.pow_0_r, Z.div_1_r, shift_value. do 2 f_equal. lia.
Qed.

(** ** Canonical floats *)

Lemma bounded_spec m e :
  bounded PREC EMAX m e = true ↔
  Zpos m < 2 ^ 53 ∧ (e = EMIN ∨ 2 ^ 52 ≤ Zpos m) ∧ EMIN ≤ e ≤ 971.
Proof.
  unfold bounded, canonical_mantissa.
  rewrite andb_true_iff, Z.eqb_eq, Z.leb_le, fexp64_eq. fold (digits m).
  unfold fexp64. pose proof (digits_bounds m) as [Hl Hu]. split.
  - intros [H1 H2]. assert (digits m ≤ 53) as Hd by lia. split; [|split; [|lia]].
    + eapply Z.lt_le_trans; [exact Hu|]. apply Z.pow_le_mono_r; lia.
    + destruct (decide (e = EMIN)); [by left|right].
      assert (digits m = 53) as Hd' by lia. by rewrite Hd' in Hl.
  - intros (H1 & H2 & H3). pose proof (digits_le m 53 ltac:(lia) H1).
    destruct H2 as [->|H2]; [lia|]. pose proof (digits_ge m 52 ltac:(lia) H2). lia.
Qed.

(** Where the exact value lies at the canonical exponent. *)
Lemma quotient_normal s m e :
  let E := fexp64 (digits m + e) in
  ∃ q, 0 ≤ q ≤ 2 ^ 53 ∧ binary_round PREC EMAX s m e = pack s q E ∧
       (E = EMIN ∨ 2 ^ 52 ≤ q) ∧
       (if Z.leb E e then q = Zpos m * 2 ^ (e - E) else scaled (Zpos m) (E - e) q).
Proof.
  cbv zeta. destruct (binary_round_pack s m e) as (q & Hs & Hq & Hr).
  exists q. do 2 (split; [done|]). split; [|done].
  set (E := fexp64 (digits m + e)) in *.
  destruct (decide (E = EMIN)) as [|HE]; [by left|right].
  assert (E = digits m + e - 53) as HE' by (subst E; unfold fexp64 in *; lia).
  pose proof (digits_bounds m) as [Hl _].
  destruct (Z.leb_spec E e) as [He|He].
  - subst q. etransitivity; [|apply Z.mul_le_mono_nonneg_r; [lia|exact Hl]].
    rewrite <- Z.pow_add_r by (unfold digits in *; lia).
    apply Z.pow_le_mono_r; lia.
  - destruct Hs as [[Hs _] _]. etransitivity; [|exact Hs].
    apply Z.div_le_lower_bound; [apply Z.pow_pos_nonneg; lia|].
    etransitivity; [|exact Hl]. rewrite <- Z.pow_add_r by lia.
    apply Z.pow_le_mono_r; lia.
Qed.

Lemma pack_valid s q E :
  0 ≤ q ≤ 2 ^ 53 → EMIN ≤ E → (E = EMIN ∨ 2 ^ 52 ≤ q) → valid (pack s q E).
Proof.
  intros Hq HE Hn. unfold valid. destruct q as [|p|p]; [done| |lia].
  unfold pack. destruct (Z.eqb_spec (Zpos p) (2 ^ 53)).
  - destruct (Z.leb_spec (E + 1) 971); [|done]. apply bounded_spec. lia.
  - destruct (Z.leb_spec E 971); [|done]. apply bounded_spec. lia.
Qed.

Lemma fexp64_min e : EMIN ≤ fexp64 e.
Proof. unfold fexp64. lia. Qed.

Lemma binary_round_valid s m e : valid (binary_round PREC EMAX s m e).
Proof.
  destruct (quotient_normal s m e) as (q & Hq & -> & Hn & _).
  by apply pack_valid; [|apply fexp64_min|].
Qed.

Lemma fleb_pos m1 e1 m2 e2 :
  e1 < e2 ∨ e1 = e2 ∧ Zpos m1 ≤ Zpos m2 →
  fleb (S754_finite false m1 e1) (S754_finite false m2 e2) = true.
Proof.
  intros H. apply fleb_spec. unfold key_rel. simpl.
  destruct (decide (e1 = e2 ∧ m1 = m2)) as [[-> ->]|]; [by right|left].
  destruct (decide (m1 = m2)); lia.
Qed.

Lemma pack_ge m e q E :
  0 ≤ q ≤ 2 ^ 53 → (e < E ∧ 2 ^ 52 ≤ q) ∨ (e = E ∧ Zpos m ≤ q) →
  fleb (S754_finite false m e) (pack false q E) = true.
Proof.
  intros Hq H. destruct q as [|p|p]; [lia| |lia]. unfold pack.
  destruct (Z.eqb_spec (Zpos p) (2 ^ 53)), (Z.leb_spec (E + 1) 971), (Z.leb_spec E 971);
    try done; apply fleb_pos; lia.
Qed.

Lemma pack_le m e q E :
  bounded PREC EMAX m e = true → 0 ≤ q ≤ 2 ^ 53 →
  EMIN ≤ E → E < e ∨ (e = E ∧ q ≤ Zpos m) →
  fleb (pack false q E) (S754_finite false m e) = true.
Proof.
  intros Hb%bounded_spec Hq HE H. destruct q as [|p|p]; [done| |lia]. unfold pack.
  destruct (Z.eqb_spec (Zpos p) (2 ^ 53)), (Z.leb_spec (E + 1) 971), (Z.leb_spec E 971);
    try done; try lia; apply fleb_pos; lia.
Qed.

(** ** Rounding is monotone against representable numbers *)

Lemma canonical_exp m e : bounded PREC EMAX m e = true → fexp64 (digits m + e) = e.
Proof.
  unfold bounded, canonical_mantissa. rewrite andb_true_iff, Z.eqb_eq. by intros [? _].
Qed.

Lemma fexp64_mono a b : a ≤ b → fexp64 a ≤ fexp64 b.
Proof. unfold fexp64. lia. Qed.

Lemma digits_mono mx ex m e :
  e ≤ ex → Zpos mx * 2 ^ (ex - e) ≤ Zpos m → digits mx + ex ≤ digits m + e.
Proof.
  intros He H. pose proof (digits_bounds mx) as [Hl _].
  pose proof (digits_bounds m) as [_ Hu].
  assert (2 ^ (digits mx - 1 + (ex - e)) < 2 ^ digits m) as Hlt.
  { rewrite Z.pow_add_r by (unfold digits; lia).
    assert (0 < 2 ^ (ex - e)) by (apply Z.pow_pos_nonneg; lia). nia. }
  apply Z.pow_lt_mono_r_iff in Hlt; unfold digits in *; lia.
Qed.

Lemma digits_mono_le mx ex m e :
  e ≤ ex → Zpos m ≤ Zpos mx * 2 ^ (ex - e) → digits m + e ≤ digits mx + ex.
Proof.
  intros He H. pose proof (digits_bounds mx) as [_ Hu].
  pose proof (digits_bounds m) as [Hl _].
  assert (2 ^ (digits m - 1) < 2 ^ (digits mx + (ex - e))) as Hlt.
  { rewrite (Z.pow_add_r 2 (digits mx)) by (unfold digits; lia).
    assert (0 < 2 ^ (ex - e)) by (apply Z.pow_pos_nonneg; lia). nia. }
  apply Z.pow_lt_mono_r_iff in Hlt; unfold digits in *; lia.
Qed.

Lemma round_lb mx ex m e :
  bounded PREC EMAX mx ex = true → e ≤ ex → Zpos mx * 2 ^ (ex - e) ≤ Zpos m →
  fleb (S754_finite false mx ex) (binary_round PREC EMAX false m e) = true.
Proof.
  intros Hb He H. destruct (quotient_normal false m e) as (q & Hq & -> & Hn & Hs).
  pose proof (fexp64_mono _ _ (digits_mono _ _ _ _ He H)) as HE.
  rewrite (canonical_exp _ _ Hb) in HE. apply bounded_spec in Hb.
  set (E := fexp64 (digits m + e)) in *. apply pack_ge; [done|].
  destruct (decide (ex = E)) as [->|]; [right|left; lia]. split; [done|].
  destruct (Z.leb_spec E e) as [He'|He'].
  - assert (E = e) as HEe by lia. rewrite HEe, Z.sub_diag, Z.pow_0_r in *. lia.
  - destruct Hs as [[Hs _] _]. etransitivity; [|exact Hs].
    apply Z.div_le_lower_bound; [apply Z.pow_pos_nonneg; lia|lia].
Qed.

Lemma round_ub mx ex m e :
  bounded PREC EMAX mx ex = true → e ≤ ex → Zpos m ≤ Zpos mx * 2 ^ (ex - e) →
  fleb (binary_round PREC EMAX false m e) (S754_finite false mx ex) = true.
Proof.
  intros Hb He H. destruct (quotient_normal false m e) as (q & Hq & -> & Hn & Hs).
  pose proof (fexp64_mono _ _ (digits_mono_le _ _ _ _ He H)) as HE.
  rewrite (canonical_exp _ _ Hb) in HE.
  pose proof (fexp64_min (digits m + e)) as Hmin.
  set (E := fexp64 (digits m + e)) in *. apply pack_le; try done.
  destruct (decide (ex = E)) as [->|]; [right|left; lia]. split; [done|].
  destruct (Z.leb_spec E e) as [He'|He'].
  - assert (E = e) as HEe by lia. rewrite HEe, Z.sub_diag, Z.pow_0_r in *. lia.
  - destruct Hs as [[_ Hu] Hex].
    assert (0 < 2 ^ (E - e)) as Hp by (apply Z.pow_pos_nonneg; lia).
    assert (Z.pos m / 2 ^ (E - e) ≤ Zpos mx) as Hle
      by (apply Z.div_le_upper_bound; lia).
    destruct (decide (Z.pos m / 2 ^ (E - e) = Zpos mx)) as [Heq|]; [|lia].
    rewrite Hex; [lia|]. pose proof (Z.mod_pos_bound (Zpos m) (2 ^ (E - e)) Hp).
    pose proof (Z.div_mod (Zpos m) (2 ^ (E - e)) ltac:(lia)). nia.
Qed.

(** ** Addition and subtraction of a nonnegative number *)

Lemma shl_align_value m e ez :
  ez ≤ e → Zpos (fst (shl_align m e ez)) = Zpos m * 2 ^ (e - ez).
Proof.
  intros H. unfold shl_align. destruct (ez - e) as [|d|d] eqn:Hd; [|lia|]; simpl.
  - replace (e - ez) with 0 by lia. lia.
  - rewrite shift_value. do 2 f_equal. lia.
Qed.

Lemma fleb_refl f : is_nan f = false → fleb f f = true.
Proof. intros. apply not_ltb_leb; auto using fltb_irrefl. Qed.

(** Adding a nonnegative number never decreases. *)
Lemma fadd_mono x y :
  valid x → fnonneg x → fnonneg y → fleb x (fadd x y) = true.
Proof.
  intros Hv Hx Hy. pose proof (fadd_nonneg x y Hx Hy) as Hs.
  rewrite fnonneg_spec in Hx, Hy.
  destruct x as [[]|[]| |[] mx ex], y as [[]|[]| |[] my ey]; try done;
    try (by apply fleb_refl).
  unfold fadd, SFadd, cond_Zopp, binary_normalize.
  set (ez := Z.min ex ey). rewrite <- Pos2Z.inj_add.
  apply round_lb; [done|lia|]. rewrite Pos2Z.inj_add, !shl_align_value by lia.
  assert (0 < 2 ^ (ey - ez)) by (apply Z.pow_pos_nonneg; lia). nia.
Qed.

Lemma fadd_comm x y : fadd x y = fadd y x.
Proof.
  destruct x as [[]|[]| |[] mx ex], y as [[]|[]| |[] my ey]; try done;
    unfold fadd, SFadd; by rewrite Z.min_comm, Z.add_comm.
Qed.

(** Subtracting a nonnegative number never increases. *)
Lemma fsub_mono x y :
  valid x → is_finite x = true → fnonneg x → fnonneg y → fleb (fsub x y) x = true.
Proof.
  intros Hv Hf Hx Hy. rewrite fnonneg_spec in Hx, Hy.
  destruct x as [[]|[]| |[] mx ex], y as [[]|[]| |[] my ey]; try done;
    try (by apply fleb_refl).
  unfold fsub, SFsub, cond_Zopp, binary_normalize.
  set (ez := Z.min ex ey).
  pose proof (shl_align_value mx ex ez ltac:(lia)) as Hmx.
  set (a := Zpos (fst (shl_align mx ex ez))) in *.
  destruct (a - Zpos (fst (shl_align my ey ez))) as [|d|d] eqn:Hd; [done| |].
  - apply round_ub; [done|lia|]. lia.
  - pose proof (binary_round_sign true d ez) as [Hn Hsg].
    destruct (binary_round PREC EMAX true d ez) as [[]|[]| |[] m e]; done.
Qed.

(** The order of canonical floats is the order of their values. *)
Lemma fleb_value mx ex my ey :
  bounded PREC EMAX mx ex = true → bounded PREC EMAX my ey = true →
  fleb (S754_finite false my ey) (S754_finite false mx ex) = true →
  let ez := Z.min ex ey in Zpos my * 2 ^ (ey - ez) ≤ Zpos mx * 2 ^ (ex - ez).
Proof.
  intros Hx%bounded_spec Hy%bounded_spec H%fleb_spec ez. unfold key_rel in H. simpl in H.
  destruct (decide (ey = ex)) as [->|Hne].
  - assert (Zpos my ≤ Zpos mx) by (destruct H as [|H]; [lia|by simplify_eq]).
    apply Z.mul_le_mono_nonneg_r; [apply Z.pow_nonneg|]; lia.
  - assert (ey < ex) by (destruct H as [|H]; [lia|by simplify_eq]).
    replace ez with ey by lia. rewrite Z.sub_diag, Z.pow_0_r.
    assert (2 ^ 1 ≤ 2 ^ (ex - ey)) by (apply Z.pow_le_mono_r; lia). nia.
Qed.

(** A difference with a number that is not larger is nonnegative. *)
Lemma fsub_ge x y :
  valid x → valid y → is_finite x = true → fnonneg y → fleb y x = true →
  fnonneg (fsub x y).
Proof.
  intros Hx Hy Hf Hn%fnonneg_spec H.
  destruct x as [[]|[]| |[] mx ex], y as [[]|[]| |[] my ey]; try done.
  unfold fsub, SFsub, cond_Zopp. apply binary_normalize_nonneg.
  pose proof (fleb_value mx ex my ey Hx Hy H) as Hle. cbv zeta in Hle.
  rewrite !shl_align_value by lia. lia.
Qed.

(** ** Validity is closed under the operations *)

Lemma fadd_valid x y : valid x → valid y → valid (fadd x y).
Proof.
  intros Hx Hy. destruct x as [[]|[]| |sx mx ex], y as [[]|[]| |sy my ey]; try done.
  unfold fadd, SFadd, binary_normalize.
  by case_match; [done|apply binary_round_valid..].
Qed.

Lemma fsub_valid x y : valid x → valid y → valid (fsub x y).
Proof.
  intros Hx Hy. destruct x as [[]|[]| |sx mx ex], y as [[]|[]| |sy my ey]; try done.
  unfold fsub, SFsub, binary_normalize.
  by case_match; [done|apply binary_round_valid..].
Qed.

Lemma f64_valid z : valid (f64 z).
Proof. destruct z; [done|apply binary_round_valid..]. Qed.

Lemma fabs_valid x : valid x → valid (fabs x).
Proof. by destruct x. Qed.

Lemma fmax_valid x y : valid x → valid y → valid (fmax x y).
Proof.
  destruct x as [[]|[]| |[] mx ex], y as [[]|[]| |[] my ey]; intros;
    unfold fmax; try case_match; done.
Qed.

Lemma fmin_valid x y : valid x → valid y → valid (fmin x y).
Proof. by destruct (fmin_cases x y) as [-> | ->]. Qed.

#[export] Hint Resolve fadd_valid fsub_valid f64_valid fabs_valid fmax_valid
  fmin_valid : cepheus.

(** ** Multiplication by a factor of at most one *)

Lemma binary_round_aux_eq s m e :
  0 ≤ fexp64 (digits m + e) - e →
  binary_round_aux PREC EMAX s (Zpos m) e loc_Exact = binary_round PREC EMAX s m e.
Proof.
  intros H. unfold binary_round, shl_align. rewrite fexp64_eq. fold (digits m).
  by destruct (fexp64 (digits m + e) - e); [| |lia].
Qed.

Lemma fmul_le mp ep x :
  2 ^ 52 ≤ Zpos mp → ep ≤ 0 → Zpos mp ≤ 2 ^ (- ep) →
  valid x → is_finite x = true → fnonneg x →
  let r := fmul (S754_finite false mp ep) x in valid r ∧ fnonneg r ∧ fleb r x = true.
Proof.
  intros Hm He Hle Hv Hf Hn r. subst r. pose proof Hn as Hs. rewrite fnonneg_spec in Hs.
  destruct x as [[]|[]| |[] mx ex]; try done.
  unfold fmul, SFmul, xorb. rewrite binary_round_aux_eq.
  2: { assert (53 ≤ digits (mp * mx)); [|unfold fexp64; lia].
       pose proof (digits_ge (mp * mx) 52 ltac:(lia)). nia. }
  split; [apply binary_round_valid|].
  split; [apply binary_normalize_nonneg with (m := Zpos (mp * mx)); lia|].
  apply round_ub; [done|lia|]. rewrite Pos2Z.inj_mul. replace (ex - (ep + ex)) with (- ep) by lia. nia.
Qed.

(** ** Truncation *)

Lemma ftrunc_nonneg f : fnonneg f → 0 ≤ ftrunc f.
Proof.
  intros H%fnonneg_spec. destruct f as [[]|[]| |[] m [|e|e]]; simpl; try done; try lia.
  apply Z.div_pos; [lia|]. apply Z.pow_pos_nonneg; lia.
Qed.

(** An integer of at most 53 bits bounds the truncations of what is below it. *)
Lemma ftrunc_ub f : valid f → fnonneg f → fleb f (f64 (2 ^ 53)) = true →
  is_finite f = true ∧ ftrunc f ≤ 2 ^ 53.
Proof.
  intros Hv Hn H. rewrite fnonneg_spec in Hn. change (f64 (2 ^ 53)) with (S754_finite false 4503599627370496 1) in H.
  destruct f as [[]|[]| |[] m e]; try done. split; [done|].
  apply (fleb_value _ 1 m e) in H; [|done|done]. cbv zeta in H.
  destruct e as [|e|e]; simpl ftrunc.
  - change (Z.min 1 0) with 0 in H. lia.
  - replace (Z.min 1 (Z.pos e)) with 1 in H by lia. rewrite Z.sub_diag, Z.pow_0_r in H.
    replace (Z.pos e) with (1 + (Z.pos e - 1)) by lia. rewrite Z.pow_add_r by lia. lia.
  - apply Z.div_le_upper_bound; [apply Z.pow_pos_nonneg; lia|].
    replace (Z.min 1 (Z.neg e)) with (Z.neg e) in H by lia.
    replace (Z.neg e - Z.neg e) with 0 in H by lia.
    rewrite Z.pow_0_r in H. replace (1 - Z.neg e) with (1 + Z.pos e) in H by lia.
    rewrite Z.pow_add_r in H by lia. change (- Z.neg e) with (Z.pos e). lia.
Qed.

Lemma f64_le_53 n : 0 ≤ n ≤ 2 ^ 53 → is_finite (f64 n) = true ∧ fleb (f64 n) (f64 (2 ^ 53)) = true.
Proof.
  intros Hn. assert (fleb (f64 n) (f64 (2 ^ 53)) = true) as H.
  { change (f64 (2 ^ 53)) with (S754_finite false 4503599627370496 1).
    unfold f64, binary_normalize. destruct n as [|n|n]; [done| |lia].
    apply round_ub; [done|lia|]. simpl. lia. }
  split; [|done]. by destruct (ftrunc_ub (f64 n) (f64_valid n) (f64_nonneg n (proj1 Hn)) H).
Qed.

(** The integer part of a fraction of a small integer. *)
Lemma rank_range mp ep n :
  2 ^ 52 ≤ Zpos mp → ep ≤ 0 → Zpos mp ≤ 2 ^ (- ep) → 0 ≤ n ≤ 2 ^ 53 →
  0 ≤ f64_to_int64 (fmul (S754_finite false mp ep) (f64 n)) ≤ 2 ^ 53.
Proof.
  intros H1 H2 H3 Hn. destruct (f64_le_53 n Hn) as [Hf Hle].
  destruct (fmul_le mp ep (f64 n) H1 H2 H3 (f64_valid n) Hf (f64_nonneg n (proj1 Hn))) as (Hv & Hr & Hr').
  set (r := fmul _ _) in *. destruct (ftrunc_ub r Hv Hr) as [Hfin Hub]; [by eapply fleb_trans|].
  pose proof (ftrunc_nonneg r Hr). unfold f64_to_int64, in_int64. rewrite Hfin. simpl.
  destruct (Z.leb_spec (-9223372036854775808) (ftrunc r)); [|lia].
  destruct (Z.ltb_spec (ftrunc r) 9223372036854775808); simpl; lia.
Qed.
