(* ===== verification/GoTime.v ===== *)
(** * time.Time and time.Duration

    An instant is the number of nanoseconds since the zero [time.Time]
    (January 1, year 1, UTC); a duration is an int64 number of nanoseconds.
    Only the operations the sources use are here, with the saturation of
    [Time.Sub] that the package documents. *)

From S2P Require Import Prelude Float64.

Local Open Scope Z_scope.

Abbreviation time := Z.
Abbreviation duration := Z.

Definition Nanosecond : duration := 1.
Definition Millisecond : duration := 1000000.
Definition Second : duration := 1000000000.

(** [time.Time{}]. *)
Definition zeroTime : time := 0.

Definition maxDuration : Z := 9223372036854775807.
Definition minDuration : Z := -9223372036854775808.

(** [t.Sub(u)] saturates at the largest and smallest duration. *)
Definition Sub (t u : time) : duration :=
  Z.max minDuration (Z.min maxDuration (t - u)).

Definition After (t u : time) : bool := Z.ltb u t.

(** [d.Seconds()]: whole seconds plus the fraction, both as float64. *)
Definition Seconds (d : duration) : float64 :=
  fadd (f64 (Z.quot d Second)) (fdiv (f64 (Z.rem d Second)) (f64 1000000000)).

(** Seconds between the zero instant and the Unix epoch. *)
Definition unixToInternal : Z := 62135596800.

Definition timeUnix (sec nsec : Z) : time := (sec + unixToInternal) * Second + nsec.
Definition Unix (t : time) : Z := t / Second - unixToInternal.
Definition NanosecondOf (t : time) : Z := t mod Second.

Lemma timeUnix_parts t : timeUnix (Unix t) (NanosecondOf t) = t.
Proof.
  unfold timeUnix, Unix, NanosecondOf, Second.
  pose proof (Z.div_mod t 1000000000 ltac:(lia)). lia.
Qed.

Lemma Sub_exact t u : minDuration ≤ t - u ≤ maxDuration → Sub t u = t - u.
Proof. unfold Sub, minDuration, maxDuration. lia. Qed.

Lemma Sub_range t u : minDuration ≤ Sub t u ≤ maxDuration.
Proof. unfold Sub, minDuration, maxDuration. lia. Qed.

Lemma Sub_nonneg t u : u ≤ t → 0 ≤ Sub t u.
Proof. unfold Sub, minDuration, maxDuration. lia. Qed.

Lemma f64_sign z : 0 ≤ z → sign_bit (f64 z) = false ∧ is_nan (f64 z) = false.
Proof.
  intros. destruct z; [done| |lia].
  pose proof (binary_round_sign false p 0) as [? ?]. done.
Qed.

Lemma Seconds_nonneg d : 0 ≤ d → fnonneg (Seconds d).
Proof.
  intros Hd. unfold Seconds, Second. apply fadd_nonneg.
  - apply f64_nonneg, Z.quot_pos; lia.
  - assert (0 ≤ Z.rem d 1000000000) as Hr by (apply Z.rem_nonneg; lia).
    destruct (f64_sign _ Hr) as [Hs Hn].
    apply fdiv_nonneg; try done. by apply fdiv_not_nan.
Qed.
