(* ===== verification/Float64Mag.v ===== *)
(** * Magnitudes

    How large the result of a float operation can be.  [below k f] says that
    [f] is finite and smaller than [2^k] in absolute value; it follows an
    operation through rounding, so that a computation on bounded inputs is
    known not to overflow.  Division also gives a valid float whatever the
    operands. *)

From S2P Require Import Prelude Float64 Float64Round GoTime.
From Stdlib Require Import SpecFloat.

Local Open Scope Z_scope.

Lemma Zdigits2_bounds m : 0 ≤ m → m < 2 ^ Zdigits2 m ∧ (0 < m → 2 ^ (Zdigits2 m - 1) ≤ m).
Proof.
  intros Hm. destruct m as [|p|p]; [split; simpl; lia| |lia].
  pose proof (digits_bounds p) as [H1 H2]. done.
Qed.

Lemma Zdigits2_nonneg m : 0 ≤ m → 0 ≤ Zdigits2 m.
Proof. destruct m; simpl; lia. Qed.

Lemma Zdigits2_le m d : 0 ≤ d → 0 ≤ m < 2 ^ d → Zdigits2 m ≤ d.
Proof. intros Hd Hm. destruct m as [|p|p]; [done| |lia]. apply (digits_le p d); lia. Qed.

Lemma shr_iter_m n mrs :
  0 ≤ shr_m mrs → shr_m (Nat.iter n shr_1 mrs) = shr_m mrs / 2 ^ Z.of_nat n.
Proof.
  intros Hm. induction n as [|n IH]; simpl Nat.iter; [by rewrite Z.div_1_r|].
  assert (0 < 2 ^ Z.of_nat n) by (apply Z.pow_pos_nonneg; lia).
  rewrite shr_1_div by (rewrite IH; apply Z.div_pos; lia).
  rewrite IH, Nat2Z.inj_succ, Z.pow_succ_r, Z.div_div by lia. f_equal. lia.
Qed.

(** The first shift of a rounding, with any bits already lost below. *)
Lemma shr_fexp_quotient m e l :
  let E := fexp64 (Zdigits2 m + e) in
  0 ≤ m → e ≤ E →
  let '(mrs, e1) := shr_fexp PREC EMAX m e l in
  e1 = E ∧ m / 2 ^ (E - e) ≤ round_nearest_even (shr_m mrs) (loc_of_shr_record mrs) ≤ m / 2 ^ (E - e) + 1.
Proof.
  cbv zeta. intros Hm HE. unfold shr_fexp, shr. rewrite fexp64_eq.
  set (E := fexp64 (Zdigits2 m + e)) in *.
  assert (shr_m (shr_record_of_loc m l) = m) as Hl by (by destruct l as [|[]]).
  destruct (E - e) as [|n|n] eqn:En; [| |lia].
  - split; [lia|]. rewrite Z.pow_0_r, Z.div_1_r. rewrite Hl. apply round_nearest_even_bounds.
  - split; [lia|]. rewrite iter_pos_nat.
    pose proof (shr_iter_m (Pos.to_nat n) (shr_record_of_loc m l) ltac:(lia)) as Hi.
    rewrite positive_nat_Z, Hl in Hi. rewrite <- Hi. apply round_nearest_even_bounds.
Qed.

Lemma binary_round_aux_any s m e l :
  let E := fexp64 (Zdigits2 m + e) in
  0 ≤ m → e ≤ E →
  ∃ q, 0 ≤ q ≤ 2 ^ 53 ∧ (E = EMIN ∨ 2 ^ 52 ≤ q) ∧ binary_round_aux PREC EMAX s m e l = pack s q E.
Proof.
  cbv zeta. intros Hm HE. pose proof (shr_fexp_quotient m e l Hm HE) as H. unfold binary_round_aux.
  set (E := fexp64 (Zdigits2 m + e)) in *.
  destruct (shr_fexp PREC EMAX m e l) as [mrs e1]. destruct H as [-> [Hl Hu]].
  set (q := round_nearest_even _ _) in *. exists q.
  assert (0 < 2 ^ (E - e)) as Hp by (apply Z.pow_pos_nonneg; lia).
  pose proof (Z.div_pos m (2 ^ (E - e)) Hm Hp) as Hq0.
  destruct (Zdigits2_bounds m Hm) as [Hb1 Hb2]. pose proof (Zdigits2_nonneg m Hm) as Hd.
  assert (m / 2 ^ (E - e) < 2 ^ 53) as Hlt.
  { apply Z.div_lt_upper_bound; [done|]. rewrite <- Z.pow_add_r by lia.
    eapply Z.lt_le_trans; [exact Hb1|]. apply Z.pow_le_mono_r; [lia|]. subst E. unfold fexp64. lia. }
  assert (0 ≤ q ≤ 2 ^ 53) as Hq by lia. split; [done|]. split.
  - destruct (decide (E = EMIN)) as [|HEm]; [by left|right].
    assert (E = Zdigits2 m + e - 53) as HE' by (subst E; unfold fexp64 in *; lia).
    etransitivity; [|exact Hl]. apply Z.div_le_lower_bound; [done|].
    rewrite <- Z.pow_add_r by lia. assert (0 < m) as Hm0 by (destruct m; simpl in *; lia).
    etransitivity; [|by apply Hb2]. apply Z.pow_le_mono_r; lia.
  - apply (shr_fexp_pack s q E Hq). subst E. unfold fexp64. lia.
Qed.

(** ** Bounds on the exponent *)

Definition below (k : Z) (f : float64) : Prop :=
  match f with
  | S754_zero _ => True
  | S754_finite _ m e => digits m + e ≤ k
  | _ => False
  end.

Lemma below_finite k f : below k f → is_finite f = true.
Proof. by destruct f. Qed.

Lemma below_mono k k' f : below k f → k ≤ k' → below k' f.
Proof. destruct f; simpl; try done. lia. Qed.

Lemma below_neg k f : below k (fneg f) ↔ below k f.
Proof. by destruct f. Qed.

Lemma pack_below s q E k : 0 ≤ q ≤ 2 ^ 53 → E + 54 ≤ k → k ≤ 1024 → below k (pack s q E).
Proof.
  intros Hq HE Hk. destruct q as [|p|p]; [done| |lia]. unfold pack.
  destruct (Z.eqb_spec (Zpos p) (2 ^ 53)).
  - destruct (Z.leb_spec (E + 1) 971); [|lia]. unfold below.
    change (digits 4503599627370496) with 53. lia.
  - destruct (Z.leb_spec E 971); [|lia]. simpl.
    pose proof (digits_le p 53 ltac:(lia) ltac:(lia)). lia.
Qed.

Lemma round_below s m e k : digits m + e + 1 ≤ k → -1020 ≤ k ≤ 1024 → below k (binary_round PREC EMAX s m e).
Proof.
  intros Hm Hk. destruct (binary_round_pack s m e) as (q & _ & Hq & ->).
  apply pack_below; [done| |lia]. unfold fexp64. lia.
Qed.

Lemma normalize_below m e z k d :
  0 ≤ d → Z.abs m < 2 ^ d → d + e + 1 ≤ k → -1020 ≤ k ≤ 1024 → below k (binary_normalize PREC EMAX m e z).
Proof.
  intros Hd Hm He Hk. destruct m as [|p|p]; [done|..].
  all: apply round_below; [|done]; pose proof (digits_le p d Hd ltac:(lia)); lia.
Qed.

Lemma f64_below z d : 0 ≤ d ≤ 1000 → Z.abs z < 2 ^ d → below (d + 1) (f64 z).
Proof. intros Hd Hz. apply (normalize_below z 0 false (d + 1) d); lia. Qed.

Lemma align_lt m e ez k : ez ≤ e → digits m + e ≤ k → Zpos (fst (shl_align m e ez)) < 2 ^ (k - ez).
Proof.
  intros He Hk. rewrite shl_align_value by done. pose proof (digits_bounds m) as [_ Hb].
  eapply Z.lt_le_trans; [apply Z.mul_lt_mono_pos_r; [apply Z.pow_pos_nonneg; lia|exact Hb]|].
  rewrite <- Z.pow_add_r by (unfold digits; lia). apply Z.pow_le_mono_r; lia.
Qed.

Lemma fadd_below k x y : -1000 ≤ k ≤ 1000 → below k x → below k y → below (k + 2) (fadd x y).
Proof.
  intros Hk Hx Hy. destruct x as [sx|sx| |sx mx ex], y as [sy|sy| |sy my ey]; try done.
  - by destruct sx, sy.
  - simpl in *. lia.
  - simpl in *. lia.
  - unfold fadd, SFadd, below in Hx, Hy |- *. set (ez := Z.min ex ey).
    pose proof (align_lt mx ex ez k ltac:(lia) Hx) as Hmx.
    pose proof (align_lt my ey ez k ltac:(lia) Hy) as Hmy.
    assert (0 < digits mx ∧ 0 < digits my) by (unfold digits; lia).
    apply (normalize_below _ ez _ (k + 2) (k - ez + 1)); [lia| |lia|lia].
    rewrite Z.pow_add_r by lia. destruct sx, sy; simpl cond_Zopp; lia.
Qed.

(** ** Multiplication *)

Lemma digits_mul a b : digits a + digits b - 1 ≤ digits (a * b) ≤ digits a + digits b.
Proof.
  pose proof (digits_bounds a) as [Ha1 Ha2]. pose proof (digits_bounds b) as [Hb1 Hb2].
  assert (0 < digits a ∧ 0 < digits b) as [Hda Hdb] by (unfold digits; lia). split.
  - cut (digits a + digits b - 2 < digits (a * b)); [lia|]. apply digits_ge; [lia|].
    replace (digits a + digits b - 2) with ((digits a - 1) + (digits b - 1)) by lia.
    rewrite Z.pow_add_r, Pos2Z.inj_mul by lia. apply Z.mul_le_mono_nonneg; lia.
  - apply digits_le; [lia|]. rewrite Z.pow_add_r, Pos2Z.inj_mul by lia.
    apply Z.mul_lt_mono_nonneg; lia.
Qed.

Lemma fmul_below j k x y :
  valid x → valid y → below j x → below k y → -1020 ≤ j + k + 1 ≤ 1024 → below (j + k + 1) (fmul x y).
Proof.
  intros Hvx Hvy Hx Hy Hk. destruct x as [sx|sx| |sx mx ex], y as [sy|sy| |sy my ey]; try done.
  unfold fmul, SFmul, below in Hx, Hy |- *. pose proof (digits_mul mx my) as [H1 H2].
  apply bounded_spec in Hvx as (? & Hx2 & ?), Hvy as (? & Hy2 & ?).
  destruct (binary_round_aux_any (xorb sx sy) (Zpos (mx * my)) (ex + ey) loc_Exact) as (q & Hq & _ & ->).
  - lia.
  - change (Zdigits2 (Z.pos (mx * my))) with (digits (mx * my)). unfold fexp64.
    assert (0 < digits mx ∧ 0 < digits my) by (unfold digits; lia).
    destruct Hx2 as [?|Hx2%digits_ge]; [|lia|]; destruct Hy2 as [?|Hy2%digits_ge]; try lia.
  - change (Zdigits2 (Z.pos (mx * my))) with (digits (mx * my)).
    apply pack_below; [done|unfold fexp64; lia|lia].
Qed.

(** ** Division *)

(** The quotient of two mantissas: it is not too short for the exponent it
    comes with, and not longer than the operands allow. *)
Lemma SFdiv_core_digits mx ex my ey :
  let '(q, e, _) := SFdiv_core_binary PREC EMAX (Zpos mx) ex (Zpos my) ey in
  0 ≤ q ∧ e ≤ fexp64 (Zdigits2 q + e) ∧ Zdigits2 q + e ≤ Z.max e (digits mx + ex - (digits my + ey) + 1).
Proof.
  unfold SFdiv_core_binary. rewrite fexp64_eq. simpl Zdigits2.
  fold (digits mx) (digits my). set (D := digits mx + ex - (digits my + ey)).
  set (e := Z.min (fexp64 D) (ex - ey)). set (s := ex - ey - e).
  assert (0 ≤ s) as Hs by lia.
  assert (match s with Z0 => Zpos mx | Zpos _ => Z.shiftl (Zpos mx) s | Zneg _ => 0 end = Zpos mx * 2 ^ s) as ->.
  { destruct s as [|p|p] eqn:Es; [lia| |lia]. by rewrite Z.shiftl_mul_pow2 by lia. }
  pose proof (digits_bounds mx) as [Hx1 Hx2]. pose proof (digits_bounds my) as [Hy1 Hy2].
  assert (0 < digits mx ∧ 0 < digits my) as [Hdx Hdy] by (unfold digits; lia).
  assert (0 < 2 ^ s) as Hps by (apply Z.pow_pos_nonneg; lia).
  set (a := Zpos mx * 2 ^ s).
  assert (2 ^ (digits mx - 1 + s) ≤ a < 2 ^ (digits mx + s)) as [Ha1 Ha2].
  { unfold a. rewrite !Z.pow_add_r by lia. nia. }
  pose proof (Z.div_pos a (Zpos my) ltac:(lia) ltac:(lia)) as Hq0.
  assert (Zdigits2 (a / Zpos my) ≤ Z.max 0 (digits mx + s - digits my + 1)) as Hhi.
  { apply Zdigits2_le; [lia|]. split; [done|]. apply Z.div_lt_upper_bound; [lia|].
    eapply Z.lt_le_trans; [exact Ha2|].
    etransitivity; [|apply Z.mul_le_mono_nonneg_r; [apply Z.pow_nonneg; lia|exact Hy1]].
    rewrite <- Z.pow_add_r by lia. apply Z.pow_le_mono_r; lia. }
  assert (digits mx + s - digits my ≤ Zdigits2 (a / Zpos my)) as Hlo.
  { destruct (Zdigits2_bounds _ Hq0) as [Hb _]. pose proof (Zdigits2_nonneg _ Hq0).
    destruct (Z.le_gt_cases (digits mx + s - digits my) 0); [lia|].
    cut (digits mx + s - digits my - 1 < Zdigits2 (a / Zpos my)); [lia|].
    apply (Z.pow_lt_mono_r_iff 2); [lia|done|]. eapply Z.le_lt_trans; [|exact Hb].
    apply Z.div_le_lower_bound; [lia|]. etransitivity; [|exact Ha1].
    etransitivity; [apply Z.mul_le_mono_nonneg_r; [apply Z.pow_nonneg; lia|apply Z.lt_le_incl, Hy2]|].
    rewrite <- Z.pow_add_r by lia. apply Z.pow_le_mono_r; lia. }
  unfold Z.div in *. destruct (Z.div_eucl a (Zpos my)) as [q r]. split; [done|]. split; [|lia].
  etransitivity; [|apply fexp64_mono; instantiate (1 := D); lia]. lia.
Qed.

Lemma fdiv_pack sx mx ex sy my ey :
  ∃ q E, 0 ≤ q ≤ 2 ^ 53 ∧ EMIN ≤ E ∧ (E = EMIN ∨ 2 ^ 52 ≤ q) ∧
    E ≤ Z.max EMIN (digits mx + ex - (digits my + ey) - 52) ∧
    fdiv (S754_finite sx mx ex) (S754_finite sy my ey) = pack (xorb sx sy) q E.
Proof.
  pose proof (SFdiv_core_digits mx ex my ey) as H. unfold fdiv, SFdiv.
  destruct (SFdiv_core_binary _ _ _ _ _ _) as [[m e] l] eqn:Ec. destruct H as (H1 & H2 & H3).
  destruct (binary_round_aux_any (xorb sx sy) m e l H1 H2) as (q & Hq & Hn & ->).
  exists q, (fexp64 (Zdigits2 m + e)). do 3 (split; [done || apply fexp64_min|]). split; [|done].
  assert (e ≤ fexp64 (digits mx + ex - (digits my + ey))) as He.
  { unfold SFdiv_core_binary in Ec. destruct (Z.div_eucl _ _) in Ec. simplify_eq.
    rewrite fexp64_eq. simpl Zdigits2. unfold digits. lia. }
  unfold fexp64 in *. lia.
Qed.

Lemma fdiv_valid x y : valid (fdiv x y).
Proof.
  destruct x as [[]|[]| |sx mx ex], y as [[]|[]| |sy my ey]; try done.
  destruct (fdiv_pack sx mx ex sy my ey) as (q & E & Hq & HE & Hn & _ & ->). by apply pack_valid.
Qed.

(** A divisor of at least one never enlarges beyond a rounding. *)
Lemma fdiv_below k x sy my ey :
  -1000 ≤ k ≤ 1000 → below k x → 1 ≤ digits my + ey → below (k + 1) (fdiv x (S754_finite sy my ey)).
Proof.
  intros Hk Hx Hy. destruct x as [sx|sx| |sx mx ex]; try done. simpl in Hx.
  destruct (fdiv_pack sx mx ex sy my ey) as (q & E & Hq & _ & _ & HE & ->). apply pack_below; lia.
Qed.

#[export] Hint Resolve fdiv_valid : cepheus.

(** ** Durations *)

Lemma Seconds_valid d : valid (Seconds d).
Proof. unfold Seconds. auto with cepheus. Qed.

(** A duration is less than [2^37] seconds, whatever its sign. *)
Lemma Seconds_below d : minDuration ≤ d ≤ maxDuration → below 37 (Seconds d).
Proof.
  unfold minDuration, maxDuration. intros Hd. unfold Seconds.
  pose proof (Z.rem_bound_abs d Second ltac:(done)) as Hb. pose proof (Z.quot_rem' d Second) as Hqr.
  unfold Second in *.
  assert (Z.abs (Z.quot d 1000000000) < 2 ^ 34) as Hq by lia.
  assert (Z.abs (Z.rem d 1000000000) < 2 ^ 30) as Hr by lia.
  apply (fadd_below 35); [lia|exact (f64_below _ 34 ltac:(lia) Hq)|].
  change (f64 1000000000) with (S754_finite false 8388608000000000 (-23)).
  eapply below_mono; [apply (fdiv_below 31); [lia|exact (f64_below _ 30 ltac:(lia) Hr)|]|lia].
  vm_compute. discriminate.
Qed.
