(* ===== verification/LeakyBucket.v ===== *)
(** * The leaky bucket (services/argus/leaky_bucket.go)

    The score a policy keeps per series: [Add] folds a finding into it,
    [Decay] lets time pass.  Scores are float64 with the source's operation
    order; the theorems say that the two threshold edges exclude each other,
    that scores stay nonnegative, that a finding never lowers the decayed score
    and that time never raises it. *)

From S2P Require Import Prelude Float64 Float64Round GoTime.

Local Open Scope Z_scope.

Module LeakyBucket.

Record LeakyBucketConfiguration := {
  OpenThreshold : float64;
  CloseThreshold : float64;
  DecayPerSecond : float64;
  BaseContribution : float64;
  MagnitudeAlpha : float64;
}.

Record BucketState := { Score : float64; ScoreUpdatedAt : time }.

Record BucketUpdate := {
  NewState : BucketState;
  Contribution : float64;
  CrossedOpen : bool;
  CrossedClose : bool;
}.

(** [math.Max(0, state.Score - DecayPerSecond*elapsed)], shared by both. *)
Definition decayed (cfg : LeakyBucketConfiguration) (state : BucketState) (ts : time) : float64 :=
  let elapsed := Seconds (Sub ts (ScoreUpdatedAt state)) in
  fmax fzero (fsub (Score state) (fmul (DecayPerSecond cfg) elapsed)).

Definition Add (cfg : LeakyBucketConfiguration) (state : BucketState)
    (value : float64) (ts : time) : BucketUpdate :=
  let d := decayed cfg state ts in
  let contribution := fabs value in
  let newScore := fadd d contribution in
  {| NewState := {| Score := newScore; ScoreUpdatedAt := ts |};
     Contribution := contribution;
     CrossedOpen := fltb d (OpenThreshold cfg) && fleb (OpenThreshold cfg) newScore;
     CrossedClose := fleb (CloseThreshold cfg) d && fltb newScore (CloseThreshold cfg) |}.

Definition Decay (cfg : LeakyBucketConfiguration) (state : BucketState) (ts : time) : BucketUpdate :=
  let d := decayed cfg state ts in
  {| NewState := {| Score := d; ScoreUpdatedAt := ts |};
     Contribution := fzero;
     CrossedOpen := false;
     CrossedClose := fleb (CloseThreshold cfg) (Score state) && fltb d (CloseThreshold cfg) |}.

(** The configuration [Argus.Start] builds. *)
Definition defaultConfig : LeakyBucketConfiguration :=
  {| OpenThreshold := f64 5; CloseThreshold := f64 3;
     DecayPerSecond := fconst 1 10; BaseContribution := f64 1;
     MagnitudeAlpha := fconst 12 10 |}.

(** ** Scores *)

(** What leaks between two instants. *)
Definition leak (cfg : LeakyBucketConfiguration) (state : BucketState) (ts : time) : float64 :=
  fmul (DecayPerSecond cfg) (Seconds (Sub ts (ScoreUpdatedAt state))).

(** A usable rate: a positive, finite, ordinary number. *)
Definition rate_ok (cfg : LeakyBucketConfiguration) : Prop :=
  is_finite (DecayPerSecond cfg) = true ∧ fltb fzero (DecayPerSecond cfg) = true.

Lemma fmul_not_nan x y :
  is_finite x = true → fltb fzero x = true → is_nan y = false →
  is_nan (fmul x y) = false.
Proof.
  intros Hf Hx Hy.
  destruct x as [[]|[]| |[] mx ex], y as [[]|[]| |[] my ey]; try done;
    by apply binary_round_aux_sign.
Qed.

Lemma leak_nonneg cfg st ts :
  rate_ok cfg → ScoreUpdatedAt st ≤ ts → fnonneg (leak cfg st ts).
Proof.
  intros [Hf Hp] Ht.
  assert (fnonneg (Seconds (Sub ts (ScoreUpdatedAt st)))) as Hs
    by (by apply Seconds_nonneg, Sub_nonneg).
  apply fmul_nonneg; [by apply fltb_leb|done|].
  apply fmul_not_nan; auto with cepheus.
Qed.

Lemma fmax_zero_le x b : fnonneg b → fleb x b = true → fleb (fmax fzero x) b = true.
Proof.
  intros Hb Hx.
  destruct x as [[]|[]| |[] m e]; unfold fmax; try done; by try case_match.
Qed.

(** Clamping a difference at zero gives a valid float whatever is subtracted. *)
Lemma fmax_fsub_valid x l : valid x → fnonneg l → valid (fmax fzero (fsub x l)).
Proof.
  intros Hx Hl%fnonneg_spec.
  destruct x as [[]|[]| |sx mx ex], l as [[]|[]| |[] ml el];
    try done; try (by destruct sx).
  apply fmax_valid; [done|]. unfold fsub, SpecFloat.SFsub, SpecFloat.binary_normalize.
  case_match; [done|apply binary_round_valid..].
Qed.

(** A bucket whose score is a finite nonnegative float. *)
Definition bucket_ok (st : BucketState) : Prop :=
  valid (Score st) ∧ is_finite (Score st) = true ∧ fnonneg (Score st).

Section Monotone.
Context (cfg : LeakyBucketConfiguration) (st : BucketState) (ts : time).
Context (Hrate : rate_ok cfg) (Hst : bucket_ok st) (Hts : ScoreUpdatedAt st ≤ ts).

Lemma decayed_valid : valid (decayed cfg st ts).
Proof. apply fmax_fsub_valid; [apply Hst|by apply leak_nonneg]. Qed.

Lemma decayed_nonneg : fnonneg (decayed cfg st ts).
Proof.
  apply fmax_zero_nonneg, fsub_not_nan; [apply Hst|].
  by apply fnonneg_not_nan, leak_nonneg.
Qed.

Lemma decayed_le : fleb (decayed cfg st ts) (Score st) = true.
Proof.
  destruct Hst as (Hv & Hf & Hp). apply fmax_zero_le; [done|].
  apply fsub_mono; try done. by apply leak_nonneg.
Qed.

End Monotone.

(** ** Properties *)

(** [CrossedOpen] and [CrossedClose] are mutually exclusive for every
    configuration, state, value and instant, NaNs and infinities included. *)
Theorem crossings_exclusive cfg st v ts :
  CrossedOpen (Add cfg st v ts) && CrossedClose (Add cfg st v ts) = false ∧
  CrossedOpen (Decay cfg st ts) && CrossedClose (Decay cfg st ts) = false.
Proof.
  split; [|done]. unfold Add; simpl. set (d := decayed cfg st ts).
  apply not_true_is_false. rewrite !andb_true_iff. intros [[H1 H2] [H3 H4]].
  pose proof (fltb_leb_trans _ _ _ H1 H2) as H5.
  pose proof (fltb_leb_trans _ _ _ H4 H3) as H6.
  pose proof (fltb_trans _ _ _ H5 H6) as H7. by rewrite fltb_irrefl in H7.
Qed.

(** With a usable rate and time not running backwards, passing time never
    raises a score, a finding never lowers the decayed score, scores stay
    nonnegative, and [Add] never crosses the close threshold. *)
Theorem bucket_monotone cfg st v ts :
  rate_ok cfg → bucket_ok st → is_nan v = false → ScoreUpdatedAt st ≤ ts →
  let dec := Score (NewState (Decay cfg st ts)) in
  let add := Score (NewState (Add cfg st v ts)) in
  fleb dec (Score st) = true ∧ fleb dec add = true ∧
  fnonneg dec ∧ fnonneg add ∧ CrossedClose (Add cfg st v ts) = false.
Proof.
  intros Hr Hs Hv Ht. simpl.
  pose proof (decayed_valid cfg st ts Hr Hs Ht) as H1.
  pose proof (decayed_nonneg cfg st ts Hr Hs Ht) as H2.
  pose proof (fabs_nonneg v Hv) as H3.
  assert (fleb (decayed cfg st ts) (fadd (decayed cfg st ts) (fabs v)) = true)
    as H4 by (by apply fadd_mono).
  repeat split; auto with cepheus.
  - by apply decayed_le.
  - apply not_true_is_false. rewrite andb_true_iff. intros [H5 H6].
    pose proof (fltb_leb_trans _ _ _ H6 H5) as H7.
    pose proof (fltb_leb_trans _ _ _ H7 H4) as H8. by rewrite fltb_irrefl in H8.
Qed.

Lemma bucket_monotone_witness :
  rate_ok defaultConfig ∧
  fleb (Score (NewState (Decay defaultConfig {| Score := f64 7; ScoreUpdatedAt := 0 |} 5000000000)))
       (f64 7) = true.
Proof.
  split; [by split|].
  apply (bucket_monotone defaultConfig {| Score := f64 7; ScoreUpdatedAt := 0 |} (f64 4) 5000000000);
    [by split|by repeat split|reflexivity|simpl; lia].
Defined.

(** A finding stamped before the bucket's last update makes the score grow
    by the decay of the gap.  With the default configuration, an empty bucket
    last swept at [t] and a finding stamped a minute before [t], of any
    severity: the score ends at or above [OpenThreshold], yet the rising edge
    [CrossedOpen] is not reported, so the policy engine opens no event. *)
Theorem late_finding_inflates_score t v :
  is_nan v = false →
  let st := {| Score := fzero; ScoreUpdatedAt := t |} in
  let u := Add defaultConfig st v (t - 60 * Second) in
  fleb (OpenThreshold defaultConfig) (Score (NewState u)) = true ∧ CrossedOpen u = false.
Proof.
  intros Hv. unfold Add, decayed. cbn [CrossedOpen NewState Score ScoreUpdatedAt].
  rewrite Sub_exact by (unfold Second, minDuration, maxDuration; lia).
  replace (t - 60 * Second - t) with (- (60 * Second)) by lia.
  set (d := fmax _ _). assert (d = f64 6) as -> by reflexivity.
  split; [|reflexivity].
  apply (fleb_trans _ (f64 6)); [reflexivity|].
  apply fadd_mono; [reflexivity|reflexivity|by apply fabs_nonneg].
Qed.

Lemma late_finding_inflates_score_witness :
  CrossedOpen (Add defaultConfig {| Score := fzero; ScoreUpdatedAt := 90 * Second |}
                 (f64 4) (90 * Second - 60 * Second)) = false.
Proof. apply (late_finding_inflates_score (90 * Second) (f64 4)). reflexivity. Defined.

End LeakyBucket.
