(* ===== verification/Json.v ===== *)
(** * encoding/json

    Documents are modelled by their syntax tree.  A number literal carries its
    two readings (as an integer, when it is one, and as a float64); a string
    literal in RFC 3339 form is its instant, and the base64 text of a [[]byte]
    is its octets.  Decoding follows the package:
    it decodes into an existing value, [null] leaves the value alone, unknown
    keys are ignored, keys match case-insensitively, a repeated key overwrites,
    and a literal of the wrong type or out of range is an error.  Encoding
    fails on NaN, infinities and years outside 0..9999. *)

From S2P Require Import Prelude Float64 GoTime.
From Stdlib Require Import SpecFloat.

Local Open Scope Z_scope.

(** A [json.RawMessage] or [[]byte] is empty, not a document, or a document. *)
Inductive json :=
| JNull
| JBool (b : bool)
| JNum (i : option Z) (f : float64)
| JStr (s : string)
| JTime (t : time)
| JBytes (r : raw)
| JArr (l : list json)
| JObj (fs : list (string * json))
with raw :=
| RawEmpty
| RawBad
| RawDoc (j : json).

Definition raw_len_pos (r : raw) : bool :=
  match r with RawEmpty => false | _ => true end.

(** ** Encoding *)

(** The integer a printed float64 reads as, when it prints as an integer. *)
Definition float_int (f : float64) : option Z :=
  match f with
  | S754_zero _ => Some 0
  | S754_finite _ m e =>
      let integral := Z.leb 0 e || Z.eqb (Zpos m mod 2 ^ (- e)) 0 in
      if integral && Z.ltb (Z.abs (ftrunc f)) (10 ^ 21) then Some (ftrunc f) else None
  | _ => None
  end.

Definition enc_float (f : float64) : option json :=
  if is_finite f then Some (JNum (float_int f) f) else None.
Definition enc_int (z : Z) : json := JNum (Some z) (f64 z).

(** Year 10000 begins at this many nanoseconds. *)
Definition year10000 : time := 315537897600 * Second.

Definition enc_time (t : time) : option json :=
  if Z.leb 0 t && Z.ltb t year10000 then Some (JTime t) else None.

(** ** Decoding *)

Definition dec (A : Type) : Type := A → json → option A.

Definition dec_int (lo hi : Z) : dec Z := fun old j =>
  match j with
  | JNull => Some old
  | JNum (Some z) _ => if Z.leb lo z && Z.leb z hi then Some z else None
  | _ => None
  end.
Definition dec_int64 : dec Z := dec_int (-9223372036854775808) 9223372036854775807.
Definition dec_int32 : dec Z := dec_int (-2147483648) 2147483647.

Definition dec_float : dec float64 := fun old j =>
  match j with
  | JNull => Some old
  | JNum _ f => if is_finite f then Some f else None
  | _ => None
  end.

Definition dec_bool : dec bool := fun old j =>
  match j with JNull => Some old | JBool b => Some b | _ => None end.

Definition dec_string : dec string := fun old j =>
  match j with JNull => Some old | JStr s => Some s | _ => None end.

Definition dec_time : dec time := fun old j =>
  match j with JNull => Some old | JTime t => Some t | _ => None end.

(** [json.RawMessage] keeps the sub-document, [null] included. *)
Definition dec_raw : dec raw := fun _ j => Some (RawDoc j).

(** [[]byte] fields travel as base64 text, nil as [null]. *)
Definition dec_bytes : dec raw := fun _ j =>
  match j with JNull => Some RawEmpty | JBytes r => Some r | _ => None end.

Definition enc_bytes (r : raw) : json := match r with RawEmpty => JNull | _ => JBytes r end.

(** A slice: its elements are decoded into zero values. *)
Definition dec_list {A} (d : dec A) (zero : A) : dec (list A) := fun _ j =>
  match j with JNull => Some [] | JArr l => mapM (d zero) l | _ => None end.

Definition lower_ascii (a : Ascii.ascii) : Ascii.ascii :=
  let n := Ascii.nat_of_ascii a in
  if (Nat.leb 65 n && Nat.leb n 90)%bool then Ascii.ascii_of_nat (n + 32) else a.

Fixpoint lower (s : string) : string :=
  match s with
  | EmptyString => EmptyString
  | String a s' => String (lower_ascii a) (lower s')
  end.

Definition key_is (name k : string) : bool := String.eqb (lower k) (lower name).

(** A struct: [set a k j] stores the literal [j] under key [k], [Some a] when
    the key is unknown. *)
Fixpoint dec_fields {A} (set : A → string → json → option A) (a : A)
    (fs : list (string * json)) : option A :=
  match fs with
  | [] => Some a
  | (k, j) :: fs' =>
      match set a k j with
      | Some a' => dec_fields set a' fs'
      | None => None
      end
  end.

Definition dec_struct {A} (set : A → string → json → option A) : dec A := fun old j =>
  match j with
  | JNull => Some old
  | JObj fs => dec_fields set old fs
  | _ => None
  end.

(** [json.Unmarshal(r, &a)] with [a] holding [zero]. *)
Definition unmarshal {A} (d : dec A) (zero : A) (r : raw) : option A :=
  match r with
  | RawDoc j => d zero j
  | _ => None
  end.

(** ** What decoding keeps

    A decoder keeps a property when it gives values that have it to variables
    that have it. *)

Definition dec_keeps {A} (P : A → Prop) (d : dec A) : Prop := ∀ old j v, P old → d old j = Some v → P v.

Lemma dec_struct_keeps {A} (P : A → Prop) (set : A → string → json → option A) :
  (∀ a k j a', P a → set a k j = Some a' → P a') → dec_keeps P (dec_struct set).
Proof.
  intros Hs old j v Ho. destruct j as [| | | | | | |fs]; simpl; try done; [by intros [= <-]|].
  revert old Ho. induction fs as [|[k j] fs IH]; intros old Ho; simpl; [by intros [= <-]|].
  destruct (set old k j) as [a|] eqn:E; [|done]. apply IH. by eapply Hs.
Qed.

Lemma dec_list_keeps {A} (P : A → Prop) (d : dec A) zero :
  dec_keeps P d → P zero → dec_keeps (Forall P) (dec_list d zero).
Proof.
  intros Hd Hz old j v _. destruct j as [| | | | | |l|]; simpl; try done; [by intros [= <-]|].
  intros Hl%mapM_Some. induction Hl; constructor; [by eapply Hd|done].
Qed.

Lemma dec_int64_keeps : dec_keeps int64_ok dec_int64.
Proof.
  intros old j v Ho. unfold dec_int64, dec_int. destruct j as [| |o f| | | | |]; try done; [by intros [= <-]|].
  destruct o as [z|]; [|done]. case_match eqn:E; [|done]. intros [= <-].
  apply andb_true_iff in E as [?%Z.leb_le ?%Z.leb_le]. by split.
Qed.

(** ** Round trips *)

Lemma dec_enc_int64 old z :
  -9223372036854775808 ≤ z ≤ 9223372036854775807 →
  dec_int64 old (enc_int z) = Some z.
Proof.
  intros H. unfold dec_int64, dec_int, enc_int.
  destruct (Z.leb_spec (-9223372036854775808) z), (Z.leb_spec z 9223372036854775807);
    try lia. done.
Qed.

Lemma dec_enc_float old f j : enc_float f = Some j → dec_float old j = Some f.
Proof.
  unfold enc_float, dec_float. destruct (is_finite f) eqn:E; [|done].
  intros [= <-]. by rewrite E.
Qed.

Lemma dec_enc_time old t j : enc_time t = Some j → dec_time old j = Some t.
Proof. unfold enc_time. case_match; [|done]. by intros [= <-]. Qed.

Lemma dec_enc_bytes old r : dec_bytes old (enc_bytes r) = Some r.
Proof. by destruct r. Qed.

Lemma dec_enc_list {A} (d : dec A) zero (enc : A → option json) l js old :
  (∀ x j, x ∈ l → enc x = Some j → d zero j = Some x) →
  mapM enc l = Some js → dec_list d zero old (JArr js) = Some l.
Proof.
  intros Hd H%mapM_Some. apply mapM_Some. clear old.
  induction H as [|x j l js E H IH]; constructor; [apply Hd; [set_solver|done]|].
  apply IH. intros y j' Hy. apply Hd. set_solver.
Qed.

Lemma enc_float_finite f j : enc_float f = Some j → is_finite f = true.
Proof. unfold enc_float. by case_match. Qed.

#[export] Hint Resolve dec_enc_float dec_enc_time : cepheus.

(** Decode the next field of a struct, whose setter is [set], with the given
    equation. *)
Tactic Notation "json_field" constr(set) uconstr(H) :=
  cbn [dec_fields];
  match goal with
  | |- context [set ?a ?k ?j] =>
      let e := eval cbv beta iota delta [set] in (set a k j) in
      change (set a k j) with e
  end;
  repeat match goal with
  | |- context [key_is ?a ?b] =>
      let r := eval vm_compute in (key_is a b) in change (key_is a b) with r
  end;
  cbv iota; erewrite H by eauto; cbn [mbind option_bind].
