(* ===== verification/ArgusTypes.v ===== *)
(** * Argus: shared data (services/argus/types, libs/common)

    Series identities, findings and the values extractors hand to detectors. *)

From S2P Require Import Prelude Float64 GoTime Json.

Local Open Scope Z_scope.

(** [DetectorType] and [SeriesType] are string types with these constants. *)
Definition DetectorTypeEwma : string := "EWMA".
Definition DetectorTypeFreq : string := "FREQ".
Definition DetectorTypeBetaB : string := "BETA".
Definition DetectorTypeMdmt : string := "MDMT".

Definition SeriesTypeStamp : string := "STAMP".
Definition SeriesTypePing : string := "PING".
Definition SeriesTypeTrace : string := "TRACE".

Record SeriesKey := mkSeriesKey {
  sk_Type : string;
  sk_SerialId : string;
  sk_Target : string;
  sk_SrcIP : string;
  sk_Port : Z;
  sk_Metric : string;
  sk_Detector : string;
}.

#[export] Instance SeriesKey_eq_dec : EqDecision SeriesKey.
Proof. solve_decision. Defined.

#[export] Instance SeriesKey_countable : Countable SeriesKey.
Proof.
  apply (inj_countable'
    (λ k, (sk_Type k, sk_SerialId k, sk_Target k, sk_SrcIP k, sk_Port k, sk_Metric k, sk_Detector k))
    (λ '(a, b, c, d, e, f, g), mkSeriesKey a b c d e f g)).
  by intros [].
Defined.

(** The two implementations of the [FindingDetails] interface. *)
Inductive FindingDetails :=
| EwmaFindingDetails (Z_ Stddev Variance : float64) (N : Z)
| BetaBinomialFindingDetails (Tail : float64) (Lost Sent : Z)
    (Rate PostAlpha PostBeta : float64).

Definition DetectorName (d : FindingDetails) : string :=
  match d with
  | EwmaFindingDetails _ _ _ _ => DetectorTypeEwma
  | BetaBinomialFindingDetails _ _ _ _ _ _ => DetectorTypeBetaB
  end.

Record Finding := {
  TS : time;
  Value : float64;
  Severity : float64;
  Details : option FindingDetails;
}.

(** [LossSample], the value of the loss metrics. *)
Record LossSample := { ls_Sent : Z; ls_Received : Z }.

(** The dynamic types an extractor returns as [any]. *)
Inductive any :=
| AnyFloat (f : float64)
| AnyLoss (s : LossSample)
| AnyString (s : string).

(** The [Detector] interface: the prior state, the instant and the value give
    the state to persist and perhaps a finding, or an error. *)
Definition Detector : Type := raw → time → any → res (raw * option Finding).
