(* ===== verification/Detectors.v ===== *)
(** * Detectors (services/argus/ewma.go, betab.go)

    The two implementations of the [Detector] interface.  Each decodes the
    JSON baseline, runs one step of its statistic in the source's operation
    order, and encodes the new baseline.  The theorems describe every branch of
    [Step], the exact condition for a finding, the bounds of its severity, and
    that only baselines made of finite numbers are ever persisted. *)

From S2P Require Import Prelude Float64 Float64Round GoTime Float64Mag Json ArgusTypes.
From Stdlib Require Import SpecFloat.

Local Open Scope Z_scope.

(** ** EWMA *)

Module Ewma.

Record EwmaConfig := {
  Alpha : float64;
  Threshold : float64;
  Warmup : Z;
  Epsilon : float64;
  SeverityAlpha : float64;
}.

Record EwmaState := {
  Mean : float64;
  Variance : float64;
  N : Z;
  LastSeen : time;
}.

Definition ewma_zero : EwmaState :=
  {| Mean := fzero; Variance := fzero; N := 0; LastSeen := zeroTime |}.

(** [ewma_step]: the in-place mutation becomes the returned state. *)
Definition ewma_step (e : EwmaConfig) (state : EwmaState) (ts : time) (value : float64)
    : EwmaState * option Finding :=
  if Z.eqb (N state) 0 then
    ({| Mean := value; Variance := fzero; N := 1; LastSeen := ts |}, None)
  else
    let stddev := fsqrt (fadd (Variance state) (Epsilon e)) in
    let z := fdiv (fsub value (Mean state)) stddev in
    let fires := Z.leb (Warmup e) (N state) && fleb (Threshold e) (fabs z) in
    let delta := fsub value (Mean state) in
    let mean' := fadd (Mean state) (fmul (Alpha e) delta) in
    let variance' := fmul (fsub (f64 1) (Alpha e))
                          (fadd (Variance state) (fmul (fmul (Alpha e) delta) delta)) in
    let n' := int64 (N state + 1) in
    ({| Mean := mean'; Variance := variance'; N := n'; LastSeen := ts |},
     if fires then
       Some {| TS := ts; Value := value; Severity := fmin (f64 12) (fabs z);
               Details := Some (EwmaFindingDetails z stddev variance' n') |}
     else None).

Definition ewma_set_field (a : EwmaState) (k : string) (j : json) : option EwmaState :=
  if key_is "mean" k then
    v ← dec_float (Mean a) j;
    Some {| Mean := v; Variance := Variance a; N := N a; LastSeen := LastSeen a |}
  else if key_is "variance" k then
    v ← dec_float (Variance a) j;
    Some {| Mean := Mean a; Variance := v; N := N a; LastSeen := LastSeen a |}
  else if key_is "n" k then
    v ← dec_int64 (N a) j;
    Some {| Mean := Mean a; Variance := Variance a; N := v; LastSeen := LastSeen a |}
  else if key_is "last_seen" k then
    v ← dec_time (LastSeen a) j;
    Some {| Mean := Mean a; Variance := Variance a; N := N a; LastSeen := v |}
  else Some a.

Definition ewma_from_json : dec EwmaState := dec_struct ewma_set_field.

Definition ewma_to_json (a : EwmaState) : option json :=
  m ← enc_float (Mean a);
  v ← enc_float (Variance a);
  t ← enc_time (LastSeen a);
  Some (JObj [("mean", m); ("variance", v); ("n", enc_int (N a)); ("last_seen", t)]).

(** The state a [Step] starts from: the zero state when nothing is stored. *)
Definition ewma_load (state : raw) : option EwmaState :=
  if raw_len_pos state then unmarshal ewma_from_json ewma_zero state else Some ewma_zero.

Definition ewma_Step (e : EwmaConfig) : Detector := fun state ts value =>
  match value with
  | AnyFloat v =>
      match ewma_load state with
      | None => RErr "json"
      | Some st =>
          let '(st', finding) := ewma_step e st ts v in
          match ewma_to_json st' with
          | None => RErr "json: unsupported value"
          | Some j => ROk (RawDoc j, finding)
          end
      end
  | _ => RErr "ewma: want float64"
  end.

(** The configuration [Argus.Start] builds. *)
Definition ewma_defaultConfig : EwmaConfig :=
  {| Alpha := fconst 1 1000; Threshold := f64 4; Warmup := 40;
     Epsilon := f64 100000000; SeverityAlpha := fconst 22 10 |}.

(** ** Baselines round-trip through JSON *)

Lemma ewma_load_to_json st j :
  ewma_to_json st = Some j → -9223372036854775808 ≤ N st ≤ 9223372036854775807 →
  ewma_load (RawDoc j) = Some st.
Proof.
  unfold ewma_to_json. intros H Hn.
  destruct (enc_float (Mean st)) as [m|] eqn:Em; simplify_eq/=.
  destruct (enc_float (Variance st)) as [v|] eqn:Ev; simplify_eq/=.
  destruct (enc_time (LastSeen st)) as [t|] eqn:Et; simplify_eq/=.
  unfold ewma_load, unmarshal, ewma_from_json, dec_struct, raw_len_pos.
  json_field ewma_set_field (dec_enc_float _ _ _ Em). json_field ewma_set_field (dec_enc_float _ _ _ Ev).
  json_field ewma_set_field (dec_enc_int64 _ _ Hn). json_field ewma_set_field (dec_enc_time _ _ _ Et).
  by destruct st.
Qed.

(** A baseline made of finite numbers with a nonnegative variance. *)
Definition ewma_baseline_ok (st : EwmaState) : Prop :=
  is_finite (Mean st) = true ∧ is_finite (Variance st) = true ∧
  fnonneg (Variance st) ∧ -9223372036854775808 ≤ N st ≤ 9223372036854775807.

Lemma ewma_to_json_finite st j :
  ewma_to_json st = Some j → is_finite (Mean st) = true ∧ is_finite (Variance st) = true.
Proof.
  unfold ewma_to_json. intros H.
  destruct (enc_float (Mean st)) as [m|] eqn:Em; simplify_eq/=.
  destruct (enc_float (Variance st)) as [v|] eqn:Ev; simplify_eq/=.
  eauto using enc_float_finite.
Qed.

Lemma finite_not_nan f : is_finite f = true → is_nan f = false.
Proof. by destruct f. Qed.

(** The square of the deviation weighted by a nonnegative rate. *)
Lemma fmul_not_nan_inv x y :
  is_nan (fmul x y) = false → is_nan x = false ∧ is_nan y = false.
Proof. by destruct x as [[]|[]| |[] ? ?], y as [[]|[]| |[] ? ?]. Qed.

Lemma fmul_square_nonneg a d :
  fnonneg a → is_nan (fmul (fmul a d) d) = false → fnonneg (fmul (fmul a d) d).
Proof.
  intros Ha Hn. destruct (fmul_not_nan_inv _ _ Hn) as [Hn' _].
  destruct (sign_bit a) eqn:Hs.
  - apply fnonneg_spec in Ha. destruct a as [[]|[]| |[] ma ea]; try done.
    by destruct d as [[]|[]| |[] ? ?].
  - apply nonneg_of_sign; [done|]. rewrite fmul_sign, fmul_sign, Hs by done.
    by destruct (sign_bit d).
Qed.

(** A smoothing factor in [0, 1]. *)
Definition ewma_config_ok (e : EwmaConfig) : Prop :=
  valid (Alpha e) ∧ fnonneg (Alpha e) ∧ fleb (Alpha e) (f64 1) = true.

Lemma fadd_not_nan_inv x y :
  is_nan (fadd x y) = false → is_nan x = false ∧ is_nan y = false.
Proof. by destruct x as [[]|[]| |[] ? ?], y as [[]|[]| |[] ? ?]. Qed.

Lemma ewma_step_variance_nonneg e st ts v :
  ewma_config_ok e → fnonneg (Variance st) →
  is_finite (Variance (fst (ewma_step e st ts v))) = true →
  fnonneg (Variance (fst (ewma_step e st ts v))).
Proof.
  intros (Hval & Ha & Ha1) Hv. unfold ewma_step. case_match; [done|].
  cbn [fst Variance]. intros Hf%finite_not_nan.
  destruct (fmul_not_nan_inv _ _ Hf) as [_ Hs].
  destruct (fadd_not_nan_inv _ _ Hs) as [_ Hsq].
  apply fmul_nonneg; [|by apply fadd_nonneg; [|apply fmul_square_nonneg]|done].
  by apply fsub_ge.
Qed.

(** ** Properties *)

(** C38. EWMA [Step], success: the stored baseline decodes to the stepped state,
    and a baseline with finite mean and finite nonnegative variance stays one.
    In particular a NaN or infinite mean or variance is never persisted. *)
Theorem ewma_Step_preserves_baseline e state ts v st state' f :
  ewma_config_ok e → ewma_load state = Some st → ewma_baseline_ok st →
  ewma_Step e state ts (AnyFloat v) = ROk (state', f) →
  ewma_load state' = Some (fst (ewma_step e st ts v)) ∧ f = snd (ewma_step e st ts v) ∧
  ewma_baseline_ok (fst (ewma_step e st ts v)).
Proof.
  intros Hc Hl Hb H. unfold ewma_Step in H. rewrite Hl in H.
  destruct (ewma_step e st ts v) as [st' f'] eqn:Es.
  destruct (ewma_to_json st') as [j|] eqn:Ej; simplify_eq/=.
  assert (-9223372036854775808 ≤ N st' ≤ 9223372036854775807) as HN.
  { unfold ewma_step in Es. case_match; simplify_eq/=; [lia|].
    pose proof (int64_range (N st + 1)). lia. }
  destruct (ewma_to_json_finite _ _ Ej) as [Hm Hv].
  split; [by apply ewma_load_to_json|]. split; [done|]. repeat split; try done; try lia.
  pose proof (ewma_step_variance_nonneg e st ts v Hc) as Hp. rewrite Es in Hp.
  apply Hp; [apply Hb|done].
Qed.

Lemma ewma_Step_preserves_baseline_witness :
  ewma_config_ok ewma_defaultConfig ∧
  ewma_baseline_ok (fst (ewma_step ewma_defaultConfig ewma_zero 5 (f64 250))).
Proof.
  assert (ewma_config_ok ewma_defaultConfig) as Hc by (repeat split; reflexivity).
  split; [exact Hc|].
  destruct (ewma_Step ewma_defaultConfig RawEmpty 5 (AnyFloat (f64 250))) as [[s' f]| |] eqn:E;
    [|vm_compute in E; discriminate E|vm_compute in E; discriminate E].
  refine (proj2 (proj2 (ewma_Step_preserves_baseline ewma_defaultConfig RawEmpty 5 (f64 250)
                          ewma_zero s' f Hc eq_refl _ E))).
  repeat split; try reflexivity; vm_compute; discriminate.
Defined.

(** A finding is reported exactly when the baseline has seen at least
    [Warmup] (and at least one) samples and the score is at the threshold or
    above; its severity is then at most 12, and at least the threshold when the
    threshold is at most 12; its timestamp and value are the sample's. *)
Theorem ewma_step_finding_iff e st ts v :
  let z := fdiv (fsub v (Mean st)) (fsqrt (fadd (Variance st) (Epsilon e))) in
  (is_Some (snd (ewma_step e st ts v)) ↔
     N st ≠ 0 ∧ Warmup e ≤ N st ∧ fleb (Threshold e) (fabs z) = true) ∧
  ∀ f, snd (ewma_step e st ts v) = Some f →
    TS f = ts ∧ Value f = v ∧ fleb (Severity f) (f64 12) = true ∧
    (fleb (Threshold e) (f64 12) = true → fleb (Threshold e) (Severity f) = true).
Proof.
  intros z. unfold ewma_step. fold z. destruct (Z.eqb_spec (N st) 0) as [Hz|Hz].
  - simpl. split; [|done]. split; [by intros [? ?]|naive_solver].
  - destruct (Z.leb_spec (Warmup e) (N st)) as [Hw|Hw]; simpl;
      [|split; [split; [by intros [? ?]|lia]|done]].
    destruct (fleb (Threshold e) (fabs z)) eqn:Ht; simpl; split.
    + split; eauto.
    + intros f [= <-]. simpl. do 2 (split; [done|]). split.
      * assert (is_nan (fabs z) = false) as Hn.
        { apply fleb_spec in Ht. unfold key_rel in Ht. destruct (fabs z); try done.
          by destruct (fkey (Threshold e)). }
        by apply fmin_lb_l.
      * intros Hle. by apply fmin_glb.
    + split; [by intros [? ?]|intros (_ & _ & ?); done].
    + done.
Qed.

End Ewma.

(** ** Beta-binomial *)

(** The functions of package math the detector calls beyond IEEE arithmetic,
    with the documented facts it relies on: [Exp] is nonnegative and is a NaN
    only on a NaN, [Log10] returns a float64, is a number on positive arguments,
    not positive on arguments up to one, and at most -3 on arguments up to
    10^-4, whose logarithm is at most -4. *)
Class GoMath := {
  math_Lgamma : float64 → float64;
  math_Exp : float64 → float64;
  math_Log10 : float64 → float64;
  Exp_nonneg x : is_nan x = false → fnonneg (math_Exp x);
  Exp_nan : is_nan (math_Exp S754_nan) = true;
  Log10_number x : fltb fzero x = true → is_nan (math_Log10 x) = false;
  Log10_nonpos x :
    fltb fzero x = true → fleb x (f64 1) = true → fleb (math_Log10 x) fzero = true;
  Log10_valid x : valid (math_Log10 x);
  Log10_decades x :
    fltb fzero x = true → fleb x (fconst 1 10000) = true → fleb (math_Log10 x) (f64 (-3)) = true;
}.

Module BetaBinomial.

Definition priorAlpha : float64 := fconst 1 2.
Definition priorBeta : float64 := fconst 1 2.

Record BetaBinomialState := {
  Lost : Z;
  Received : Z;
  N : Z;
  LastSeen : time;
}.

Record BetaBinomialConfig := { Threshold : float64; Warmup : Z }.

Definition beta_zero : BetaBinomialState :=
  {| Lost := 0; Received := 0; N := 0; LastSeen := zeroTime |}.

Section WithMath.
Context `{GoMath}.

Definition logBeta (a b : float64) : float64 :=
  fsub (fadd (math_Lgamma a) (math_Lgamma b)) (math_Lgamma (fadd a b)).

Definition logChoose (n k : Z) : float64 :=
  fsub (fsub (math_Lgamma (f64 (int64 (n + 1)))) (math_Lgamma (f64 (int64 (k + 1)))))
       (math_Lgamma (fadd (f64 (int64 (n - k))) (f64 1))).

(** The loop [for i := k; i <= n; i++], [count] iterations from [i]. *)
Fixpoint tail_loop (n : Z) (a bb logBetaAB : float64) (i : Z) (count : nat)
    (tail : float64) : float64 :=
  match count with
  | O => tail
  | S c =>
      let fi := f64 i in
      let logPmf := fsub (fadd (logChoose n i) (logBeta (fadd fi a) (fadd (fsub (f64 n) fi) bb)))
                         logBetaAB in
      tail_loop n a bb logBetaAB (i + 1) c (fadd tail (math_Exp logPmf))
  end.

Definition betaBinomialUpperTail (k n : Z) (a bb : float64) : float64 :=
  if Z.leb k 0 then f64 1
  else if Z.ltb n k then fzero
  else
    let tail := tail_loop n a bb (logBeta a bb) k (Z.to_nat (n - k + 1)) fzero in
    if fltb (f64 1) tail then f64 1 else tail.

(** [lost] of a sample: never negative. *)
Definition lost_of (s : LossSample) : Z :=
  let lost := int64 (ls_Sent s - ls_Received s) in
  if Z.ltb lost 0 then 0 else lost.

Definition beta_step (b : BetaBinomialConfig) (st : BetaBinomialState) (ts : time)
    (s : LossSample) : BetaBinomialState * option Finding :=
  let lost := lost_of s in
  let postAlpha := fadd priorAlpha (f64 (Lost st)) in
  let postBeta := fadd priorBeta (f64 (Received st)) in
  let finding :=
    if Z.ltb 0 (ls_Sent s) then
      let tail := betaBinomialUpperTail lost (ls_Sent s) postAlpha postBeta in
      let totalSent := int64 (Lost st + Received st) in
      if Z.leb (Warmup b) totalSent && Z.ltb 0 lost && fleb tail (Threshold b) then
        let sev := fmin (f64 12) (fneg (math_Log10 (fmax tail (fconst 1 1000000000000)))) in
        let rate := fdiv (f64 lost) (f64 (ls_Sent s)) in
        Some {| TS := ts; Value := rate; Severity := sev;
                Details := Some (BetaBinomialFindingDetails tail lost (ls_Sent s)
                                   rate postAlpha postBeta) |}
      else None
    else None in
  ({| Lost := int64 (Lost st + lost);
      Received := int64 (Received st + ls_Received s);
      N := int64 (N st + 1); LastSeen := ts |}, finding).

Definition beta_set_field (a : BetaBinomialState) (k : string) (j : json) : option BetaBinomialState :=
  if key_is "lost" k then
    v ← dec_int64 (Lost a) j;
    Some {| Lost := v; Received := Received a; N := N a; LastSeen := LastSeen a |}
  else if key_is "received" k then
    v ← dec_int64 (Received a) j;
    Some {| Lost := Lost a; Received := v; N := N a; LastSeen := LastSeen a |}
  else if key_is "n" k then
    v ← dec_int64 (N a) j;
    Some {| Lost := Lost a; Received := Received a; N := v; LastSeen := LastSeen a |}
  else if key_is "last_seen" k then
    v ← dec_time (LastSeen a) j;
    Some {| Lost := Lost a; Received := Received a; N := N a; LastSeen := v |}
  else Some a.

Definition beta_from_json : dec BetaBinomialState := dec_struct beta_set_field.

Definition beta_to_json (a : BetaBinomialState) : option json :=
  t ← enc_time (LastSeen a);
  Some (JObj [("lost", enc_int (Lost a)); ("received", enc_int (Received a));
              ("n", enc_int (N a)); ("last_seen", t)]).

Definition beta_load (state : raw) : option BetaBinomialState :=
  if raw_len_pos state then unmarshal beta_from_json beta_zero state else Some beta_zero.

Definition beta_Step (b : BetaBinomialConfig) : Detector := fun state ts value =>
  match value with
  | AnyLoss v =>
      match beta_load state with
      | None => RErr "json"
      | Some st =>
          let '(st', finding) := beta_step b st ts v in
          match beta_to_json st' with
          | None => RErr "json: unsupported value"
          | Some j => ROk (RawDoc j, finding)
          end
      end
  | _ => RErr "beta binomial: want LossSample"
  end.

(** ** Lemmas *)

Definition in64 (z : Z) : Prop := -9223372036854775808 ≤ z ≤ 9223372036854775807.

Lemma int64_in64 z : in64 (int64 z).
Proof. pose proof (int64_range z). unfold in64. lia. Qed.

Lemma beta_load_to_json st j :
  beta_to_json st = Some j → in64 (Lost st) → in64 (Received st) → in64 (N st) →
  beta_load (RawDoc j) = Some st.
Proof.
  unfold beta_to_json. intros Hj H1 H2 H3.
  destruct (enc_time (LastSeen st)) as [t|] eqn:Et; simplify_eq/=.
  unfold beta_load, unmarshal, beta_from_json, dec_struct, raw_len_pos.
  json_field beta_set_field (dec_enc_int64 _ _ H1). json_field beta_set_field (dec_enc_int64 _ _ H2).
  json_field beta_set_field (dec_enc_int64 _ _ H3). json_field beta_set_field (dec_enc_time _ _ _ Et).
  by destruct st.
Qed.

Lemma fadd_nan_or_nonneg x y :
  is_nan x = true ∨ fnonneg x → is_nan y = true ∨ fnonneg y →
  is_nan (fadd x y) = true ∨ fnonneg (fadd x y).
Proof.
  intros [Hx|Hx] [Hy|Hy]; [left..|]; [by destruct x| by destruct x | |].
  - destruct y; try done. by destruct x as [[]|[]| |[] ? ?].
  - right. by apply fadd_nonneg.
Qed.

Lemma tail_loop_nonneg n a bb l i c tail :
  is_nan tail = true ∨ fnonneg tail →
  is_nan (tail_loop n a bb l i c tail) = true ∨ fnonneg (tail_loop n a bb l i c tail).
Proof.
  revert i tail. induction c as [|c IH]; intros i tail Ht; simpl; [done|].
  apply IH, fadd_nan_or_nonneg; [done|].
  set (p := fsub _ _). destruct (is_nan p) eqn:E.
  - left. destruct p; try done. apply Exp_nan.
  - right. by apply Exp_nonneg.
Qed.

(** ** Properties *)

(** The upper tail is 1 when nothing was lost, 0 when more was lost than
    sent, and otherwise a number in [0, 1] unless a log-gamma made it a NaN. *)
Theorem upper_tail_bounds k n a bb :
  (k ≤ 0 → betaBinomialUpperTail k n a bb = f64 1) ∧
  (0 < k → n < k → betaBinomialUpperTail k n a bb = fzero) ∧
  (is_nan (betaBinomialUpperTail k n a bb) = false →
   fnonneg (betaBinomialUpperTail k n a bb) ∧
   fleb (betaBinomialUpperTail k n a bb) (f64 1) = true).
Proof.
  unfold betaBinomialUpperTail.
  destruct (Z.leb_spec k 0); [repeat split; try lia; done|].
  destruct (Z.ltb_spec n k); [repeat split; try lia; done|].
  do 2 (split; [lia|]). cbv zeta.
  pose proof (tail_loop_nonneg n a bb (logBeta a bb) k (Z.to_nat (n - k + 1)) fzero
    (or_intror eq_refl)) as Ht.
  set (t := tail_loop _ _ _ _ _ _ _) in *.
  destruct (fltb (f64 1) t) eqn:E; [done|]. intros Hn.
  destruct Ht as [Ht|Ht]; [congruence|]. split; [done|]. by apply not_ltb_leb.
Qed.

Lemma severity_bounds tail :
  is_nan tail = false → fleb tail (f64 1) = true →
  let sev := fmin (f64 12) (fneg (math_Log10 (fmax tail (fconst 1 1000000000000)))) in
  fnonneg sev ∧ fleb sev (f64 12) = true.
Proof.
  intros Hn Hle. cbv zeta. set (x := fmax tail _).
  assert (fleb x (f64 1) = true) as Hhi.
  { subst x. by destruct (fmax_cases tail (fconst 1 1000000000000)) as [-> | ->]. }
  assert (fltb fzero x = true) as Hlo.
  { eapply fltb_leb_trans; [|by apply (fmax_ub_r tail (fconst 1 1000000000000))]. done. }
  pose proof (fneg_nonneg _ (Log10_nonpos x Hlo Hhi)) as Hs.
  split; [by apply fmin_glb|]. apply fmin_lb_l; auto with cepheus.
Qed.

(** A batch yields a finding exactly when packets were sent, some were
    lost, the baseline before the batch holds at least [Warmup] packets, and the
    tail computed from that earlier baseline is at the threshold or below.  The
    finding has a severity in [0, 12] and reports the batch's loss. *)
Theorem beta_step_finding_iff b st ts s :
  let tail := betaBinomialUpperTail (lost_of s) (ls_Sent s)
                (fadd priorAlpha (f64 (Lost st))) (fadd priorBeta (f64 (Received st))) in
  (is_Some (snd (beta_step b st ts s)) ↔
     0 < ls_Sent s ∧ 0 < lost_of s ∧ Warmup b ≤ int64 (Lost st + Received st) ∧
     fleb tail (Threshold b) = true) ∧
  ∀ f, snd (beta_step b st ts s) = Some f →
    TS f = ts ∧ fnonneg (Severity f) ∧ fleb (Severity f) (f64 12) = true ∧
    Value f = fdiv (f64 (lost_of s)) (f64 (ls_Sent s)).
Proof.
  intros tail. unfold beta_step. fold tail. cbn [snd].
  destruct (Z.ltb_spec 0 (ls_Sent s)) as [H0|H0];
    [|split; [split; [by intros [? ?]|lia]|done]].
  destruct (Z.leb_spec (Warmup b) (int64 (Lost st + Received st))) as [Hw|Hw];
    [|split; [split; [by intros [? ?]|lia]|done]].
  destruct (Z.ltb_spec 0 (lost_of s)) as [Hl|Hl];
    [|split; [split; [by intros [? ?]|lia]|done]].
  destruct (fleb tail (Threshold b)) eqn:Ht; cbn [andb];
    [|split; [split; [by intros [? ?]|intros (_ & _ & _ & ?); done]|done]].
  split; [split; eauto|]. intros f [= <-]. cbn [TS Severity Value].
  assert (is_nan tail = false) as Hn.
  { apply fleb_spec in Ht. unfold key_rel in Ht. by destruct tail. }
  destruct (proj2 (proj2 (upper_tail_bounds _ _ _ _)) Hn) as [_ Hle].
  by destruct (severity_bounds tail Hn Hle).
Qed.

(** [Step] of the beta-binomial detector, success: the persisted baseline
    decodes to the old one plus the batch (loss clamped at zero, int64
    wrap-around), and the finding is the one of [step]; a value of another
    dynamic type, or a stored baseline that does not decode, is an error. *)
Theorem beta_Step_folds_batch b state ts st v :
  beta_load state = Some st → in64 (N st) → enc_time ts ≠ None →
  (∃ state' f, beta_Step b state ts (AnyLoss v) = ROk (state', f) ∧
     f = snd (beta_step b st ts v) ∧
     beta_load state' = Some {| Lost := int64 (Lost st + lost_of v);
                           Received := int64 (Received st + ls_Received v);
                           N := int64 (N st + 1); LastSeen := ts |}) ∧
  (∀ x, beta_Step b state ts (AnyFloat x) = RErr "beta binomial: want LossSample") ∧
  beta_Step b RawBad ts (AnyLoss v) = RErr "json".
Proof.
  intros Hl HN Ht. split; [|done]. unfold beta_Step. rewrite Hl.
  destruct (beta_step b st ts v) as [st' f] eqn:Es.
  assert (st' = fst (beta_step b st ts v)) as Hst by (by rewrite Es). subst st'.
  destruct (beta_to_json (fst (beta_step b st ts v))) as [j|] eqn:Ej.
  - exists (RawDoc j), f. split; [done|]. split; [done|].
    apply beta_load_to_json; [done|apply int64_in64..].
  - exfalso. unfold beta_to_json in Ej. unfold beta_step in Ej. cbn [fst LastSeen] in Ej.
    by destruct (enc_time ts).
Qed.

End WithMath.

(** Stand-ins for the three functions, used only to run the detector on
    concrete inputs. *)
#[export] Instance ExampleMath : GoMath.
Proof.
  refine {| math_Lgamma := λ _, fzero;
            math_Exp := λ x, if is_nan x then S754_nan else f64 1;
            math_Log10 := λ _, fneg (f64 5) |}.
  - intros x ->. done.
  - done.
  - done.
  - done.
  - done.
  - done.
Defined.

Lemma beta_Step_folds_batch_witness :
  ∃ state' f, beta_Step {| Threshold := f64 1; Warmup := 0 |} RawEmpty 7
                (AnyLoss {| ls_Sent := 10; ls_Received := 8 |}) = ROk (state', f) ∧ is_Some f.
Proof.
  destruct (beta_Step_folds_batch {| Threshold := f64 1; Warmup := 0 |} RawEmpty 7 beta_zero
              {| ls_Sent := 10; ls_Received := 8 |}) as [(s & f & H1 & H2 & _) _].
  - reflexivity.
  - vm_compute. split; discriminate.
  - discriminate.
  - exists s, f. split; [exact H1|]. rewrite H2. vm_compute. eexists. reflexivity.
Defined.

End BetaBinomial.
