(* ===== verification/ArgusDb.v ===== *)
(** * The Argus tables and queries (services/argus/db, db/init)

    The four tables Argus keeps in Postgres and the statements of
    [queries.sql.go] on them, with the primary keys, the unique index on
    findings and the foreign keys to events.  A statement may also fail for
    reasons outside the program (connection loss, timeouts): an environment
    carries one Boolean per call that says so, and the identifiers
    [gen_random_uuid()] draws. *)

From S2P Require Import Prelude Float64 GoTime Json ArgusTypes.

Local Open Scope Z_scope.

(** ** UUIDs

    [uuid.UUID] is 128 bits; [pgtype.UUID] adds validity.  Parsing and printing
    belong to the google/uuid and pgx packages. *)

Abbreviation uuid := N.

Record PgUUID := { pg_Bytes : uuid; pg_Valid : bool }.

Definition pg_some (u : uuid) : PgUUID := {| pg_Bytes := u; pg_Valid := true |}.
Definition pg_null : PgUUID := {| pg_Bytes := 0%N; pg_Valid := false |}.
Definition pg_col (p : PgUUID) : option uuid :=
  if pg_Valid p then Some (pg_Bytes p) else None.
Definition pg_scan (o : option uuid) : PgUUID :=
  match o with Some u => pg_some u | None => pg_null end.

Class UuidLib := {
  uuid_Parse : string → option uuid;
  pg_String : PgUUID → string;
  Parse_String u : uuid_Parse (pg_String (pg_some u)) = Some u;
}.

(** ** Rows *)

(** The key shared by [argus_policy_state] and [argus_baselines]. *)
Record series_id := mkSeriesId {
  si_serial_id : string;
  si_src_ip : string;
  si_target : string;
  si_port : Z;
  si_metric : string;
  si_detector : string;
}.

#[export] Instance series_id_eq_dec : EqDecision series_id.
Proof. solve_decision. Defined.

#[export] Instance series_id_countable : Countable series_id.
Proof.
  apply (inj_countable'
    (λ k, (si_serial_id k, si_src_ip k, si_target k, si_port k, si_metric k, si_detector k))
    (λ '(a, b, c, d, e, f), mkSeriesId a b c d e f)).
  by intros [].
Defined.

Record ArgusPolicyState := {
  ps_status : string;
  ps_score : float64;
  ps_score_updated_at : time;
  ps_open_event_id : option uuid;
  ps_pending_findings : list uuid;
  ps_entered_status_at : time;
}.

Record ArgusEvent := {
  ev_serial_id : string;
  ev_target : string;
  ev_port : Z;
  ev_metric : string;
  ev_status : string;
  ev_opened_at : time;
  ev_last_seen_at : time;
  ev_closed_at : option time;
  ev_finding_count : Z;
  ev_peak_severity : float64;
  ev_detectors : list string;
}.

Record ArgusFinding := {
  fi_serial_id : string;
  fi_target : string;
  fi_port : Z;
  fi_metric : string;
  fi_detector : string;
  fi_ts : time;
  fi_value : float64;
  fi_severity : float64;
  fi_details : option FindingDetails;
  fi_event_id : option uuid;
}.

Record ArgusBaseline := {
  bl_state : raw;
  bl_n : Z;
  bl_last_seen : time;
}.

Record argus_db := {
  policy_state : gmap series_id ArgusPolicyState;
  events : gmap uuid ArgusEvent;
  findings : gmap uuid ArgusFinding;
  baselines : gmap series_id ArgusBaseline;
}.

Definition set_policy_state (d : argus_db) x : argus_db :=
  {| policy_state := x; events := events d; findings := findings d; baselines := baselines d |}.
Definition set_events (d : argus_db) x : argus_db :=
  {| policy_state := policy_state d; events := x; findings := findings d; baselines := baselines d |}.
Definition set_findings (d : argus_db) x : argus_db :=
  {| policy_state := policy_state d; events := events d; findings := x; baselines := baselines d |}.
Definition set_baselines (d : argus_db) x : argus_db :=
  {| policy_state := policy_state d; events := events d; findings := findings d; baselines := x |}.

(** A timestamptz column keeps microseconds. *)
Definition timestamptz (t : time) : time := t - t mod 1000.

(** ** Environment of a call *)

Record env := {
  e_db : argus_db;
  e_faults : list bool;
  e_gen : nat → uuid;
  e_ctr : nat;
}.

Definition set_db (e : env) (d : argus_db) : env :=
  {| e_db := d; e_faults := e_faults e; e_gen := e_gen e; e_ctr := e_ctr e |}.
Definition next_fault (e : env) : env :=
  {| e_db := e_db e; e_faults := tl (e_faults e); e_gen := e_gen e; e_ctr := e_ctr e |}.
Definition next_uuid (e : env) : env :=
  {| e_db := e_db e; e_faults := e_faults e; e_gen := e_gen e; e_ctr := S (e_ctr e) |}.

(** One round trip to the server: it may fail before doing anything. *)
Definition db_call {A} (k : go env A) : go env A := fun e =>
  match e_faults e with
  | true :: _ => (next_fault e, RErr "database unavailable")
  | _ => k (next_fault e)
  end.

Definition ErrNoRows : string := "no rows in result set".

(** ** Statements *)

Definition AttachFindingToEvent (eventId id : PgUUID) : go env unit :=
  db_call (fun e =>
    let d := e_db e in
    match pg_col id with
    | None => (e, ROk tt)
    | Some i =>
        match findings d !! i with
        | None => (e, ROk tt)
        | Some row =>
            let row' ev :=
              {| fi_serial_id := fi_serial_id row; fi_target := fi_target row;
                 fi_port := fi_port row; fi_metric := fi_metric row;
                 fi_detector := fi_detector row; fi_ts := fi_ts row;
                 fi_value := fi_value row; fi_severity := fi_severity row;
                 fi_details := fi_details row; fi_event_id := ev |} in
            match pg_col eventId with
            | Some ev =>
                match events d !! ev with
                | Some _ => (set_db e (set_findings d (<[i := row' (Some ev)]> (findings d))), ROk tt)
                | None => (e, RErr "foreign key violation")
                end
            | None => (set_db e (set_findings d (<[i := row' None]> (findings d))), ROk tt)
            end
        end
    end).

Definition CloseEvent (id : uuid) (closedAt : time) : go env unit :=
  db_call (fun e =>
    let d := e_db e in
    match events d !! id with
    | None => (e, ROk tt)
    | Some ev =>
        let ev' :=
          {| ev_serial_id := ev_serial_id ev; ev_target := ev_target ev;
             ev_port := ev_port ev; ev_metric := ev_metric ev; ev_status := "closed";
             ev_opened_at := ev_opened_at ev; ev_last_seen_at := ev_last_seen_at ev;
             ev_closed_at := Some (timestamptz closedAt);
             ev_finding_count := ev_finding_count ev;
             ev_peak_severity := ev_peak_severity ev; ev_detectors := ev_detectors ev |} in
        (set_db e (set_events d (<[id := ev']> (events d))), ROk tt)
    end).

Definition GetBaseline (k : series_id) : go env ArgusBaseline :=
  db_call (fun e =>
    match baselines (e_db e) !! k with
    | Some b => (e, ROk b)
    | None => (e, RErr ErrNoRows)
    end).

Definition GetPolicyState (k : series_id) : go env ArgusPolicyState :=
  db_call (fun e =>
    match policy_state (e_db e) !! k with
    | Some r => (e, ROk r)
    | None => (e, RErr ErrNoRows)
    end).

(** The columns of the unique index on findings. *)
Definition same_finding (a b : ArgusFinding) : Prop :=
  fi_serial_id a = fi_serial_id b ∧ fi_target a = fi_target b ∧ fi_port a = fi_port b ∧
  fi_metric a = fi_metric b ∧ fi_detector a = fi_detector b ∧ fi_ts a = fi_ts b.

#[export] Instance same_finding_dec a b : Decision (same_finding a b).
Proof. unfold same_finding. apply _. Defined.

(** INSERT ... ON CONFLICT DO NOTHING RETURNING id: a conflict returns no row,
    which [Scan] reports as [ErrNoRows]. *)
Definition InsertFinding_q (row : ArgusFinding) : go env PgUUID :=
  db_call (fun e =>
    let d := e_db e in
    let id := e_gen e (e_ctr e) in
    if decide (map_Exists (λ _ r, same_finding r row) (findings d)) then (e, RErr ErrNoRows)
    else match findings d !! id with
         | Some _ => (next_uuid e, RErr "unique violation")
         | None => (set_db (next_uuid e) (set_findings d (<[id := row]> (findings d))),
                    ROk (pg_some id))
         end).

(** SELECT ... WHERE status <> 'clean': the columns do not include src_ip. *)
Record ListNonCleanPolicyStatesRow := {
  nc_SerialID : string; nc_Target : string; nc_Port : Z; nc_Metric : string;
  nc_Detector : string; nc_row : ArgusPolicyState;
}.

(** Without ORDER BY the rows come in any order: here by a rank of their keys. *)
Definition by_rank {A} (rank : series_id → nat) (a b : series_id * A) : Prop := (rank a.1 ≤ rank b.1)%nat.

#[export] Instance by_rank_dec {A} rank : RelDecision (by_rank (A:=A) rank).
Proof. intros a b. unfold by_rank. apply _. Defined.

Lemma elem_of_rows {A} rank (m : gmap series_id A) k r :
  (k, r) ∈ merge_sort (by_rank rank) (map_to_list m) ↔ m !! k = Some r.
Proof. rewrite merge_sort_Permutation. apply elem_of_map_to_list. Qed.

Definition ListNonCleanPolicyStates (rank : series_id → nat) : go env (list ListNonCleanPolicyStatesRow) :=
  db_call (fun e =>
    (e, ROk (omap (λ '(k, r),
        if decide (ps_status r = "clean") then None
        else Some {| nc_SerialID := si_serial_id k; nc_Target := si_target k;
                     nc_Port := si_port k; nc_Metric := si_metric k;
                     nc_Detector := si_detector k; nc_row := r |})
      (merge_sort (by_rank rank) (map_to_list (policy_state (e_db e))))))).

Definition OpenEvent (serial target : string) (port : Z) (metric : string) (openedAt : time)
    (count : Z) (peak : float64) (detectors : list string) : go env PgUUID :=
  db_call (fun e =>
    let d := e_db e in
    let id := e_gen e (e_ctr e) in
    match events d !! id with
    | Some _ => (next_uuid e, RErr "unique violation")
    | None =>
        let ev :=
          {| ev_serial_id := serial; ev_target := target; ev_port := port;
             ev_metric := metric; ev_status := "open";
             ev_opened_at := timestamptz openedAt; ev_last_seen_at := timestamptz openedAt;
             ev_closed_at := None; ev_finding_count := count;
             ev_peak_severity := peak; ev_detectors := detectors |} in
        (set_db (next_uuid e) (set_events d (<[id := ev]> (events d))), ROk (pg_some id))
    end).

(** GREATEST on double precision: Postgres orders NaN above every number. *)
Definition greatest (a b : float64) : float64 :=
  if is_nan a then a else if is_nan b || fltb a b then b else a.

(** finding_count is an INTEGER column, whose overflow fails the statement. *)
Definition UpdateEventOnFinding (id : PgUUID) (lastSeenAt : time) (peak : float64) (detector : string)
    : go env unit :=
  db_call (fun e =>
    let d := e_db e in
    match pg_col id with
    | None => (e, ROk tt)
    | Some i =>
        match events d !! i with
        | None => (e, ROk tt)
        | Some ev =>
            if bool_decide (int32 (ev_finding_count ev + 1) = ev_finding_count ev + 1) then
              let ev' :=
                {| ev_serial_id := ev_serial_id ev; ev_target := ev_target ev; ev_port := ev_port ev;
                   ev_metric := ev_metric ev; ev_status := ev_status ev; ev_opened_at := ev_opened_at ev;
                   ev_last_seen_at := timestamptz lastSeenAt; ev_closed_at := ev_closed_at ev;
                   ev_finding_count := ev_finding_count ev + 1;
                   ev_peak_severity := greatest (ev_peak_severity ev) peak;
                   ev_detectors := if bool_decide (detector ∈ ev_detectors ev) then ev_detectors ev
                                   else ev_detectors ev ++ [detector] |} in
              (set_db e (set_events d (<[i := ev']> (events d))), ROk tt)
            else (e, RErr "integer out of range")
        end
    end).

Definition UpsertBaseline (k : series_id) (state : raw) (n : Z) (lastSeen : time) : go env unit :=
  db_call (fun e =>
    match state with
    | RawDoc _ =>
        let b := {| bl_state := state; bl_n := n; bl_last_seen := timestamptz lastSeen |} in
        (set_db e (set_baselines (e_db e) (<[k := b]> (baselines (e_db e)))), ROk tt)
    | _ => (e, RErr "invalid input syntax for type json")
    end).

Definition UpsertPolicyState (k : series_id) (status : string) (score : float64)
    (scoreUpdatedAt : time) (openEventId : PgUUID) (pending : list PgUUID)
    (enteredStatusAt : time) : go env unit :=
  db_call (fun e =>
    let d := e_db e in
    let row := {| ps_status := status; ps_score := score;
                  ps_score_updated_at := timestamptz scoreUpdatedAt;
                  ps_open_event_id := pg_col openEventId;
                  ps_pending_findings := omap pg_col pending;
                  ps_entered_status_at := timestamptz enteredStatusAt |} in
    let ok := match pg_col openEventId with
              | Some ev => bool_decide (is_Some (events d !! ev))
              | None => true
              end in
    if ok then (set_db e (set_policy_state d (<[k := row]> (policy_state d))), ROk tt)
    else (e, RErr "foreign key violation")).

(** ** Transactions: the snapshot [Begin] takes is what [Rollback] restores. *)

Definition Begin : go env argus_db := db_call (fun e => (e, ROk (e_db e))).
Definition Rollback (tx : argus_db) : go env unit := fun e => (set_db e tx, ROk tt).
Definition Commit (tx : argus_db) : go env unit := fun e =>
  match e_faults e with
  | true :: _ => (set_db (next_fault e) tx, RErr "commit failed")
  | _ => (next_fault e, ROk tt)
  end.

(** ** What the summary of an event says

    The columns [UpdateEventOnFinding] maintains: after one call per finding
    they count the findings, bound their severities, name their detectors once
    each and date the last of them. *)

Lemma greatest_ub a b : is_nan a = false → is_nan b = false →
  is_nan (greatest a b) = false ∧ fleb a (greatest a b) = true ∧ fleb b (greatest a b) = true.
Proof.
  intros Ha Hb. assert (∀ x, is_nan x = false → fleb x x = true) as Hrefl.
  { intros x Hx. apply not_ltb_leb; [done|done|]. apply fltb_irrefl. }
  unfold greatest. rewrite Ha, Hb. simpl. destruct (fltb a b) eqn:E; auto using fltb_leb.
  split; [done|]. split; [by auto|]. by apply not_ltb_leb.
Qed.

Fixpoint updates (id : uuid) (fs : list (time * float64 * string)) : go env unit :=
  match fs with
  | [] => go_ret tt
  | (t, sev, det) :: fs' => go_bind (UpdateEventOnFinding (pg_some id) t sev det) (fun _ => updates id fs')
  end.

Theorem updates_summarise id fs e ev :
  e_faults e = [] → events (e_db e) !! id = Some ev →
  0 ≤ ev_finding_count ev → ev_finding_count ev + Z.of_nat (length fs) < 2147483648 →
  is_nan (ev_peak_severity ev) = false → Forall (λ f, is_nan f.1.2 = false) fs → NoDup (ev_detectors ev) →
  ∃ e' ev', updates id fs e = (e', ROk tt) ∧
    events (e_db e') = <[id := ev']> (events (e_db e)) ∧
    ev_status ev' = ev_status ev ∧ ev_closed_at ev' = ev_closed_at ev ∧
    ev_finding_count ev' = ev_finding_count ev + Z.of_nat (length fs) ∧
    ev_last_seen_at ev' = default (ev_last_seen_at ev) (last ((λ f, timestamptz f.1.1) <$> fs)) ∧
    is_nan (ev_peak_severity ev') = false ∧ fleb (ev_peak_severity ev) (ev_peak_severity ev') = true ∧
    Forall (λ f, fleb f.1.2 (ev_peak_severity ev') = true) fs ∧
    NoDup (ev_detectors ev') ∧ (∀ d, d ∈ ev_detectors ev' ↔ d ∈ ev_detectors ev ∨ d ∈ fs.*2).
Proof.
  revert e ev. induction fs as [|[[t sev] det] fs IH]; intros e ev Hf Hev H0 Hc Hn Hs Hd.
  { exists e, ev. rewrite insert_id by done. simpl. split; [done|]. repeat (split; [done || lia|]).
    split; [apply not_ltb_leb; auto; apply fltb_irrefl|]. split; [done|]. split; [done|]. set_solver. }
  apply Forall_cons in Hs as [Hsev Hs]. simpl in Hsev, Hc.
  destruct (greatest_ub _ _ Hn Hsev) as (Hgn & Hga & Hgb).
  cbn [updates]. unfold go_bind, UpdateEventOnFinding, db_call. rewrite Hf. cbn [pg_col pg_some pg_Valid pg_Bytes].
  change (e_db (next_fault e)) with (e_db e). cbv zeta. rewrite Hev.
  rewrite bool_decide_true by (apply int32_id; lia).
  set (ev1 := {| ev_serial_id := ev_serial_id ev |}).
  destruct (IH (set_db (next_fault e) (set_events (e_db e) (<[id := ev1]> (events (e_db e))))) ev1) as
    (e' & ev' & -> & He' & Hst & Hcl & Hcnt & Hlast & Hn' & Hp & Hps & Hnd & Hdet); simpl.
  - by rewrite Hf.
  - by rewrite lookup_insert_eq.
  - lia.
  - lia.
  - done.
  - done.
  - case_bool_decide; [done|]. apply NoDup_app. split; [done|]. split; [set_solver|apply NoDup_singleton].
  - exists e', ev'. split; [done|]. rewrite He'. simpl. rewrite insert_insert_eq.
    split; [done|]. split; [done|]. split; [done|]. simpl in *. split; [lia|].
    split. { rewrite Hlast, last_cons. by destruct (last _). }
    split; [done|]. split; [by eapply fleb_trans|]. split.
    { constructor; [by eapply fleb_trans|done]. }
    split; [done|]. intros d. rewrite Hdet. case_bool_decide; set_solver.
Qed.
