(* ===== verification/PolicyEngine.v ===== *)
(** * The policy engine (services/argus/policy_engine.go)

    The engine keeps one [PolicyState] per series in memory and mirrors it in
    the database.  [Sweep] hydrates, decays and times out; [ApplyFinding] folds
    a finding in and drives the status machine clean / watching / firing /
    recovering; [openEvent] opens an event in a transaction.  States are Go
    pointers, so what a function wrote before an early return stays written:
    the model stores the state back at each assignment. *)

From S2P Require Import Prelude Float64 Float64Round GoTime Json ArgusTypes LeakyBucket ArgusDb.
Import LeakyBucket.LeakyBucket.

Local Open Scope Z_scope.
Local Open Scope go_scope.

Module PolicyEngine.

(** ** Data *)

(** [PolicyStateStatus] is a string type; other strings can come from the
    database. *)
Inductive PolicyStateStatus :=
| Clean
| Watching
| Firing
| Recovering
| OtherStatus (s : string).

Definition status_of_string (s : string) : PolicyStateStatus :=
  if String.eqb s "clean" then Clean
  else if String.eqb s "watching" then Watching
  else if String.eqb s "firing" then Firing
  else if String.eqb s "recovering" then Recovering
  else OtherStatus s.

Definition status_string (s : PolicyStateStatus) : string :=
  match s with
  | Clean => "clean"
  | Watching => "watching"
  | Firing => "firing"
  | Recovering => "recovering"
  | OtherStatus s => s
  end.

Record PendingFinding := { pf_Id : string; pf_Finding : option Finding }.

Record PolicyState := {
  Status : PolicyStateStatus;
  StatusUpdatedAt : time;
  Bucket : BucketState;
  OpenEventId : option uuid;
  PendingFindings : list PendingFinding;
}.

Record PolicyEngineConfig := {
  LeakyBucketCfg : LeakyBucketConfiguration;
  QuietPeriod : duration;
  ConfirmWindow : duration;
}.

(** The engine with the database environment it talks to. *)
Record engine := {
  states : gmap SeriesKey PolicyState;
  en_env : env;
}.

Definition en_db (w : engine) : argus_db := e_db (en_env w).

Definition set_state (sk : SeriesKey) (st : PolicyState) : go engine unit :=
  go_modify (fun w => {| states := <[sk := st]> (states w); en_env := en_env w |}).

(** A database call made by the engine. *)
Definition db {A} (c : go env A) : go engine A := fun w =>
  let '(e, r) := c (en_env w) in ({| states := states w; en_env := e |}, r).

Definition with_bucket (st : PolicyState) (b : BucketState) : PolicyState :=
  {| Status := Status st; StatusUpdatedAt := StatusUpdatedAt st; Bucket := b;
     OpenEventId := OpenEventId st; PendingFindings := PendingFindings st |}.

Definition with_status (st : PolicyState) (s : PolicyStateStatus) (at_ : time) : PolicyState :=
  {| Status := s; StatusUpdatedAt := at_; Bucket := Bucket st;
     OpenEventId := OpenEventId st; PendingFindings := PendingFindings st |}.

Definition with_pending (st : PolicyState) (p : list PendingFinding) : PolicyState :=
  {| Status := Status st; StatusUpdatedAt := StatusUpdatedAt st; Bucket := Bucket st;
     OpenEventId := OpenEventId st; PendingFindings := p |}.

Definition with_event (st : PolicyState) (e : option uuid) : PolicyState :=
  {| Status := Status st; StatusUpdatedAt := StatusUpdatedAt st; Bucket := Bucket st;
     OpenEventId := e; PendingFindings := PendingFindings st |}.

Definition series_id_of (k : SeriesKey) : series_id :=
  mkSeriesId (sk_SerialId k) (sk_SrcIP k) (sk_Target k) (sk_Port k) (sk_Metric k) (sk_Detector k).

(** The orders a sweep meets: of the rows of its query, and of the iteration of
    [range p.states]. *)
Record sweep_order := {
  so_rows : series_id → nat;
  so_states :> gmap SeriesKey PolicyState → list SeriesKey;
}.

Section WithUuid.
Context `{UuidLib} (cfg : PolicyEngineConfig).

(** ** savePolicyState *)

(** [uuid.Parse] of every pending id, the first failure returns. *)
Fixpoint parse_pending (l : list PendingFinding) : option (list uuid) :=
  match l with
  | [] => Some []
  | p :: l' => u ← uuid_Parse (pf_Id p); us ← parse_pending l'; Some (u :: us)
  end.

Definition savePolicyState (sk : SeriesKey) (st : PolicyState) : go engine unit :=
  match parse_pending (PendingFindings st) with
  | None => go_err "invalid UUID"
  | Some ids =>
      db (UpsertPolicyState (series_id_of sk) (status_string (Status st))
            (Score (Bucket st)) (ScoreUpdatedAt (Bucket st))
            (pg_scan (OpenEventId st)) (pg_some <$> ids) (StatusUpdatedAt st))
  end.

(** ** openEvent *)

Definition peak_severity (sev : float64) (l : list PendingFinding) : float64 :=
  fold_left (fun peak p =>
    match pf_Finding p with
    | Some f => if fltb peak (Severity f) then Severity f else peak
    | None => peak
    end) l sev.

Fixpoint attach_pending (event : uuid) (l : list PendingFinding) : go engine unit :=
  match l with
  | [] => go_ret tt
  | p :: l' =>
      match uuid_Parse (pf_Id p) with
      | None => go_err "invalid UUID"
      | Some id => db (AttachFindingToEvent (pg_some event) (pg_some id)) ;;; attach_pending event l'
      end
  end.

(** The statements between [Begin] and [Commit]. *)
Definition open_event_body (sk : SeriesKey) (st : PolicyState) (f : Finding) : go engine uuid :=
  let* event := db (OpenEvent (sk_SerialId sk) (sk_Target sk) (sk_Port sk) (sk_Metric sk)
                      (TS f) (int32 (Z.of_nat (length (PendingFindings st))))
                      (peak_severity (Severity f) (PendingFindings st)) [sk_Detector sk]) in
  attach_pending (pg_Bytes event) (PendingFindings st) ;;;
  match uuid_Parse (pg_String event) with
  | None => go_err "invalid UUID"
  | Some u => go_ret u
  end.

(** [pool.Begin] returns a nil transaction with its error, and the code calls
    [tx.Rollback] on it: a nil dereference.  Every later error rolls back. *)
Definition openEvent (sk : SeriesKey) (st : PolicyState) (f : Finding) : go engine unit :=
  let* begun := go_try (db Begin) in
  match begun with
  | inl _ => go_panic "nil pointer dereference"
  | inr tx =>
      let* body := go_try (open_event_body sk st f) in
      match body with
      | inl err => db (Rollback tx) ;;; go_err err
      | inr u =>
          db (Commit tx) ;;;
          set_state sk (with_status (with_pending (with_event st (Some u)) []) Firing (TS f))
      end
  end.

(** ** ApplyFinding *)

(** The state a finding starts from: in memory, else the database row, else a
    new clean one; the two latter are entered in the map. *)
Definition state_of_row (r : ArgusPolicyState) : PolicyState :=
  {| Status := status_of_string (ps_status r);
     StatusUpdatedAt := ps_entered_status_at r;
     Bucket := {| Score := ps_score r; ScoreUpdatedAt := ps_score_updated_at r |};
     OpenEventId := ps_open_event_id r;
     PendingFindings :=
       (λ u, {| pf_Id := pg_String (pg_some u); pf_Finding := None |}) <$> ps_pending_findings r |}.

Definition new_state (now : time) : PolicyState :=
  {| Status := Clean; StatusUpdatedAt := now;
     Bucket := {| Score := fzero; ScoreUpdatedAt := zeroTime |};
     OpenEventId := None; PendingFindings := [] |}.

Definition load_state (sk : SeriesKey) (now : time) : go engine PolicyState :=
  let* w := go_get in
  match states w !! sk with
  | Some st => go_ret st
  | None =>
      let* r := go_try (db (GetPolicyState (series_id_of sk))) in
      match r with
      | inl err =>
          if String.eqb err ErrNoRows then
            set_state sk (new_state now) ;;; go_ret (new_state now)
          else go_err err
      | inr row => set_state sk (state_of_row row) ;;; go_ret (state_of_row row)
      end
  end.

Definition attachFindingToEvent (eventId : uuid) (findingId : PgUUID) : go engine unit :=
  db (AttachFindingToEvent (pg_some eventId) findingId).

(** The switch on the status; [st] already has the new bucket. *)
Definition transition (sk : SeriesKey) (st : PolicyState) (f : Finding) (findingId : PgUUID)
    (crossedOpen : bool) : go engine unit :=
  let pf := {| pf_Id := pg_String findingId; pf_Finding := Some f |} in
  match Status st with
  | Clean =>
      let st1 := with_pending (with_status st Watching (TS f)) [pf] in
      set_state sk st1 ;;;
      if crossedOpen then openEvent sk st1 f else go_ret tt
  | Watching =>
      let st1 := with_pending st (PendingFindings st ++ [pf]) in
      set_state sk st1 ;;;
      if crossedOpen then openEvent sk st1 f else go_ret tt
  | Firing =>
      match OpenEventId st with
      | None => go_err "missing open id but policy state in firing"
      | Some e => attachFindingToEvent e findingId
      end
  | Recovering =>
      match OpenEventId st with
      | None => go_err "missing open id but policy state in recovering"
      | Some e =>
          attachFindingToEvent e findingId ;;;
          set_state sk (with_status st Firing (TS f))
      end
  | OtherStatus _ => go_ret tt
  end.

Definition ApplyFinding (sk : SeriesKey) (f : Finding) (findingId : PgUUID) (now : time)
    : go engine unit :=
  let* st := load_state sk now in
  let u := Add (LeakyBucketCfg cfg) (Bucket st) (Severity f) (TS f) in
  let st1 := with_bucket st (NewState u) in
  set_state sk st1 ;;;
  transition sk st1 f findingId (CrossedOpen u) ;;;
  let* w := go_get in
  match states w !! sk with
  | Some st2 => savePolicyState sk st2
  | None => go_ret tt
  end.

(** ** InsertFinding *)

(** [json.Marshal] of the details fails on NaN and infinities. *)
Definition details_encodable (d : option FindingDetails) : bool :=
  match d with
  | None => true
  | Some (EwmaFindingDetails z sd v _) => is_finite z && is_finite sd && is_finite v
  | Some (BetaBinomialFindingDetails t _ _ r a b) =>
      is_finite t && is_finite r && is_finite a && is_finite b
  end.

Definition finding_row (sk : SeriesKey) (f : Finding) : ArgusFinding :=
  {| fi_serial_id := sk_SerialId sk; fi_target := sk_Target sk; fi_port := sk_Port sk;
     fi_metric := sk_Metric sk; fi_detector := sk_Detector sk; fi_ts := timestamptz (TS f);
     fi_value := Value f; fi_severity := Severity f; fi_details := Details f;
     fi_event_id := None |}.

Definition InsertFinding (sk : SeriesKey) (f : Finding) : go engine PgUUID :=
  if details_encodable (Details f) then db (InsertFinding_q (finding_row sk f))
  else go_err "json: unsupported value".

(** ** Sweep *)

(** The key Sweep builds from a row has neither Type nor SrcIP. *)
Definition key_of_row (r : ListNonCleanPolicyStatesRow) : SeriesKey :=
  mkSeriesKey "" (nc_SerialID r) (nc_Target r) "" (nc_Port r) (nc_Metric r) (nc_Detector r).

Definition hydrate (r : ListNonCleanPolicyStatesRow) : go engine unit :=
  let* w := go_get in
  match states w !! key_of_row r with
  | Some _ => go_ret tt
  | None =>
      match ps_open_event_id (nc_row r) with
      | None => set_state (key_of_row r) (state_of_row (nc_row r))
      | Some u =>
          match uuid_Parse (pg_String (pg_some u)) with
          | None => go_ret tt
          | Some u' => set_state (key_of_row r) (with_event (state_of_row (nc_row r)) (Some u'))
          end
      end
  end.

(** The switch of the sweep loop; [st] already has the decayed bucket. *)
Definition sweep_status (sk : SeriesKey) (st : PolicyState) (crossedClose : bool) (now : time)
    : go engine PolicyState :=
  match Status st with
  | Watching =>
      if Z.ltb (ConfirmWindow cfg) (Sub now (StatusUpdatedAt st)) then
        go_ret (with_bucket (with_pending (with_status st Clean now) [])
                  {| Score := fzero; ScoreUpdatedAt := now |})
      else go_ret st
  | Firing => if crossedClose then go_ret (with_status st Recovering now) else go_ret st
  | Recovering =>
      match OpenEventId st with
      | Some e =>
          if Z.ltb (QuietPeriod cfg) (Sub now (StatusUpdatedAt st)) then
            db (CloseEvent e now) ;;;
            go_ret (with_status (with_pending (with_event st None) []) Clean now)
          else go_ret st
      | None => go_ret st
      end
  | _ => go_ret st
  end.

Definition sweep_one (now : time) (sk : SeriesKey) : go engine unit :=
  let* w := go_get in
  match states w !! sk with
  | None => go_ret tt
  | Some st =>
      let u := Decay (LeakyBucketCfg cfg) (Bucket st) now in
      let st1 := with_bucket st (NewState u) in
      set_state sk st1 ;;;
      let* st2 := sweep_status sk st1 (CrossedClose u) now in
      set_state sk st2 ;;;
      let* _ := go_try (savePolicyState sk st2) in
      go_ret tt
  end.

Definition Sweep (order : sweep_order) (now : time) : go engine unit :=
  let* rows := db (ListNonCleanPolicyStates (so_rows order)) in
  go_each hydrate rows ;;;
  let* w := go_get in
  go_each (sweep_one now) (order (states w)).

End WithUuid.
End PolicyEngine.
