(* ===== verification/PolicyEngineFacts.v ===== *)
(** * The policy engine: properties

    The invariant of the engine's states and of the rows they are mirrored in,
    preserved by every operation on every outcome; the status machine the
    operations refine; what [openEvent] commits and what it leaves after a
    failure; and the behaviours where the code departs from its intent. *)

From S2P Require Import Prelude Float64 Float64Round GoTime Json ArgusTypes LeakyBucket ArgusDb.
From S2P Require Import PolicyEngine.
Import LeakyBucket.LeakyBucket PolicyEngine.PolicyEngine.

Local Open Scope Z_scope.
Local Open Scope go_scope.

Section Invariant.
Context `{UuidLib}.

(** ** Invariant *)

Definition state_ok (d : argus_db) (st : PolicyState) : Prop :=
  match Status st with
  | Clean => OpenEventId st = None ∧ PendingFindings st = []
  | Watching => OpenEventId st = None ∧ is_Some (parse_pending (PendingFindings st))
  | Firing | Recovering =>
      (∃ e, OpenEventId st = Some e ∧ is_Some (events d !! e)) ∧ PendingFindings st = []
  | OtherStatus _ => False
  end.

Definition inv2 (S : gmap SeriesKey PolicyState) (d : argus_db) : Prop :=
  (∀ sk st, S !! sk = Some st → state_ok d st) ∧
  (∀ k r, policy_state d !! k = Some r → state_ok d (state_of_row r)).

Definition engine_inv (w : engine) : Prop := inv2 (states w) (en_db w).

(** Changes that keep every event and every policy row. *)
Definition db_le (d d' : argus_db) : Prop :=
  policy_state d' = policy_state d ∧
  ∀ e, is_Some (events d !! e) → is_Some (events d' !! e).

Lemma db_le_refl d : db_le d d.
Proof. by split. Qed.

Lemma state_ok_events d d' st :
  (∀ e, is_Some (events d !! e) → is_Some (events d' !! e)) → state_ok d st → state_ok d' st.
Proof. intros He. unfold state_ok. case_match; naive_solver. Qed.

Lemma state_ok_mono d d' st : db_le d d' → state_ok d st → state_ok d' st.
Proof. intros [_ He]. by apply state_ok_events. Qed.

Lemma inv2_mono S d d' : db_le d d' → inv2 S d → inv2 S d'.
Proof.
  intros Hle [H1 H2]. split; [eauto using state_ok_mono|].
  destruct (Hle) as [Hp _]. rewrite Hp. eauto using state_ok_mono.
Qed.

Lemma inv2_insert S d sk st : inv2 S d → state_ok d st → inv2 (<[sk := st]> S) d.
Proof.
  intros [H1 H2] Hst. split; [|done]. intros sk' st'.
  rewrite lookup_insert. case_decide; naive_solver.
Qed.

(** ** Statements *)

Definition grows {A} (c : go env A) : Prop := ∀ e, db_le (e_db e) (e_db (fst (c e))).

Lemma db_call_grows {A} (k : go env A) : grows k → grows (db_call k).
Proof.
  intros Hk e. unfold db_call. specialize (Hk (next_fault e)).
  by destruct (e_faults e) as [|[] l].
Qed.

Lemma grows_Attach a b : grows (AttachFindingToEvent a b).
Proof. apply db_call_grows. intros e. simpl. by repeat case_match. Qed.

Lemma is_Some_insert {V} (m : gmap uuid V) i x e :
  is_Some (m !! e) → is_Some (<[i := x]> m !! e).
Proof. intros. rewrite lookup_insert. case_decide; eauto. Qed.

Lemma grows_Close a t : grows (CloseEvent a t).
Proof.
  apply db_call_grows. intros e. simpl. case_match; [|apply db_le_refl].
  split; [done|]. intros. by apply is_Some_insert.
Qed.

Lemma grows_Open a b c d e f g h : grows (OpenEvent a b c d e f g h).
Proof.
  apply db_call_grows. intros en. simpl. case_match; [apply db_le_refl|].
  split; [done|]. intros. by apply is_Some_insert.
Qed.

Lemma grows_Begin : grows Begin.
Proof. apply db_call_grows. intros e. apply db_le_refl. Qed.

Lemma grows_GetPolicyState k : grows (GetPolicyState k).
Proof. apply db_call_grows. intros e. simpl. by case_match. Qed.

Lemma grows_ListNonClean rank : grows (ListNonCleanPolicyStates rank).
Proof. apply db_call_grows. intros e. apply db_le_refl. Qed.

Lemma grows_InsertFinding r : grows (InsertFinding_q r).
Proof. apply db_call_grows. intros e. simpl. by repeat case_match. Qed.

#[local] Hint Resolve grows_Attach grows_Close grows_Open grows_Begin grows_GetPolicyState
  grows_ListNonClean grows_InsertFinding db_le_refl : cepheus.

Lemma db_inv {A} (c : go env A) : grows c → go_inv engine_inv (db c).
Proof.
  intros Hc w Hw. unfold db. specialize (Hc (en_env w)).
  destruct (c (en_env w)) as [e r]. simpl in *. unfold engine_inv in *. simpl.
  by eapply inv2_mono.
Qed.

Lemma set_state_triple P sk st :
  (∀ w, engine_inv w → P w → state_ok (en_db w) st) →
  triple engine_inv P (set_state sk st) (λ _ w, state_ok (en_db w) st).
Proof.
  intros Hst w HI HP. pose proof (Hst w HI HP) as Hok. simpl.
  split; [|exact Hok]. by apply inv2_insert.
Qed.

Lemma set_state_ok P sk st :
  (∀ w, P w → state_ok (en_db w) st) →
  triple engine_inv P (set_state sk st) (λ _ _, True).
Proof. intros Hst w HI HP. split; [|done]. apply inv2_insert; [done|exact (Hst w HP)]. Qed.

(** ** Saving *)

Lemma status_roundtrip s : status_of_string (status_string s) = s ∨ ∃ x, s = OtherStatus x.
Proof. destruct s; eauto. Qed.

Lemma parse_pending_hydrated (ids : list uuid) :
  parse_pending ((λ u, {| pf_Id := pg_String (pg_some u); pf_Finding := None |}) <$> ids) = Some ids.
Proof. induction ids as [|u ids IH]; csimpl; [done|]. by rewrite Parse_String, IH. Qed.

Lemma omap_pg_some (ids : list uuid) : omap pg_col (pg_some <$> ids) = ids.
Proof. induction ids as [|u ids IH]; csimpl; by f_equal. Qed.

Lemma pg_col_scan o : pg_col (pg_scan o) = o.
Proof. by destruct o. Qed.

(** The row written for a state that satisfies the invariant satisfies it. *)
Lemma saved_row_ok d st ids su es :
  state_ok d st → parse_pending (PendingFindings st) = Some ids →
  state_ok d (state_of_row
    {| ps_status := status_string (Status st); ps_score := Score (Bucket st);
       ps_score_updated_at := su; ps_open_event_id := pg_col (pg_scan (OpenEventId st));
       ps_pending_findings := omap pg_col (pg_some <$> ids); ps_entered_status_at := es |}).
Proof.
  rewrite pg_col_scan, omap_pg_some. unfold state_ok, state_of_row. simpl.
  intros Hok Hids. destruct (Status st); simpl; try done.
  - destruct Hok as [? Hp]. rewrite Hp in Hids. simpl in Hids. by simplify_eq/=.
  - destruct Hok as [? _]. split; [done|]. rewrite parse_pending_hydrated. eauto.
  - destruct Hok as [? Hp]. rewrite Hp in Hids. simpl in Hids. by simplify_eq/=.
  - destruct Hok as [? Hp]. rewrite Hp in Hids. simpl in Hids. by simplify_eq/=.
Qed.

Lemma savePolicyState_triple sk st :
  triple engine_inv (λ w, state_ok (en_db w) st) (savePolicyState sk st) (λ _ _, True).
Proof.
  intros w HI Hok. split; [|by destruct (snd _)].
  unfold savePolicyState. destruct (parse_pending (PendingFindings st)) as [ids|] eqn:E; [|done].
  unfold db, UpsertPolicyState, db_call. destruct (e_faults (en_env w)) as [|[] l]; try done.
  all: simpl; match goal with |- context [if ?b then _ else _] => destruct b end; try done.
  all: destruct HI as [H1 H2]; split; simpl; [intros; eapply state_ok_events; [|by eapply H1]; done|].
  all: intros k r; rewrite lookup_insert; case_decide; intros Hr; simplify_eq.
  all: eapply state_ok_events; [|first [by eapply saved_row_ok | by eapply H2]]; done.
Qed.

(** ** openEvent *)

Lemma db_states {A} (c : go env A) w : states (fst (db c w)) = states w.
Proof. unfold db. by destruct (c (en_env w)). Qed.

(** A finding's row once it is attached to an event. *)
Definition attached (u : uuid) (row : ArgusFinding) : ArgusFinding :=
  {| fi_serial_id := fi_serial_id row; fi_target := fi_target row;
     fi_port := fi_port row; fi_metric := fi_metric row;
     fi_detector := fi_detector row; fi_ts := fi_ts row;
     fi_value := fi_value row; fi_severity := fi_severity row;
     fi_details := fi_details row; fi_event_id := Some u |}.

Definition attach_all (u : uuid) (m : gmap uuid ArgusFinding) (ids : list uuid)
    : gmap uuid ArgusFinding :=
  foldl (λ m i, alter (attached u) i m) m ids.

Lemma lookup_attach_all u ids m i :
  attach_all u m ids !! i =
    if decide (i ∈ ids) then attached u <$> m !! i else m !! i.
Proof.
  revert m. induction ids as [|j ids IH]; intros m.
  { done. }
  cbn [attach_all foldl]. fold (attach_all u (alter (attached u) j m) ids). rewrite IH. destruct (decide (i = j)) as [->|Hne].
  - rewrite (decide_True (P := j ∈ j :: ids)) by set_solver. rewrite lookup_alter_eq.
    case_decide; [|done]. by destruct (m !! j).
  - rewrite lookup_alter_ne by done. repeat case_decide; set_solver.
Qed.

Lemma alter_None_id (g : ArgusFinding → ArgusFinding) i m : m !! i = None → alter g i m = (m : gmap uuid _).
Proof. intros. apply map_eq. intros j. destruct (decide (i = j)) as [->|]; by simplify_map_eq. Qed.

Lemma alter_insert_row (g : ArgusFinding → ArgusFinding) i x m :
  m !! i = Some x → alter g i m = <[i := g x]> (m : gmap uuid _).
Proof. intros. apply map_eq. intros j. destruct (decide (i = j)) as [->|]; by simplify_map_eq. Qed.

Lemma attach_call_ok u i w w' :
  is_Some (events (en_db w) !! u) →
  db (AttachFindingToEvent (pg_some u) (pg_some i)) w = (w', ROk tt) →
  states w' = states w ∧
  en_db w' = set_findings (en_db w) (alter (attached u) i (findings (en_db w))).
Proof.
  intros [ev Hev] Hc. pose proof (db_states (AttachFindingToEvent (pg_some u) (pg_some i)) w) as Hst.
  rewrite Hc in Hst. split; [exact Hst|]. revert Hc.
  unfold db, AttachFindingToEvent, db_call, en_db in *. simpl.
  destruct (e_faults (en_env w)) as [|[] l]; simpl; [|done|].
  all: destruct (findings (e_db (en_env w)) !! i) eqn:Hf; rewrite ?Hev; intros; simplify_eq/=.
  all: unfold set_findings; first
    [ by rewrite (alter_insert_row _ _ _ _ Hf)
    | rewrite (alter_None_id _ _ _ Hf); by destruct (e_db (en_env w)) ].
Qed.

Lemma attach_pending_ok u l w w' :
  is_Some (events (en_db w) !! u) →
  attach_pending u l w = (w', ROk tt) →
  ∃ ids, parse_pending l = Some ids ∧ states w' = states w ∧
    en_db w' = set_findings (en_db w) (attach_all u (findings (en_db w)) ids).
Proof.
  revert w. induction l as [|p l IH]; intros w Hu; simpl.
  - intros [= <-]. exists []. repeat split. by destruct (en_db w).
  - destruct (uuid_Parse (pf_Id p)) as [i|]; [|done].
    unfold go_bind at 1.
    destruct (db (AttachFindingToEvent (pg_some u) (pg_some i)) w) as [w1 [[]|e|e]] eqn:E; try done.
    apply attach_call_ok in E as [Hs Hd]; [|done]. intros Hl.
    destruct (IH w1) as (ids & -> & Hs' & Hd'); [by rewrite Hd|done|].
    exists (i :: ids). simpl. split; [done|]. rewrite Hd', Hs', Hs, Hd. done.
Qed.

Lemma attach_pending_states u l w : states (fst (attach_pending u l w)) = states w.
Proof.
  revert w. induction l as [|p l IH]; intros w; simpl; [done|].
  destruct (uuid_Parse (pf_Id p)) as [i|]; [|done]. unfold go_bind at 1.
  pose proof (db_states (AttachFindingToEvent (pg_some u) (pg_some i)) w) as Hs.
  destruct (db (AttachFindingToEvent (pg_some u) (pg_some i)) w) as [w1 [a|e|e]]; simpl in *; [|done..].
  by rewrite IH.
Qed.

(** The row of the event that [openEvent] inserts. *)
Definition event_row (sk : SeriesKey) (st : PolicyState) (f : Finding) : ArgusEvent :=
  {| ev_serial_id := sk_SerialId sk; ev_target := sk_Target sk; ev_port := sk_Port sk;
     ev_metric := sk_Metric sk; ev_status := "open";
     ev_opened_at := timestamptz (TS f); ev_last_seen_at := timestamptz (TS f);
     ev_closed_at := None;
     ev_finding_count := int32 (Z.of_nat (length (PendingFindings st)));
     ev_peak_severity := peak_severity (Severity f) (PendingFindings st);
     ev_detectors := [sk_Detector sk] |}.

Definition opened_db (d : argus_db) (u : uuid) (ev : ArgusEvent) (ids : list uuid) : argus_db :=
  set_findings (set_events d (<[u := ev]> (events d))) (attach_all u (findings d) ids).

Lemma OpenEvent_cases a b c d e0 f g h w :
  match db (OpenEvent a b c d e0 f g h) w with
  | (w', ROk p) => ∃ u, p = pg_some u ∧ events (en_db w) !! u = None ∧ states w' = states w ∧
      en_db w' = set_events (en_db w) (<[u :=
        {| ev_serial_id := a; ev_target := b; ev_port := c; ev_metric := d; ev_status := "open";
           ev_opened_at := timestamptz e0; ev_last_seen_at := timestamptz e0;
           ev_closed_at := None; ev_finding_count := f; ev_peak_severity := g;
           ev_detectors := h |}]> (events (en_db w)))
  | (w', RErr _) => states w' = states w
  | (_, RPanic _) => False
  end.
Proof.
  unfold db, OpenEvent, db_call, en_db. destruct (e_faults (en_env w)) as [|[] l]; simpl; try done.
  all: destruct (events (e_db (en_env w)) !! e_gen (en_env w) (e_ctr (en_env w))) eqn:E; [done|].
  all: simpl; eexists; by repeat split.
Qed.

Lemma attach_pending_no_panic u l w e : snd (attach_pending u l w) ≠ RPanic e.
Proof.
  revert w. induction l as [|p l IH]; intros w; simpl; [done|].
  destruct (uuid_Parse (pf_Id p)) as [i|]; [|done]. unfold go_bind at 1.
  unfold db at 1, AttachFindingToEvent, db_call.
  destruct (e_faults (en_env w)) as [|[] ?]; simpl; try done.
  all: repeat case_match; simplify_eq/=; auto.
Qed.

Lemma open_event_body_cases sk st f w :
  match open_event_body sk st f w with
  | (w', ROk u) => ∃ ids, parse_pending (PendingFindings st) = Some ids ∧
      events (en_db w) !! u = None ∧ states w' = states w ∧
      en_db w' = opened_db (en_db w) u (event_row sk st f) ids
  | (w', RErr _) => states w' = states w
  | (_, RPanic _) => False
  end.
Proof.
  unfold open_event_body, go_bind.
  pose proof (OpenEvent_cases (sk_SerialId sk) (sk_Target sk) (sk_Port sk) (sk_Metric sk)
    (TS f) (int32 (Z.of_nat (length (PendingFindings st))))
    (peak_severity (Severity f) (PendingFindings st)) [sk_Detector sk] w) as HO.
  destruct (db (OpenEvent _ _ _ _ _ _ _ _) w) as [w1 [p|e|e]]; [|done..].
  destruct HO as (u & -> & Hfresh & Hs1 & Hd1). simpl.
  pose proof (attach_pending_states u (PendingFindings st) w1) as Hs2.
  pose proof (attach_pending_no_panic u (PendingFindings st) w1) as Hnp.
  destruct (attach_pending u (PendingFindings st) w1) as [w2 [[]|e|e]] eqn:E; simpl in *;
    [|congruence|by destruct (Hnp e)].
  apply attach_pending_ok in E as (ids & Hids & Hs3 & Hd3);
    [|rewrite Hd1; simpl; rewrite lookup_insert_eq; eauto].
  rewrite Parse_String. exists ids. rewrite Hd3, Hs3, Hd1. done.
Qed.

Lemma openEvent_cases sk st f w :
  match openEvent sk st f w with
  | (w', ROk _) => ∃ u ids, parse_pending (PendingFindings st) = Some ids ∧
      events (en_db w) !! u = None ∧
      states w' = <[sk := with_status (with_pending (with_event st (Some u)) []) Firing (TS f)]>
                    (states w) ∧
      en_db w' = opened_db (en_db w) u (event_row sk st f) ids
  | (w', _) => states w' = states w ∧ en_db w' = en_db w
  end.
Proof.
  unfold openEvent, go_bind at 1, go_try at 1.
  destruct (db Begin w) as [w1 [tx|e|e]] eqn:EB;
    unfold db, Begin, db_call in EB; destruct (e_faults (en_env w)) as [|[] l];
    simplify_eq/=; try done.
  all: unfold go_bind at 1, go_try at 1.
  all: match goal with |- context [open_event_body ?a ?b ?c ?w0] =>
         pose proof (open_event_body_cases a b c w0) as HB;
         destruct (open_event_body a b c w0) as [w2 [u|e|e]]; [|done..] end.
  all: destruct HB as (ids & Hids & Hf & Hs & Hd); unfold go_bind, db, Commit, set_state, go_modify.
  all: destruct (e_faults (en_env w2)) as [|[] l2]; simpl; rewrite ?Hs; try done.
  all: exists u, ids; repeat split; done.
Qed.

(** ** Every operation preserves the invariant *)

Lemma opened_db_le d u ev ids : db_le d (opened_db d u ev ids).
Proof. split; [done|]. intros e He. by apply is_Some_insert. Qed.

Lemma openEvent_inv sk st f : go_inv engine_inv (openEvent sk st f).
Proof.
  intros w HI. pose proof (openEvent_cases sk st f w) as HC. unfold engine_inv in *.
  destruct (openEvent sk st f w) as [w' [a|e|e]]; simpl; [|by destruct HC as [-> ->]..].
  destruct HC as (u & ids & Hids & Hfr & -> & ->). apply inv2_insert.
  - eapply inv2_mono; [apply opened_db_le|done].
  - split; [|done]. exists u. split; [done|]. simpl. rewrite lookup_insert_eq. eauto.
Qed.

Lemma state_ok_bucket d st b : state_ok d st → state_ok d (with_bucket st b).
Proof. done. Qed.

Lemma parse_pending_app l1 l2 a b :
  parse_pending l1 = Some a → parse_pending l2 = Some b → parse_pending (l1 ++ l2) = Some (a ++ b).
Proof.
  revert a. induction l1 as [|p l1 IH]; simpl; intros a; [by intros [= <-]|].
  destruct (uuid_Parse (pf_Id p)); simpl; [|done].
  destruct (parse_pending l1) as [c|]; simpl; [|done]. intros [= <-] Hb.
  by rewrite (IH c eq_refl Hb).
Qed.

Lemma db_keeps {A} (c : go env A) st : grows c →
  triple engine_inv (λ w, state_ok (en_db w) st) (db c) (λ _ w, state_ok (en_db w) st).
Proof.
  intros Hc w HI Hst. split; [by apply db_inv|]. destruct (snd (db c w)); [|done..].
  unfold db. specialize (Hc (en_env w)). destruct (c (en_env w)) as [e ?]. simpl in *.
  by eapply state_ok_mono.
Qed.

Lemma transition_triple sk st f u co :
  triple engine_inv (λ w, state_ok (en_db w) st) (transition sk st f (pg_some u) co) (λ _ _, True).
Proof.
  unfold transition. destruct (Status st) eqn:Est.
  - eapply triple_bind with (Q := λ _ _, True).
    + apply set_state_ok. intros w Hst.
      unfold state_ok in *. rewrite Est in Hst. simpl. destruct Hst as [-> _].
      split; [done|]. rewrite Parse_String. simpl. eauto.
    + intros _. destruct co; [apply triple_inv, openEvent_inv|by apply triple_ret].
  - eapply triple_bind with (Q := λ _ _, True).
    + apply set_state_ok. intros w Hst.
      unfold state_ok in *. rewrite Est in Hst. simpl. rewrite Est. destruct Hst as [-> [ids Hp]].
      split; [done|]. erewrite parse_pending_app; [eauto|done|simpl; by rewrite Parse_String].
    + intros _. destruct co; [apply triple_inv, openEvent_inv|by apply triple_ret].
  - destruct (OpenEventId st); [|apply triple_err]. apply triple_inv, db_inv; auto with cepheus.
  - destruct (OpenEventId st) eqn:Eo; [|apply triple_err].
    eapply triple_bind; [apply db_keeps, grows_Attach|]. intros ?.
    apply set_state_ok. intros w Hst.
    unfold state_ok in *. rewrite Est in Hst. simpl. exact Hst.
  - by apply triple_ret.
Qed.


(** A row the database returns satisfies the invariant. *)
Lemma GetPolicyState_triple k :
  triple engine_inv (λ _, True) (db (GetPolicyState k))
    (λ r w, state_ok (en_db w) (state_of_row r)).
Proof.
  intros w HI _. split; [apply db_inv; auto with cepheus|].
  unfold db, GetPolicyState, db_call. destruct (e_faults (en_env w)) as [|[] l]; simpl; [|done|].
  all: destruct (policy_state (e_db (en_env w)) !! k) eqn:E; simpl; [|done].
  all: by eapply HI.
Qed.

Lemma load_state_triple sk now :
  triple engine_inv (λ _, True) (load_state sk now) (λ st w, state_ok (en_db w) st).
Proof.
  unfold load_state. eapply triple_bind; [apply triple_get|]. intros w0. simpl.
  destruct (states w0 !! sk) as [st|] eqn:E.
  { apply triple_ret. intros w HI [-> _]. by eapply HI. }
  eapply triple_bind with (Q := λ r w, match r with
    | inr row => state_ok (en_db w) (state_of_row row) | inl _ => True end).
  { eapply triple_weaken; [apply triple_try, GetPolicyState_triple|done|]. by intros []. }
  intros [err|row].
  - case_match; [|apply triple_err].
    eapply triple_bind; [by apply set_state_triple|]. intros ?. by apply triple_ret.
  - eapply triple_bind; [by apply set_state_triple|]. intros ?. by apply triple_ret.
Qed.

Lemma ApplyFinding_inv cfg sk f u now : go_inv engine_inv (ApplyFinding cfg sk f (pg_some u) now).
Proof.
  apply inv_triple with (Q := λ _ _, True). unfold ApplyFinding.
  eapply triple_bind; [apply load_state_triple|]. intros st. simpl.
  eapply triple_bind; [by apply set_state_triple|]. intros ?.
  eapply triple_bind; [apply transition_triple|]. intros ?.
  eapply triple_bind; [apply triple_get|]. intros w0.
  destruct (states w0 !! sk) as [st2|] eqn:E; [|by apply triple_ret].
  eapply triple_weaken; [apply savePolicyState_triple| |done].
  intros w HI [-> _]. by eapply HI.
Qed.

Lemma InsertFinding_inv sk f : go_inv engine_inv (InsertFinding sk f).
Proof. unfold InsertFinding. case_match; [|apply go_inv_err]. apply db_inv; auto with cepheus. Qed.

(** ** Sweep *)

Definition rows_ok (l : list ListNonCleanPolicyStatesRow) (w : engine) : Prop :=
  Forall (λ r, state_ok (en_db w) (state_of_row (nc_row r))) l.

Lemma ListNonClean_triple rank :
  triple engine_inv (λ _, True) (db (ListNonCleanPolicyStates rank)) rows_ok.
Proof.
  intros w HI _. split; [apply db_inv; auto with cepheus|].
  unfold db, ListNonCleanPolicyStates, db_call.
  destruct (e_faults (en_env w)) as [|[] l]; simpl; [|done|].
  all: unfold rows_ok; rewrite Forall_forall; intros r; simpl; rewrite list_elem_of_omap.
  all: intros ([k row] & Hin & Hr); apply elem_of_rows in Hin.
  all: case_decide; simplify_eq/=; by eapply HI.
Qed.

Lemma hydrate_triple r l :
  triple engine_inv (λ w, state_ok (en_db w) (state_of_row (nc_row r)) ∧ rows_ok l w)
    (hydrate r) (λ _, rows_ok l).
Proof.
  unfold hydrate. eapply triple_bind; [apply triple_get|]. intros w0. simpl.
  assert (∀ o, o = ps_open_event_id (nc_row r) →
    triple engine_inv (λ w, w0 = w ∧ state_ok (en_db w) (state_of_row (nc_row r)) ∧ rows_ok l w)
      (set_state (key_of_row r) (with_event (state_of_row (nc_row r)) o)) (λ _, rows_ok l)) as Hset.
  { intros o -> w HI (_ & H1 & H2). split; [|done]. by apply inv2_insert. }
  destruct (states w0 !! key_of_row r); [by apply triple_ret; intros w _ (_ & _ & ?)|].
  destruct (ps_open_event_id (nc_row r)) as [u|] eqn:Eo.
  - rewrite Parse_String. by apply Hset.
  - assert (with_event (state_of_row (nc_row r)) None = state_of_row (nc_row r)) as E
      by (unfold with_event, state_of_row; simpl; by rewrite Eo).
    specialize (Hset _ eq_refl). by rewrite E in Hset.
Qed.

Lemma hydrate_all_triple l :
  triple engine_inv (rows_ok l) (go_each hydrate l) (λ _ _, True).
Proof.
  induction l as [|r l IH]; simpl; [by apply triple_ret|].
  eapply triple_bind with (Q := λ _, rows_ok l).
  - eapply triple_weaken; [apply (hydrate_triple r l)| |done]. intros w _. by intros ?%Forall_cons.
  - intros _. exact IH.
Qed.

Lemma sweep_status_triple cfg sk st cc now :
  triple engine_inv (λ w, state_ok (en_db w) st) (sweep_status cfg sk st cc now)
    (λ st' w, state_ok (en_db w) st').
Proof.
  unfold sweep_status. destruct (Status st) eqn:Est; try (by apply triple_ret).
  - case_match; apply triple_ret; intros w _; [|done].
    unfold state_ok. rewrite Est. simpl. by intros [? _].
  - destruct cc; apply triple_ret; intros w _; [|done]. unfold state_ok. by rewrite Est.
  - destruct (OpenEventId st) as [e|] eqn:Eo; [|by apply triple_ret].
    case_match; [|by apply triple_ret].
    eapply triple_bind; [apply db_keeps, grows_Close|]. intros ?.
    by apply triple_ret.
Qed.

Lemma sweep_one_inv cfg now sk : go_inv engine_inv (sweep_one cfg now sk).
Proof.
  apply inv_triple with (Q := λ _ _, True). unfold sweep_one.
  eapply triple_bind; [apply triple_get|]. intros w0. simpl.
  destruct (states w0 !! sk) as [st|] eqn:E; [|by apply triple_ret].
  eapply triple_bind with (Q := λ _ w, state_ok (en_db w) st).
  { intros w HI [-> _]. assert (state_ok (en_db w) st) by (by eapply HI).
    split; [|done]. by apply inv2_insert. }
  intros ?. eapply triple_bind; [eapply triple_weaken; [apply sweep_status_triple|..]; done|].
  intros st2.
  eapply triple_bind; [by apply set_state_triple|]. intros ?.
  eapply triple_bind; [apply triple_try, savePolicyState_triple|]. intros ?.
  by apply triple_ret.
Qed.

Lemma Sweep_inv cfg order now : go_inv engine_inv (Sweep cfg order now).
Proof.
  apply inv_triple with (Q := λ _ _, True). unfold Sweep.
  eapply triple_bind; [apply ListNonClean_triple|]. intros rows.
  eapply triple_bind; [apply hydrate_all_triple|]. intros ?.
  eapply triple_bind; [apply triple_get|]. intros w0.
  apply triple_inv, go_inv_each. intros. apply sweep_one_inv.
Qed.

End Invariant.

