(* ===== verification/PolicyEngineProps.v ===== *)
(** * The policy engine: the theorems

    Reachability of well-formed states, progress of [ApplyFinding] on a healthy
    database, refinement of the status machine, atomicity of [openEvent], the
    effect of a whole [Sweep], and the behaviours that depart from the intent
    of the code, each as a theorem on the definitions of [PolicyEngine]. *)

From Stdlib Require Import Ascii.
From S2P Require Import Prelude Float64 Float64Round GoTime Json ArgusTypes LeakyBucket ArgusDb.
From S2P Require Import PolicyEngine PolicyEngineFacts.
Import LeakyBucket.LeakyBucket PolicyEngine.PolicyEngine.

Local Open Scope Z_scope.
Local Open Scope go_scope.

(** ** A concrete UUID library for the witnesses: binary digits, low bit first *)

Fixpoint pos_bits (p : positive) : string :=
  match p with
  | xH => "1"
  | xO q => String "0"%char (pos_bits q)
  | xI q => String "1"%char (pos_bits q)
  end.

Fixpoint bits_pos (s : string) : option positive :=
  match s with
  | EmptyString => None
  | String c s' =>
      if bool_decide (s' = EmptyString) then
        if bool_decide (c = "1"%char) then Some xH else None
      else
        p ← bits_pos s';
        if bool_decide (c = "0"%char) then Some (xO p)
        else if bool_decide (c = "1"%char) then Some (xI p) else None
  end.

Lemma pos_bits_nonempty p : pos_bits p ≠ EmptyString.
Proof. by destruct p. Qed.

Lemma bits_pos_bits p : bits_pos (pos_bits p) = Some p.
Proof.
  induction p as [q IH|q IH|]; simpl; [| |done].
  all: rewrite bool_decide_eq_false_2 by apply pos_bits_nonempty; by rewrite IH.
Qed.

Definition binary_Parse (s : string) : option uuid :=
  if bool_decide (s = "z") then Some 0%N else Npos <$> bits_pos s.

Definition binary_String (p : PgUUID) : string :=
  if pg_Valid p then match pg_Bytes p with N0 => "z" | Npos q => pos_bits q end else EmptyString.

Lemma binary_Parse_String u : binary_Parse (binary_String (pg_some u)) = Some u.
Proof.
  destruct u as [|p]; [done|]. unfold binary_Parse, binary_String. simpl.
  rewrite bool_decide_eq_false_2, bits_pos_bits; [done|]. by destruct p.
Qed.

Definition BinaryUuid : UuidLib :=
  {| uuid_Parse := binary_Parse; pg_String := binary_String;
     Parse_String := binary_Parse_String |}.

(** ** A healthy database: no statement fails *)

Section Quiet.
Context `{UuidLib}.

Definition quiet (w : engine) : Prop := e_faults (en_env w) = [].

(** The next identifier the database draws is not an event's. *)
Definition fresh (w : engine) : Prop :=
  events (en_db w) !! e_gen (en_env w) (e_ctr (en_env w)) = None.

Lemma db_call_quiet {A} (k : go env A) e : e_faults e = [] → db_call k e = k e.
Proof. destruct e. simpl. intros ->. done. Qed.

Lemma db_quiet {A} (k : go env A) w e r :
  quiet w → k (en_env w) = (e, r) →
  db (db_call k) w = ({| states := states w; en_env := e |}, r).
Proof. intros Hq Hk. unfold db. by rewrite db_call_quiet, Hk by done. Qed.

Lemma Attach_quiet u i w :
  quiet w → is_Some (events (en_db w) !! u) →
  ∃ w', db (AttachFindingToEvent (pg_some u) (pg_some i)) w = (w', ROk tt) ∧ quiet w' ∧
    events (en_db w') = events (en_db w) ∧ states w' = states w.
Proof.
  intros Hq [ev Hev]. unfold AttachFindingToEvent, quiet, en_db, db in *.
  rewrite db_call_quiet by done. simpl.
  destruct (findings (e_db (en_env w)) !! i); rewrite ?Hev; eauto.
Qed.

Lemma attach_pending_quiet u l ids w :
  quiet w → is_Some (events (en_db w) !! u) → parse_pending l = Some ids →
  ∃ w', attach_pending u l w = (w', ROk tt) ∧ quiet w'.
Proof.
  revert w ids. induction l as [|p l IH]; intros w ids Hq Hev Hp; simpl in *; [by eauto|].
  destruct (uuid_Parse (pf_Id p)) as [i|]; [|done]. simpl in Hp.
  destruct (parse_pending l) as [ids'|]; [|done].
  destruct (Attach_quiet u i w Hq Hev) as (w1 & E & Hq1 & He1 & _).
  go_step E. eapply IH; [done|by rewrite He1|done].
Qed.

Lemma openEvent_quiet sk st f ids w :
  quiet w → fresh w → parse_pending (PendingFindings st) = Some ids →
  ∃ w', openEvent sk st f w = (w', ROk tt) ∧ quiet w'.
Proof.
  intros Hq Hf Hp. unfold openEvent.
  assert (go_try (db Begin) w = (w, ROk (inr (en_db w)))) as EB.
  { unfold go_try, db, Begin. rewrite db_call_quiet by done. by destruct w. }
  go_step EB.
  assert (∃ w1 u, open_event_body sk st f w = (w1, ROk u) ∧ quiet w1) as (w1 & u & E & Hq1).
  { unfold open_event_body. set (c := OpenEvent _ _ _ _ _ _ _ _).
    assert (∃ w1, db c w = (w1, ROk (pg_some (e_gen (en_env w) (e_ctr (en_env w))))) ∧ quiet w1 ∧
              is_Some (events (en_db w1) !! e_gen (en_env w) (e_ctr (en_env w))))
      as (w1 & EO & Hq1 & Hev).
    { subst c. unfold OpenEvent, db, quiet, fresh, en_db in *. rewrite db_call_quiet by done.
      rewrite Hf. eexists. split; [done|]. split; [done|]. simpl. rewrite lookup_insert_eq. eauto. }
    go_step EO. destruct (attach_pending_quiet _ _ _ w1 Hq1 Hev Hp) as (w2 & E & Hq2). simpl.
    go_step E. rewrite Parse_String. eauto. }
  assert (go_try (open_event_body sk st f) w = (w1, ROk (inr u))) as ET.
  { unfold go_try. by rewrite E. }
  go_step ET.
  unfold go_bind, db, Commit, quiet in *. rewrite Hq1. eexists. split; [done|]. simpl. by rewrite Hq1.
Qed.

Lemma save_quiet sk st w :
  quiet w → state_ok (en_db w) st → ∃ w', savePolicyState sk st w = (w', ROk tt) ∧ quiet w'.
Proof.
  intros Hq Hok. unfold savePolicyState.
  assert (is_Some (parse_pending (PendingFindings st))) as [ids ->].
  { unfold state_ok in Hok. destruct (Status st); try done; destruct Hok as [_ Hp];
      first [exact Hp | rewrite Hp; simpl; eauto]. }
  unfold db, UpsertPolicyState. rewrite db_call_quiet by done. rewrite pg_col_scan.
  destruct (OpenEventId st) as [e|] eqn:Eo; simpl; [|by eauto].
  rewrite bool_decide_eq_true_2; [by eauto|].
  unfold state_ok in Hok. destruct (Status st); naive_solver.
Qed.

Lemma set_state_run sk st w :
  set_state sk st w = ({| states := <[sk := st]> (states w); en_env := en_env w |}, ROk tt).
Proof. done. Qed.

Lemma load_quiet sk now w :
  quiet w → engine_inv w →
  ∃ st w1, load_state sk now w = (w1, ROk st) ∧ en_env w1 = en_env w ∧ states w1 !! sk = Some st.
Proof.
  intros Hq HI. unfold load_state, go_bind at 1, go_get.
  destruct (states w !! sk) as [st|] eqn:E; [by eauto|].
  unfold go_bind, go_try, db, GetPolicyState. rewrite db_call_quiet by done.
  destruct (policy_state (e_db (en_env w)) !! series_id_of sk) as [r|]; simpl.
  all: eexists _, _; split; [done|]; split; [done|]; apply lookup_insert_eq.
Qed.

Lemma transition_quiet sk st f u co w :
  quiet w → fresh w → state_ok (en_db w) st →
  ∃ w', transition sk st f (pg_some u) co w = (w', ROk tt) ∧ quiet w'.
Proof.
  intros Hq Hf Hok. unfold transition, state_ok in *. destruct (Status st).
  - unfold go_bind. rewrite set_state_run. destruct co; [|by eauto].
    eapply openEvent_quiet; [done|done|]. simpl. by rewrite Parse_String.
  - destruct Hok as [_ [ids Hp]]. unfold go_bind. rewrite set_state_run. destruct co; [|by eauto].
    eapply openEvent_quiet; [done|done|].
    eapply parse_pending_app; [done|]. simpl. by rewrite Parse_String.
  - destruct Hok as [(e & -> & Hev) _].
    destruct (Attach_quiet e u w Hq Hev) as (w' & E & ? & _). eauto.
  - destruct Hok as [(e & -> & Hev) _].
    destruct (Attach_quiet e u w Hq Hev) as (w' & E & ? & _). go_step E. rewrite set_state_run. eauto.
  - done.
Qed.

End Quiet.

Section Engine.
Context `{UuidLib} (cfg : PolicyEngineConfig).

(** ** Executions *)

(** A new process on an empty database. *)
Definition empty_db : argus_db :=
  {| policy_state := ∅; events := ∅; findings := ∅; baselines := ∅ |}.

Definition started (e : env) : engine := {| states := ∅; en_env := e |}.

(** One call on the engine, on any outcome; a process that dies and restarts
    with an empty map; and the world outside, which decides the statements
    that will fail, the identifiers to come and the baselines other calls
    write, but not the rows of the engine. *)
Inductive engine_step : engine → engine → Prop :=
| StepApply w sk f u now :
    engine_step w (fst (ApplyFinding cfg sk f (pg_some u) now w))
| StepInsert w sk f : engine_step w (fst (InsertFinding sk f w))
| StepSweep w order now : engine_step w (fst (Sweep cfg order now w))
| StepRestart w : engine_step w (started (en_env w))
| StepEnv w e' bl :
    e_db e' = set_baselines (en_db w) bl →
    engine_step w {| states := states w; en_env := e' |}.

Lemma engine_step_inv w w' : engine_step w w' → engine_inv w → engine_inv w'.
Proof.
  intros Hs HI. destruct Hs as [w sk f u now|w sk f|w order now|w|w e' bl He].
  - by apply ApplyFinding_inv.
  - by apply InsertFinding_inv.
  - by apply Sweep_inv.
  - split; [done|apply HI].
  - unfold engine_inv in *. unfold en_db at 1. simpl. rewrite He.
    eapply inv2_mono; [|done]. by split.
Qed.

Lemma reachable_inv e w :
  e_db e = empty_db → rtc engine_step (started e) w → engine_inv w.
Proof.
  intros He Hr. assert (engine_inv (started e)) as HI.
  { unfold engine_inv, started, en_db. simpl. rewrite He. by split. }
  revert HI. induction Hr as [|w1 w2 w3 Hs _ IH]; [done|]. eauto using engine_step_inv.
Qed.

(** C1. From a fresh process on an empty database, after any sequence of
    ApplyFinding, InsertFinding and Sweep calls, with any statements failing,
    any iteration orders and any number of restarts: a clean or watching state
    has no open event, a firing or recovering one has an event id that is a row
    of the events table and no pending findings, pending ids always parse, no
    other status string occurs; the same holds of every row of the policy
    table as a restart would hydrate it. *)
Theorem engine_states_ok e w :
  e_db e = empty_db → rtc engine_step (started e) w →
  (∀ sk st, states w !! sk = Some st → state_ok (en_db w) st) ∧
  (∀ k r, policy_state (en_db w) !! k = Some r → state_ok (en_db w) (state_of_row r)).
Proof. intros He Hr. by destruct (reachable_inv e w He Hr). Qed.

(** C5. On a healthy database and with a fresh identifier, in every reachable
    state ApplyFinding returns without an error, whatever the series, the
    finding and the status: the "missing open id" errors, the id parse errors
    and the foreign-key violations cannot occur. *)
Theorem ApplyFinding_succeeds e w sk f u now :
  e_db e = empty_db → rtc engine_step (started e) w → quiet w → fresh w →
  snd (ApplyFinding cfg sk f (pg_some u) now w) = ROk tt.
Proof.
  intros He Hr Hq Hf. pose proof (reachable_inv e w He Hr) as HI.
  destruct (load_quiet sk now w Hq HI) as (st & w1 & E1 & Henv & Hst).
  destruct (load_state_triple sk now w HI I) as [HI1 Hok]. rewrite E1 in HI1, Hok. simpl in *.
  unfold ApplyFinding. go_step E1. unfold go_bind at 1. rewrite set_state_run.
  match goal with |- context [transition sk ?s f _ ?co] => set (st1 := s); set (c := co) end.
  set (w2 := Build_engine _ _).
  assert (engine_inv w2) as HI2 by (by apply inv2_insert).
  assert (state_ok (en_db w2) st1) as Hok2 by (exact Hok).
  destruct (transition_quiet sk st1 f u c w2) as (w3 & E3 & Hq3);
    [by unfold quiet; simpl; rewrite Henv|by unfold fresh, en_db; simpl; rewrite Henv|done|].
  destruct (transition_triple sk st1 f u c w2 HI2 Hok2) as [HI3 _]. rewrite E3 in HI3.
  go_step E3. unfold go_bind, go_get. destruct (states w3 !! sk) as [st3|] eqn:E; [|done].
  destruct (save_quiet sk st3 w3 Hq3) as (w4 & -> & _); [by eapply HI3|done].
Qed.

(** ** The status machine *)

(** What a finding may do to a status, and what a sweep may do. *)
Inductive apply_step : PolicyStateStatus → PolicyStateStatus → Prop :=
| apply_watch : apply_step Clean Watching
| apply_fire : apply_step Watching Firing
| apply_refire : apply_step Recovering Firing.

Inductive sweep_step : PolicyStateStatus → PolicyStateStatus → Prop :=
| sweep_expire : sweep_step Watching Clean
| sweep_calm : sweep_step Firing Recovering
| sweep_close : sweep_step Recovering Clean.

(** The status after a finding that was applied without an error. *)
Definition next_status (s : PolicyStateStatus) (crossed : bool) : PolicyStateStatus :=
  match s with
  | Clean | Watching => if crossed then Firing else Watching
  | Firing | Recovering => Firing
  | OtherStatus x => OtherStatus x
  end.

(** A finding makes a clean or watching series fire when the score crosses the
    open threshold. *)
Definition opens (s : PolicyStateStatus) (crossed : bool) : bool :=
  match s with Clean | Watching => crossed | _ => false end.

(** The findings a series remembers after one more, [p]: it collects them until
    it fires, and starts anew when it was clean. *)
Definition next_pending (s : PolicyStateStatus) (crossed : bool) (l : list PendingFinding) (p : PendingFinding)
    : list PendingFinding :=
  match s with
  | Clean => if crossed then [] else [p]
  | Watching => if crossed then [] else l ++ [p]
  | _ => l
  end.

(** The state of a series after a finding that was applied without an error. *)
Record applied (st st' : PolicyState) (crossed : bool) (p : PendingFinding) : Prop := {
  ap_status : Status st' = next_status (Status st) crossed;
  ap_pending : PendingFindings st' = next_pending (Status st) crossed (PendingFindings st) p;
  ap_event : if opens (Status st) crossed then is_Some (OpenEventId st')
             else OpenEventId st' = OpenEventId st;
}.

Lemma opened_cases sk (st : PolicyState) (f : Finding) (co : bool) (w : engine) (s0 : PolicyStateStatus) :
  rtc apply_step s0 (Status st) → apply_step (Status st) Firing →
  states w !! sk = Some st →
  let '(w', r) := (if co then openEvent sk st f else go_ret tt) w in
  ∃ st', states w' = <[sk := st']> (states w) ∧ Bucket st' = Bucket st ∧
    rtc apply_step s0 (Status st') ∧
    (r = ROk tt → if co then Status st' = Firing ∧ PendingFindings st' = [] ∧ is_Some (OpenEventId st')
                  else st' = st).
Proof.
  intros Hr Hs Hst. destruct co; simpl.
  - pose proof (openEvent_cases sk st f w) as HC.
    destruct (openEvent sk st f w) as [w' [[]|e|e]].
    + destruct HC as (u & ids & _ & _ & -> & _). eexists. split; [done|].
      split; [done|]. split; [by eapply rtc_r|]. intros _. simpl. eauto.
    + destruct HC as [-> _]. exists st. by rewrite insert_id.
    + destruct HC as [-> _]. exists st. by rewrite insert_id.
  - exists st. by rewrite insert_id.
Qed.

Lemma transition_cases sk (st : PolicyState) (f : Finding) fid (co : bool) (w : engine) :
  states w !! sk = Some st →
  let '(w', r) := transition sk st f fid co w in
  ∃ st', states w' = <[sk := st']> (states w) ∧ Bucket st' = Bucket st ∧
    rtc apply_step (Status st) (Status st') ∧
    (r = ROk tt → applied st st' co {| pf_Id := pg_String fid; pf_Finding := Some f |}).
Proof.
  intros Hst. assert (Status st ≠ Clean → Status st ≠ Watching → Status st ≠ Recovering → ∀ p, applied st st co p) as Hsame.
  { intros ??? p. split; unfold next_status, next_pending, opens; by destruct (Status st). }
  unfold transition. destruct (Status st) eqn:Es.
  - unfold go_bind at 1. rewrite set_state_run.
    set (st1 := with_pending _ _). set (w1 := Build_engine _ _).
    pose proof (opened_cases sk st1 f co w1 Clean) as HC.
    destruct ((if co then openEvent sk st1 f else go_ret tt) w1) as [w' r].
    destruct HC as (st' & H1 & H2 & H3 & H4);
      [apply rtc_once; constructor|constructor|apply lookup_insert_eq|].
    exists st'. rewrite H1. simpl. rewrite insert_insert_eq. do 3 (split; [done|]). intros Hr.
    specialize (H4 Hr). split; rewrite Es; destruct co; simpl; first [by subst st'|by apply H4].
  - unfold go_bind at 1. rewrite set_state_run.
    set (st1 := with_pending _ _). set (w1 := Build_engine _ _).
    pose proof (opened_cases sk st1 f co w1 Watching) as HC.
    destruct ((if co then openEvent sk st1 f else go_ret tt) w1) as [w' r].
    assert (Status st1 = Watching) as Es1 by done. rewrite Es1 in HC.
    destruct HC as (st' & H1 & H2 & H3 & H4); [done|constructor|apply lookup_insert_eq|].
    exists st'. rewrite H1. simpl. rewrite insert_insert_eq. do 3 (split; [done|]). intros Hr.
    specialize (H4 Hr). split; rewrite Es; destruct co; simpl; first [by subst st'|by apply H4].
  - destruct (OpenEventId st); [|exists st; by rewrite insert_id, Es].
    unfold attachFindingToEvent. set (c := AttachFindingToEvent _ _).
    pose proof (db_states c w) as Hs. destruct (db c w) as [w' r]. simpl in Hs.
    exists st. rewrite Hs, Es, insert_id by done. do 3 (split; [done|]). intros _. apply Hsame; congruence.
  - destruct (OpenEventId st) eqn:Eo; [|exists st; by rewrite insert_id, Es].
    unfold attachFindingToEvent, go_bind. set (c := AttachFindingToEvent _ _).
    pose proof (db_states c w) as Hs. destruct (db c w) as [w' [[]|e|e]]; simpl in *.
    + eexists. rewrite Hs. split; [done|]. split; [done|].
      split; [apply rtc_once; constructor|]. intros _. split; simpl; by rewrite Es.
    + exists st. rewrite Hs, Es. by rewrite insert_id.
    + exists st. rewrite Hs, Es. by rewrite insert_id.
  - exists st. rewrite insert_id, Es by done. do 3 (split; [done|]). intros _. apply Hsame; congruence.
Qed.

Lemma savePolicyState_states sk st w : states (fst (savePolicyState sk st w)) = states w.
Proof. unfold savePolicyState. case_match; [apply db_states|done]. Qed.

Lemma parse_pending_ids l ids :
  parse_pending l = Some ids → Forall2 (λ p id, uuid_Parse (pf_Id p) = Some id) l ids.
Proof.
  revert ids. induction l as [|p l IH]; intros ids; simpl; [intros [= <-]; constructor|].
  intros (u & Hu & (us & Hus & [= <-])%bind_Some)%bind_Some. constructor; auto.
Qed.

(** The row a state is saved as. *)
Definition row_of_state (st : PolicyState) (ids : list uuid) : ArgusPolicyState :=
  {| ps_status := status_string (Status st); ps_score := Score (Bucket st);
     ps_score_updated_at := timestamptz (ScoreUpdatedAt (Bucket st));
     ps_open_event_id := OpenEventId st; ps_pending_findings := ids;
     ps_entered_status_at := timestamptz (StatusUpdatedAt st) |}.

Lemma savePolicyState_ok sk st w w' :
  savePolicyState sk st w = (w', ROk tt) →
  states w' = states w ∧ ∃ ids, parse_pending (PendingFindings st) = Some ids ∧
    policy_state (en_db w') = <[series_id_of sk := row_of_state st ids]> (policy_state (en_db w)).
Proof.
  unfold savePolicyState. destruct (parse_pending (PendingFindings st)) as [ids|]; [|done].
  unfold db, UpsertPolicyState, db_call, en_db. rewrite pg_col_scan, omap_pg_some.
  destruct (e_faults (en_env w)) as [|[] l]; simpl; [|done|].
  all: destruct (match OpenEventId st with Some _ => _ | None => _ end); intros; simplify_eq/=; eauto.
Qed.

Lemma load_state_ok sk now w w1 st :
  load_state sk now w = (w1, ROk st) → states w1 = <[sk := st]> (states w).
Proof.
  unfold load_state, go_bind at 1, go_get. destruct (states w !! sk) as [st'|] eqn:E.
  { intros [= <- <-]. by rewrite insert_id. }
  unfold go_bind, go_try. pose proof (db_states (GetPolicyState (series_id_of sk)) w) as Hs.
  destruct (db (GetPolicyState (series_id_of sk)) w) as [w2 [r|e|e]]; simpl in *; [| |done].
  - intros [= <- <-]. simpl. by rewrite Hs.
  - destruct (String.eqb e ErrNoRows); intros [= <- <-]. simpl. by rewrite Hs.
Qed.

(** C15. Whatever state a finding of a series starts from (in memory, a row of
    the database, or new) and whatever the outcome, ApplyFinding moves the
    series' status along clean -> watching -> firing or recovering -> firing
    only, stores the bucket of [Add], and touches no other series; when it
    returns without an error, the status, the remembered findings and the open
    event are those of the machine, and the row of the series is the state in
    memory, with the identifiers of exactly the remembered findings. *)
Theorem ApplyFinding_refines sk f fid now w w1 st :
  load_state sk now w = (w1, ROk st) →
  let u := Add (LeakyBucketCfg cfg) (Bucket st) (Severity f) (TS f) in
  let '(w', r) := ApplyFinding cfg sk f fid now w in
  ∃ st', states w' = <[sk := st']> (states w) ∧ Bucket st' = NewState u ∧
    rtc apply_step (Status st) (Status st') ∧
    (r = ROk tt → applied st st' (CrossedOpen u) {| pf_Id := pg_String fid; pf_Finding := Some f |} ∧
       ∃ ids, Forall2 (λ p id, uuid_Parse (pf_Id p) = Some id) (PendingFindings st') ids ∧
         policy_state (en_db w') !! series_id_of sk = Some (row_of_state st' ids)).
Proof.
  intros E u. pose proof (load_state_ok _ _ _ _ _ E) as Hs1.
  unfold ApplyFinding. go_step E. unfold go_bind at 1. rewrite set_state_run.
  set (st1 := with_bucket _ _). set (w2 := Build_engine _ _).
  pose proof (transition_cases sk st1 f fid (CrossedOpen u) w2 (lookup_insert_eq _ _ _)) as HC.
  unfold go_bind at 1. fold u.
  destruct (transition sk st1 f fid (CrossedOpen u) w2) as [w3 r3].
  destruct HC as (st3 & H1 & H2 & H3 & H4). simpl in H1. rewrite Hs1, !insert_insert_eq in H1.
  destruct r3 as [[]|e|e]; [|by exists st3..].
  unfold go_bind, go_get. rewrite H1, lookup_insert_eq.
  pose proof (savePolicyState_states sk st3 w3) as Hs4.
  destruct (savePolicyState sk st3 w3) as [w4 r4] eqn:E4. simpl in Hs4.
  exists st3. rewrite Hs4, H1. split; [done|]. split; [done|]. split; [done|].
  intros ->. split; [by destruct (H4 eq_refl)|]. apply savePolicyState_ok in E4 as (_ & ids & Hids & ->).
  exists ids. split; [by apply parse_pending_ids|apply lookup_insert_eq].
Qed.

(** The status of [sk] has only moved along the sweep's arrows since [s0]. *)
Definition swept (s0 : PolicyStateStatus) (sk : SeriesKey) (w : engine) : Prop :=
  ∃ st, states w !! sk = Some st ∧ rtc sweep_step s0 (Status st).

Lemma swept_states s0 sk w w' : states w' = states w → swept s0 sk w → swept s0 sk w'.
Proof. unfold swept. by intros ->. Qed.

Lemma hydrate_swept s0 sk r : go_inv (swept s0 sk) (hydrate r).
Proof.
  intros w (st & Hst & Hr). unfold hydrate, go_bind, go_get.
  destruct (states w !! key_of_row r) eqn:E; [by exists st|].
  assert (key_of_row r ≠ sk) by congruence.
  destruct (ps_open_event_id (nc_row r)) as [u|]; [destruct (uuid_Parse _) as [u'|]|].
  all: exists st; split; [simpl; by rewrite ?lookup_insert_ne by done|done].
Qed.

Lemma sweep_status_cases sk st cc now w :
  let '(w', r) := sweep_status cfg sk st cc now w in
  states w' = states w ∧ ∀ st', r = ROk st' → rtc sweep_step (Status st) (Status st').
Proof.
  unfold sweep_status. destruct (Status st) eqn:Es; simpl.
  - split; [done|]. intros ? [= <-]. by rewrite Es.
  - destruct (Z.ltb _ _); simpl; (split; [done|]); intros ? [= <-]; rewrite ?Es; [|done].
    apply rtc_once. constructor.
  - destruct cc; simpl; (split; [done|]); intros ? [= <-]; rewrite ?Es; [|done].
    apply rtc_once. constructor.
  - destruct (OpenEventId st) as [e|]; [|simpl; split; [done|]; intros ? [= <-]; by rewrite Es].
    destruct (Z.ltb _ _); [|simpl; split; [done|]; intros ? [= <-]; by rewrite Es].
    unfold go_bind. pose proof (db_states (CloseEvent e now) w) as Hs.
    destruct (db (CloseEvent e now) w) as [w' [[]|x|x]]; simpl in *; split; try done.
    intros ? [= <-]. simpl. apply rtc_once. constructor.
  - split; [done|]. intros ? [= <-]. by rewrite Es.
Qed.

Lemma swept_set s0 sk sk' st st' w w' :
  states w' = <[sk' := st']> (states w) → states w !! sk' = Some st →
  rtc sweep_step (Status st) (Status st') → swept s0 sk w → swept s0 sk w'.
Proof.
  intros Hw Hst Hr (st0 & H0 & Hr0). unfold swept. rewrite Hw.
  destruct (decide (sk' = sk)) as [->|].
  - rewrite lookup_insert_eq. simplify_eq. eexists. split; [done|]. by etrans.
  - rewrite lookup_insert_ne by done. eauto.
Qed.

Lemma sweep_one_swept s0 sk now sk' : go_inv (swept s0 sk) (sweep_one cfg now sk').
Proof.
  intros w Hw. unfold sweep_one, go_bind at 1, go_get.
  destruct (states w !! sk') as [st|] eqn:E; [|done].
  unfold go_bind at 1. rewrite set_state_run. set (st1 := with_bucket _ _).
  set (w1 := Build_engine _ _).
  assert (swept s0 sk w1) as H1 by (by eapply (swept_set s0 sk sk' st st1)).
  set (cc := CrossedClose _).
  pose proof (sweep_status_cases sk' st1 cc now w1) as HC. unfold go_bind at 1.
  destruct (sweep_status cfg sk' st1 cc now w1) as [w2 [st2|x|x]]; destruct HC as [Hs Hr];
    try (by eapply swept_states).
  unfold go_bind at 1. rewrite set_state_run. set (w3 := Build_engine _ _).
  assert (swept s0 sk w3) as H3.
  { eapply (swept_set s0 sk sk' st1 st2 w2); [done| |by apply Hr|by eapply swept_states].
    rewrite Hs. apply lookup_insert_eq. }
  unfold go_bind, go_try. pose proof (savePolicyState_states sk' st2 w3) as Hs4.
  destruct (savePolicyState sk' st2 w3) as [w4 [[]|x|x]]; by eapply swept_states.
Qed.

(** On every outcome, a sweep keeps every series that was in memory and
    moves its status along watching -> clean, firing -> recovering and
    recovering -> clean only. *)
Theorem Sweep_refines order now w sk st :
  states w !! sk = Some st →
  ∃ st', states (fst (Sweep cfg order now w)) !! sk = Some st' ∧
         rtc sweep_step (Status st) (Status st').
Proof.
  intros Hst. assert (go_inv (swept (Status st) sk) (Sweep cfg order now)) as Hinv.
  { unfold Sweep. apply go_inv_bind.
    - intros w0. apply swept_states, db_states.
    - intros rows. apply go_inv_bind; [apply go_inv_each; intros; apply hydrate_swept|].
      intros _. apply go_inv_bind; [apply go_inv_get|].
      intros w0. apply go_inv_each. intros. apply sweep_one_swept. }
  apply Hinv. by exists st.
Qed.

(** ** One sweep, state by state *)

(** What a sweep makes of one state: the score decays; a watching state that
    was not confirmed in time starts over; a firing one whose score fell below
    the close threshold recovers; a recovering one that stayed quiet long
    enough is clean again. *)
Definition sweep_pure (now : time) (st : PolicyState) : PolicyState :=
  let u := Decay (LeakyBucketCfg cfg) (Bucket st) now in
  let waited := Sub now (StatusUpdatedAt st) in
  match Status st, OpenEventId st with
  | Watching, _ =>
      if Z.ltb (ConfirmWindow cfg) waited then
        {| Status := Clean; StatusUpdatedAt := now;
           Bucket := {| Score := fzero; ScoreUpdatedAt := now |};
           OpenEventId := OpenEventId st; PendingFindings := [] |}
      else with_bucket st (NewState u)
  | Firing, _ =>
      if CrossedClose u then with_status (with_bucket st (NewState u)) Recovering now
      else with_bucket st (NewState u)
  | Recovering, Some _ =>
      if Z.ltb (QuietPeriod cfg) waited then
        {| Status := Clean; StatusUpdatedAt := now; Bucket := NewState u;
           OpenEventId := None; PendingFindings := [] |}
      else with_bucket st (NewState u)
  | _, _ => with_bucket st (NewState u)
  end.

(** [e] is closed as of [now]. *)
Definition closed_at (now : time) (d : argus_db) (e : uuid) : Prop :=
  ∃ row, events d !! e = Some row ∧ ev_status row = "closed" ∧
         ev_closed_at row = Some (timestamptz now).

(** The event a sweep closes on behalf of a state. *)
Definition closes (now : time) (st : PolicyState) (e : uuid) : Prop :=
  Status st = Recovering ∧ OpenEventId st = Some e ∧
  QuietPeriod cfg < Sub now (StatusUpdatedAt st).

Lemma CloseEvent_quiet e now w :
  quiet w →
  ∃ w', db (CloseEvent e now) w = (w', ROk tt) ∧ quiet w' ∧ states w' = states w ∧
    (is_Some (events (en_db w) !! e) → closed_at now (en_db w') e) ∧
    ∀ e', closed_at now (en_db w) e' → closed_at now (en_db w') e'.
Proof.
  intros Hq. unfold db, CloseEvent. rewrite db_call_quiet by done. unfold en_db.
  destruct (events (e_db (en_env w)) !! e) as [row|] eqn:E.
  - eexists. split; [done|]. split; [done|]. split; [done|].
    assert (∀ e', e' = e ∨ closed_at now (e_db (en_env w)) e' →
      closed_at now (set_events (e_db (en_env w)) (<[e := {| ev_serial_id := ev_serial_id row;
        ev_target := ev_target row; ev_port := ev_port row; ev_metric := ev_metric row;
        ev_status := "closed"; ev_opened_at := ev_opened_at row;
        ev_last_seen_at := ev_last_seen_at row; ev_closed_at := Some (timestamptz now);
        ev_finding_count := ev_finding_count row; ev_peak_severity := ev_peak_severity row;
        ev_detectors := ev_detectors row |}]> (events (e_db (en_env w))))) e') as Hc.
    { intros e' He. unfold closed_at. simpl. rewrite lookup_insert. case_decide; [by eauto|].
      destruct He as [->|He]; [done|exact He]. }
    split; intros; apply Hc; auto.
  - eexists. split; [done|]. split; [done|]. split; [done|]. split; [by intros []|done].
Qed.

Lemma save_keeps sk st w :
  quiet w →
  ∃ w' r, go_try (savePolicyState sk st) w = (w', ROk r) ∧ quiet w' ∧ states w' = states w ∧
    events (en_db w') = events (en_db w).
Proof.
  intros Hq. unfold go_try, savePolicyState.
  destruct (parse_pending (PendingFindings st)) as [ids|]; [|by eauto 10].
  unfold db, UpsertPolicyState. rewrite db_call_quiet by done.
  destruct (match pg_col _ with Some _ => _ | None => _ end); simpl; eauto 10.
Qed.

Lemma sweep_one_quiet now sk st w :
  quiet w → states w !! sk = Some st →
  ∃ w', sweep_one cfg now sk w = (w', ROk tt) ∧ quiet w' ∧
    states w' = <[sk := sweep_pure now st]> (states w) ∧
    (∀ e, is_Some (events (en_db w) !! e) → closes now st e → closed_at now (en_db w') e) ∧
    ∀ e, closed_at now (en_db w) e → closed_at now (en_db w') e.
Proof.
  intros Hq Hst. unfold sweep_one, go_bind at 1, go_get. rewrite Hst.
  unfold go_bind at 1. rewrite set_state_run. set (st1 := with_bucket _ _).
  set (w1 := Build_engine _ _). set (cc := CrossedClose _).
  assert (∃ w2, sweep_status cfg sk st1 cc now w1 = (w2, ROk (sweep_pure now st)) ∧ quiet w2 ∧
    states w2 = states w1 ∧
    (∀ e, is_Some (events (en_db w) !! e) → closes now st e → closed_at now (en_db w2) e) ∧
    ∀ e, closed_at now (en_db w) e → closed_at now (en_db w2) e) as (w2 & E2 & Hq2 & Hs2 & Hc2 & Hk2).
  { unfold sweep_status, sweep_pure, closes. subst st1 cc. simpl.
    destruct (Status st) eqn:Es; simpl.
    - eexists; repeat split; try done. by intros e _ [? _].
    - case_match; eexists; repeat split; try done; by intros e _ [? _].
    - case_match; eexists; repeat split; try done; by intros e _ [? _].
    - destruct (OpenEventId st) as [e|];
        [|eexists; repeat split; try done; by intros e _ (_ & ? & _)].
      destruct (Z.ltb_spec (QuietPeriod cfg) (Sub now (StatusUpdatedAt st))).
      + destruct (CloseEvent_quiet e now w1 Hq) as (w2 & E & Hq2 & Hs2 & Hc & Hk).
        go_step E. eexists. split; [done|]. repeat split; try done.
        intros e' He (_ & [= ->] & _). by apply Hc.
      + eexists; repeat split; try done. intros e' _ (_ & _ & ?). lia.
    - eexists; repeat split; try done. by intros e _ [? _]. }
  go_step E2. unfold go_bind at 1. rewrite set_state_run. set (w3 := Build_engine _ _).
  destruct (save_keeps sk (sweep_pure now st) w3) as (w4 & r & E4 & Hq4 & Hs4 & He4); [done|].
  go_step E4. exists w4. split; [done|]. split; [done|]. unfold closed_at in *. rewrite Hs4, He4.
  split; [|done]. simpl. rewrite Hs2. simpl. by rewrite insert_insert_eq.
Qed.

Lemma sweep_each_other now sk l w :
  quiet w → sk ∉ l → (∀ k, k ∈ l → is_Some (states w !! k)) →
  ∃ w', go_each (sweep_one cfg now) l w = (w', ROk tt) ∧ quiet w' ∧
    states w' !! sk = states w !! sk ∧
    (∀ k, is_Some (states w !! k) → is_Some (states w' !! k)) ∧
    ∀ e, closed_at now (en_db w) e → closed_at now (en_db w') e.
Proof.
  revert w. induction l as [|k l IH]; intros w Hq Hsk Hin; [by eexists|].
  destruct (Hin k ltac:(set_solver)) as [st Hst].
  destruct (sweep_one_quiet now k st w Hq Hst) as (w1 & E1 & Hq1 & Hs1 & _ & Hk1).
  assert (∀ k', is_Some (states w !! k') → is_Some (states w1 !! k')) as Hsome.
  { intros k' Hk'. rewrite Hs1, lookup_insert. case_decide; eauto. }
  destruct (IH w1 Hq1 ltac:(set_solver)) as (w2 & E2 & Hq2 & Hs2 & Hd2 & Hk2).
  { intros k' Hk'. apply Hsome, Hin. set_solver. }
  exists w2. simpl. go_step E1. split; [done|]. split; [done|]. rewrite Hs2, Hs1.
  rewrite lookup_insert_ne by set_solver. split; [done|]. split; auto.
Qed.

Lemma save_events sk st w e :
  is_Some (events (en_db w) !! e) → is_Some (events (en_db (fst (savePolicyState sk st w))) !! e).
Proof.
  intros He. unfold savePolicyState. destruct (parse_pending _); [|done].
  unfold db, UpsertPolicyState, db_call. destruct (e_faults (en_env w)) as [|[] ?]; simpl; try done.
  all: by destruct (match pg_col _ with Some _ => _ | None => _ end).
Qed.

Lemma sweep_one_events now k e : go_inv (λ w, is_Some (events (en_db w) !! e)) (sweep_one cfg now k).
Proof.
  unfold sweep_one. apply go_inv_bind; [apply go_inv_get|]. intros w0.
  destruct (states w0 !! k) as [st|]; [|apply go_inv_ret].
  apply go_inv_bind; [by intros w|]. intros _. apply go_inv_bind.
  - intros w Hw. unfold sweep_status. destruct (Status _); simpl; try done.
    1,2: match goal with |- context [if ?b then _ else _] => by destruct b end.
    destruct (OpenEventId st) as [u|]; [|done]. destruct (Z.ltb _ _); [|done].
    unfold go_bind, db. pose proof (grows_Close u now (en_env w)) as [_ Hg].
    destruct (CloseEvent u now (en_env w)) as [e' [[]|x|x]]; simpl in *; by apply Hg.
  - intros st2. apply go_inv_bind; [by intros w|]. intros _. apply go_inv_bind; [|intros; apply go_inv_ret].
    apply go_inv_try. intros w. apply save_events.
Qed.

Lemma sweep_each_quiet now sk st l w :
  quiet w → NoDup l → sk ∈ l → (∀ k, k ∈ l → is_Some (states w !! k)) →
  states w !! sk = Some st → (∀ e, closes now st e → is_Some (events (en_db w) !! e)) →
  ∃ w', go_each (sweep_one cfg now) l w = (w', ROk tt) ∧ quiet w' ∧
    states w' !! sk = Some (sweep_pure now st) ∧
    ∀ e, closes now st e → closed_at now (en_db w') e.
Proof.
  revert w. induction l as [|k l IH]; intros w Hq Hnd Hsk Hin Hst Hev; [set_solver|].
  apply NoDup_cons in Hnd as [Hk Hnd]. destruct (Hin k ltac:(set_solver)) as [stk Hstk].
  destruct (sweep_one_quiet now k stk w Hq Hstk) as (w1 & E1 & Hq1 & Hs1 & Hc1 & Hk1).
  assert (∀ k', k' ∈ l → is_Some (states w1 !! k')) as Hin1.
  { intros k' Hk'. rewrite Hs1, lookup_insert. case_decide; [eauto|]. apply Hin. set_solver. }
  simpl. go_step E1. destruct (decide (k = sk)) as [->|Hne].
  - simplify_eq. destruct (sweep_each_other now sk l w1 Hq1 Hk Hin1) as (w2 & E2 & Hq2 & Hs2 & _ & Hk2).
    exists w2. split; [done|]. split; [done|]. rewrite Hs2, Hs1, lookup_insert_eq. split; [done|]. auto.
  - apply IH; [done|done|set_solver|done|by rewrite Hs1, lookup_insert_ne|].
    intros e He. apply Hev in He. pose proof (sweep_one_events now k e w He) as Hg.
    by rewrite E1 in Hg.
Qed.

(** The key under which a sweep keeps what it reads back: the row of a series
    has no column for its type and the query does not select the source. *)
Definition twin (sk : SeriesKey) : SeriesKey :=
  mkSeriesKey "" (sk_SerialId sk) (sk_Target sk) "" (sk_Port sk) (sk_Metric sk) (sk_Detector sk).

(** A row that is not clean, of some series with the key [sk]. *)
Definition nonclean_row (d : argus_db) (sk : SeriesKey) (r : ArgusPolicyState) : Prop :=
  ∃ k, policy_state d !! k = Some r ∧ ps_status r ≠ "clean" ∧
    sk = mkSeriesKey "" (si_serial_id k) (si_target k) "" (si_port k) (si_metric k) (si_detector k).

(** [sk] was swept from the state [st]. *)
Definition swept_to (now : time) (sk : SeriesKey) (st : PolicyState) (w : engine) : Prop :=
  states w !! sk = Some (sweep_pure now st) ∧ ∀ ev, closes now st ev → closed_at now (en_db w) ev.

Lemma hydrate_run r w :
  hydrate r w = ({| states := match states w !! key_of_row r with
                              | Some _ => states w
                              | None => <[key_of_row r := state_of_row (nc_row r)]> (states w)
                              end; en_env := en_env w |}, ROk tt).
Proof.
  unfold hydrate, go_bind, go_get. destruct (states w !! key_of_row r) eqn:E; [by destruct w|].
  destruct (ps_open_event_id (nc_row r)) as [u|] eqn:Eo; [rewrite Parse_String|]; rewrite set_state_run; [|done].
  do 3 f_equal. unfold with_event, state_of_row. by rewrite Eo.
Qed.

Lemma hydrate_all_run l w :
  ∃ w', go_each hydrate l w = (w', ROk tt) ∧ en_env w' = en_env w ∧ ∀ sk,
    match states w !! sk with
    | Some st => states w' !! sk = Some st
    | None => (∃ r, r ∈ l ∧ key_of_row r = sk ∧ states w' !! sk = Some (state_of_row (nc_row r))) ∨
              ((∀ r, r ∈ l → key_of_row r ≠ sk) ∧ states w' !! sk = None)
    end.
Proof.
  revert w. induction l as [|r l IH]; intros w.
  { exists w. do 2 (split; [done|]). intros sk. destruct (states w !! sk) eqn:E; [done|]. right. set_solver. }
  simpl. go_step (hydrate_run r w). destruct (IH (Build_engine (match states w !! key_of_row r with
    Some _ => states w | None => <[key_of_row r := state_of_row (nc_row r)]> (states w) end) (en_env w)))
    as (w' & E & He & Hs).
  exists w'. split; [done|]. split; [done|]. intros sk. specialize (Hs sk). simpl in Hs.
  destruct (states w !! key_of_row r) as [st0|] eqn:E0.
  - destruct (states w !! sk) as [st|] eqn:Es; [done|].
    destruct Hs as [(r' & ? & ?)|[Hno ?]]; [left; exists r'; set_solver|right].
    split; [|done]. intros r' [->|Hr]%elem_of_cons; [congruence|auto].
  - rewrite lookup_insert in Hs. destruct (decide (key_of_row r = sk)) as [<-|Hne].
    + rewrite E0. left. exists r. set_solver.
    + destruct (states w !! sk) as [st|]; [done|].
      destruct Hs as [(r' & ? & ?)|[Hno ?]]; [left; exists r'; set_solver|right]. set_solver.
Qed.

(** What the query returns. *)
Lemma ListNonClean_quiet rank w :
  quiet w → ∃ rows, db (ListNonCleanPolicyStates rank) w = (w, ROk rows) ∧
    ∀ sk row, (∃ r, r ∈ rows ∧ key_of_row r = sk ∧ nc_row r = row) ↔ nonclean_row (en_db w) sk row.
Proof.
  intros Hq. unfold db, ListNonCleanPolicyStates. rewrite db_call_quiet by done.
  eexists. split; [by destruct w|]. intros sk row. split.
  - intros (r & ([k r'] & Hin%elem_of_rows & Hr)%list_elem_of_omap & <- & <-).
    case_decide; [done|]. simplify_eq. by exists k.
  - intros (k & Hk & Hc & ->).
    exists {| nc_SerialID := si_serial_id k; nc_Target := si_target k; nc_Port := si_port k;
              nc_Metric := si_metric k; nc_Detector := si_detector k; nc_row := row |}.
    split; [|done]. apply list_elem_of_omap. exists (k, row). split; [by apply elem_of_rows|]. by rewrite decide_False.
Qed.

Lemma order_keys (order : sweep_order) (m : gmap SeriesKey PolicyState) :
  (∀ m, order m ≡ₚ (map_to_list m).*1) → NoDup (order m) ∧ ∀ k, k ∈ order m ↔ is_Some (m !! k).
Proof.
  intros Ho. rewrite Ho. split; [apply NoDup_fst_map_to_list|]. intros k. rewrite Ho, list_elem_of_fmap. split.
  - intros ([k' st] & -> & Hin%elem_of_map_to_list). eauto.
  - intros [st Hs]. exists (k, st). split; [done|]. by apply elem_of_map_to_list.
Qed.

(** The second half of a sweep. *)
Lemma sweep_all_quiet (order : sweep_order) now w :
  quiet w → (∀ m, order m ≡ₚ (map_to_list m).*1) →
  (∀ sk st ev, states w !! sk = Some st → closes now st ev → is_Some (events (en_db w) !! ev)) →
  ∃ w', go_each (sweep_one cfg now) (order (states w)) w = (w', ROk tt) ∧ quiet w' ∧
    ∀ sk, match states w !! sk with Some st => swept_to now sk st w' | None => states w' !! sk = None end.
Proof.
  intros Hq Ho Hev. destruct (order_keys order (states w) Ho) as [Hnd Hkeys].
  assert (∀ sk, ∃ w', go_each (sweep_one cfg now) (order (states w)) w = (w', ROk tt) ∧ quiet w' ∧
    match states w !! sk with Some st => swept_to now sk st w' | None => states w' !! sk = None end) as Hall.
  { intros sk. destruct (states w !! sk) as [st|] eqn:E.
    - destruct (sweep_each_quiet now sk st (order (states w)) w) as (w' & ? & ? & ? & ?);
        [done|done|by apply Hkeys; eauto|by intros k; apply Hkeys|done|by intros ev; apply (Hev sk)|].
      exists w'. unfold swept_to. auto.
    - destruct (sweep_each_other now sk (order (states w)) w) as (w' & ? & ? & Hs & _);
        [done|rewrite Hkeys, E; by intros []|by intros k; apply Hkeys|]. exists w'. rewrite Hs. auto. }
  destruct (Hall (mkSeriesKey "" "" "" "" 0 "" "")) as (w' & E & Hq' & _). exists w'.
  split; [done|]. split; [done|]. intros sk. destruct (Hall sk) as (w2 & E2 & _ & Hs). rewrite E in E2. by simplify_eq.
Qed.

Lemma Sweep_swept (order : sweep_order) now w :
  engine_inv w → quiet w → (∀ m, order m ≡ₚ (map_to_list m).*1) →
  ∃ w', Sweep cfg order now w = (w', ROk tt) ∧ quiet w' ∧
    ∀ sk, match states w !! sk with
          | Some st => swept_to now sk st w'
          | None => (∃ r, nonclean_row (en_db w) sk r ∧ swept_to now sk (state_of_row r) w') ∨
                    ((∀ r, ¬ nonclean_row (en_db w) sk r) ∧ states w' !! sk = None)
          end.
Proof.
  intros HI Hq Ho. unfold Sweep. destruct (ListNonClean_quiet (so_rows order) w Hq) as (rows & E1 & Hrows).
  go_step E1. destruct (hydrate_all_run rows w) as (w1 & E2 & He1 & Hs1). go_step E2. unfold go_bind, go_get.
  assert (en_db w1 = en_db w) as Hd by (unfold en_db; by rewrite He1).
  assert (∀ sk st, states w1 !! sk = Some st → state_ok (en_db w) st) as Hok.
  { intros sk st Hst. specialize (Hs1 sk). destruct (states w !! sk) as [st0|] eqn:E.
    - rewrite Hst in Hs1. simplify_eq. by eapply HI.
    - destruct Hs1 as [(r & Hr & Hk & Hs)|[_ ?]]; [|congruence]. rewrite Hst in Hs. simplify_eq.
      destruct (proj1 (Hrows (key_of_row r) (nc_row r))) as (k & Hrow & _); [by exists r|]. by eapply HI. }
  destruct (sweep_all_quiet order now w1) as (w' & E3 & Hq' & Hall); [by unfold quiet; rewrite He1|done| |].
  - intros sk st ev Hst (Hs & Hev & _). rewrite Hd. pose proof (Hok sk st Hst) as H0.
    unfold state_ok in H0. rewrite Hs in H0. naive_solver.
  - exists w'. split; [done|]. split; [done|]. intros sk. specialize (Hall sk). specialize (Hs1 sk).
    destruct (states w !! sk) as [st|]; [by rewrite Hs1 in Hall|].
    destruct Hs1 as [(r & Hr & Hk & Hs)|[Hno Hs]]; rewrite Hs in Hall; [left|right].
    + exists (nc_row r). split; [|done]. apply Hrows. by exists r.
    + split; [|done]. intros row (r & Hr & Hk & _)%Hrows. by eapply Hno.
Qed.

Lemma Sweep_quiet (order : sweep_order) now sk st w :
  engine_inv w → quiet w → (∀ m, order m ≡ₚ (map_to_list m).*1) → states w !! sk = Some st →
  ∃ w', Sweep cfg order now w = (w', ROk tt) ∧ quiet w' ∧
    states w' !! sk = Some (sweep_pure now st) ∧
    ∀ ev, closes now st ev → closed_at now (en_db w') ev.
Proof.
  intros HI Hq Ho Hst. destruct (Sweep_swept order now w HI Hq Ho) as (w' & ? & ? & Hall).
  specialize (Hall sk). rewrite Hst in Hall. destruct Hall. eauto.
Qed.

(** C18. On a healthy database, and for every order of the rows and of the map, a
    sweep of a reachable engine succeeds and leaves in memory exactly the series
    that were there and those of the rows that are not clean, each in the state
    [sweep_pure] makes of the state in memory or, for a series that was not
    there, of a row: unconfirmed watching states time out with an empty bucket,
    firing states recover when the score falls through the close threshold, and
    recovering states that stayed quiet become clean with their event row closed
    at the sweep's instant. *)
Theorem Sweep_effect e w (order : sweep_order) now :
  e_db e = empty_db → rtc engine_step (started e) w → quiet w →
  (∀ m, order m ≡ₚ (map_to_list m).*1) →
  ∃ w', Sweep cfg order now w = (w', ROk tt) ∧
    ∀ sk, match states w !! sk with
          | Some st => swept_to now sk st w'
          | None => (∃ r, nonclean_row (en_db w) sk r ∧ swept_to now sk (state_of_row r) w') ∨
                    ((∀ r, ¬ nonclean_row (en_db w) sk r) ∧ states w' !! sk = None)
          end.
Proof.
  intros He Hr Hq Ho. destruct (Sweep_swept order now w (reachable_inv e w He Hr) Hq Ho) as (w' & ? & _ & ?). eauto.
Qed.

(** *** A series and its twin *)

(** A finding of one series leaves the others alone, on every outcome. *)
Definition keeps (sk : SeriesKey) (o : option PolicyState) (w : engine) : Prop := states w !! sk = o.

Lemma keeps_set sk o sk' st : sk' ≠ sk → go_inv (keeps sk o) (set_state sk' st).
Proof. intros Hne w Hw. rewrite set_state_run. unfold keeps. simpl. by rewrite lookup_insert_ne. Qed.

Lemma keeps_db {A} sk o (c : go env A) : go_inv (keeps sk o) (db c).
Proof. intros w Hw. unfold keeps. by rewrite db_states. Qed.

#[local] Hint Resolve keeps_set keeps_db go_inv_ret go_inv_err : core.

Lemma ApplyFinding_other sk' o sk f fid now : sk ≠ sk' → go_inv (keeps sk' o) (ApplyFinding cfg sk f fid now).
Proof.
  intros Hne. assert (∀ st, go_inv (keeps sk' o) (openEvent sk st f)) as Hopen.
  { intros st w Hw. pose proof (openEvent_cases sk st f w) as HC.
    destruct (openEvent sk st f w) as [w' [[]|e|e]]; simpl in *; [|by destruct HC as [Hs _]; unfold keeps; rewrite Hs..].
    destruct HC as (u & ids & _ & _ & Hs & _). unfold keeps. rewrite Hs. by rewrite lookup_insert_ne. }
  unfold ApplyFinding. apply go_inv_bind.
  - unfold load_state. apply go_inv_bind; [apply go_inv_get|]. intros w0. destruct (states w0 !! sk); [auto|].
    apply go_inv_bind; [apply go_inv_try; auto|]. intros [err|row]; [case_match; [|auto]|];
      (apply go_inv_bind; [auto|intros _; auto]).
  - intros st. apply go_inv_bind; [auto|]. intros _. apply go_inv_bind.
    + unfold transition. destruct (Status _); simpl; try (by auto).
      1,2: apply go_inv_bind; [auto|]; intros _; case_match; auto.
      1: case_match; unfold attachFindingToEvent; auto.
      case_match; [|auto]. apply go_inv_bind; unfold attachFindingToEvent; auto.
    + intros _. apply go_inv_bind; [apply go_inv_get|]. intros w0. destruct (states w0 !! sk); [|auto].
      intros w Hw. unfold keeps. by rewrite savePolicyState_states.
Qed.

(** C40. A sweep rebuilds the key of a series from its row, which has no type, so
    a series of a known type gets a twin under another key: once its row is not
    clean, the sweep enters the twin in memory.  Findings of the series never
    reach the twin, so the twin decays while the series fires; and when the twin
    has recovered and waited out the quiet period, the sweep closes the event
    they share although the series keeps firing with it. *)
Theorem sweep_twin_closes_live_event e w (order : sweep_order) now sk :
  e_db e = empty_db → rtc engine_step (started e) w → quiet w →
  (∀ m, order m ≡ₚ (map_to_list m).*1) → sk ≠ twin sk →
  (∀ f fid t, states (fst (ApplyFinding cfg sk f fid t w)) !! twin sk = states w !! twin sk) ∧
  ∃ w', Sweep cfg order now w = (w', ROk tt) ∧
    (∀ r, policy_state (en_db w) !! series_id_of sk = Some r → ps_status r ≠ "clean" →
       is_Some (states w' !! twin sk)) ∧
    (∀ st tw ev, states w !! sk = Some st → Status st = Firing → OpenEventId st = Some ev →
       CrossedClose (Decay (LeakyBucketCfg cfg) (Bucket st) now) = false →
       states w !! twin sk = Some tw → closes now tw ev →
       closed_at now (en_db w') ev ∧
       ∃ st', states w' !! sk = Some st' ∧ Status st' = Firing ∧ OpenEventId st' = Some ev).
Proof.
  intros He Hr Hq Ho Hne. split.
  { intros f fid t. by apply (ApplyFinding_other (twin sk) (states w !! twin sk) sk f fid t Hne w). }
  destruct (Sweep_swept order now w (reachable_inv e w He Hr) Hq Ho) as (w' & E & _ & Hall).
  exists w'. split; [done|]. split.
  - intros r Hrow Hc. specialize (Hall (twin sk)). destruct (states w !! twin sk) as [tw|]; [destruct Hall; eauto|].
    destruct Hall as [(r' & _ & Hs & _)|[Hno _]]; [eauto|]. destruct (Hno r). exists (series_id_of sk). done.
  - intros st tw ev Hst Hf Ho' Hcc Htw Hcl. pose proof (Hall (twin sk)) as Ht. rewrite Htw in Ht.
    split; [by apply Ht|]. specialize (Hall sk). rewrite Hst in Hall. destruct Hall as [Hs _].
    eexists. split; [exact Hs|]. unfold sweep_pure. rewrite Hf, Hcc. done.
Qed.

(** ** Events *)

(** C6. [openEvent] is all or nothing.  When it returns without an error there
    is exactly one new event row, opened by the finding with the pending count
    and peak, every pending finding that has a row points to it and no other
    finding changed, the policy table is untouched and the series fires with
    that event and nothing pending.  On an error or a panic at any statement,
    the database and the engine's states are what they were. *)
Theorem openEvent_atomic sk st f w :
  match openEvent sk st f w with
  | (w', ROk _) => ∃ u ids,
      parse_pending (PendingFindings st) = Some ids ∧
      events (en_db w) !! u = None ∧
      events (en_db w') = <[u := event_row sk st f]> (events (en_db w)) ∧
      (∀ i, findings (en_db w') !! i =
         if decide (i ∈ ids) then attached u <$> findings (en_db w) !! i
         else findings (en_db w) !! i) ∧
      policy_state (en_db w') = policy_state (en_db w) ∧
      ∃ st', states w' = <[sk := st']> (states w) ∧ Status st' = Firing ∧
        OpenEventId st' = Some u ∧ PendingFindings st' = [] ∧ Bucket st' = Bucket st ∧
        StatusUpdatedAt st' = TS f
  | (w', _) => states w' = states w ∧ en_db w' = en_db w
  end.
Proof.
  pose proof (openEvent_cases sk st f w) as HC.
  destruct (openEvent sk st f w) as [w' [[]|e|e]]; [|done..].
  destruct HC as (u & ids & Hids & Hfr & Hs & Hd). exists u, ids. rewrite Hd, Hs.
  split; [done|]. split; [done|]. split; [done|]. split; [intros; apply lookup_attach_all|].
  split; [done|]. by eexists.
Qed.

Definition peak_step (peak : float64) (p : PendingFinding) : float64 :=
  match pf_Finding p with
  | Some f => if fltb peak (Severity f) then Severity f else peak
  | None => peak
  end.

Lemma peak_step_cases sev p :
  is_nan sev = false →
  is_nan (peak_step sev p) = false ∧ fltb (peak_step sev p) sev = false ∧
  (peak_step sev p = sev ∨ ∃ f, pf_Finding p = Some f ∧ peak_step sev p = Severity f) ∧
  ∀ f, pf_Finding p = Some f → fltb (peak_step sev p) (Severity f) = false.
Proof.
  intros Hn. unfold peak_step. destruct (pf_Finding p) as [f|].
  2: { split; [done|]. split; [apply fltb_irrefl|]. split; [by left|done]. }
  destruct (fltb sev (Severity f)) eqn:E.
  - split; [by destruct (Severity f), sev as [[]|[]| |[] ? ?]|].
    split; [destruct (fltb (Severity f) sev) eqn:E'; [|done];
            by rewrite <- (fltb_irrefl sev), (fltb_trans _ _ _ E E')|].
    split; [eauto|]. intros g [= <-]. apply fltb_irrefl.
  - split; [done|]. split; [apply fltb_irrefl|]. split; [by left|]. by intros g [= <-].
Qed.

Lemma peak_not_nan sev l : is_nan sev = false → is_nan (peak_severity sev l) = false.
Proof.
  revert sev. induction l as [|p l IH]; intros sev Hn; [done|].
  apply IH. by apply peak_step_cases.
Qed.

(** The pending finding with the largest severity sets the event's peak:
    the peak is the opening severity or one of a pending finding, and no pending
    severity that is a number exceeds it, when the opening severity is one. *)
Theorem peak_severity_max sev l :
  is_nan sev = false →
  (peak_severity sev l = sev ∨
   ∃ p f, p ∈ l ∧ pf_Finding p = Some f ∧ peak_severity sev l = Severity f) ∧
  fltb (peak_severity sev l) sev = false ∧
  ∀ p f, p ∈ l → pf_Finding p = Some f → fltb (peak_severity sev l) (Severity f) = false.
Proof.
  revert sev. induction l as [|p l IH]; intros sev Hn.
  { split; [by left|]. split; [apply fltb_irrefl|set_solver]. }
  change (peak_severity sev (p :: l)) with (peak_severity (peak_step sev p) l).
  set (sev' := peak_step sev p).
  destruct (peak_step_cases sev p Hn) as (Hn' & Hge & Hcase & Hub). fold sev' in Hn', Hge, Hcase, Hub.
  pose proof (peak_not_nan sev' l Hn') as Hpn. destruct (IH sev' Hn') as (H1 & H2 & H3).
  set (pk := peak_severity sev' l) in *.
  assert (∀ x, fltb sev' x = false → fltb pk x = false) as Hx.
  { intros x Hx. destruct (fltb pk x) eqn:E; [|done].
    pose proof (not_ltb_leb _ _ Hpn Hn' H2) as Hle. by rewrite (fleb_ltb_trans _ _ _ Hle E) in Hx. }
  split; [|split; [by apply Hx|]].
  - destruct H1 as [->|(q & g & ? & ? & ?)]; [|right; exists q, g; set_solver].
    destruct Hcase as [->|(g & ? & ->)]; [by left|]. right. exists p, g. set_solver.
  - intros q g [->|Hq]%elem_of_cons Hg; [by apply Hx, Hub|by eapply H3].
Qed.

(** Exactly-once findings: a finding that was inserted has a row of its
    own, and while that row is in the table (attached to an event or not) a
    finding of the same series and instant, as a redelivered sample produces,
    is refused with [ErrNoRows] and changes nothing. *)
Theorem InsertFinding_once sk f w w1 p :
  InsertFinding sk f w = (w1, ROk p) →
  ∃ u, p = pg_some u ∧ findings (en_db w) !! u = None ∧
    findings (en_db w1) = <[u := finding_row sk f]> (findings (en_db w)) ∧
    ∀ g w2 r, quiet w2 → findings (en_db w2) !! u = Some r → same_finding r (finding_row sk f) →
      details_encodable (Details g) = true → timestamptz (TS g) = timestamptz (TS f) →
      InsertFinding sk g w2 = (w2, RErr ErrNoRows).
Proof.
  unfold InsertFinding at 1. destruct (details_encodable (Details f)); [|done].
  unfold db, InsertFinding_q, db_call, en_db. intros E.
  assert (∃ u, p = pg_some u ∧ findings (e_db (en_env w)) !! u = None ∧
    findings (e_db (en_env w1)) = <[u := finding_row sk f]> (findings (e_db (en_env w))))
    as (u & -> & Hu & Hw1).
  { destruct (e_faults (en_env w)) as [|[] l]; simpl in E; [|done|].
    all: case_decide; [done|]; simpl in E.
    all: destruct (findings _ !! _) eqn:Ef in E; simplify_eq/=; eauto. }
  exists u. split; [done|]. split; [done|]. split; [done|].
  intros g w2 r Hq Hr Hsame Henc Hts. unfold InsertFinding. rewrite Henc.
  unfold db, InsertFinding_q. rewrite db_call_quiet by done. rewrite decide_True; [by destruct w2|].
  exists u, r. split; [done|]. destruct Hsame as (?&?&?&?&?&?).
  unfold same_finding, finding_row in *. simpl in *. rewrite Hts. done.
Qed.

Lemma attach_events E e fid :
  go_inv (λ w, events (en_db w) = E) (attachFindingToEvent e fid).
Proof.
  intros w Hw. unfold attachFindingToEvent, db, AttachFindingToEvent, db_call.
  destruct (e_faults (en_env w)) as [|[] l]; simpl; try done.
  all: unfold en_db in *; simpl; repeat case_match; simplify_eq/=; done.
Qed.

Lemma save_keeps_events E sk st :
  go_inv (λ w, events (en_db w) = E) (savePolicyState sk st).
Proof.
  intros w Hw. unfold savePolicyState. destruct (parse_pending _); [|done].
  unfold db, UpsertPolicyState, db_call. destruct (e_faults (en_env w)) as [|[] ?]; simpl; try done.
  all: by destruct (match pg_col _ with Some _ => _ | None => _ end).
Qed.

(** While a series fires, its findings are attached to the event but the
    event row does not follow them: count, peak severity, detectors and
    last-seen keep the values they were opened with, on every outcome. *)
Theorem firing_event_row_stale sk f fid now w st :
  states w !! sk = Some st → Status st = Firing →
  events (en_db (fst (ApplyFinding cfg sk f fid now w))) = events (en_db w).
Proof.
  intros Hst Hs. unfold ApplyFinding.
  assert (load_state sk now w = (w, ROk st)) as E1.
  { unfold load_state, go_bind, go_get. by rewrite Hst. }
  go_step E1. set (E := events (en_db w)).
  apply (go_inv_bind (λ w', events (en_db w') = E)); [by intros w'| |done]. intros _.
  apply go_inv_bind.
  - unfold transition. simpl. rewrite Hs.
    destruct (OpenEventId st); [apply attach_events|apply go_inv_err].
  - intros _. apply go_inv_bind; [apply go_inv_get|]. intros w0.
    destruct (states w0 !! sk); [apply save_keeps_events|apply go_inv_ret].
Qed.

(** [openEvent] panics exactly when the transaction cannot be started:
    the error branch calls Rollback on the nil transaction that came with the
    error. *)
Theorem openEvent_panics_iff sk st f w :
  is_panic (snd (openEvent sk st f w)) = match e_faults (en_env w) with b :: _ => b | [] => false end.
Proof.
  unfold openEvent, go_bind at 1, go_try at 1, db at 1, Begin, db_call.
  destruct (e_faults (en_env w)) as [|[] l]; simpl; [|done|].
  all: unfold go_bind at 1, go_try at 1.
  all: match goal with |- context [open_event_body ?a ?b ?c ?w0] =>
         pose proof (open_event_body_cases a b c w0) as HB;
         destruct (open_event_body a b c w0) as [w2 [u|e|e]]; [|done..] end.
  all: unfold go_bind, db, Commit, set_state, go_modify;
    by destruct (e_faults (en_env w2)) as [|[] l2].
Qed.

End Engine.

(** ** Scenarios: the default configuration on concrete histories *)

#[local] Existing Instance BinaryUuid.

(** The configuration [Argus.Start] builds. *)
Definition defaultPolicy : PolicyEngineConfig :=
  {| LeakyBucketCfg := defaultConfig; QuietPeriod := 120 * Second; ConfirmWindow := 60 * Second |}.

Definition env0 : env :=
  {| e_db := empty_db; e_faults := []; e_gen := N.of_nat; e_ctr := 1 |}.

Definition with_faults (l : list bool) (w : engine) : engine :=
  {| states := states w;
     en_env := {| e_db := en_db w; e_faults := l; e_gen := e_gen (en_env w); e_ctr := e_ctr (en_env w) |} |}.

Definition sk0 : SeriesKey :=
  mkSeriesKey SeriesTypePing "agent-1" "192.0.2.1" "" 0 "rtt_p95_ns" DetectorTypeEwma.

Definition finding_at (sec : Z) (sev : Z) : Finding :=
  {| TS := timeUnix (1700000000 + sec) 0; Value := f64 0; Severity := f64 sev; Details := None |}.

Definition at_sec (sec : Z) : time := timeUnix (1700000000 + sec) 0.

(** Insert and apply, as the worker's report does. *)
Definition feed (sec sev : Z) (w : engine) : engine :=
  let '(w1, r) := InsertFinding sk0 (finding_at sec sev) w in
  match r with
  | ROk id => fst (ApplyFinding defaultPolicy sk0 (finding_at sec sev) id (at_sec sec) w1)
  | _ => w1
  end.

Definition key_order : sweep_order := {| so_rows := λ _, 0%nat; so_states m := (map_to_list m).*1 |}.

Definition sweep_at (sec : Z) (w : engine) : engine :=
  fst (Sweep defaultPolicy key_order (at_sec sec) w).

Definition status_at (w : engine) (sk : SeriesKey) : option PolicyStateStatus :=
  Status <$> states w !! sk.

Definition event_statuses (w : engine) : list string := ev_status ∘ snd <$> map_to_list (events (en_db w)).

(** A series that fires at 0 s and keeps receiving findings at 40, 100 and 160 s,
    with sweeps at 1 and 45 s. *)
Definition shadow_run : engine :=
  feed 160 9 (feed 100 9 (sweep_at 45 (feed 40 9 (sweep_at 1 (feed 0 6 (started env0)))))).

(** The third statement after the insert is the commit; it fails. *)
Definition failed_commit : engine * res unit :=
  ApplyFinding defaultPolicy sk0 (finding_at 0 6) (pg_some 1) (at_sec 0)
    (with_faults [false; false; false; false; true]
       (fst (InsertFinding sk0 (finding_at 0 6) (started env0)))).

Definition after_failed_commit : engine * res unit :=
  ApplyFinding defaultPolicy sk0 (finding_at 1 6) (pg_some 2) (at_sec 1)
    (fst (InsertFinding sk0 (finding_at 1 6) (with_faults [] (fst failed_commit)))).

(** A transaction that fails to commit leaves the score above the open
    threshold, and the rising edge does not come again: the next finding, on a
    healthy database, is applied without an error and opens no event although
    the score is more than twice the threshold. *)
Theorem failed_commit_loses_edge :
  snd failed_commit = RErr "commit failed" ∧ snd after_failed_commit = ROk tt ∧
  status_at (fst after_failed_commit) sk0 = Some Watching ∧
  events (en_db (fst after_failed_commit)) = ∅ ∧
  (fleb (f64 10) ∘ Score ∘ Bucket <$> states (fst after_failed_commit) !! sk0) = Some true.
Proof. vm_compute. repeat split. Qed.

(** ** Witnesses *)

Definition firing_run : engine :=
  fst (ApplyFinding defaultPolicy sk0 (finding_at 0 6) (pg_some 1) (at_sec 0)
         (fst (InsertFinding sk0 (finding_at 0 6) (started env0)))).

Definition firing_state : PolicyState :=
  match states firing_run !! sk0 with Some st => st | None => new_state 0 end.

Lemma firing_run_reachable : rtc (engine_step defaultPolicy) (started env0) firing_run.
Proof.
  eapply rtc_l; [apply (StepInsert defaultPolicy _ sk0 (finding_at 0 6))|].
  eapply rtc_l; [apply (StepApply defaultPolicy _ sk0 (finding_at 0 6) 1 (at_sec 0))|].
  apply rtc_refl.
Qed.

Lemma engine_states_ok_witness :
  status_at firing_run sk0 = Some Firing ∧
  ∃ st, states firing_run !! sk0 = Some st ∧ state_ok (en_db firing_run) st.
Proof.
  split; [vm_compute; reflexivity|]. eexists. split; [vm_compute; reflexivity|].
  apply (proj1 (engine_states_ok defaultPolicy env0 firing_run eq_refl firing_run_reachable) sk0).
  vm_compute; reflexivity.
Defined.

Lemma ApplyFinding_succeeds_witness :
  quiet firing_run ∧ fresh firing_run ∧
  snd (ApplyFinding defaultPolicy sk0 (finding_at 5 1) (pg_some 9) (at_sec 5) firing_run) = ROk tt.
Proof.
  split; [vm_compute; reflexivity|]. split; [vm_compute; reflexivity|].
  apply (ApplyFinding_succeeds defaultPolicy env0 firing_run sk0 (finding_at 5 1) 9 (at_sec 5));
    [reflexivity|apply firing_run_reachable|vm_compute; reflexivity|vm_compute; reflexivity].
Defined.

Lemma ApplyFinding_refines_witness :
  load_state sk0 0 (started env0) = (fst (load_state sk0 0 (started env0)), ROk (new_state 0)) ∧
  let '(w', r) := ApplyFinding defaultPolicy sk0 (finding_at 0 6) (pg_some 1) 0 (started env0) in
  ∃ st', states w' = <[sk0 := st']> (states (started env0)) ∧ rtc apply_step Clean (Status st').
Proof.
  split; [reflexivity|].
  pose proof (ApplyFinding_refines defaultPolicy sk0 (finding_at 0 6) (pg_some 1) 0 (started env0)
    (fst (load_state sk0 0 (started env0))) (new_state 0) eq_refl) as HT.
  cbv zeta in HT. destruct (ApplyFinding _ _ _ _ _ _) as [w' r].
  destruct HT as (st' & H1 & _ & H3 & _). exists st'. split; [exact H1|exact H3].
Defined.

Lemma Sweep_refines_witness :
  status_at firing_run sk0 = Some Firing ∧
  ∃ st', states (sweep_at 100 firing_run) !! sk0 = Some st' ∧
         rtc sweep_step (Status firing_state) (Status st').
Proof.
  split; [vm_compute; reflexivity|].
  apply (Sweep_refines defaultPolicy key_order (at_sec 100) firing_run sk0 firing_state).
  vm_compute; reflexivity.
Defined.

(** A restart forgets the states; the sweep reads the row back. *)
Lemma Sweep_effect_witness :
  ∃ w', Sweep defaultPolicy key_order (at_sec 100) (started (en_env firing_run)) = (w', ROk tt) ∧
    (∃ r, nonclean_row (en_db firing_run) (twin sk0) r ∧
       swept_to defaultPolicy (at_sec 100) (twin sk0) (state_of_row r) w') ∧
    states w' !! sk0 = None.
Proof.
  edestruct (Sweep_effect defaultPolicy env0 (started (en_env firing_run)) key_order (at_sec 100))
    as (w' & E & Hs); [reflexivity| |vm_compute; reflexivity|reflexivity|].
  { eapply rtc_r; [apply firing_run_reachable|]. apply StepRestart. }
  exists w'. split; [exact E|].
  assert (states w' !! sk0 = None) as Hn.
  { pose proof (f_equal (λ x, states x.1 !! sk0) E) as En. etrans; [symmetry; exact En|]. vm_compute. reflexivity. }
  split; [|exact Hn].
  pose proof (Hs (twin sk0)) as H2. cbn [started states] in H2. rewrite lookup_empty in H2.
  destruct H2 as [H2|[Hno _]]; [exact H2|]. exfalso.
  destruct (policy_state (en_db firing_run) !! series_id_of sk0) as [r|] eqn:Er; [|vm_compute in Er; discriminate].
  apply (Hno r). exists (series_id_of sk0). split; [exact Er|]. split; [|reflexivity].
  assert ((ps_status <$> policy_state (en_db firing_run) !! series_id_of sk0) = Some "firing") as Ef
    by (vm_compute; reflexivity).
  rewrite Er in Ef. simpl in Ef. injection Ef as ->. discriminate.
Defined.

Lemma feed_reachable sec sev w :
  rtc (engine_step defaultPolicy) (started env0) w → rtc (engine_step defaultPolicy) (started env0) (feed sec sev w).
Proof.
  intros Hr. unfold feed. destruct (InsertFinding sk0 (finding_at sec sev) w) as [w1 r] eqn:E.
  assert (rtc (engine_step defaultPolicy) (started env0) w1) as Hr1.
  { eapply rtc_r; [exact Hr|]. pose proof (StepInsert defaultPolicy w sk0 (finding_at sec sev)) as Hs. by rewrite E in Hs. }
  destruct r as [id|?|?]; [|done..]. apply InsertFinding_once in E as (u & -> & _).
  eapply rtc_r; [exact Hr1|]. apply StepApply.
Qed.

Lemma sweep_reachable sec w :
  rtc (engine_step defaultPolicy) (started env0) w → rtc (engine_step defaultPolicy) (started env0) (sweep_at sec w).
Proof. intros Hr. eapply rtc_r; [exact Hr|]. apply StepSweep. Qed.

Lemma sweep_twin_closes_live_event_witness :
  ∃ w', Sweep defaultPolicy key_order (at_sec 170) shadow_run = (w', ROk tt) ∧
    closed_at (at_sec 170) (en_db w') 2%N ∧
    ∃ st', states w' !! sk0 = Some st' ∧ Status st' = Firing ∧ OpenEventId st' = Some 2%N.
Proof.
  destruct (sweep_twin_closes_live_event defaultPolicy env0 shadow_run key_order (at_sec 170) sk0)
    as (_ & w' & E & _ & Hlive); [reflexivity| |vm_compute; reflexivity|reflexivity|discriminate|].
  { apply feed_reachable, feed_reachable, sweep_reachable, feed_reachable, sweep_reachable, feed_reachable, rtc_refl. }
  exists w'. split; [exact E|].
  destruct (states shadow_run !! sk0) as [st|] eqn:Es; [|vm_compute in Es; discriminate].
  destruct (states shadow_run !! twin sk0) as [tw|] eqn:Et; [|vm_compute in Et; discriminate].
  apply (Hlive st tw 2%N); [reflexivity| | | |reflexivity|]; clear Hlive E;
    vm_compute in Es, Et; injection Es as <-; injection Et as <-; try (vm_compute; reflexivity).
  split; [reflexivity|]. split; [reflexivity|]. vm_compute. reflexivity.
Defined.

Lemma peak_severity_max_witness :
  let l := [{| pf_Id := "1"; pf_Finding := Some (finding_at 0 6) |}] in
  fltb (peak_severity (f64 4) l) (f64 4) = false.
Proof. intros l. apply (peak_severity_max (f64 4) l). reflexivity. Defined.

Lemma InsertFinding_once_witness :
  let w1 := fst (InsertFinding sk0 (finding_at 0 6) (started env0)) in
  InsertFinding sk0 (finding_at 0 4) w1 = (w1, RErr ErrNoRows).
Proof.
  destruct (InsertFinding_once sk0 (finding_at 0 6) (started env0)
    (fst (InsertFinding sk0 (finding_at 0 6) (started env0))) (pg_some 1) eq_refl)
    as (u & Hu & _ & Hf & Hall).
  assert (u = 1%N) as -> by (injection Hu; congruence).
  apply (Hall _ _ (finding_row sk0 (finding_at 0 6)));
    [reflexivity|reflexivity|repeat split|reflexivity|reflexivity].
Defined.

Lemma firing_event_row_stale_witness :
  status_at firing_run sk0 = Some Firing ∧
  events (en_db (fst (ApplyFinding defaultPolicy sk0 (finding_at 5 9) (pg_some 3) (at_sec 5) firing_run)))
  = events (en_db firing_run).
Proof.
  split; [vm_compute; reflexivity|].
  apply (firing_event_row_stale defaultPolicy sk0 (finding_at 5 9) (pg_some 3) (at_sec 5)
    firing_run firing_state); vm_compute; reflexivity.
Defined.
