(* ===== verification/ArgusWorker.v ===== *)
(** * Router, registry and workers (services/argus/router.go, registry.go, worker.go)

    The router decodes measurement events and routes each to the worker of its
    series; a worker keeps one monitor per (metric, detector) the registry
    defines for the series type, folds samples newer than a monitor's cursor
    through its detector, reports findings to the policy engine and persists
    the baseline. *)

From S2P Require Import Prelude Float64 Float64Round GoTime Json ArgusTypes LeakyBucket Detectors.
From S2P Require Import ArgusDb PolicyEngine.
Import PolicyEngine.PolicyEngine.

Local Open Scope Z_scope.
Local Open Scope go_scope.

(** ** Measurement events (libs/common/types.go) *)

Definition ProbeTypeStamp : string := "stamp".
Definition ProbeTypeTrace : string := "trace".
Definition ProbeTypePing : string := "ping".

Record MeasurementEvent := {
  me_Type : string;
  me_SerialID : string;
  me_Target : string;
  me_Port : Z;
  me_Src : string;
  me_Timestamp : time;
  me_Metrics : raw;
}.

Definition event_zero : MeasurementEvent :=
  {| me_Type := ""; me_SerialID := ""; me_Target := ""; me_Port := 0; me_Src := "";
     me_Timestamp := zeroTime; me_Metrics := RawEmpty |}.

Record PingMetrics := { pm_RttP95Ns : Z; pm_Sent : Z; pm_Received : Z }.

Record StampMetrics := {
  sm_RttP95Ns : Z; sm_FwdP95Ns : Z; sm_BwdP95Ns : Z; sm_Sent : Z; sm_Received : Z }.

Record TraceMetrics := { tm_AsnPathHash : string; tm_LinkPathHash : string }.

Definition event_set_field (a : MeasurementEvent) (k : string) (j : json) : option MeasurementEvent :=
  if key_is "type" k then
    v ← dec_string (me_Type a) j;
    Some {| me_Type := v; me_SerialID := me_SerialID a; me_Target := me_Target a; me_Port := me_Port a;
            me_Src := me_Src a; me_Timestamp := me_Timestamp a; me_Metrics := me_Metrics a |}
  else if key_is "serial_id" k then
    v ← dec_string (me_SerialID a) j;
    Some {| me_Type := me_Type a; me_SerialID := v; me_Target := me_Target a; me_Port := me_Port a;
            me_Src := me_Src a; me_Timestamp := me_Timestamp a; me_Metrics := me_Metrics a |}
  else if key_is "target" k then
    v ← dec_string (me_Target a) j;
    Some {| me_Type := me_Type a; me_SerialID := me_SerialID a; me_Target := v; me_Port := me_Port a;
            me_Src := me_Src a; me_Timestamp := me_Timestamp a; me_Metrics := me_Metrics a |}
  else if key_is "port" k then
    v ← dec_int32 (me_Port a) j;
    Some {| me_Type := me_Type a; me_SerialID := me_SerialID a; me_Target := me_Target a; me_Port := v;
            me_Src := me_Src a; me_Timestamp := me_Timestamp a; me_Metrics := me_Metrics a |}
  else if key_is "src" k then
    v ← dec_string (me_Src a) j;
    Some {| me_Type := me_Type a; me_SerialID := me_SerialID a; me_Target := me_Target a; me_Port := me_Port a;
            me_Src := v; me_Timestamp := me_Timestamp a; me_Metrics := me_Metrics a |}
  else if key_is "timestamp" k then
    v ← dec_time (me_Timestamp a) j;
    Some {| me_Type := me_Type a; me_SerialID := me_SerialID a; me_Target := me_Target a; me_Port := me_Port a;
            me_Src := me_Src a; me_Timestamp := v; me_Metrics := me_Metrics a |}
  else if key_is "metrics" k then
    v ← dec_raw (me_Metrics a) j;
    Some {| me_Type := me_Type a; me_SerialID := me_SerialID a; me_Target := me_Target a; me_Port := me_Port a;
            me_Src := me_Src a; me_Timestamp := me_Timestamp a; me_Metrics := v |}
  else Some a.

Definition event_from_json : dec MeasurementEvent := dec_struct event_set_field.

(** [json.Marshal] of an event: [port] and [src] are omitted when empty; nil
    metrics are written as [null] and an invalid raw message is an error. *)
Definition event_to_json (a : MeasurementEvent) : option json :=
  t ← enc_time (me_Timestamp a);
  m ← match me_Metrics a with RawEmpty => Some JNull | RawBad => None | RawDoc j => Some j end;
  Some (JObj ([("type", JStr (me_Type a)); ("serial_id", JStr (me_SerialID a));
               ("target", JStr (me_Target a))]
              ++ (if Z.eqb (me_Port a) 0 then [] else [("port", enc_int (me_Port a))])
              ++ (if String.eqb (me_Src a) "" then [] else [("src", JStr (me_Src a))])
              ++ [("timestamp", t); ("metrics", m)])).

Definition ping_set_field (a : PingMetrics) (k : string) (j : json) : option PingMetrics :=
  if key_is "rtt_p95_ns" k then
    v ← dec_int64 (pm_RttP95Ns a) j;
    Some {| pm_RttP95Ns := v; pm_Sent := pm_Sent a; pm_Received := pm_Received a |}
  else if key_is "sent" k then
    v ← dec_int64 (pm_Sent a) j;
    Some {| pm_RttP95Ns := pm_RttP95Ns a; pm_Sent := v; pm_Received := pm_Received a |}
  else if key_is "received" k then
    v ← dec_int64 (pm_Received a) j;
    Some {| pm_RttP95Ns := pm_RttP95Ns a; pm_Sent := pm_Sent a; pm_Received := v |}
  else Some a.

Definition ping_to_json (a : PingMetrics) : json :=
  JObj [("rtt_p95_ns", enc_int (pm_RttP95Ns a)); ("sent", enc_int (pm_Sent a));
        ("received", enc_int (pm_Received a))].

Definition stamp_set_field (a : StampMetrics) (k : string) (j : json) : option StampMetrics :=
  if key_is "rtt_p95_ns" k then
    v ← dec_int64 (sm_RttP95Ns a) j;
    Some {| sm_RttP95Ns := v; sm_FwdP95Ns := sm_FwdP95Ns a; sm_BwdP95Ns := sm_BwdP95Ns a;
            sm_Sent := sm_Sent a; sm_Received := sm_Received a |}
  else if key_is "fwd_p95_ns" k then
    v ← dec_int64 (sm_FwdP95Ns a) j;
    Some {| sm_RttP95Ns := sm_RttP95Ns a; sm_FwdP95Ns := v; sm_BwdP95Ns := sm_BwdP95Ns a;
            sm_Sent := sm_Sent a; sm_Received := sm_Received a |}
  else if key_is "bwd_p95_ns" k then
    v ← dec_int64 (sm_BwdP95Ns a) j;
    Some {| sm_RttP95Ns := sm_RttP95Ns a; sm_FwdP95Ns := sm_FwdP95Ns a; sm_BwdP95Ns := v;
            sm_Sent := sm_Sent a; sm_Received := sm_Received a |}
  else if key_is "sent" k then
    v ← dec_int64 (sm_Sent a) j;
    Some {| sm_RttP95Ns := sm_RttP95Ns a; sm_FwdP95Ns := sm_FwdP95Ns a; sm_BwdP95Ns := sm_BwdP95Ns a;
            sm_Sent := v; sm_Received := sm_Received a |}
  else if key_is "received" k then
    v ← dec_int64 (sm_Received a) j;
    Some {| sm_RttP95Ns := sm_RttP95Ns a; sm_FwdP95Ns := sm_FwdP95Ns a; sm_BwdP95Ns := sm_BwdP95Ns a;
            sm_Sent := sm_Sent a; sm_Received := v |}
  else Some a.

Definition stamp_to_json (a : StampMetrics) : json :=
  JObj [("rtt_p95_ns", enc_int (sm_RttP95Ns a)); ("fwd_p95_ns", enc_int (sm_FwdP95Ns a));
        ("bwd_p95_ns", enc_int (sm_BwdP95Ns a)); ("sent", enc_int (sm_Sent a));
        ("received", enc_int (sm_Received a))].

Definition trace_set_field (a : TraceMetrics) (k : string) (j : json) : option TraceMetrics :=
  if key_is "asn_path_hash" k then
    v ← dec_string (tm_AsnPathHash a) j;
    Some {| tm_AsnPathHash := v; tm_LinkPathHash := tm_LinkPathHash a |}
  else if key_is "link_path_hash" k then
    v ← dec_string (tm_LinkPathHash a) j;
    Some {| tm_AsnPathHash := tm_AsnPathHash a; tm_LinkPathHash := v |}
  else Some a.

Definition trace_to_json (a : TraceMetrics) : json :=
  JObj [("asn_path_hash", JStr (tm_AsnPathHash a)); ("link_path_hash", JStr (tm_LinkPathHash a))].

(** The dynamic types [decodeMetrics] returns as [any]. *)
Inductive row :=
| RowStamp (m : StampMetrics)
| RowPing (m : PingMetrics)
| RowTrace (m : TraceMetrics).

(** ** Registry *)

Record Extractor := {
  Detectors : list string;
  Extract : row → res any;
  MetricName : string;
}.

Definition want (ty : string) : res any := RErr ("expected common." +:+ ty).

Definition stamp_float (name : string) (field : StampMetrics → Z) : Extractor :=
  {| MetricName := name; Detectors := [DetectorTypeEwma];
     Extract := fun data =>
       match data with RowStamp m => ROk (AnyFloat (f64 (field m))) | _ => want "StampMetrics" end |}.

Definition CreateDefaultRegistry : gmap string (list Extractor) :=
  <[SeriesTypeStamp := [
      stamp_float "fwd_p95_ns" sm_FwdP95Ns;
      stamp_float "bwd_p95_ns" sm_BwdP95Ns;
      stamp_float "rtt_p95_ns" sm_RttP95Ns;
      {| MetricName := "loss"; Detectors := [DetectorTypeBetaB];
         Extract := fun data =>
           match data with
           | RowStamp m => ROk (AnyLoss {| ls_Sent := sm_Sent m; ls_Received := sm_Received m |})
           | _ => want "StampMetrics"
           end |}]]> (
  <[SeriesTypePing := [
      {| MetricName := "rtt_p95_ns"; Detectors := [DetectorTypeEwma];
         Extract := fun data =>
           match data with RowPing m => ROk (AnyFloat (f64 (pm_RttP95Ns m))) | _ => want "PingMetrics" end |};
      {| MetricName := "packet_loss_percent"; Detectors := [DetectorTypeBetaB];
         Extract := fun data =>
           match data with
           | RowPing m => ROk (AnyLoss {| ls_Sent := pm_Sent m; ls_Received := pm_Received m |})
           | _ => want "PingMetrics"
           end |}]]> (
  <[SeriesTypeTrace := [
      {| MetricName := "asn_path_hash"; Detectors := [DetectorTypeFreq];
         Extract := fun data =>
           match data with RowTrace m => ROk (AnyString (tm_AsnPathHash m)) | _ => want "TraceMetrics" end |};
      {| MetricName := "link_path_hash"; Detectors := [DetectorTypeFreq];
         Extract := fun data =>
           match data with RowTrace m => ROk (AnyString (tm_LinkPathHash m)) | _ => want "TraceMetrics" end |}]]>
  ∅)).

Definition GetExtractors (entries : gmap string (list Extractor)) (st : string) : list Extractor :=
  default [] (entries !! st).

(** ** Router *)

Record DiscoveredSeries := mkSeries {
  s_Type : string;
  s_SerialId : string;
  s_Target : string;
  s_Port : Z;
  s_Src : string;
}.

#[export] Instance DiscoveredSeries_eq_dec : EqDecision DiscoveredSeries.
Proof. solve_decision. Defined.

#[export] Instance DiscoveredSeries_countable : Countable DiscoveredSeries.
Proof.
  apply (inj_countable'
    (λ k, (s_Type k, s_SerialId k, s_Target k, s_Port k, s_Src k))
    (λ '(a, b, c, d, e), mkSeries a b c d e)).
  by intros [].
Defined.

Record RawSample := { rs_TS : time; rs_Row : row }.

Definition seriesFromEvent (event : MeasurementEvent) : option DiscoveredSeries :=
  if String.eqb (me_Type event) ProbeTypePing then
    Some (mkSeries SeriesTypePing (me_SerialID event) (me_Target event) 0 "")
  else if String.eqb (me_Type event) ProbeTypeStamp then
    Some (mkSeries SeriesTypeStamp (me_SerialID event) (me_Target event) (me_Port event) "")
  else if String.eqb (me_Type event) ProbeTypeTrace then
    Some (mkSeries SeriesTypeTrace (me_SerialID event) (me_Target event) 0 (me_Src event))
  else None.

Definition decodeMetrics (event : MeasurementEvent) : option row :=
  if String.eqb (me_Type event) ProbeTypePing then
    RowPing <$> unmarshal (dec_struct ping_set_field)
                  {| pm_RttP95Ns := 0; pm_Sent := 0; pm_Received := 0 |} (me_Metrics event)
  else if String.eqb (me_Type event) ProbeTypeStamp then
    RowStamp <$> unmarshal (dec_struct stamp_set_field)
                   {| sm_RttP95Ns := 0; sm_FwdP95Ns := 0; sm_BwdP95Ns := 0; sm_Sent := 0;
                      sm_Received := 0 |} (me_Metrics event)
  else if String.eqb (me_Type event) ProbeTypeTrace then
    RowTrace <$> unmarshal (dec_struct trace_set_field)
                   {| tm_AsnPathHash := ""; tm_LinkPathHash := "" |} (me_Metrics event)
  else None.

(** The inboxes by series; a message is its identity.  A full inbox makes the
    router wait. *)
Record inboxItem := { it_sample : RawSample; it_msg : nat }.

Inductive dispatched :=
| Terminated
| Enqueued (s : DiscoveredSeries) (spawned : bool)
| WouldBlock (s : DiscoveredSeries) (spawned : bool).

Definition inboxCapacity : nat := 64.

Definition dispatch (routes : gmap DiscoveredSeries (list inboxItem)) (msg : nat) (data : raw)
    : gmap DiscoveredSeries (list inboxItem) * dispatched :=
  match unmarshal event_from_json event_zero data with
  | None => (routes, Terminated)
  | Some event =>
      match seriesFromEvent event with
      | None => (routes, Terminated)
      | Some series =>
          match decodeMetrics event with
          | None => (routes, Terminated)
          | Some metrics =>
              let item := {| it_sample := {| rs_TS := me_Timestamp event; rs_Row := metrics |};
                             it_msg := msg |} in
              let inbox := default [] (routes !! series) in
              let spawned := bool_decide (routes !! series = None) in
              if Nat.ltb (length inbox) inboxCapacity then
                (<[series := inbox ++ [item]]> routes, Enqueued series spawned)
              else (<[series := inbox]> routes, WouldBlock series spawned)
          end
      end
  end.

(** ** Worker *)

Record monitor := {
  mo_key : SeriesKey;
  mo_extractor : Extractor;
  mo_detector : Detector;
  mo_state : raw;
  mo_cursor : time;
}.

Definition advance (m : monitor) (st : raw) (cur : time) : monitor :=
  {| mo_key := mo_key m; mo_extractor := mo_extractor m; mo_detector := mo_detector m;
     mo_state := st; mo_cursor := cur |}.

Section Worker.
Context `{UuidLib} (cfg : PolicyEngineConfig).
Context (registry : gmap string (list Extractor)) (detectors : gmap string Detector).

(** *** plan *)

Definition series_key (s : DiscoveredSeries) (ex : Extractor) (dt : string) : SeriesKey :=
  mkSeriesKey (s_Type s) (s_SerialId s) (s_Target s) "" (s_Port s) (MetricName ex) dt.

(** One iteration of the inner loop: at most one monitor. *)
Definition plan_one (s : DiscoveredSeries) (ex : Extractor) (dt : string) : go engine (list monitor) :=
  match detectors !! dt with
  | None => go_ret []
  | Some det =>
      let key := series_key s ex dt in
      let* r := go_try (db (GetBaseline (mkSeriesId (s_SerialId s) "" (s_Target s) (s_Port s)
                                           (MetricName ex) dt))) in
      match r with
      | inl err =>
          if String.eqb err ErrNoRows then
            go_ret [{| mo_key := key; mo_extractor := ex; mo_detector := det;
                       mo_state := RawEmpty; mo_cursor := zeroTime |}]
          else go_ret []
      | inr b =>
          go_ret [{| mo_key := key; mo_extractor := ex; mo_detector := det;
                     mo_state := bl_state b; mo_cursor := bl_last_seen b |}]
      end
  end.

Fixpoint plan_all (s : DiscoveredSeries) (l : list (Extractor * string)) : go engine (list monitor) :=
  match l with
  | [] => go_ret []
  | (ex, dt) :: l' =>
      let* ms := plan_one s ex dt in
      let* ms' := plan_all s l' in
      go_ret (ms ++ ms')
  end.

Definition plan_pairs (s : DiscoveredSeries) : list (Extractor * string) :=
  GetExtractors registry (s_Type s) ≫= λ ex, (λ dt, (ex, dt)) <$> Detectors ex.

Definition plan (s : DiscoveredSeries) : go engine (list monitor) := plan_all s (plan_pairs s).

(** *** fold *)

Definition report (now : time) (key : SeriesKey) (f : Finding) : go engine unit :=
  let* r := go_try (InsertFinding key f) in
  match r with
  | inl _ => go_ret tt
  | inr findingId =>
      let* _ := go_try (ApplyFinding cfg key f findingId now) in
      go_ret tt
  end.

Definition saveBaseline (key : SeriesKey) (state : raw) (lastSeen : time) : go engine unit :=
  db (UpsertBaseline (series_id_of key) state 0 lastSeen).

(** One iteration of the loop over samples. *)
Definition fold_sample (now : time) (m : monitor) (rs : RawSample) : go engine monitor :=
  if After (rs_TS rs) (mo_cursor m) then
    match Extract (mo_extractor m) (rs_Row rs) with
    | ROk value =>
        match mo_detector m (mo_state m) (rs_TS rs) value with
        | ROk (next, finding) =>
            let m' := advance m next (rs_TS rs) in
            match finding with
            | Some f => report now (mo_key m') f ;;; go_ret m'
            | None => go_ret m'
            end
        | RErr _ => go_ret m
        | RPanic e => go_panic e
        end
    | RErr _ => go_ret m
    | RPanic e => go_panic e
    end
  else go_ret m.

Fixpoint fold_samples (now : time) (m : monitor) (rows : list RawSample) : go engine monitor :=
  match rows with
  | [] => go_ret m
  | rs :: rows' => let* m' := fold_sample now m rs in fold_samples now m' rows'
  end.

Definition fold (now : time) (m : monitor) (rows : list RawSample) : go engine monitor :=
  let* m' := fold_samples now m rows in
  (if After (mo_cursor m') (mo_cursor m) then
     let* _ := go_try (saveBaseline (mo_key m') (mo_state m') (mo_cursor m')) in go_ret tt
   else go_ret tt) ;;;
  go_ret m'.

(** *** process *)

(** The first item with what is already queued; the inbox is left empty. *)
Definition drainInbox (first : inboxItem) (inbox : list inboxItem) : list inboxItem := first :: inbox.

Fixpoint fold_monitors (now : time) (ms : list monitor) (rows : list RawSample) : go engine (list monitor) :=
  match ms with
  | [] => go_ret []
  | m :: ms' =>
      let* m' := fold now m rows in
      let* ms'' := fold_monitors now ms' rows in
      go_ret (m' :: ms'')
  end.

(** One turn of the loop of [process]: the monitors after it and the messages
    it acknowledges. *)
Definition process_turn (now : time) (ms : list monitor) (first : inboxItem) (inbox : list inboxItem)
    : go engine (list monitor * list nat) :=
  let batch := drainInbox first inbox in
  let* ms' := fold_monitors now ms (it_sample <$> batch) in
  go_ret (ms', it_msg <$> batch).

End Worker.

(** The detectors [Argus.Start] registers. *)
Definition argus_detectors `{GoMath} : gmap string Detector :=
  <[DetectorTypeEwma := Ewma.ewma_Step Ewma.ewma_defaultConfig]> (
  <[DetectorTypeBetaB := BetaBinomial.beta_Step
      {| BetaBinomial.Threshold := fconst 1 10000; BetaBinomial.Warmup := 50 |}]> ∅).
