(* ===== verification/ArgusWorkerProps.v ===== *)
(** * Router and workers: the theorems

    Events survive their JSON form; what the router routes always has the types
    the registry's extractors and detectors expect; folding is idempotent under
    redelivery, moves cursors forward only, keeps the policy engine's
    invariant and persists exactly what it holds in memory; and a restart
    resumes from a cursor truncated to microseconds. *)

From S2P Require Import Prelude Float64 Float64Round GoTime Json ArgusTypes LeakyBucket Detectors.
From S2P Require Import ArgusDb PolicyEngine PolicyEngineFacts PolicyEngineProps ArgusWorker.
Import PolicyEngine.PolicyEngine.

Local Open Scope Z_scope.
Local Open Scope go_scope.

(** ** Events *)

#[local] Arguments dec_time : simpl never.
#[local] Arguments dec_int32 : simpl never.
#[local] Arguments enc_int : simpl never.

Lemma dec_enc_int32 old z : -2147483648 ≤ z ≤ 2147483647 → dec_int32 old (enc_int z) = Some z.
Proof.
  intros H. unfold dec_int32, dec_int, enc_int.
  destruct (Z.leb_spec (-2147483648) z), (Z.leb_spec z 2147483647); try lia. done.
Qed.

Lemma event_fields e t m :
  -2147483648 ≤ me_Port e ≤ 2147483647 → dec_time zeroTime t = Some (me_Timestamp e) →
  dec_fields event_set_field event_zero
    ([("type", JStr (me_Type e)); ("serial_id", JStr (me_SerialID e)); ("target", JStr (me_Target e))]
     ++ (if Z.eqb (me_Port e) 0 then [] else [("port", enc_int (me_Port e))])
     ++ (if String.eqb (me_Src e) "" then [] else [("src", JStr (me_Src e))])
     ++ [("timestamp", t); ("metrics", m)])
  = Some {| me_Type := me_Type e; me_SerialID := me_SerialID e; me_Target := me_Target e;
            me_Port := me_Port e; me_Src := me_Src e; me_Timestamp := me_Timestamp e;
            me_Metrics := RawDoc m |}.
Proof.
  intros Hp Ht. pose proof (dec_enc_int32 0 (me_Port e) Hp) as Hport.
  destruct (Z.eqb_spec (me_Port e) 0) as [E0|_], (String.eqb_spec (me_Src e) "") as [Es|_];
    rewrite ?E0, ?Es; simpl; unfold event_set_field; simpl; rewrite ?Hport; simpl;
    rewrite Ht; reflexivity.
Qed.

(** Every measurement event a processor can publish (a port in range, a
    metrics document) decodes at the router to itself, omitted fields and all. *)
Theorem event_roundtrip e d j :
  me_Metrics e = RawDoc d → -2147483648 ≤ me_Port e ≤ 2147483647 →
  event_to_json e = Some j → unmarshal event_from_json event_zero (RawDoc j) = Some e.
Proof.
  intros Hm Hp. unfold event_to_json. rewrite Hm.
  destruct (enc_time (me_Timestamp e)) as [t|] eqn:Et; [|done]. cbn [mbind option_bind].
  intros <-%Some_inj. unfold unmarshal, event_from_json, dec_struct.
  rewrite event_fields; [|done|by eapply dec_enc_time]. destruct e; simpl in *. by subst.
Qed.

(** ** Types *)

(** What the router enqueues has the shape the registry expects of its series. *)
Lemma routed_types e s r :
  seriesFromEvent e = Some s → decodeMetrics e = Some r →
  (s_Type s = SeriesTypePing ∧ ∃ m, r = RowPing m) ∨
  (s_Type s = SeriesTypeStamp ∧ ∃ m, r = RowStamp m) ∨
  (s_Type s = SeriesTypeTrace ∧ ∃ m, r = RowTrace m).
Proof.
  unfold seriesFromEvent, decodeMetrics.
  destruct (String.eqb (me_Type e) ProbeTypePing).
  { intros [= <-] (m & _ & ->)%fmap_Some. eauto. }
  destruct (String.eqb (me_Type e) ProbeTypeStamp).
  { intros [= <-] (m & _ & ->)%fmap_Some. eauto. }
  destruct (String.eqb (me_Type e) ProbeTypeTrace); [|done].
  intros [= <-] (m & _ & ->)%fmap_Some. eauto 6.
Qed.

(** The type assertions at the head of the detectors. *)
Definition type_error {A} (x : res A) : bool :=
  match x with
  | RErr e => String.eqb e "ewma: want float64" || String.eqb e "beta binomial: want LossSample"
  | _ => false
  end.

Lemma ewma_Step_no_type_error c st ts v : type_error (Ewma.ewma_Step c st ts (AnyFloat v)) = false.
Proof.
  simpl. destruct (Ewma.ewma_load st); [|done].
  destruct (Ewma.ewma_step c e ts v) as [st' f]. by destruct (Ewma.ewma_to_json st').
Qed.

Section Typed.
Context `{GoMath}.

Lemma beta_Step_no_type_error c st ts v : type_error (BetaBinomial.beta_Step c st ts (AnyLoss v)) = false.
Proof.
  unfold BetaBinomial.beta_Step. destruct (BetaBinomial.beta_load st) as [b|]; [|done].
  destruct (BetaBinomial.beta_step c b ts v) as [st' f]. by destruct (BetaBinomial.beta_to_json st').
Qed.

Lemma detectors_typed dt det v st ts :
  argus_detectors !! dt = Some det →
  (dt = DetectorTypeEwma → ∃ x, v = AnyFloat x) → (dt = DetectorTypeBetaB → ∃ x, v = AnyLoss x) →
  type_error (det st ts v) = false.
Proof.
  unfold argus_detectors. rewrite !lookup_insert.
  destruct (decide (DetectorTypeEwma = dt)) as [<-|_].
  { intros [= <-] [x ->] _; [done|]. apply ewma_Step_no_type_error. }
  destruct (decide (DetectorTypeBetaB = dt)) as [<-|_].
  { intros [= <-] _ [x ->]; [done|]. apply beta_Step_no_type_error. }
  by rewrite lookup_empty.
Qed.

(** C34. Along the pipeline the dynamic types always fit: whatever event the
    router accepts, every extractor the default registry has for its series
    reads the decoded row, and every registered detector it names gets the
    type it asserts, so neither the extraction errors nor the detectors' type
    errors can occur. *)
Theorem routed_samples_typed e s r ex dt det st ts :
  seriesFromEvent e = Some s → decodeMetrics e = Some r →
  ex ∈ GetExtractors CreateDefaultRegistry (s_Type s) → dt ∈ Detectors ex →
  argus_detectors !! dt = Some det →
  ∃ v, Extract ex r = ROk v ∧ type_error (det st ts v) = false.
Proof.
  intros Hs Hr Hex Hdt Hdet.
  unfold GetExtractors, CreateDefaultRegistry in Hex.
  destruct (routed_types _ _ _ Hs Hr) as [[E [m ->]]|[[E [m ->]]|[E [m ->]]]]; rewrite E in Hex.
  1: rewrite lookup_insert_ne, lookup_insert_eq in Hex by done.
  2: rewrite lookup_insert_eq in Hex.
  3: rewrite !lookup_insert_ne, lookup_insert_eq in Hex by done.
  all: cbn [from_option id] in Hex; rewrite !elem_of_cons, elem_of_nil in Hex.
  all: destruct_or! Hex; try done; subst ex; cbn in Hdt.
  all: rewrite elem_of_cons, elem_of_nil in Hdt; destruct Hdt as [->|[]].
  all: eexists; (split; [reflexivity|]); eapply detectors_typed; eauto; done.
Qed.

(** A series of traces has no monitor: no frequency detector is registered. *)
Lemma plan_trace registry s w :
  registry = CreateDefaultRegistry → s_Type s = SeriesTypeTrace →
  plan registry argus_detectors s w = (w, ROk []).
Proof. intros -> E. unfold plan, plan_pairs. rewrite E. reflexivity. Qed.

End Typed.

(** ** Folding *)

Section Fold.
Context `{UuidLib} (cfg : PolicyEngineConfig).

(** A sample already folded changes nothing and touches nothing. *)
Lemma fold_sample_old now m rs w :
  rs_TS rs ≤ mo_cursor m → fold_sample cfg now m rs w = (w, ROk m).
Proof. intros Hle. unfold fold_sample, After. destruct (Z.ltb_spec (mo_cursor m) (rs_TS rs)); [lia|done]. Qed.

Lemma fold_samples_old now m rows w :
  Forall (λ rs, rs_TS rs ≤ mo_cursor m) rows → fold_samples cfg now m rows w = (w, ROk m).
Proof.
  induction 1 as [|rs rows Hle _ IH]; [done|]. simpl.
  rewrite (go_bind_ok _ _ _ _ _ (fold_sample_old now m rs w Hle)). exact IH.
Qed.

Lemma fold_old now m rows w :
  Forall (λ rs, rs_TS rs ≤ mo_cursor m) rows → fold cfg now m rows w = (w, ROk m).
Proof.
  intros Hold. unfold fold. rewrite (go_bind_ok _ _ _ _ _ (fold_samples_old now m rows w Hold)).
  unfold After. by rewrite Z.ltb_irrefl.
Qed.

(** The monitor after a sample that neither fails to extract nor fails in the
    detector. *)
Definition accepts (m : monitor) (rs : RawSample) : option monitor :=
  match Extract (mo_extractor m) (rs_Row rs) with
  | ROk v =>
      match mo_detector m (mo_state m) (rs_TS rs) v with
      | ROk (next, _) => Some (advance m next (rs_TS rs))
      | _ => None
      end
  | _ => None
  end.

(** Walking over the batch from [m], no new sample fails. *)
Fixpoint no_failure (m : monitor) (rows : list RawSample) : bool :=
  match rows with
  | [] => true
  | rs :: rows' =>
      if After (rs_TS rs) (mo_cursor m) then
        match accepts m rs with Some m' => no_failure m' rows' | None => false end
      else no_failure m rows'
  end.

(** What one sample does to a monitor. *)
Lemma fold_sample_ok now m rs w w' m' :
  fold_sample cfg now m rs w = (w', ROk m') →
  (m' = m ∧ w' = w ∧ (rs_TS rs ≤ mo_cursor m ∨ accepts m rs = None)) ∨
  (mo_cursor m < rs_TS rs ∧ accepts m rs = Some m' ∧ ∃ next, m' = advance m next (rs_TS rs)).
Proof.
  unfold fold_sample, After. destruct (Z.ltb_spec (mo_cursor m) (rs_TS rs)) as [Hlt|Hge].
  2: { intros [= <- <-]. left. auto. }
  unfold accepts. destruct (Extract (mo_extractor m) (rs_Row rs)) as [v|e|e] eqn:Ex; [|intros [= <- <-]; by auto|done].
  destruct (mo_detector m (mo_state m) (rs_TS rs) v) as [[next f]|e|e] eqn:Ed; [|intros [= <- <-]; by auto|done].
  intros E. right. split; [done|]. assert (m' = advance m next (rs_TS rs)) as ->; [|by eauto].
  destruct f as [f|]; [|by injection E].
  unfold go_bind in E. destruct (report _ _ _ _ _) as [w1 [[]|e|e]]; [|done..]. by injection E.
Qed.

(** The monitor of a series keeps its identity. *)
Definition same_monitor (m m' : monitor) : Prop :=
  mo_key m' = mo_key m ∧ mo_extractor m' = mo_extractor m ∧ mo_detector m' = mo_detector m.

Lemma fold_samples_mono now m rows w w' m' :
  fold_samples cfg now m rows w = (w', ROk m') →
  mo_cursor m ≤ mo_cursor m' ∧ same_monitor m m' ∧
  (mo_cursor m' = mo_cursor m → m' = m ∧ w' = w).
Proof.
  revert m w. induction rows as [|rs rows IH]; intros m w; simpl.
  { intros [= <- <-]. by repeat split. }
  unfold go_bind. destruct (fold_sample cfg now m rs w) as [w1 [m1|e|e]] eqn:E1; [|done..].
  intros (Hc & (Hk & He & Hd) & Hsame)%IH.
  apply fold_sample_ok in E1 as [(-> & -> & _)|(Hlt & _ & next & ->)]; simpl in *; [done|].
  split; [lia|]. split; [done|]. lia.
Qed.

Lemma fold_samples_cover now m rows w w' m' :
  fold_samples cfg now m rows w = (w', ROk m') →
  no_failure m rows = true → Forall (λ rs, rs_TS rs ≤ mo_cursor m') rows.
Proof.
  revert m w. induction rows as [|rs rows IH]; intros m w; simpl; [done|].
  unfold go_bind. destruct (fold_sample cfg now m rs w) as [w1 [m1|e|e]] eqn:E1; [|done..].
  intros E2 Hcl. destruct (fold_samples_mono _ _ _ _ _ _ E2) as (Hc & _ & _).
  unfold After in Hcl. destruct (Z.ltb_spec (mo_cursor m) (rs_TS rs)) as [Hlt|Hge];
    apply fold_sample_ok in E1 as [(-> & _ & Hle)|(Hlt' & Ha & next & ->)]; [|rewrite Ha in Hcl| |lia].
  - destruct Hle as [?|Hn]; [lia|]. by rewrite Hn in Hcl.
  - constructor; [simpl in *; lia|]. by eapply IH.
  - constructor; [lia|]. by eapply IH.
Qed.

Lemma fold_ok now m rows w w' m' :
  fold cfg now m rows w = (w', ROk m') →
  ∃ w1, fold_samples cfg now m rows w = (w1, ROk m') ∧
    (w' = w1 ∨ (mo_cursor m < mo_cursor m' ∧
       w' = fst (saveBaseline (mo_key m') (mo_state m') (mo_cursor m') w1))).
Proof.
  unfold fold, go_bind at 1. destruct (fold_samples cfg now m rows w) as [w1 [m1|e|e]]; [|done..].
  unfold After. destruct (Z.ltb_spec (mo_cursor m) (mo_cursor m1)) as [Hlt|_].
  - unfold go_bind, go_try. destruct (saveBaseline _ _ _ w1) as [w2 [[]|e|e]] eqn:E; try done.
    all: intros [= <- <-]; exists w1; split; [done|]; right; by rewrite E.
  - intros [= <- <-]. eauto.
Qed.

(** C19. Redelivery is harmless: once a batch has been folded, samples sorted or
    not, in which no new sample failed to extract or failed in the detector (such
    a sample leaves the cursor behind and is tried again), folding the same batch
    again changes neither the monitor, nor the policy engine, nor the database,
    and makes no call. *)
Theorem fold_replay now now' m rows w w' m' w2 :
  fold cfg now m rows w = (w', ROk m') → no_failure m rows = true →
  fold cfg now' m' rows w2 = (w2, ROk m').
Proof.
  intros (w1 & E & _)%fold_ok Hcl. apply fold_old. by eapply fold_samples_cover.
Qed.

(** A fold never moves a cursor back and keeps the monitor's identity;
    when no sample was new the monitor and the world are untouched; when one
    was and the database accepts the write, the baseline row of the series
    holds the monitor's state and its cursor. *)
Theorem fold_persists now m rows w w' m' :
  fold cfg now m rows w = (w', ROk m') →
  mo_cursor m ≤ mo_cursor m' ∧ same_monitor m m' ∧
  (mo_cursor m' = mo_cursor m → m' = m ∧ w' = w) ∧
  (mo_cursor m < mo_cursor m' → ∀ w1 j, fold_samples cfg now m rows w = (w1, ROk m') →
     quiet w1 → mo_state m' = RawDoc j →
     baselines (en_db w') !! series_id_of (mo_key m) =
       Some {| bl_state := mo_state m'; bl_n := 0; bl_last_seen := timestamptz (mo_cursor m') |}).
Proof.
  intros Hf. pose proof Hf as (w1 & E & Hw)%fold_ok.
  destruct (fold_samples_mono _ _ _ _ _ _ E) as (Hc & Hid & Hsame).
  split; [done|]. split; [done|]. split.
  - intros Heq. destruct (Hsame Heq) as [-> ->]. by destruct Hw as [->|[? _]]; [|lia].
  - intros Hlt w1' j E' Hq Hst. rewrite E in E'. simplify_eq. destruct Hid as (<- & _).
    unfold fold in Hf. rewrite (go_bind_ok _ _ _ _ _ E) in Hf.
    unfold After in Hf. destruct (Z.ltb_spec (mo_cursor m) (mo_cursor m')); [|lia].
    unfold go_bind, go_try, saveBaseline, db, UpsertBaseline in Hf.
    rewrite db_call_quiet, Hst in Hf by done. unfold go_ret in Hf. injection Hf as <-. unfold en_db. simpl.
    rewrite ?Hst. apply lookup_insert_eq.
Qed.

(** ** Workers keep the engine's invariant *)

Lemma grows_UpsertBaseline k st n t : grows (UpsertBaseline k st n t).
Proof. apply db_call_grows. intros e. by destruct st. Qed.

Lemma grows_GetBaseline k : grows (GetBaseline k).
Proof. apply db_call_grows. intros e. simpl. by case_match. Qed.

Lemma InsertFinding_id sk f w w' p : InsertFinding sk f w = (w', ROk p) → ∃ u, p = pg_some u.
Proof.
  unfold InsertFinding. destruct (details_encodable (Details f)); [|done].
  unfold db, InsertFinding_q, db_call. destruct (e_faults (en_env w)) as [|[] l]; simpl; [|done|].
  all: case_decide; [done|]; destruct (findings _ !! _); [done|]; intros [= <- <-]; eauto.
Qed.

Lemma report_inv now key f : go_inv engine_inv (report cfg now key f).
Proof.
  intros w HI. unfold report, go_bind at 1, go_try at 1.
  pose proof (InsertFinding_inv key f w HI) as HI1.
  destruct (InsertFinding key f w) as [w1 [p|e|e]] eqn:E; simpl in *; [|done..].
  apply InsertFinding_id in E as [u ->].
  pose proof (ApplyFinding_inv cfg key f u now w1 HI1) as HI2. unfold go_bind, go_try.
  by destruct (ApplyFinding cfg key f (pg_some u) now w1) as [w2 [[]|e|e]].
Qed.

Lemma fold_inv now m rows : go_inv engine_inv (fold cfg now m rows).
Proof.
  unfold fold. apply go_inv_bind.
  - revert m. induction rows as [|rs rows IH]; intros m; simpl; [apply go_inv_ret|].
    apply go_inv_bind; [|intros; apply IH]. unfold fold_sample.
    repeat case_match; auto using go_inv_ret, go_inv_panic, go_inv_bind, report_inv.
  - intros m'. apply go_inv_bind; [|intros; apply go_inv_ret]. case_match; [|apply go_inv_ret].
    apply go_inv_bind; [|intros; apply go_inv_ret].
    apply go_inv_try, db_inv, grows_UpsertBaseline.
Qed.

Lemma fold_monitors_inv now ms rows : go_inv engine_inv (fold_monitors cfg now ms rows).
Proof.
  induction ms as [|m ms IH]; simpl; [apply go_inv_ret|].
  apply go_inv_bind; [apply fold_inv|]. intros m'.
  apply go_inv_bind; [apply IH|]. intros. apply go_inv_ret.
Qed.

Lemma fold_monitors_length now ms rows w w' ms' :
  fold_monitors cfg now ms rows w = (w', ROk ms') → Forall2 same_monitor ms ms'.
Proof.
  revert w ms'. induction ms as [|m ms IH]; intros w ms'; simpl; [by intros [= <- <-]|].
  unfold go_bind. destruct (fold cfg now m rows w) as [w1 [m1|e|e]] eqn:E1; [|done..].
  destruct (fold_monitors cfg now ms rows w1) as [w2 [ms1|e|e]] eqn:E2; [|done..].
  intros [= <- <-]. constructor; [|by eapply IH].
  apply fold_ok in E1 as (w0 & E0 & _). by apply fold_samples_mono in E0 as (_ & ? & _).
Qed.

(** One turn of a worker's loop, on any batch and with any statement
    failing: the policy engine's invariant holds after it; when the turn
    completes, every message of the batch and no other is acknowledged, in
    order, and the monitors are the same series' monitors. *)
Theorem process_turn_ok now ms first inbox w :
  engine_inv w →
  let '(w', r) := process_turn cfg now ms first inbox w in
  engine_inv w' ∧
  ∀ ms' acks, r = ROk (ms', acks) → acks = it_msg <$> first :: inbox ∧ Forall2 same_monitor ms ms'.
Proof.
  intros HI. unfold process_turn, drainInbox, go_bind.
  pose proof (fold_monitors_inv now ms (it_sample <$> first :: inbox) w HI) as HI'.
  destruct (fold_monitors _ _ _ _ w) as [w' [ms'|e|e]] eqn:E; simpl in *; [|done..].
  split; [done|]. intros ? ? [= <- <-]. split; [done|]. by eapply fold_monitors_length.
Qed.

(** ** Restarts *)

(** After a restart a monitor resumes from the persisted baseline with its
    cursor truncated to a microsecond: the last folded sample counts as new
    again exactly when its timestamp is not a whole number of microseconds,
    and its finding, if any, is recognised by the findings' unique index. *)
Theorem restart_refolds_last registry detectors s ex dt det b ts w :
  detectors !! dt = Some det → quiet w →
  baselines (en_db w) !! series_id_of (series_key s ex dt) = Some b →
  bl_last_seen b = timestamptz ts → plan_pairs registry s = [(ex, dt)] →
  ∃ m, plan registry detectors s w = (w, ROk [m]) ∧ mo_state m = bl_state b ∧
    mo_cursor m = timestamptz ts ∧
    (After ts (mo_cursor m) = true ↔ ts mod 1000 ≠ 0) ∧
    timestamptz (timestamptz ts) = timestamptz ts.
Proof.
  intros Hdet Hq Hb Hts Hp. unfold plan. rewrite Hp. simpl. unfold plan_one. rewrite Hdet.
  unfold go_bind, go_try, db, GetBaseline. rewrite db_call_quiet by done.
  unfold en_db, series_id_of in Hb. simpl in Hb. rewrite Hb.
  eexists. split; [by destruct w|]. simpl. rewrite Hts. split; [done|]. split; [done|].
  unfold After, timestamptz.
  pose proof (Z.mod_pos_bound ts 1000 ltac:(lia)).
  split; [rewrite Z.ltb_lt; lia|].
  assert ((ts - ts mod 1000) mod 1000 = 0) as -> by (rewrite Zminus_mod_idemp_r, Z.sub_diag; done).
  lia.
Qed.

End Fold.

(** ** Routing *)

(** The router appends a sample to the inbox of its series only, keeps
    the order of arrival, starts a worker exactly when the series is new, never
    lets an inbox exceed its capacity and drops malformed messages without
    touching a route. *)
Theorem dispatch_routes routes msg data :
  map_Forall (λ _ q, (length q ≤ inboxCapacity)%nat) routes →
  let '(routes', out) := dispatch routes msg data in
  map_Forall (λ _ q, (length q ≤ inboxCapacity)%nat) routes' ∧
  match out with
  | Terminated => routes' = routes
  | Enqueued s spawned =>
      (spawned = true ↔ routes !! s = None) ∧
      (∃ it, it_msg it = msg ∧ routes' !! s = Some (default [] (routes !! s) ++ [it])) ∧
      ∀ s', s' ≠ s → routes' !! s' = routes !! s'
  | WouldBlock s _ =>
      routes' = routes ∧ length (default [] (routes !! s)) = inboxCapacity
  end.
Proof.
  intros Hcap. unfold dispatch.
  destruct (unmarshal event_from_json event_zero data) as [e|]; [|done].
  destruct (seriesFromEvent e) as [s|]; [|done]. destruct (decodeMetrics e) as [m|]; [|done].
  assert (length (default [] (routes !! s)) ≤ inboxCapacity)%nat as Hlen.
  { destruct (routes !! s) eqn:E; simpl; [by eapply Hcap|unfold inboxCapacity; lia]. }
  destruct (Nat.ltb_spec (length (default [] (routes !! s))) inboxCapacity).
  - split; [|split; [by rewrite bool_decide_eq_true|split]].
    + apply map_Forall_insert_2; [|done]. rewrite length_app. simpl. lia.
    + eexists (Build_inboxItem _ msg). split; [done|]. by rewrite lookup_insert_eq.
    + intros s' Hs. by rewrite lookup_insert_ne.
  - assert (routes !! s = Some (default [] (routes !! s))) as Hs.
    { destruct (routes !! s) eqn:E; [done|]. simpl in *. unfold inboxCapacity in *. lia. }
    rewrite insert_id by done. split; [done|]. split; [done|lia].
Qed.

(** ** Witnesses *)

#[local] Existing Instance BinaryUuid.
#[local] Existing Instance BetaBinomial.ExampleMath.

Definition ping_event : MeasurementEvent :=
  {| me_Type := ProbeTypePing; me_SerialID := "agent-1"; me_Target := "192.0.2.1"; me_Port := 0;
     me_Src := ""; me_Timestamp := at_sec 0;
     me_Metrics := RawDoc (ping_to_json {| pm_RttP95Ns := 12000000; pm_Sent := 10; pm_Received := 9 |}) |}.

Definition ping_doc : json :=
  match event_to_json ping_event with Some j => j | None => JNull end.

Lemma event_roundtrip_witness :
  unmarshal event_from_json event_zero (RawDoc ping_doc) = Some ping_event.
Proof.
  apply (event_roundtrip ping_event
    (ping_to_json {| pm_RttP95Ns := 12000000; pm_Sent := 10; pm_Received := 9 |}));
    [reflexivity|simpl; lia|vm_compute; reflexivity].
Defined.

Definition ping_loss : Extractor :=
  default (stamp_float "" sm_Sent) (GetExtractors CreateDefaultRegistry SeriesTypePing !! 1%nat).

Definition ping_row : row := RowPing {| pm_RttP95Ns := 12000000; pm_Sent := 10; pm_Received := 9 |}.

Lemma routed_samples_typed_witness :
  ∃ v, Extract ping_loss ping_row = ROk v ∧
    type_error (BetaBinomial.beta_Step
      {| BetaBinomial.Threshold := fconst 1 10000; BetaBinomial.Warmup := 50 |} RawEmpty (at_sec 0) v) = false.
Proof.
  apply (routed_samples_typed ping_event
    (mkSeries SeriesTypePing "agent-1" "192.0.2.1" 0 "") ping_row ping_loss DetectorTypeBetaB).
  - reflexivity.
  - vm_compute. reflexivity.
  - apply (list_elem_of_lookup_2 _ 1). reflexivity.
  - apply (list_elem_of_lookup_2 _ 0). reflexivity.
  - reflexivity.
Defined.

(** A monitor whose detector counts nothing and reports nothing. *)
Definition quiet_monitor : monitor :=
  {| mo_key := sk0; mo_extractor := ping_loss; mo_detector := λ st ts v, ROk (RawDoc JNull, None);
     mo_state := RawEmpty; mo_cursor := zeroTime |}.

Definition two_samples : list RawSample :=
  [{| rs_TS := at_sec 2; rs_Row := ping_row |}; {| rs_TS := at_sec 1; rs_Row := ping_row |}].

Definition folded : engine * res monitor :=
  fold defaultPolicy 0 quiet_monitor two_samples (started env0).

Definition folded_monitor : monitor := advance quiet_monitor (RawDoc JNull) (at_sec 2).

(** The monitor a worker plans for the loss of a ping series, with the registered
    detector. *)
Definition loss_monitor : monitor :=
  {| mo_key := sk0; mo_extractor := ping_loss;
     mo_detector := default (mo_detector quiet_monitor) (argus_detectors !! DetectorTypeBetaB);
     mo_state := RawEmpty; mo_cursor := zeroTime |}.

Definition loss_folded : engine * res monitor := fold defaultPolicy 0 loss_monitor two_samples (started env0).

Definition loss_folded_monitor : monitor :=
  match snd loss_folded with ROk m => m | _ => loss_monitor end.

Lemma fold_replay_witness :
  mo_cursor loss_folded_monitor = at_sec 2 ∧
  fold defaultPolicy 7 loss_folded_monitor two_samples (fst loss_folded) = (fst loss_folded, ROk loss_folded_monitor).
Proof.
  split; [vm_compute; reflexivity|].
  assert (fold defaultPolicy 0 loss_monitor two_samples (started env0) = (fst loss_folded, ROk loss_folded_monitor)) as E.
  { unfold loss_folded_monitor, loss_folded.
    assert (match snd (fold defaultPolicy 0 loss_monitor two_samples (started env0)) with ROk _ => true | _ => false end
      = true) as Hok by (vm_compute; reflexivity).
    destruct (fold defaultPolicy 0 loss_monitor two_samples (started env0)) as [w [m|e|e]]; [reflexivity|discriminate..]. }
  apply (fold_replay defaultPolicy 0 7 loss_monitor two_samples (started env0) _ _ (fst loss_folded) E).
  vm_compute. reflexivity.
Defined.

Lemma fold_persists_witness :
  mo_cursor quiet_monitor ≤ mo_cursor folded_monitor ∧
  baselines (en_db (fst folded)) !! series_id_of sk0 =
    Some {| bl_state := RawDoc JNull; bl_n := 0; bl_last_seen := timestamptz (at_sec 2) |}.
Proof.
  destruct (fold_persists defaultPolicy 0 quiet_monitor two_samples (started env0) (fst folded)
    folded_monitor eq_refl) as (Hc & _ & _ & Hb).
  split; [exact Hc|].
  apply (Hb ltac:(vm_compute; reflexivity) (started env0) JNull); reflexivity.
Defined.

Lemma process_turn_ok_witness :
  let '(w', r) := process_turn defaultPolicy 0 [quiet_monitor]
    {| it_sample := {| rs_TS := at_sec 2; rs_Row := ping_row |}; it_msg := 7 |} [] (started env0) in
  engine_inv w'.
Proof.
  pose proof (process_turn_ok defaultPolicy 0 [quiet_monitor]
    {| it_sample := {| rs_TS := at_sec 2; rs_Row := ping_row |}; it_msg := 7 |} [] (started env0)) as HT.
  destruct (process_turn _ _ _ _ _ _) as [w' r]. apply HT. by split.
Defined.

Definition stored : engine :=
  started {| e_db := set_baselines empty_db
               (<[series_id_of sk0 := {| bl_state := RawDoc JNull; bl_n := 0;
                                         bl_last_seen := timestamptz 1500 |}]> ∅);
             e_faults := []; e_gen := N.of_nat; e_ctr := 1 |}.

Definition one_extractor : Extractor :=
  {| MetricName := "rtt_p95_ns"; Detectors := [DetectorTypeEwma]; Extract := λ _, ROk (AnyFloat fzero) |}.

Lemma restart_refolds_last_witness :
  ∃ m, plan {[SeriesTypePing := [one_extractor]]} {[DetectorTypeEwma := mo_detector quiet_monitor]}
         (mkSeries SeriesTypePing "agent-1" "192.0.2.1" 0 "") stored = (stored, ROk [m]) ∧
       mo_cursor m = 1000.
Proof.
  destruct (restart_refolds_last {[SeriesTypePing := [one_extractor]]}
    {[DetectorTypeEwma := mo_detector quiet_monitor]}
    (mkSeries SeriesTypePing "agent-1" "192.0.2.1" 0 "") one_extractor DetectorTypeEwma
    (mo_detector quiet_monitor)
    {| bl_state := RawDoc JNull; bl_n := 0; bl_last_seen := timestamptz 1500 |} 1500 stored)
    as (m & E & _ & Hc & _); [reflexivity..|].
  exists m. split; [exact E|exact Hc].
Defined.

Lemma dispatch_routes_witness :
  map_Forall (λ _ q, (length q ≤ inboxCapacity)%nat) (fst (dispatch ∅ 1 (RawDoc ping_doc))).
Proof.
  pose proof (dispatch_routes ∅ 1 (RawDoc ping_doc) (map_Forall_empty _)) as HT.
  destruct (dispatch ∅ 1 (RawDoc ping_doc)) as [routes' out]. exact (proj1 HT).
Defined.
