(* ===== verification/AlertPath.v ===== *)
(** * From a finding to a closed event (services/argus/worker.go, policy_engine.go)

    The path an alert takes through Argus on a healthy database: the worker
    reports a finding, the policy engine inserts it, folds its severity into
    the leaky bucket, opens an event and stores the firing state; later sweeps
    let the bucket leak, put the series into recovery and close the event.
    The theorem composes the worker's [report], the bucket's arithmetic, the
    engine's [ApplyFinding] with its transaction, and two calls of [Sweep]. *)

From S2P Require Import Prelude Float64 Float64Round GoTime Json ArgusTypes LeakyBucket ArgusDb.
From S2P Require Import PolicyEngine PolicyEngineFacts PolicyEngineProps ArgusWorker.
Import LeakyBucket.LeakyBucket PolicyEngine.PolicyEngine.

Local Open Scope Z_scope.
Local Open Scope go_scope.

(** ** The rising edge *)

(** A single finding at least as severe as the open threshold takes a bucket
    that was below it across. *)
Lemma severe_crosses cfg b sev ts :
  rate_ok cfg → bucket_ok b → ScoreUpdatedAt b ≤ ts → valid sev → is_nan sev = false →
  fltb (decayed cfg b ts) (OpenThreshold cfg) = true →
  fleb (OpenThreshold cfg) (fabs sev) = true →
  CrossedOpen (Add cfg b sev ts) = true.
Proof.
  intros Hr Hb Ht Hv Hn Hlow Hsev. simpl. rewrite Hlow. simpl.
  apply (fleb_trans _ (fabs sev)); [done|]. rewrite fadd_comm.
  apply fadd_mono; [by apply fabs_valid|by apply fabs_nonneg|by apply decayed_nonneg].
Qed.

Section Alert.
Context `{UuidLib} (cfg : PolicyEngineConfig).

(** The state a finding starts from: the one in memory, else the stored row,
    else a new one. *)
Definition current (w : engine) (sk : SeriesKey) (now : time) : PolicyState :=
  match states w !! sk with
  | Some st => st
  | None =>
      match policy_state (en_db w) !! series_id_of sk with
      | Some r => state_of_row r
      | None => new_state now
      end
  end.

Lemma load_current sk now w :
  quiet w →
  load_state sk now w =
    ({| states := <[sk := current w sk now]> (states w); en_env := en_env w |},
     ROk (current w sk now)).
Proof.
  intros Hq. unfold load_state, current, go_bind at 1, go_get.
  destruct (states w !! sk) as [st|] eqn:E; [rewrite insert_id by done; by destruct w|].
  unfold go_bind, go_try, db, GetPolicyState. rewrite db_call_quiet by done. unfold en_db.
  by destruct (policy_state (e_db (en_env w)) !! series_id_of sk).
Qed.

(** The identifiers of the next two rows are unused. *)
Definition fresh_ids (w : engine) : Prop :=
  findings (en_db w) !! e_gen (en_env w) (e_ctr (en_env w)) = None ∧
  events (en_db w) !! e_gen (en_env w) (S (e_ctr (en_env w))) = None.

(** No row of the findings table has the finding's series and instant. *)
Definition unreported (w : engine) (sk : SeriesKey) (f : Finding) : Prop :=
  ¬ map_Exists (λ _ r, same_finding r (finding_row sk f)) (findings (en_db w)).

Definition with_finding (w : engine) (sk : SeriesKey) (f : Finding) : engine :=
  let e := en_env w in
  {| states := states w;
     en_env := set_db (next_uuid e) (set_findings (e_db e)
       (<[e_gen e (e_ctr e) := finding_row sk f]> (findings (e_db e)))) |}.

Lemma InsertFinding_run sk f w :
  quiet w → fresh_ids w → unreported w sk f → details_encodable (Details f) = true →
  InsertFinding sk f w =
    (with_finding w sk f, ROk (pg_some (e_gen (en_env w) (e_ctr (en_env w))))).
Proof.
  intros Hq [Hf _] Hu He. unfold InsertFinding. rewrite He.
  eapply db_quiet; [done|]. rewrite decide_False by done. unfold en_db in Hf. by rewrite Hf.
Qed.

(** A state that can be saved is saved and nothing else changes. *)
Lemma save_run sk st w :
  quiet w → PendingFindings st = [] → (∀ e, OpenEventId st = Some e → is_Some (events (en_db w) !! e)) →
  savePolicyState sk st w =
    ({| states := states w;
        en_env := set_db (en_env w) (set_policy_state (en_db w)
          (<[series_id_of sk := row_of_state st []]> (policy_state (en_db w)))) |}, ROk tt).
Proof.
  intros Hq Hp He. unfold savePolicyState. rewrite Hp. simpl. unfold row_of_state.
  eapply db_quiet; [done|]. rewrite pg_col_scan. unfold en_db in *.
  destruct (OpenEventId st) as [e|]; [|done]. by rewrite bool_decide_eq_true_2 by auto.
Qed.

(** ** Opening *)

Definition pending_of (f : Finding) (i : uuid) : PendingFinding :=
  {| pf_Id := pg_String (pg_some i); pf_Finding := Some f |}.

(** The state whose event is opened, and the state after it. *)
Definition queued (st : PolicyState) (f : Finding) (i : uuid) : PolicyState :=
  with_pending st (PendingFindings st ++ [pending_of f i]).

Definition fired (st : PolicyState) (f : Finding) (u : uuid) : PolicyState :=
  with_status (with_pending (with_event st (Some u)) []) Firing (TS f).

Definition armed (st : PolicyState) : Prop := Status st = Clean ∨ Status st = Watching.

Lemma openEvent_fires sk st f i ids w :
  quiet w → fresh w → parse_pending (PendingFindings st) = Some ids → i ∈ ids →
  ∃ w' u, openEvent sk st f w = (w', ROk tt) ∧ quiet w' ∧ events (en_db w) !! u = None ∧
    states w' = <[sk := fired st f u]> (states w) ∧
    en_db w' = opened_db (en_db w) u (event_row sk st f) ids.
Proof.
  intros Hq Hf Hp Hi. destruct (openEvent_quiet sk st f ids w Hq Hf Hp) as (w' & E & Hq').
  pose proof (openEvent_cases sk st f w) as HC. rewrite E in HC.
  destruct HC as (u & ids' & Hp' & Hu & Hs & Hd). simplify_eq. eauto 10.
Qed.

Lemma transition_fires sk st f i w :
  quiet w → fresh w → state_ok (en_db w) st → armed st →
  ∃ w' u ids, transition sk st f (pg_some i) true w = (w', ROk tt) ∧ quiet w' ∧ i ∈ ids ∧
    events (en_db w) !! u = None ∧ states w' = <[sk := fired st f u]> (states w) ∧
    en_db w' = opened_db (en_db w) u (event_row sk (queued st f i) f) ids.
Proof.
  intros Hq Hf Hok Harm. unfold transition, state_ok in *.
  destruct Harm as [Es|Es]; rewrite Es in *; unfold go_bind; rewrite set_state_run.
  - destruct Hok as [Ho Hp].
    match goal with |- context [openEvent sk ?s f ?w1] =>
      destruct (openEvent_fires sk s f i [i] w1) as (w' & u & E & ? & ? & Hs & Hd) end;
      [done|done|simpl; by rewrite Parse_String|set_solver|].
    exists w', u, [i]. rewrite E. repeat split; try done; [set_solver|..].
    + rewrite Hs. simpl. by rewrite insert_insert_eq.
    + rewrite Hd. unfold queued, event_row. simpl. by rewrite Hp.
  - destruct Hok as [Ho [ids Hp]].
    match goal with |- context [openEvent sk ?s f ?w1] =>
      destruct (openEvent_fires sk s f i (ids ++ [i]) w1) as (w' & u & E & ? & ? & Hs & Hd) end;
      [done|done|simpl; eapply parse_pending_app; [done|]; simpl; by rewrite Parse_String
      |set_solver|].
    exists w', u, (ids ++ [i]). rewrite E. repeat split; try done; [set_solver|..].
    rewrite Hs. simpl. by rewrite insert_insert_eq.
Qed.

(** What a report that raises an alert leaves behind: the series fires with a
    new event, the event row is the one of the pending findings, the finding's
    own row points to it, and the policy row stores the firing state. *)
Definition alert_raised (w w' : engine) (sk : SeriesKey) (st : PolicyState) (f : Finding)
    (u : uuid) : Prop :=
  let i := e_gen (en_env w) (e_ctr (en_env w)) in
  let st' := fired (with_bucket st
               (NewState (Add (LeakyBucketCfg cfg) (Bucket st) (Severity f) (TS f)))) f u in
  states w' = <[sk := st']> (states w) ∧
  events (en_db w) !! u = None ∧
  events (en_db w') = <[u := event_row sk (queued st f i) f]> (events (en_db w)) ∧
  findings (en_db w') !! i = Some (attached u (finding_row sk f)) ∧
  policy_state (en_db w') = <[series_id_of sk := row_of_state st' []]> (policy_state (en_db w)).

Lemma ApplyFinding_fires sk f i now w :
  let st := current w sk now in
  let u0 := Add (LeakyBucketCfg cfg) (Bucket st) (Severity f) (TS f) in
  engine_inv w → quiet w → fresh w → armed st → CrossedOpen u0 = true →
  ∃ w' u ids, ApplyFinding cfg sk f (pg_some i) now w = (w', ROk tt) ∧ quiet w' ∧ i ∈ ids ∧
    events (en_db w) !! u = None ∧
    let st' := fired (with_bucket st (NewState u0)) f u in
    states w' = <[sk := st']> (states w) ∧
    en_db w' = set_policy_state (opened_db (en_db w) u (event_row sk (queued st f i) f) ids)
                 (<[series_id_of sk := row_of_state st' []]> (policy_state (en_db w))).
Proof.
  intros st u0 HI Hq Hfr Harm Hco.
  pose proof (load_current sk now w Hq) as EL. fold st in EL.
  destruct (load_state_triple sk now w HI Logic.I) as [_ Hok]. rewrite EL in Hok.
  set (w2 := {| states := <[sk := with_bucket st (NewState u0)]> (<[sk := st]> (states w));
                en_env := en_env w |}).
  destruct (transition_fires sk (with_bucket st (NewState u0)) f i w2) as
    ([S3 e3] & u & ids & ET & Hq3 & Hi & Hu & Hs3 & Hd3); [done|done|exact Hok|exact Harm|].
  unfold en_db in Hd3. simpl in Hs3, Hd3. rewrite !insert_insert_eq in Hs3.
  set (st' := fired (with_bucket st (NewState u0)) f u) in *.
  assert (is_Some (events (e_db e3) !! u)) as Hu3.
  { rewrite Hd3. simpl. rewrite lookup_insert_eq. eauto. }
  assert (S3 !! sk = Some st') as HS by (rewrite Hs3; apply lookup_insert_eq).
  eexists _, u, ids. split; [|split].
  - unfold ApplyFinding. go_step EL. fold u0. rewrite Hco.
    rewrite (go_bind_ok _ _ _ w2 tt) by done. go_step ET.
    unfold go_bind, go_get. cbn [states]. rewrite HS.
    apply (save_run sk st' {| states := S3; en_env := e3 |}); [done|done|].
    intros e [= <-]. exact Hu3.
  - exact Hq3.
  - simpl. rewrite Hs3. split; [done|]. split; [done|]. split; [done|]. unfold en_db. simpl. rewrite Hd3. done.
Qed.

Lemma report_raises sk f now w :
  let st := current w sk now in
  engine_inv w → quiet w → fresh_ids w → unreported w sk f → details_encodable (Details f) = true →
  armed st → CrossedOpen (Add (LeakyBucketCfg cfg) (Bucket st) (Severity f) (TS f)) = true →
  ∃ w' u, report cfg now sk f w = (w', ROk tt) ∧ quiet w' ∧ engine_inv w' ∧
    alert_raised w w' sk st f u.
Proof.
  intros st HI Hq Hfr Hun Henc Harm Hco.
  pose proof (InsertFinding_run sk f w Hq Hfr Hun Henc) as EI.
  set (i := e_gen (en_env w) (e_ctr (en_env w))) in EI.
  pose proof (InsertFinding_inv sk f w HI) as HI1. rewrite EI in HI1. simpl in HI1.
  destruct (ApplyFinding_fires sk f i now (with_finding w sk f)) as
    (w' & u & ids & EA & Hq' & Hi & Hu & Hs & Hd); [done|exact Hq|apply Hfr|exact Harm|exact Hco|].
  pose proof (ApplyFinding_inv cfg sk f i now _ HI1) as HI'. rewrite EA in HI'.
  exists w', u. split; [|split; [done|split; [exact HI'|]]].
  - unfold report, go_bind, go_try. by rewrite EI, EA.
  - unfold alert_raised. rewrite Hd, Hs. repeat split; [done|].
    fold i. simpl. rewrite lookup_attach_all, decide_True, lookup_insert_eq by done. done.
Qed.

(** ** Recovery and closing *)

Context (order : sweep_order).
Context (Horder : ∀ m, order m ≡ₚ (map_to_list m).*1).

(** Two sweeps of a firing series: the first after its score has leaked below
    the close threshold, the second after the quiet period. *)
Lemma sweeps_close sk st u t1 t2 w :
  engine_inv w → quiet w → states w !! sk = Some st → Status st = Firing → OpenEventId st = Some u →
  CrossedClose (Decay (LeakyBucketCfg cfg) (Bucket st) t1) = true → QuietPeriod cfg < Sub t2 t1 →
  ∃ w1 w2 st1 st2, Sweep cfg order t1 w = (w1, ROk tt) ∧ Sweep cfg order t2 w1 = (w2, ROk tt) ∧
    states w1 !! sk = Some st1 ∧ Status st1 = Recovering ∧
    states w2 !! sk = Some st2 ∧ Status st2 = Clean ∧ OpenEventId st2 = None ∧
    closed_at t2 (en_db w2) u.
Proof.
  intros HI Hq Hst Hs Hu Hcc Ht.
  destruct (Sweep_quiet cfg order t1 sk st w HI Hq Horder Hst) as (w1 & E1 & Hq1 & Hst1 & _).
  pose proof (Sweep_inv cfg order t1 w HI) as HI1. rewrite E1 in HI1.
  set (st1 := with_status (with_bucket st (NewState (Decay (LeakyBucketCfg cfg) (Bucket st) t1)))
                Recovering t1).
  assert (sweep_pure cfg t1 st = st1) as Ep1 by (unfold sweep_pure; by rewrite Hs, Hcc).
  rewrite Ep1 in Hst1.
  destruct (Sweep_quiet cfg order t2 sk st1 w1 HI1 Hq1 Horder Hst1) as (w2 & E2 & _ & Hst2 & Hc).
  exists w1, w2, st1. eexists. repeat (split; [done|]).
  assert ((QuietPeriod cfg <? Sub t2 t1) = true) as Hb by (by apply Z.ltb_lt).
  unfold sweep_pure. simpl. rewrite Hu, Hb.
  split; [done|]. split; [done|]. by apply Hc.
Qed.

(** C7. An alert end to end, under these conditions: the engine is reachable and
    the database meets no error; the finding is new, its details can be encoded
    and its severity is a number at least as large as the open threshold; the
    series is clean or watching, was last scored no later than the finding's
    time, and its score decayed to that time is below the open threshold (a
    watching series whose score is already above it does not fire, see
    [failed_commit_loses_edge]).  Then the finding is reported without an error:
    the series fires, one open event row is created for all its pending
    findings, the finding's row points to it and the stored policy row says so.
    If the series stays silent, a sweep after the score has leaked below the
    close threshold puts it in recovery, and a next one more than the quiet
    period later closes that event and makes the series clean. *)
Theorem alert_lifecycle e w sk f now t1 t2 :
  let cfg' := LeakyBucketCfg cfg in
  let st := current w sk now in
  let b := NewState (Add cfg' (Bucket st) (Severity f) (TS f)) in
  e_db e = empty_db → rtc (engine_step cfg) (started e) w → quiet w → fresh_ids w →
  unreported w sk f → details_encodable (Details f) = true →
  armed st → rate_ok cfg' → bucket_ok (Bucket st) → ScoreUpdatedAt (Bucket st) ≤ TS f →
  valid (Severity f) → is_nan (Severity f) = false →
  fltb (decayed cfg' (Bucket st) (TS f)) (OpenThreshold cfg') = true →
  fleb (OpenThreshold cfg') (fabs (Severity f)) = true →
  fleb (CloseThreshold cfg') (OpenThreshold cfg') = true →
  fltb (decayed cfg' b t1) (CloseThreshold cfg') = true → QuietPeriod cfg < Sub t2 t1 →
  ∃ w1 w2 w3 u, report cfg now sk f w = (w1, ROk tt) ∧ alert_raised w w1 sk st f u ∧
    Sweep cfg order t1 w1 = (w2, ROk tt) ∧ status_at w2 sk = Some Recovering ∧
    Sweep cfg order t2 w2 = (w3, ROk tt) ∧ status_at w3 sk = Some Clean ∧
    closed_at t2 (en_db w3) u.
Proof.
  intros cfg' st b He Hr Hq Hfr Hun Henc Harm Hrate Hb Hts Hv Hn Hlow Hsev Hle Hdec Ht.
  pose proof (severe_crosses _ _ _ _ Hrate Hb Hts Hv Hn Hlow Hsev) as Hco.
  destruct (report_raises sk f now w (reachable_inv cfg e w He Hr) Hq Hfr Hun Henc Harm Hco)
    as (w1 & u & E & Hq1 & HI1 & Hal). fold st in Hal.
  assert (fleb (CloseThreshold cfg') (Score b) = true) as Hcl.
  { apply (fleb_trans _ (OpenThreshold cfg')); [done|].
    simpl in Hco. by apply andb_true_iff in Hco as [_ ?]. }
  destruct (sweeps_close sk (fired (with_bucket st b) f u) u t1 t2 w1) as
    (w2 & w3 & st1 & st2 & E1 & E2 & H1 & Hs1 & H2 & Hs2 & _ & Hc); try done.
  { destruct Hal as (-> & _). apply lookup_insert_eq. }
  { apply andb_true_iff. by split. }
  exists w1, w2, w3, u. unfold status_at. rewrite H1, H2. simpl. rewrite Hs1, Hs2. done.
Qed.

End Alert.

#[local] Existing Instance BinaryUuid.

Lemma alert_lifecycle_witness :
  ∃ w1 w2 w3 u,
    report defaultPolicy (at_sec 0) sk0 (finding_at 0 6) (started env0) =
      (w1, ROk tt) ∧
    Sweep defaultPolicy key_order (at_sec 35) w1 = (w2, ROk tt) ∧
    status_at w2 sk0 = Some Recovering ∧
    Sweep defaultPolicy key_order (at_sec 160) w2 = (w3, ROk tt) ∧
    status_at w3 sk0 = Some Clean ∧ closed_at (at_sec 160) (en_db w3) u.
Proof.
  destruct (alert_lifecycle defaultPolicy key_order (λ m, reflexivity _) env0 (started env0) sk0
    (finding_at 0 6) (at_sec 0) (at_sec 35) (at_sec 160))
    as (w1 & w2 & w3 & u & E & _ & E1 & H1 & E2 & H2 & Hc).
  1: reflexivity. 1: apply rtc_refl. 1: reflexivity. 1: by split.
  1: intros (i & r & Hi & _); discriminate Hi.
  1: reflexivity. 1: by left. 1: by split. 1: by repeat split.
  1: discriminate.
  1-7: vm_compute; reflexivity.
  exact (ex_intro _ w1 (ex_intro _ w2 (ex_intro _ w3 (ex_intro _ u
    (conj E (conj E1 (conj H1 (conj E2 (conj H2 Hc))))))))).
Defined.
