(* ===== verification/ArgusRun.v ===== *)
(** * Running Argus (services/argus/runner.go, router.go, worker.go, policy_engine.go)

    Argus.Start runs three kinds of goroutines: the router, which fetches
    events and fills one inbox per series; a worker per series, which plans its
    monitors once and then folds what its inbox holds; and the sweeper of the
    policy engine.  Here they are one transition system.  A turn of a worker
    and a sweep are single steps; the calls inside them interleave under the
    engine's lock, which [PolicyEngineProps.engine_step] covers. *)

From S2P Require Import Prelude Float64 Float64Round GoTime Json ArgusTypes LeakyBucket Detectors.
From S2P Require Import ArgusDb PolicyEngine PolicyEngineFacts PolicyEngineProps ArgusWorker ArgusWorkerProps.
Import PolicyEngine.PolicyEngine.

Local Open Scope go_scope.

Section Argus.
Context `{UuidLib} (cfg : PolicyEngineConfig).
Context (registry : gmap string (list Extractor)) (detectors : gmap string Detector).

Definition routerFetch : nat := 10.

(** The router, walking over a fetch (an empty walk is the head of its loop). *)
Inductive router := Walking (msgs : list (nat * raw)) | RouterReturned.

(** A worker before its plan, in its loop, or returned. *)
Inductive worker := Planning | Working (ms : list monitor) | WorkerReturned.

(** [au_log] is everything fetched, a message being known by its position;
    [au_left] is what was dropped at shutdown. *)
Record argus := {
  au_done : bool;
  au_log : list raw;
  au_router : router;
  au_routes : gmap DiscoveredSeries (list inboxItem);
  au_workers : gmap DiscoveredSeries worker;
  au_sweeper : bool;
  au_engine : engine;
  au_acked : list nat;
  au_terminated : list nat;
  au_left : list nat;
  au_crashed : option string;
}.

Inductive argus_event :=
| ArgusCancel
| RouterFetch (msgs : list raw)
| RouterFetchFailed
| RouterExit
| RouterDispatch
| RouterDispatchCancelled
| WorkerPlan (s : DiscoveredSeries) (faults : list bool)
| WorkerTurn (s : DiscoveredSeries) (now : time) (faults : list bool)
| WorkerExit (s : DiscoveredSeries)
| SweepTick (order : sweep_order) (now : time) (faults : list bool)
| SweeperExit.

(** [PolicyEngine.Start] sweeps once before the loops start. *)
Definition PolicyEngine_Start (order : sweep_order) (now : time) : go engine unit :=
  Sweep cfg order now.

Definition argus_start (w : engine) : argus :=
  {| au_done := false; au_log := []; au_router := Walking []; au_routes := ∅; au_workers := ∅;
     au_sweeper := true; au_engine := w; au_acked := []; au_terminated := []; au_left := [];
     au_crashed := None |}.

(** The engine on a database whose next statements fail as given. *)
Definition engine_faults (faults : list bool) (w : engine) : engine :=
  {| states := states w;
     en_env := {| e_db := e_db (en_env w); e_faults := faults; e_gen := e_gen (en_env w); e_ctr := e_ctr (en_env w) |} |}.

Definition with_router (r : router) (routes : gmap DiscoveredSeries (list inboxItem))
    (workers : gmap DiscoveredSeries worker) (term left : list nat) (a : argus) : argus :=
  {| au_done := au_done a; au_log := au_log a; au_router := r; au_routes := routes; au_workers := workers;
     au_sweeper := au_sweeper a; au_engine := au_engine a; au_acked := au_acked a;
     au_terminated := au_terminated a ++ term; au_left := au_left a ++ left; au_crashed := None |}.

Definition with_engine (w : engine) (a : argus) : argus :=
  {| au_done := au_done a; au_log := au_log a; au_router := au_router a; au_routes := au_routes a;
     au_workers := au_workers a; au_sweeper := au_sweeper a; au_engine := w; au_acked := au_acked a;
     au_terminated := au_terminated a; au_left := au_left a; au_crashed := au_crashed a |}.

Definition with_worker (s : DiscoveredSeries) (wk : worker) (a : argus) : argus :=
  {| au_done := au_done a; au_log := au_log a; au_router := au_router a; au_routes := au_routes a;
     au_workers := <[s := wk]> (au_workers a); au_sweeper := au_sweeper a; au_engine := au_engine a;
     au_acked := au_acked a; au_terminated := au_terminated a; au_left := au_left a;
     au_crashed := au_crashed a |}.

Definition argus_crash (e : string) (a : argus) : argus :=
  {| au_done := au_done a; au_log := au_log a; au_router := au_router a; au_routes := au_routes a;
     au_workers := au_workers a; au_sweeper := au_sweeper a; au_engine := au_engine a; au_acked := au_acked a;
     au_terminated := au_terminated a; au_left := au_left a; au_crashed := Some e |}.

Definition router_fetch (msgs : list raw) (a : argus) : argus :=
  {| au_done := au_done a; au_log := au_log a ++ msgs;
     au_router := Walking (imap (λ i d, ((length (au_log a) + i)%nat, d)) msgs);
     au_routes := au_routes a; au_workers := au_workers a; au_sweeper := au_sweeper a;
     au_engine := au_engine a; au_acked := au_acked a; au_terminated := au_terminated a;
     au_left := au_left a; au_crashed := None |}.

(** The worker a new series gets. *)
Definition spawn (s : DiscoveredSeries) (spawned : bool) (ws : gmap DiscoveredSeries worker)
    : gmap DiscoveredSeries worker :=
  if spawned then <[s := Planning]> ws else ws.

(** [dispatch] of the next message; on a full inbox the router waits. *)
Definition router_dispatch (id : nat) (d : raw) (rest : list (nat * raw)) (a : argus) : option argus :=
  match dispatch (au_routes a) id d with
  | (_, Terminated) => Some (with_router (Walking rest) (au_routes a) (au_workers a) [id] [] a)
  | (routes, Enqueued s spawned) =>
      Some (with_router (Walking rest) routes (spawn s spawned (au_workers a)) [] [] a)
  | (_, WouldBlock _ _) => None
  end.

(** The same with the context done and its branch chosen: the series has its
    worker, the sample is dropped. *)
Definition router_drop (id : nat) (d : raw) (rest : list (nat * raw)) (a : argus) : option argus :=
  match dispatch (au_routes a) id d with
  | (_, Terminated) => None
  | (_, Enqueued s spawned) | (_, WouldBlock s spawned) =>
      Some (with_router (Walking rest) (<[s := default [] (au_routes a !! s)]> (au_routes a))
              (spawn s spawned (au_workers a)) [] [id] a)
  end.

Definition worker_plan (s : DiscoveredSeries) (faults : list bool) (a : argus) : argus :=
  match plan registry detectors s (engine_faults faults (au_engine a)) with
  | (w, ROk ms) => with_worker s (Working ms) (with_engine w a)
  | (w, RErr e) | (w, RPanic e) => argus_crash e (with_engine w a)
  end.

(** A turn takes everything the inbox holds. *)
Definition worker_turn (s : DiscoveredSeries) (ms : list monitor) (first : inboxItem) (inbox : list inboxItem)
    (now : time) (faults : list bool) (a : argus) : argus :=
  match process_turn cfg now ms first inbox (engine_faults faults (au_engine a)) with
  | (w, ROk (ms', acks)) =>
      let a1 := with_worker s (Working ms') (with_engine w a) in
      {| au_done := au_done a1; au_log := au_log a1; au_router := au_router a1;
         au_routes := <[s := []]> (au_routes a1); au_workers := au_workers a1; au_sweeper := au_sweeper a1;
         au_engine := au_engine a1; au_acked := au_acked a1 ++ acks; au_terminated := au_terminated a1;
         au_left := au_left a1; au_crashed := None |}
  | (w, RErr e) | (w, RPanic e) => argus_crash e (with_engine w a)
  end.

Definition sweep_tick (order : sweep_order) (now : time) (faults : list bool)
    (a : argus) : argus :=
  match Sweep cfg order now (engine_faults faults (au_engine a)) with
  | (w, RPanic e) => argus_crash e (with_engine w a)
  | (w, _) => with_engine w a
  end.

Definition argus_step (e : argus_event) (a : argus) : option argus :=
  match au_crashed a with
  | Some _ => None
  | None =>
  match e with
  | ArgusCancel =>
      if au_done a then None
      else Some {| au_done := true; au_log := au_log a; au_router := au_router a; au_routes := au_routes a;
                   au_workers := au_workers a; au_sweeper := au_sweeper a; au_engine := au_engine a;
                   au_acked := au_acked a; au_terminated := au_terminated a; au_left := au_left a;
                   au_crashed := None |}
  | RouterFetch msgs =>
      match au_router a with
      | Walking [] => if au_done a || Nat.ltb routerFetch (length msgs) then None else Some (router_fetch msgs a)
      | _ => None
      end
  | RouterFetchFailed => match au_router a with Walking [] => if au_done a then None else Some a | _ => None end
  | RouterExit =>
      match au_router a with
      | Walking [] =>
          if au_done a then Some (with_router RouterReturned (au_routes a) (au_workers a) [] [] a) else None
      | _ => None
      end
  | RouterDispatch =>
      match au_router a with Walking ((id, d) :: rest) => router_dispatch id d rest a | _ => None end
  | RouterDispatchCancelled =>
      match au_router a with
      | Walking ((id, d) :: rest) => if au_done a then router_drop id d rest a else None
      | _ => None
      end
  | WorkerPlan s faults =>
      match au_workers a !! s with Some Planning => Some (worker_plan s faults a) | _ => None end
  | WorkerTurn s now faults =>
      match au_workers a !! s, au_routes a !! s with
      | Some (Working ms), Some (first :: inbox) => Some (worker_turn s ms first inbox now faults a)
      | _, _ => None
      end
  | WorkerExit s =>
      match au_workers a !! s with
      | Some (Working _) => if au_done a then Some (with_worker s WorkerReturned a) else None
      | _ => None
      end
  | SweepTick order now faults => if au_sweeper a then Some (sweep_tick order now faults a) else None
  | SweeperExit =>
      if au_done a && au_sweeper a
      then Some {| au_done := au_done a; au_log := au_log a; au_router := au_router a; au_routes := au_routes a;
                   au_workers := au_workers a; au_sweeper := false; au_engine := au_engine a;
                   au_acked := au_acked a; au_terminated := au_terminated a; au_left := au_left a;
                   au_crashed := None |}
      else None
  end
  end.

Fixpoint argus_run (es : list argus_event) (a : argus) : option argus :=
  match es with
  | [] => Some a
  | e :: es' => a' ← argus_step e a; argus_run es' a'
  end.

(** ** The invariant *)

(** The series and the inbox item of a message, [None] when the router
    terminates it. *)
Definition sample_of (msg : nat) (data : raw) : option (DiscoveredSeries * inboxItem) :=
  event ← unmarshal event_from_json event_zero data;
  series ← seriesFromEvent event;
  metrics ← decodeMetrics event;
  Some (series, {| it_sample := {| rs_TS := me_Timestamp event; rs_Row := metrics |}; it_msg := msg |}).

Lemma dispatch_cases routes msg data :
  match sample_of msg data with
  | None => dispatch routes msg data = (routes, Terminated)
  | Some (s, item) =>
      let inbox := default [] (routes !! s) in
      let spawned := bool_decide (routes !! s = None) in
      dispatch routes msg data =
        if Nat.ltb (length inbox) inboxCapacity then (<[s := inbox ++ [item]]> routes, Enqueued s spawned)
        else (<[s := inbox]> routes, WouldBlock s spawned)
  end.
Proof.
  unfold sample_of, dispatch. destruct (unmarshal _ _ data) as [e|]; [|done]. simpl.
  destruct (seriesFromEvent e) as [s|]; [|done]. simpl. by destruct (decodeMetrics e).
Qed.

(** The messages in the inboxes. *)
Definition queued (m : gmap DiscoveredSeries (list inboxItem)) : list nat :=
  map_to_list m ≫= λ kv, it_msg <$> kv.2.

#[local] Instance queued_proper : Proper ((≡ₚ) ==> (≡ₚ)) (λ l : list (DiscoveredSeries * list inboxItem), l ≫= λ kv, it_msg <$> kv.2).
Proof. intros l l' Hl. by rewrite Hl. Qed.

Lemma queued_insert m s l : queued (<[s := l]> m) ≡ₚ (it_msg <$> l) ++ queued (delete s m).
Proof.
  unfold queued. rewrite <- insert_delete_eq.
  rewrite (map_to_list_insert (delete s m) s l) by apply lookup_delete_eq. done.
Qed.

Lemma queued_lookup m s l : m !! s = Some l → queued m ≡ₚ (it_msg <$> l) ++ queued (delete s m).
Proof. intros Hm. rewrite <- (insert_id m s l Hm) at 1. apply queued_insert. Qed.

Lemma queued_default m s : queued m ≡ₚ (it_msg <$> default [] (m !! s)) ++ queued (delete s m).
Proof.
  destruct (m !! s) as [l|] eqn:E; [by apply queued_lookup|]. simpl. by rewrite delete_id.
Qed.

Definition walking (r : router) : list (nat * raw) := match r with Walking l => l | RouterReturned => [] end.

Record argus_ok (a : argus) : Prop := {
  ao_engine : engine_inv (au_engine a);
  ao_once : seq 0 (length (au_log a)) ≡ₚ
    (walking (au_router a)).*1 ++ queued (au_routes a) ++ au_acked a ++ au_terminated a ++ au_left a;
  ao_bound : ∀ s l, au_routes a !! s = Some l → (length l ≤ inboxCapacity)%nat;
  ao_owner : dom (au_workers a) = dom (au_routes a);
  ao_data : Forall (λ x, au_log a !! x.1 = Some x.2) (walking (au_router a));
  ao_items : ∀ s l, au_routes a !! s = Some l →
    Forall (λ it, ∃ d, au_log a !! it_msg it = Some d ∧ sample_of (it_msg it) d = Some (s, it)) l;
  ao_left : au_done a = false → au_left a = [];
}.

Lemma engine_faults_inv faults w : engine_inv w → engine_inv (engine_faults faults w).
Proof. done. Qed.

Lemma argus_start_ok w : engine_inv w → argus_ok (argus_start w).
Proof.
  intros Hw. by split.
Qed.

(** Permutations of the places a message can be. *)
Ltac places := rewrite ?app_nil_r, ?fmap_app; simpl; rewrite ?app_nil_r, ?fmap_app; solve_Permutation.

Lemma router_fetch_ok msgs a : au_router a = Walking [] → argus_ok a → argus_ok (router_fetch msgs a).
Proof.
  intros Hr [H1 H2 H3 H4 H5 H6 H7]. rewrite Hr in *.
  assert ((imap (λ i d, ((length (au_log a) + i)%nat, d)) msgs).*1 =
    seq (length (au_log a)) (length msgs)) as Hi.
  { rewrite fmap_imap, <- (list_fmap_id (seq _ _)). apply (imap_seq msgs id). }
  split; simpl in *; try done.
  - rewrite Hi, length_app, seq_app, H2. simpl. solve_Permutation.
  - apply Forall_forall. intros [i d] (j & y & [= -> ->] & Hy)%elem_of_lookup_imap.
    rewrite lookup_app_r by (simpl; lia). simpl. by replace (_ + j - _)%nat with j by lia.
  - intros s l Hl. eapply Forall_impl; [by eapply H6|]. intros it (d & Hd & Hs). exists d.
    split; [by apply lookup_app_l_Some|done].
Qed.

Lemma spawn_dom s b ws (m : gmap DiscoveredSeries (list inboxItem)) l :
  dom ws = dom m → b = bool_decide (m !! s = None) → dom (spawn s b ws) = dom (<[s := l]> m).
Proof.
  intros Hd ->. unfold spawn. case_bool_decide as Hs; rewrite !dom_insert_L, Hd; [done|].
  assert (s ∈ dom m) by (apply elem_of_dom, not_eq_None_Some; done). set_solver.
Qed.

Lemma router_dispatch_ok id d rest a a' :
  au_router a = Walking ((id, d) :: rest) → router_dispatch id d rest a = Some a' → argus_ok a → argus_ok a'.
Proof.
  intros Hr Hd [H1 H2 H3 H4 H5 H6 H7]. rewrite Hr in *. simpl in H5. apply Forall_cons in H5 as [Hl H5].
  unfold router_dispatch in Hd. pose proof (dispatch_cases (au_routes a) id d) as Hc.
  destruct (sample_of id d) as [[s item]|] eqn:Es.
  2: { rewrite Hc in Hd. simplify_eq. split; simpl in *; try done; [rewrite H2; places|by rewrite app_nil_r]. }
  cbv zeta in Hc. rewrite Hc in Hd.
  destruct (Nat.ltb_spec (length (default [] (au_routes a !! s))) inboxCapacity); simplify_eq.
  split; simpl in *; try done.
  - rewrite H2, queued_insert, (queued_default (au_routes a) s).
    assert (it_msg item = id) as Hm by (unfold sample_of in Es; repeat case_match; simplify_option_eq; done).
    rewrite fmap_app. simpl. rewrite Hm. places.
  - intros s' l. rewrite lookup_insert. case_decide; [|by apply H3]. intros [= <-]. rewrite length_app. simpl. lia.
  - by apply spawn_dom.
  - intros s' l. rewrite lookup_insert. case_decide as Heq; [|by apply H6]. subst s'. intros [= <-].
    apply Forall_app. split.
    + destruct (au_routes a !! s) as [l0|] eqn:E; [by apply (H6 s)|constructor].
    + apply Forall_singleton. exists d.
      assert (it_msg item = id) as -> by (unfold sample_of in Es; repeat case_match; simplify_option_eq; done). done.
  - by rewrite app_nil_r.
Qed.

Lemma router_drop_ok id d rest a a' :
  au_router a = Walking ((id, d) :: rest) → au_done a = true → router_drop id d rest a = Some a' →
  argus_ok a → argus_ok a'.
Proof.
  intros Hr Hdn Hd [H1 H2 H3 H4 H5 H6 H7]. rewrite Hr in *. simpl in H5. apply Forall_cons in H5 as [Hl H5].
  unfold router_drop in Hd. pose proof (dispatch_cases (au_routes a) id d) as Hc.
  destruct (sample_of id d) as [[s item]|]; [|by rewrite Hc in Hd].
  cbv zeta in Hc. rewrite Hc in Hd.
  assert (Some (with_router (Walking rest) (<[s := default [] (au_routes a !! s)]> (au_routes a))
    (spawn s (bool_decide (au_routes a !! s = None)) (au_workers a)) [] [id] a) = Some a') as Hd'
    by (by destruct (Nat.ltb _ _)).
  simplify_eq. split; simpl in *; try done.
  - rewrite H2, queued_insert, (queued_default (au_routes a) s). places.
  - intros s' l. rewrite lookup_insert. case_decide; [|by apply H3]. intros [= <-]. subst s'.
    destruct (au_routes a !! s) eqn:E; [by apply (H3 s)|simpl; lia].
  - by apply spawn_dom.
  - intros s' l. rewrite lookup_insert. case_decide as Heq; [|by apply H6]. subst s'. intros [= <-].
    destruct (au_routes a !! s) as [l0|] eqn:E; [by apply (H6 s)|constructor].
  - congruence.
Qed.

Lemma plan_inv s : go_inv engine_inv (plan registry detectors s).
Proof.
  unfold plan. induction (plan_pairs registry s) as [|[ex dt] l IH]; simpl; [apply go_inv_ret|].
  apply go_inv_bind; [|intros ms; apply go_inv_bind; [exact IH|intros; apply go_inv_ret]].
  unfold plan_one. destruct (detectors !! dt); [|apply go_inv_ret].
  apply go_inv_bind; [apply go_inv_try, db_inv, grows_GetBaseline|].
  intros [e|b]; [case_match|]; apply go_inv_ret.
Qed.

(** A step that changes the engine and one existing worker. *)
Lemma with_worker_ok s wk w a :
  engine_inv w → is_Some (au_workers a !! s) → argus_ok a → argus_ok (with_worker s wk (with_engine w a)).
Proof.
  intros Hw Hs [H1 H2 H3 H4 H5 H6 H7]. split; simpl; try done.
  rewrite dom_insert_L, <- H4. apply elem_of_dom in Hs. set_solver.
Qed.

Lemma crash_ok e a : argus_ok a → argus_ok (argus_crash e a).
Proof. by intros []. Qed.

Lemma with_engine_ok w a : engine_inv w → argus_ok a → argus_ok (with_engine w a).
Proof. by intros Hw []. Qed.

Lemma worker_turn_ok s ms first inbox now faults a :
  au_workers a !! s = Some (Working ms) → au_routes a !! s = Some (first :: inbox) →
  argus_ok a → argus_ok (worker_turn s ms first inbox now faults a).
Proof.
  intros Hwk Hin Hok. unfold worker_turn, process_turn, drainInbox, go_bind.
  pose proof (fold_monitors_inv cfg now ms (it_sample <$> first :: inbox)
    (engine_faults faults (au_engine a)) (ao_engine a Hok)) as HI.
  destruct (fold_monitors _ _ _ _ _) as [w [ms'|e|e]]; [|by apply crash_ok, with_engine_ok..].
  destruct (with_worker_ok s (Working ms') w a HI ltac:(eauto) Hok) as [H1 H2 H3 H4 H5 H6 H7].
  split; simpl in *; try done.
  - rewrite H2, queued_insert, (queued_lookup _ _ _ Hin). simpl. places.
  - intros s' l. rewrite lookup_insert. case_decide; [|by apply H3]. intros [= <-]. simpl. lia.
  - rewrite H4, dom_insert_L. assert (s ∈ dom (au_routes a)) by (apply elem_of_dom; eauto). set_solver.
  - intros s' l. rewrite lookup_insert. case_decide; [|by apply H6]. by intros [= <-].
Qed.

Lemma sweep_tick_ok order now faults a : argus_ok a → argus_ok (sweep_tick order now faults a).
Proof.
  intros Hok. unfold sweep_tick.
  pose proof (Sweep_inv cfg order now (engine_faults faults (au_engine a)) (ao_engine a Hok)) as HI.
  destruct (Sweep _ _ _ _) as [w [?|e|e]]; [by apply with_engine_ok..|by apply crash_ok, with_engine_ok].
Qed.

Lemma argus_step_ok e a a' : argus_step e a = Some a' → argus_ok a → argus_ok a'.
Proof.
  intros Hs Hok. unfold argus_step in Hs. destruct (au_crashed a); [done|].
  destruct e as [|msgs| | | | |s faults|s now faults|s|order now faults|].
  - destruct (au_done a) eqn:Ed; simplify_eq. by destruct Hok; split.
  - destruct (au_router a) as [[|??]|] eqn:Er; try done. destruct (au_done a || _); simplify_eq.
    by apply router_fetch_ok.
  - destruct (au_router a) as [[|??]|] eqn:Er; try done. destruct (au_done a); by simplify_eq.
  - destruct (au_router a) as [[|??]|] eqn:Er; try done. destruct (au_done a) eqn:Ed; simplify_eq.
    destruct Hok as [H1 H2 H3 H4 H5 H6 H7]. rewrite Er in *. split; simpl in *; try done;
      rewrite ?app_nil_r; done.
  - destruct (au_router a) as [[|[id d] rest]|] eqn:Er; try done. by eapply router_dispatch_ok.
  - destruct (au_router a) as [[|[id d] rest]|] eqn:Er; try done. destruct (au_done a) eqn:Ed; [|done].
    by eapply router_drop_ok.
  - destruct (au_workers a !! s) as [[| |]|] eqn:Ew; simplify_eq. unfold worker_plan.
    pose proof (plan_inv s (engine_faults faults (au_engine a)) (ao_engine a Hok)) as HI.
    destruct (plan _ _ _ _) as [w [ms|e|e]]; [by apply with_worker_ok; eauto|by apply crash_ok, with_engine_ok..].
  - destruct (au_workers a !! s) as [[|ms|]|] eqn:Ew; try done.
    destruct (au_routes a !! s) as [[|first inbox]|] eqn:Er; simplify_eq. by apply worker_turn_ok.
  - destruct (au_workers a !! s) as [[|ms|]|] eqn:Ew; try done. destruct (au_done a); simplify_eq.
    assert (with_worker s WorkerReturned a = with_worker s WorkerReturned (with_engine (au_engine a) a)) as -> by done.
    apply with_worker_ok; [by apply ao_engine|eauto|done].
  - destruct (au_sweeper a); simplify_eq. by apply sweep_tick_ok.
  - destruct (au_done a && au_sweeper a); simplify_eq. by destruct Hok; split.
Qed.

Lemma argus_run_ok es a a' : argus_run es a = Some a' → argus_ok a → argus_ok a'.
Proof.
  revert a. induction es as [|e es IH]; intros a; simpl; [by intros [= <-]|].
  intros (a1 & Hs & Hr)%bind_Some Hok. eapply IH; [done|]. by eapply argus_step_ok.
Qed.

(** ** Theorem *)

(** C10. In every state Argus reaches, from a database the engine's invariant
    holds of, with the router, the workers and the sweeper interleaved in any
    way and any statement failing: each message fetched is in exactly one place
    (with the router, in one inbox, acknowledged, terminated, or dropped at
    shutdown, which happens only once the context is cancelled), so nothing is
    acknowledged twice; an inbox holds at most 64 samples, each decoded from a
    message of its own series, and has exactly one worker; and the policy
    engine's invariant holds. *)
Theorem argus_accounts w es a :
  engine_inv w → argus_run es (argus_start w) = Some a →
  seq 0 (length (au_log a)) ≡ₚ
    (walking (au_router a)).*1 ++ queued (au_routes a) ++ au_acked a ++ au_terminated a ++ au_left a ∧
  (au_done a = false → au_left a = []) ∧
  dom (au_workers a) = dom (au_routes a) ∧
  (∀ s l, au_routes a !! s = Some l → (length l ≤ inboxCapacity)%nat ∧
    Forall (λ it, ∃ d, au_log a !! it_msg it = Some d ∧ sample_of (it_msg it) d = Some (s, it)) l) ∧
  engine_inv (au_engine a).
Proof.
  intros Hw Hr. destruct (argus_run_ok _ _ _ Hr (argus_start_ok w Hw)) as [H1 H2 H3 H4 H5 H6 H7].
  do 3 (split; [done|]). split; [|done]. intros s l Hl. split; [by eapply H3|by apply H6].
Qed.

End Argus.

(** ** Witness: two samples of a series and a broken message *)

#[local] Existing Instance BinaryUuid.

Definition ping_series : DiscoveredSeries := mkSeries SeriesTypePing "agent-1" "192.0.2.1" 0 "".

Definition ewma_only : gmap string Detector :=
  {[ DetectorTypeEwma := Ewma.ewma_Step Ewma.ewma_defaultConfig ]}.

Definition example_argus_run : list argus_event :=
  [RouterFetch [RawDoc ping_doc; RawBad; RawDoc ping_doc]; RouterDispatch; WorkerPlan ping_series [];
   RouterDispatch; SweepTick key_order 5 []; RouterDispatch; WorkerTurn ping_series 6 [true]].

Definition argus_after : argus :=
  default (argus_start (started env0))
    (argus_run defaultPolicy CreateDefaultRegistry ewma_only example_argus_run (argus_start (started env0))).

Lemma argus_accounts_witness :
  au_acked argus_after = [0; 2]%nat ∧ au_terminated argus_after = [1%nat] ∧
  seq 0 3 ≡ₚ queued (au_routes argus_after) ++ [0; 2]%nat ++ [1%nat] ∧ engine_inv (au_engine argus_after).
Proof.
  assert (argus_run defaultPolicy CreateDefaultRegistry ewma_only example_argus_run (argus_start (started env0)) =
    Some argus_after) as E.
  { assert (match argus_run defaultPolicy CreateDefaultRegistry ewma_only example_argus_run
      (argus_start (started env0)) with Some _ => true | None => false end = true) as Hs by (vm_compute; reflexivity).
    unfold argus_after. by destruct (argus_run _ _ _ _ _). }
  assert (au_acked argus_after = [0; 2]%nat) as E1 by (vm_compute; reflexivity).
  assert (au_terminated argus_after = [1%nat]) as E2 by (vm_compute; reflexivity).
  assert (au_router argus_after = Walking []) as E3 by (vm_compute; reflexivity).
  assert (au_left argus_after = []) as E4 by (vm_compute; reflexivity).
  assert (length (au_log argus_after) = 3%nat) as E5 by (vm_compute; reflexivity).
  destruct (argus_accounts defaultPolicy CreateDefaultRegistry ewma_only (started env0) example_argus_run
    argus_after ltac:(by split) E) as (H1 & _ & _ & _ & H2).
  rewrite E1, E2, E3, E4, E5 in H1. split; [exact E1|]. split; [exact E2|]. split; [exact H1|exact H2].
Defined.
