(* ===== verification/ArgusLive.v ===== *)
(** * Fair runs of Argus settle what the router fetched

    [ArgusRun] shows where a fetched event can be; here a scheduler that is
    weakly fair to the router's next dispatch and to each worker brings it to
    its end.  An event waits for those before it in the router's walk, each of
    which may wait for a full inbox, whose worker may still have to plan; then
    it waits in its own inbox.  The rank of an event counts these waits and
    carries the turn that shortens them. *)

From S2P Require Import Prelude Float64 Float64Round GoTime Json ArgusTypes LeakyBucket Detectors.
From S2P Require Import ArgusDb PolicyEngine PolicyEngineFacts PolicyEngineProps ArgusWorker ArgusWorkerProps.
From S2P Require Import ArgusRun Fairness.
Import PolicyEngine.PolicyEngine.

Local Open Scope go_scope.
Local Open Scope nat_scope.

(** The turns an event waits for. *)
Inductive turn := DispatchTurn | PlanTurn (s : DiscoveredSeries) | WorkTurn (s : DiscoveredSeries).

Definition helps (t : turn) (e : argus_event) : bool :=
  match t, e with
  | DispatchTurn, RouterDispatch => true
  | PlanTurn s, WorkerPlan s' _ => bool_decide (s = s')
  | WorkTurn s, WorkerTurn s' _ _ => bool_decide (s = s')
  | _, _ => false
  end.

Section Live.
Context {UL : UuidLib} (cfg : PolicyEngineConfig).
Context (registry : gmap string (list Extractor)) (detectors : gmap string Detector).
Abbreviation argus_step := (argus_step cfg registry detectors).

Definition live (a : argus) : Prop := au_done a = false ∧ au_crashed a = None.

(** ** What a live service keeps

    No goroutine has returned; what was terminated does not decode and what was
    acknowledged does. *)

Definition decodes (k : nat) (a : argus) : Prop :=
  ∃ d, au_log a !! k = Some d ∧ is_Some (sample_of k d).

Definition undecodable (k : nat) (a : argus) : Prop := ∃ d, au_log a !! k = Some d ∧ sample_of k d = None.

Record live_ok (a : argus) : Prop := {
  lo_router : au_router a ≠ RouterReturned;
  lo_workers : ∀ s, au_workers a !! s ≠ Some WorkerReturned;
  lo_terminated : ∀ k, k ∈ au_terminated a → undecodable k a;
  lo_acked : ∀ k, k ∈ au_acked a → decodes k a;
}.

Lemma live_start w : live_ok (argus_start w).
Proof. split; simpl; [done|done| |]; intros k Hk; by apply elem_of_nil in Hk. Qed.

Lemma sample_msg k d s it : sample_of k d = Some (s, it) → it_msg it = k.
Proof. unfold sample_of. intros Hs. repeat case_match; simplify_option_eq; done. Qed.

(** The outcomes of a dispatch. *)
Lemma router_dispatch_cases id d rest a a' :
  router_dispatch id d rest a = Some a' →
  (sample_of id d = None ∧ a' = with_router (Walking rest) (au_routes a) (au_workers a) [id] [] a) ∨
  (∃ s it, sample_of id d = Some (s, it) ∧ length (default [] (au_routes a !! s)) < inboxCapacity ∧
    a' = with_router (Walking rest) (<[s := default [] (au_routes a !! s) ++ [it]]> (au_routes a))
           (spawn s (bool_decide (au_routes a !! s = None)) (au_workers a)) [] [] a).
Proof.
  unfold router_dispatch. pose proof (dispatch_cases (au_routes a) id d) as Hc.
  destruct (sample_of id d) as [[s it]|]; [|rewrite Hc; intros [= <-]; by left].
  cbv zeta in Hc. rewrite Hc. destruct (Nat.ltb_spec (length (default [] (au_routes a !! s))) inboxCapacity); [|done].
  intros [= <-]. right. by exists s, it.
Qed.

Lemma router_dispatch_enabled id d rest a :
  (∀ s it, sample_of id d = Some (s, it) → length (default [] (au_routes a !! s)) < inboxCapacity) →
  is_Some (router_dispatch id d rest a).
Proof.
  intros Hroom. unfold router_dispatch. pose proof (dispatch_cases (au_routes a) id d) as Hc.
  destruct (sample_of id d) as [[s it]|]; [|rewrite Hc; eauto]. cbv zeta in Hc. rewrite Hc.
  specialize (Hroom s it eq_refl).
  destruct (Nat.ltb_spec (length (default [] (au_routes a !! s))) inboxCapacity); [eauto|lia].
Qed.

(** The outcomes of a worker's two kinds of turn, when the process survives. *)
Lemma worker_plan_cases s faults a :
  au_crashed (worker_plan registry detectors s faults a) = None →
  ∃ ms w, worker_plan registry detectors s faults a = with_worker s (Working ms) (with_engine w a).
Proof. unfold worker_plan. destruct (plan _ _ _ _) as [w [ms|e|e]]; simpl; [eauto|done..]. Qed.

Lemma worker_turn_cases s ms first inbox now faults a a' :
  worker_turn cfg s ms first inbox now faults a = a' → au_crashed a' = None →
  au_done a' = au_done a ∧ au_log a' = au_log a ∧ au_router a' = au_router a ∧
  au_routes a' = <[s := []]> (au_routes a) ∧ (∃ ms', au_workers a' = <[s := Working ms']> (au_workers a)) ∧
  au_acked a' = au_acked a ++ (it_msg <$> first :: inbox) ∧ au_terminated a' = au_terminated a.
Proof.
  unfold worker_turn, process_turn, drainInbox, go_bind. intros <-.
  destruct (fold_monitors _ _ _ _ _) as [w [ms'|e|e]]; simpl; [|done..]. intros _. eauto 10.
Qed.

Lemma sweep_tick_cases order now faults a :
  au_crashed (sweep_tick cfg order now faults a) = None → ∃ w, sweep_tick cfg order now faults a = with_engine w a.
Proof. unfold sweep_tick. destruct (Sweep _ _ _ _) as [w [?|e|e]]; simpl; [eauto|eauto|done]. Qed.

(** The steps of a service that stays live. *)
Inductive live_step (a : argus) : argus_event → argus → Prop :=
| live_fetch msgs : au_router a = Walking [] → live_step a (RouterFetch msgs) (router_fetch msgs a)
| live_terminate id d rest : au_router a = Walking ((id, d) :: rest) → sample_of id d = None →
    live_step a RouterDispatch (with_router (Walking rest) (au_routes a) (au_workers a) [id] [] a)
| live_enqueue id d rest s it : au_router a = Walking ((id, d) :: rest) → sample_of id d = Some (s, it) →
    length (default [] (au_routes a !! s)) < inboxCapacity →
    live_step a RouterDispatch
      (with_router (Walking rest) (<[s := default [] (au_routes a !! s) ++ [it]]> (au_routes a))
         (spawn s (bool_decide (au_routes a !! s = None)) (au_workers a)) [] [] a)
| live_plan s faults ms w : au_workers a !! s = Some Planning →
    live_step a (WorkerPlan s faults) (with_worker s (Working ms) (with_engine w a))
| live_turn s now faults ms ms' first inbox a' : au_workers a !! s = Some (Working ms) →
    au_routes a !! s = Some (first :: inbox) → au_log a' = au_log a → au_router a' = au_router a →
    au_routes a' = <[s := []]> (au_routes a) → au_workers a' = <[s := Working ms']> (au_workers a) →
    au_acked a' = au_acked a ++ (it_msg <$> first :: inbox) → au_terminated a' = au_terminated a →
    live_step a (WorkerTurn s now faults) a'
| live_other e w : (∀ t, helps t e = false) → live_step a e (with_engine w a).

Lemma live_step_intro e a a' : argus_step e a = Some a' → live a' → live_step a e a'.
Proof.
  intros Hs [Hd Hc]. unfold ArgusRun.argus_step in Hs. destruct (au_crashed a) eqn:Ec; [done|].
  assert (a = with_engine (au_engine a) a) as Hself by (by destruct a).
  destruct e as [|msgs| | | | |s faults|s now faults|s|order now faults|].
  - destruct (au_done a); by simplify_eq/=.
  - destruct (au_router a) as [[|??]|] eqn:Er; try done. destruct (au_done a || _); simplify_eq. by constructor.
  - destruct (au_router a) as [[|??]|] eqn:Er; try done. destruct (au_done a); simplify_eq.
    rewrite Hself at 2. constructor. by intros [].
  - destruct (au_router a) as [[|??]|] eqn:Er; try done. destruct (au_done a) eqn:Ed; simplify_eq/=. congruence.
  - destruct (au_router a) as [[|[id d] rest]|] eqn:Er; try done.
    apply router_dispatch_cases in Hs as [[Hn ->]|(s & it & Hn & Hl & ->)]; by econstructor.
  - destruct (au_router a) as [[|[id d] rest]|] eqn:Er; try done. destruct (au_done a) eqn:Ed; [|done].
    unfold router_drop in Hs. case_match; simplify_eq. case_match; simplify_eq/=; congruence.
  - destruct (au_workers a !! s) as [[| |]|] eqn:Ew; simplify_eq.
    destruct (worker_plan_cases s faults a Hc) as (ms & w & ->). by constructor.
  - destruct (au_workers a !! s) as [[|ms|]|] eqn:Ew; try done.
    destruct (au_routes a !! s) as [[|first inbox]|] eqn:Er; try done. injection Hs as Hs.
    destruct (worker_turn_cases _ _ _ _ _ _ _ _ Hs Hc) as (_ & E1 & E2 & E3 & [ms' E4] & E5 & E6).
    by econstructor.
  - destruct (au_workers a !! s) as [[|ms|]|] eqn:Ew; try done. destruct (au_done a) eqn:Ed; simplify_eq/=. congruence.
  - destruct (au_sweeper a); simplify_eq. destruct (sweep_tick_cases order now faults a Hc) as [w ->].
    constructor. by intros [].
  - destruct (au_done a && au_sweeper a) eqn:Ed; simplify_eq/=. apply andb_true_iff in Ed as [Ed _]. congruence.
Qed.

Lemma log_grows a e a' : live_step a e a' → au_log a `prefix_of` au_log a'.
Proof. destruct 1 as [| | | |???????? _ _ Elog|]; simpl; [by apply prefix_app_r|done..|by rewrite Elog|done]. Qed.

Lemma undecodable_mono k a a' : au_log a `prefix_of` au_log a' → undecodable k a → undecodable k a'.
Proof. intros Hp (d & Hd & Hn). exists d. split; [by eapply prefix_lookup_Some|done]. Qed.

Lemma decodes_mono k a a' : au_log a `prefix_of` au_log a' → decodes k a → decodes k a'.
Proof. intros Hp (d & Hd & Hn). exists d. split; [by eapply prefix_lookup_Some|done]. Qed.

Lemma live_step_ok a e a' : argus_ok a → live_step a e a' → live_ok a → live_ok a'.
Proof.
  intros Hok Hst Hl. pose proof (log_grows _ _ _ Hst) as Hp. destruct Hl as [H1 H2 H3 H4].
  assert (∀ k, k ∈ au_terminated a → undecodable k a') as H3' by eauto using undecodable_mono.
  assert (∀ k, k ∈ au_acked a → decodes k a') as H4' by eauto using decodes_mono.
  destruct Hst as [msgs Er|id d rest Er Hs|id d rest s it Er Hs Hlen|s faults ms w Ew
    |s now faults ms ms' first inbox a' Ew Er Elog Ert Ero Ewk Eack Eterm|e w Hno]; try (by split).
  - pose proof (ao_data _ Hok) as Hd. rewrite Er in Hd. apply Forall_cons in Hd as [Hd _].
    split; simpl; [done|done| |done]. intros k [Hk|Hk]%elem_of_app; [by apply H3'|].
    apply list_elem_of_singleton in Hk as ->. by exists d.
  - split; simpl; [done| |by rewrite app_nil_r|done]. intros s'. unfold spawn. case_bool_decide; [|done].
    rewrite lookup_insert. by case_decide.
  - split; simpl; [done| |done|done]. intros s'. rewrite lookup_insert. by case_decide.
  - split; [congruence| |by rewrite Eterm|].
    + intros s'. rewrite Ewk, lookup_insert. by case_decide.
    + rewrite Eack. intros k [Hk|Hk]%elem_of_app; [by apply H4'|].
      apply list_elem_of_fmap in Hk as (it & -> & Hit).
      pose proof (proj1 (Forall_forall _ _) (ao_items _ Hok _ _ Er) it Hit) as (d & Hd & Hs).
      exists d. rewrite Elog. eauto.
Qed.

(** ** Ranks *)

(** What the head of the walk waits for. *)
Definition head_wait (a : argus) (id : nat) (d : raw) : nat * turn :=
  match sample_of id d with
  | None => (0, DispatchTurn)
  | Some (s, _) =>
      if Nat.ltb (length (default [] (au_routes a !! s))) inboxCapacity then (0, DispatchTurn)
      else match au_workers a !! s with
           | Some Planning => (2, PlanTurn s)
           | Some (Working _) => (1, WorkTurn s)
           | _ => (0, DispatchTurn)
           end
  end.

(** What an item of an inbox waits for. *)
Definition worker_wait (s : DiscoveredSeries) (w : option worker) : option (nat * turn) :=
  match w with
  | Some Planning => Some (1, PlanTurn s)
  | Some (Working _) => Some (0, WorkTurn s)
  | _ => None
  end.

Inductive located (k : nat) (a : argus) : nat * turn → Prop :=
| loc_walk id d rest i d' : au_router a = Walking ((id, d) :: rest) → ((id, d) :: rest) !! i = Some (k, d') →
    located k a (2 + 4 * i + (head_wait a id d).1, (head_wait a id d).2)
| loc_inbox s l it r : au_routes a !! s = Some l → it ∈ l → it_msg it = k →
    worker_wait s (au_workers a !! s) = Some r → located k a r.

Definition settled_event (k : nat) (a : argus) : Prop := k ∈ au_acked a ∨ k ∈ au_terminated a.

Lemma head_wait_bound a id d : (head_wait a id d).1 ≤ 2.
Proof. unfold head_wait. repeat case_match; simpl; lia. Qed.

(** An item of an inbox is with the worker of its series. *)
Lemma located_inbox k a s l it :
  argus_ok a → live_ok a → au_routes a !! s = Some l → it ∈ l → it_msg it = k → ∃ r, located k a r ∧ r.1 ≤ 1.
Proof.
  intros Hok Hlo Hl Hit Hk. assert (s ∈ dom (au_workers a)) as Hs by (rewrite (ao_owner _ Hok); by apply elem_of_dom).
  apply elem_of_dom in Hs as [[|ms|] Hw]; [exists (1, PlanTurn s)|exists (0, WorkTurn s)|by apply lo_workers in Hw].
  all: split; [eapply loc_inbox; [done..|by rewrite Hw]|simpl; lia].
Qed.

(** A fetched event is settled or waits somewhere. *)
Lemma event_located k a :
  argus_ok a → live_ok a → live a → k < length (au_log a) → settled_event k a ∨ ∃ r, located k a r.
Proof.
  intros Hok Hlo [Hd _] Hk. assert (k ∈ seq 0 (length (au_log a))) as Hin by (apply elem_of_seq; lia).
  rewrite (ao_once _ Hok), (ao_left _ Hok Hd), app_nil_r in Hin.
  repeat (apply elem_of_app in Hin as [Hin|Hin]); [| |by left; left|by left; right]; right.
  - apply list_elem_of_fmap in Hin as ([k' d] & -> & Hin). apply list_elem_of_lookup in Hin as (i & Hi).
    destruct (au_router a) as [[|[id d0] rest]|] eqn:Er; simpl in Hi; try done. eexists. by eapply loc_walk.
  - unfold queued in Hin. apply list_elem_of_bind in Hin as ([s l] & Hin & Hm). apply elem_of_map_to_list in Hm.
    apply list_elem_of_fmap in Hin as (it & Hk' & Hit).
    destruct (located_inbox k a s l it Hok Hlo Hm Hit (eq_sym Hk')) as (r & Hr & _). eauto.
Qed.

(** ** Progress *)

Definition closer (e : argus_event) (k : nat) (r : nat * turn) (a' : argus) : Prop :=
  settled_event k a' ∨ (∃ r', located k a' r' ∧ r'.1 < r.1) ∨ (located k a' r ∧ helps r.2 e = false).

Lemma head_wait_same a a' id d :
  (∀ s it, sample_of id d = Some (s, it) →
    au_routes a' !! s = au_routes a !! s ∧ au_workers a' !! s = au_workers a !! s) →
  head_wait a' id d = head_wait a id d.
Proof.
  intros Hs. unfold head_wait. destruct (sample_of id d) as [[s it]|]; [|done].
  by destruct (Hs s it eq_refl) as [-> ->].
Qed.

(** The walk moved on by one. *)
Lemma walk_closer e k a a' id d rest i d' :
  au_router a' = Walking rest → ((id, d) :: rest) !! S i = Some (k, d') →
  closer e k (2 + 4 * S i + (head_wait a id d).1, (head_wait a id d).2) a'.
Proof.
  simpl. intros Er Hi. destruct rest as [|[id2 d2] rest]; [done|]. right; left.
  eexists. split; [by eapply loc_walk|]. simpl. pose proof (head_wait_bound a' id2 d2). lia.
Qed.

(** Another turn leaves the head of the walk waiting, or shortens its wait. *)
Lemma wait_closer e k a a' id d rest i d' :
  au_router a' = Walking ((id, d) :: rest) → ((id, d) :: rest) !! i = Some (k, d') →
  (head_wait a' id d).1 < (head_wait a id d).1 ∨
  (head_wait a' id d = head_wait a id d ∧ helps (head_wait a id d).2 e = false) →
  closer e k (2 + 4 * i + (head_wait a id d).1, (head_wait a id d).2) a'.
Proof.
  intros Er Hi [Hlt|[Heq Hno]]; right; [left|right].
  - eexists. split; [by eapply loc_walk|]. simpl. lia.
  - split; [rewrite <- Heq; by eapply loc_walk|done].
Qed.

(** A turn of one worker does not concern the head of another series. *)
Lemma other_waits a a' s e id d :
  fst <$> sample_of id d ≠ Some s →
  (∀ s', s' ≠ s → au_routes a' !! s' = au_routes a !! s' ∧ au_workers a' !! s' = au_workers a !! s') →
  (∀ t, helps t e = true → t = PlanTurn s ∨ t = WorkTurn s) →
  head_wait a' id d = head_wait a id d ∧ helps (head_wait a id d).2 e = false.
Proof.
  intros Hne Hsame Hh. split.
  - apply head_wait_same. intros s' it Hs. apply Hsame. intros ->. by rewrite Hs in Hne.
  - destruct (helps _ e) eqn:E; [|done]. apply Hh in E. unfold head_wait in E.
    destruct (sample_of id d) as [[s' it]|]; [|by destruct E]. repeat case_match; naive_solver.
Qed.

Lemma plan_waits a s faults ms w id d :
  au_workers a !! s = Some Planning →
  let a' := with_worker s (Working ms) (with_engine w a) in
  (head_wait a' id d).1 < (head_wait a id d).1 ∨
  (head_wait a' id d = head_wait a id d ∧ helps (head_wait a id d).2 (WorkerPlan s faults) = false).
Proof.
  intros Hw a'. destruct (decide (fst <$> sample_of id d = Some s)) as [Hs|Hne].
  - unfold head_wait. destruct (sample_of id d) as [[s' it]|]; simplify_eq/=.
    rewrite lookup_insert_eq, Hw. destruct (Nat.ltb _ _); [by right|left; simpl; lia].
  - right. eapply other_waits; [done| |].
    + intros s' Hs'. simpl. by rewrite lookup_insert_ne.
    + intros [|s'|s']; simpl; [done| |done]. intros ->%bool_decide_eq_true. by left.
Qed.

Lemma turn_waits a a' s now faults ms ms' id d first inbox :
  au_workers a !! s = Some (Working ms) → au_routes a !! s = Some (first :: inbox) →
  au_routes a' = <[s := []]> (au_routes a) → au_workers a' = <[s := Working ms']> (au_workers a) →
  (head_wait a' id d).1 < (head_wait a id d).1 ∨
  (head_wait a' id d = head_wait a id d ∧ helps (head_wait a id d).2 (WorkerTurn s now faults) = false).
Proof.
  intros Hw Hr Hr' Hw'. destruct (decide (fst <$> sample_of id d = Some s)) as [Hs|Hne].
  - unfold head_wait. destruct (sample_of id d) as [[s' it]|]; simplify_eq/=.
    rewrite Hr', lookup_insert_eq, Hw. simpl. destruct (Nat.ltb _ _); [by right|left; simpl; lia].
  - right. eapply other_waits; [done| |].
    + intros s' Hs'. by rewrite Hr', Hw', !lookup_insert_ne.
    + intros [|s'|s']; simpl; [done|done|]. intros ->%bool_decide_eq_true. by right.
Qed.

(** An item whose worker did not move. *)
Lemma inbox_closer e k a a' s l l' it r :
  au_routes a' !! s = Some l' → l ⊆ l' → au_workers a' !! s = au_workers a !! s →
  it ∈ l → it_msg it = k → worker_wait s (au_workers a !! s) = Some r → helps r.2 e = false → closer e k r a'.
Proof.
  intros Hr Hsub Hw Hit Hk Hwait Hno. right; right. split; [|done].
  eapply loc_inbox; [exact Hr|by apply Hsub|done|by rewrite Hw].
Qed.

(** What helps an item is a turn of its own worker. *)
Lemma worker_wait_other s w r e :
  worker_wait s w = Some r → (∀ t, helps t e = true → t ≠ PlanTurn s ∧ t ≠ WorkTurn s) → helps r.2 e = false.
Proof.
  intros Hw He. destruct (helps r.2 e) eqn:E; [|done]. apply He in E as [E1 E2].
  destruct w as [[|ms|]|]; simplify_eq/=.
Qed.

Lemma dispatch_closer k a a' id d rest r :
  au_router a = Walking ((id, d) :: rest) → argus_ok a' → live_ok a' → live_step a RouterDispatch a' →
  located k a r → closer RouterDispatch k r a'.
Proof.
  intros Er Hok' Hlo' Hst Hl. assert (∀ s w r, worker_wait s w = Some r → helps r.2 RouterDispatch = false) as Hno.
  { intros s w r' Hw. by destruct w as [[|ms|]|]; simplify_eq/=. }
  inversion Hst as [|id1 d1 rest1 Er1 Hs|id1 d1 rest1 s it Er1 Hs Hlen| | |e w Hh]; subst.
  3: by specialize (Hh DispatchTurn).
  all: assert (id1 = id ∧ d1 = d ∧ rest1 = rest) as (-> & -> & ->) by (by simplify_eq/=; rewrite Er in Er1; simplify_eq).
  all: destruct Hl as [id' d0 rest' i d' Er' Hi|s' l it' r Hl Hit Hk Hw].
  - rewrite Er in Er'. simplify_eq. destruct i as [|i]; [|by eapply walk_closer].
    simplify_eq/=. left; right. simpl. set_solver.
  - eapply (inbox_closer _ _ a); eauto.
  - rewrite Er in Er'. simplify_eq. destruct i as [|i]; [|by eapply walk_closer].
    simplify_eq/=. right; left. eapply (located_inbox _ _ s _ it) in Hok' as (r & Hr & Hle); [|done|..].
    + exists r. split; [exact Hr|simpl; lia].
    + apply lookup_insert_eq.
    + set_solver.
    + by eapply sample_msg.
  - assert (bool_decide (au_routes a !! s = None) = true → s' ≠ s) as Hspawn
      by (intros Hb%bool_decide_eq_true ->; congruence).
    eapply (inbox_closer _ _ a _ s' l (if decide (s' = s) then l ++ [it] else l)); simpl; eauto.
    + rewrite lookup_insert. destruct (decide (s' = s)) as [->|]; [by rewrite decide_True, Hl|by rewrite decide_False].
    + case_decide; set_solver.
    + unfold spawn. destruct (bool_decide _); [|done]. by rewrite lookup_insert_ne by (symmetry; auto).
Qed.

Lemma argus_step_closer e k a a' r :
  argus_ok a' → live_ok a' → live_step a e a' → located k a r → closer e k r a'.
Proof.
  intros Hok' Hlo' Hst Hl. pose proof Hst as Hst0.
  destruct Hst as [msgs Er|id d rest Er Hs|id d rest s it Er Hs Hlen|s faults ms w Ew
    |s now faults ms ms' first inbox a' Ew Er Elog Ert Ero Ewk Eack Eterm|e w Hno];
    [|by eapply dispatch_closer|by eapply dispatch_closer|..];
    destruct Hl as [id' d0 rest' i d' Er' Hi|s' l it' r Hl Hit Hk Hw].
  - congruence.
  - eapply (inbox_closer _ _ a); eauto. eapply worker_wait_other; [exact Hw|]. by intros [].
  - eapply wait_closer; [done|done|by apply plan_waits].
  - destruct (decide (s' = s)) as [->|Hne].
    + rewrite Ew in Hw. simplify_eq/=. right; left. exists (0, WorkTurn s). split; [|simpl; lia].
      eapply loc_inbox; [done..|]. simpl. by rewrite lookup_insert_eq.
    + eapply (inbox_closer _ _ a); simpl; eauto; [by rewrite lookup_insert_ne|].
      eapply worker_wait_other; [exact Hw|]. intros [|s1|s1]; simpl; try done. intros ->%bool_decide_eq_true. naive_solver.
  - eapply wait_closer; [by rewrite Ert|done|by eapply turn_waits].
  - destruct (decide (s' = s)) as [->|Hne].
    + left; left. rewrite Eack. apply elem_of_app. right. apply list_elem_of_fmap. simplify_eq. eauto.
    + eapply (inbox_closer _ _ a); [by rewrite Ero, lookup_insert_ne|done|by rewrite Ewk, lookup_insert_ne|done..|].
      eapply worker_wait_other; [exact Hw|]. intros [|s1|s1]; simpl; try done. intros ->%bool_decide_eq_true. naive_solver.
  - right; right. split; [by eapply (loc_walk _ (with_engine w a))|apply Hno].
  - eapply (inbox_closer _ _ a); simpl; eauto.
Qed.

(** In a live service the turn an event waits for can be taken. *)
Lemma turn_enabled k a r :
  argus_ok a → live_ok a → live a → located k a r → ∃ e, helps r.2 e = true ∧ is_Some (argus_step e a).
Proof.
  intros Hok Hlo [Hd Hc] Hl.
  assert (∀ s, au_workers a !! s = Some Planning → ∃ e, helps (PlanTurn s) e = true ∧ is_Some (argus_step e a)) as Hplan.
  { intros s Hw. exists (WorkerPlan s []). split; [by apply bool_decide_eq_true|].
    unfold ArgusRun.argus_step. rewrite Hc, Hw. eauto. }
  assert (∀ s ms first inbox, au_workers a !! s = Some (Working ms) → au_routes a !! s = Some (first :: inbox) →
    ∃ e, helps (WorkTurn s) e = true ∧ is_Some (argus_step e a)) as Hwork.
  { intros s ms first inbox Hw Hr. exists (WorkerTurn s 0%Z []). split; [by apply bool_decide_eq_true|].
    unfold ArgusRun.argus_step. rewrite Hc, Hw, Hr. eauto. }
  destruct Hl as [id d rest i d' Er Hi|s l it r Hl Hit Hk Hw]; simpl.
  - assert ((∀ s it, sample_of id d = Some (s, it) → length (default [] (au_routes a !! s)) < inboxCapacity) →
      ∃ e, helps DispatchTurn e = true ∧ is_Some (argus_step e a)) as Hdisp.
    { intros Hroom. exists RouterDispatch. split; [done|]. unfold ArgusRun.argus_step. rewrite Hc, Er.
      by apply router_dispatch_enabled. }
    unfold head_wait. destruct (sample_of id d) as [[s it]|]; [|by apply Hdisp].
    destruct (Nat.ltb_spec (length (default [] (au_routes a !! s))) inboxCapacity) as [Hlt|Hge]; simpl.
    { apply Hdisp. by intros ?? [= <- <-]. }
    destruct (au_routes a !! s) as [[|first inbox]|] eqn:Hr; simpl in Hge; [unfold inboxCapacity in Hge; lia| |unfold inboxCapacity in Hge; lia].
    assert (s ∈ dom (au_workers a)) as Hs by (rewrite (ao_owner _ Hok); apply elem_of_dom; eauto).
    apply elem_of_dom in Hs as [[|ms|] Hw]; rewrite Hw; simpl; [by apply Hplan|by eapply Hwork|by apply lo_workers in Hw].
  - destruct (au_workers a !! s) as [[|ms|]|] eqn:Ew; simplify_eq/=; [by apply Hplan|].
    destruct l as [|first inbox]; [by apply elem_of_nil in Hit|]. by eapply Hwork.
Qed.

(** Nothing waits when the walk is over and the inboxes are empty. *)
Lemma idle_helpless a t e :
  au_router a = Walking [] → map_Forall (λ _ l, l = []) (au_routes a) →
  map_Forall (λ _ w, w ≠ Planning) (au_workers a) → helps t e = true → argus_step e a = None.
Proof.
  intros Hr Hl Hw Ht. unfold ArgusRun.argus_step. destruct (au_crashed a); [done|].
  destruct t as [|s|s], e; try discriminate Ht; [by rewrite Hr|..]; clear Ht.
  - destruct (au_workers a !! s0) as [w|] eqn:E; [|done]. specialize (Hw _ _ E). by destruct w.
  - destruct (au_workers a !! s0) as [[]|]; try done. destruct (au_routes a !! s0) as [l|] eqn:E; [|done].
    by rewrite (Hl _ _ E).
Qed.

(** ** Theorem *)

(** A scheduler that is fair to the router and to every worker. *)
Definition fair_argus (x : execution argus_step) : Prop := ∀ t, fair _ (helps t) x.

Lemma argus_execution_ok w (x : execution argus_step) :
  engine_inv w → ex_state _ x 0 = argus_start w → (∀ m, live (ex_state _ x m)) →
  ∀ m, argus_ok (ex_state _ x m) ∧ live_ok (ex_state _ x m).
Proof.
  intros Hw H0 Hlive m. induction m as [|m [IH1 IH2]]; [rewrite H0; split; [by apply argus_start_ok|apply live_start]|].
  pose proof (ex_step _ x m) as Hx. destruct (ex_event _ x m) as [e|]; [|by rewrite Hx].
  split; [by eapply argus_step_ok|]. eapply live_step_ok; [exact IH1|by apply live_step_intro|done].
Qed.

(** What is settled was settled the right way. *)
Lemma settled_rightly k a d :
  live_ok a → au_log a !! k = Some d → settled_event k a →
  if sample_of k d then k ∈ au_acked a else k ∈ au_terminated a.
Proof.
  intros Hlo Hd [Hk|Hk].
  - destruct (lo_acked _ Hlo k Hk) as (d' & Hd' & [x Hx]). simplify_eq. by rewrite Hx.
  - destruct (lo_terminated _ Hlo k Hk) as (d' & Hd' & Hx). simplify_eq. by rewrite Hx.
Qed.

Lemma fetched_settles w (x : execution argus_step) n k d :
  engine_inv w → ex_state _ x 0 = argus_start w → fair_argus x → (∀ m, live (ex_state _ x m)) →
  au_log (ex_state _ x n) !! k = Some d →
  ∃ m, n ≤ m ∧ if sample_of k d then k ∈ au_acked (ex_state _ x m) else k ∈ au_terminated (ex_state _ x m).
Proof.
  intros Hw H0 Hf Hlive Hd. pose proof (argus_execution_ok w x Hw H0 Hlive) as Hok.
  assert (∃ m, n ≤ m ∧ settled_event k (ex_state _ x m)) as (m & Hm & Hs).
  { destruct (event_located k (ex_state _ x n)) as [Hs|[r Hr]]; [apply Hok|apply Hok|apply Hlive| |by eauto|].
    { by eapply lookup_lt_Some. }
    apply (fair_rank_wf _ (λ r r', r.1 < r'.1) (λ r, helps r.2) (λ r a, located k a r) (settled_event k) x) with (r := r);
      [by apply well_founded_ltof|intros; apply Hf| | |done].
    - intros m q Hq. pose proof (ex_step _ x m) as Hx. destruct (ex_event _ x m) as [e|] eqn:Ee.
      + destruct (argus_step_closer e k (ex_state _ x m) (ex_state _ x (S m)) q) as [?|[?|[? Hno]]]; [apply Hok|apply Hok|by apply live_step_intro|done|by left|by auto|].
        right; right. split; [done|]. by intros e' [= <-].
      + right; right. by rewrite Hx.
    - intros m q Hq. eapply turn_enabled; [apply Hok|apply Hok|apply Hlive|done]. }
  exists m. split; [done|]. apply settled_rightly; [apply Hok| |done].
  clear Hs. induction Hm as [|m Hm IH]; [done|]. pose proof (ex_step _ x m) as Hx.
  destruct (ex_event _ x m) as [e|]; [|by rewrite Hx]. eapply prefix_lookup_Some; [exact IH|].
  eapply log_grows. by apply live_step_intro.
Qed.

(** C13. Argus settles every event.  On every infinite run from the start that is
    never cancelled and never crashes, under a scheduler weakly fair to the
    router and to each worker, every event fetched is acknowledged at some later
    instant when it decodes to a sample of a known kind, and terminated when it
    does not, however many more are fetched and whatever the sweeper does
    meanwhile.  Statements may fail, but not so that Argus crashes: a Begin that
    fails in openEvent does that ([openEvent_panics_iff]). *)
Theorem events_settle w (x : execution argus_step) n k d :
  engine_inv w → ex_state _ x 0 = argus_start w → fair_argus x → (∀ m, live (ex_state _ x m)) →
  au_log (ex_state _ x n) !! k = Some d →
  ∃ m, n ≤ m ∧ if sample_of k d then k ∈ au_acked (ex_state _ x m) else k ∈ au_terminated (ex_state _ x m).
Proof. apply fetched_settles. Qed.

End Live.

(** ** Witness: two samples of a series, a message that does not decode, and a
    sweep between them *)

#[local] Existing Instance BinaryUuid.

Abbreviation example_step := (ArgusRun.argus_step defaultPolicy CreateDefaultRegistry ewma_only).

Lemma example_run_checks : script_ok example_step example_argus_run (argus_start (started env0)) None.
Proof. split; [vm_compute; reflexivity|done]. Qed.

Definition example_execution : execution example_step := script_run _ _ _ _ example_run_checks.

#[export] Instance not_planning_dec (w : worker) : Decision (w ≠ Planning).
Proof. destruct w; [right|left|left]; congruence. Defined.

Lemma example_fair : fair_argus _ _ _ example_execution.
Proof.
  intros t. apply script_fair. left. intros e He. eapply (idle_helpless _ _ _ _ t); [| | |exact He].
  - vm_compute. reflexivity.
  - apply (bool_decide_unpack _). vm_compute. reflexivity.
  - apply (bool_decide_unpack _). vm_compute. reflexivity.
Qed.

Lemma events_settle_witness : ∃ m, 1 ≤ m ∧ 2 ∈ au_acked (ex_state _ example_execution m).
Proof.
  apply (events_settle defaultPolicy CreateDefaultRegistry ewma_only (started env0) example_execution 1 2
    (RawDoc ping_doc)).
  - by split.
  - reflexivity.
  - exact example_fair.
  - apply script_always. intros n Hn. simpl in Hn.
    do 8 (destruct n as [|n]; [split; vm_compute; reflexivity|]). lia.
  - vm_compute. reflexivity.
Defined.
