(* ===== verification/AlertRecovery.v ===== *)
(** * No alert is stuck (services/argus)

    A firing series leaves the firing state only on the falling edge
    [CrossedClose] of its score, which needs the score to be at or above
    [CloseThreshold] before it leaks.  A series that fires below that threshold
    would therefore fire forever.  This file shows that it cannot happen: the
    detectors Argus registers report only findings at least as severe as the
    threshold, so every firing state and every firing row keeps its score at or
    above it, through findings stamped in the past, failing statements, sweeps,
    crashes and restarts; and so a firing series that falls silent recovers and
    its event is closed. *)

From S2P Require Import Prelude Float64 Float64Round GoTime Float64Mag Json ArgusTypes LeakyBucket Detectors.
From S2P Require Import ArgusDb PolicyEngine PolicyEngineFacts PolicyEngineProps ArgusWorker ArgusWorkerProps.
From S2P Require Import AlertPath ArgusRun.
Import LeakyBucket.LeakyBucket PolicyEngine.PolicyEngine.

Local Open Scope Z_scope.
Local Open Scope go_scope.

(** ** Scores whatever the clock does *)

(** A rate and a close threshold that are ordinary numbers. *)
Record bucket_cfg_ok (cfg : LeakyBucketConfiguration) : Prop := {
  bc_rate : valid (DecayPerSecond cfg);
  bc_small : below 900 (DecayPerSecond cfg);
  bc_close : is_nan (CloseThreshold cfg) = false;
}.

Lemma leak_finite cfg b ts : bucket_cfg_ok cfg → is_finite (leak cfg b ts) = true.
Proof.
  intros [Hr Hs _]. apply (below_finite (900 + 37 + 1)), fmul_below; [done|apply Seconds_valid|done| |lia].
  apply Seconds_below, Sub_range.
Qed.

Lemma fsub_finite_not_nan x y : is_nan x = false → is_finite y = true → is_nan (fsub x y) = false.
Proof.
  intros Hx Hy. destruct x as [[]|[]| |[] mx ex], y as [[]|[]| |[] my ey]; try done;
    apply binary_normalize_not_nan.
Qed.

(** Time forwards or backwards, a nonnegative score stays one. *)
Lemma decayed_number cfg b ts :
  bucket_cfg_ok cfg → fnonneg (Score b) → fnonneg (decayed cfg b ts).
Proof.
  intros Hc Hb. apply fmax_zero_nonneg, fsub_finite_not_nan; [by apply fnonneg_not_nan|].
  by apply leak_finite.
Qed.

(** A finding at least as severe as [close]. *)
Definition severe (close : float64) (f : Finding) : Prop :=
  valid (Severity f) ∧ is_nan (Severity f) = false ∧ fleb close (fabs (Severity f)) = true.

(** What a component that reports findings promises to the engine. *)
Class SevereDetectors (close : float64) (detectors : gmap string Detector) : Prop :=
  severe_findings dt det st ts v st' f :
    detectors !! dt = Some det → det st ts v = ROk (st', Some f) → severe close f.

Lemma Add_severe cfg b f ts :
  bucket_cfg_ok cfg → fnonneg (Score b) → severe (CloseThreshold cfg) f →
  let b' := NewState (Add cfg b (Severity f) ts) in
  fnonneg (Score b') ∧ fleb (CloseThreshold cfg) (Score b') = true.
Proof.
  intros Hc Hb (Hv & Hn & Hs). simpl. pose proof (decayed_number cfg b ts Hc Hb) as Hd.
  pose proof (fabs_nonneg _ Hn) as Ha. split; [by apply fadd_nonneg|].
  apply (fleb_trans _ (fabs (Severity f))); [done|]. rewrite fadd_comm.
  by apply fadd_mono; [apply fabs_valid|..].
Qed.

#[export] Instance PolicyStateStatus_eq_dec : EqDecision PolicyStateStatus.
Proof. solve_decision. Defined.

(** ** The invariant *)

Section Recovery.
Context `{UuidLib} (cfg : PolicyEngineConfig).
Abbreviation bcfg := (LeakyBucketCfg cfg).
Abbreviation close := (CloseThreshold (LeakyBucketCfg cfg)).
Context (Hcfg : bucket_cfg_ok bcfg).

(** One of the four statuses; a row saved with one is read back as it. *)
Definition named (s : PolicyStateStatus) : bool :=
  match s with OtherStatus _ => false | _ => true end.

(** The score is a nonnegative number, at or above the close threshold while
    the series fires. *)
Definition firing_ok (st : PolicyState) : Prop :=
  named (Status st) = true ∧ fnonneg (Score (Bucket st)) ∧
  (Status st = Firing → fleb close (Score (Bucket st)) = true).

(** The same of the states in memory and of the rows a restart would load. *)
Definition firing_inv (w : engine) : Prop :=
  map_Forall (λ _, firing_ok) (states w) ∧
  map_Forall (λ _ r, firing_ok (state_of_row r)) (policy_state (en_db w)).

Lemma firing_started e : e_db e = empty_db → firing_inv (started e).
Proof. intros He. unfold firing_inv, started, en_db. simpl. rewrite He. split; apply map_Forall_empty. Qed.

Lemma firing_restart w : firing_inv w → firing_inv (started (en_env w)).
Proof. intros [_ Hr]. split; [apply map_Forall_empty|exact Hr]. Qed.

Lemma named_roundtrip s : named s = true → status_of_string (status_string s) = s.
Proof. by destruct s. Qed.

Lemma firing_db {A} (c : go env A) : grows c → go_inv firing_inv (db c).
Proof.
  intros Hc w [Hs Hr]. unfold db. destruct (Hc (en_env w)) as [Hp _].
  destruct (c (en_env w)) as [e r]. simpl in *. unfold firing_inv, en_db in *. simpl. by rewrite Hp.
Qed.

Lemma firing_set sk st : firing_ok st → go_inv firing_inv (set_state sk st).
Proof. intros Hst w [Hs Hr]. split; [by apply map_Forall_insert_2|exact Hr]. Qed.

Lemma firing_save sk st : firing_ok st → go_inv firing_inv (savePolicyState sk st).
Proof.
  intros Hst w HI. unfold savePolicyState. destruct (parse_pending _) as [ids|]; [|done].
  unfold db, UpsertPolicyState, db_call. destruct (e_faults (en_env w)) as [|[] l]; try done.
  all: simpl; match goal with |- context [if ?b then _ else _] => destruct b end; try done.
  all: destruct HI as [Hs Hr]; split; [exact Hs|]; apply map_Forall_insert_2; [|exact Hr].
  all: unfold firing_ok, state_of_row; simpl; by rewrite named_roundtrip by apply Hst.
Qed.

(** Saving, then reading what is in memory, keeps it. *)
Lemma firing_load sk now :
  triple firing_inv (λ _, True) (load_state sk now) (λ st _, firing_ok st).
Proof.
  unfold load_state. eapply triple_bind; [apply triple_get|]. intros w0. simpl.
  destruct (states w0 !! sk) as [st|] eqn:E.
  { apply triple_ret. intros w [Hs _] [-> _]. by apply (Hs sk). }
  assert (∀ st, firing_ok st → triple firing_inv (λ _, True) (set_state sk st ;;; go_ret st) (λ s _, firing_ok s))
    as Hset.
  { intros st Hst. eapply triple_bind; [apply triple_inv; by apply firing_set|]. intros ?. by apply triple_ret. }
  eapply triple_bind with (Q := λ r _, match r with inr row => firing_ok (state_of_row row) | inl _ => True end).
  - eapply triple_weaken with (Q' := λ r _, match r with inr row => firing_ok (state_of_row row) | inl _ => True end);
      [|done|done].
    intros w HI _. split; [exact (go_inv_try firing_inv _ (firing_db _ (grows_GetPolicyState _)) w HI)|].
    unfold go_try, db, GetPolicyState, db_call. destruct (e_faults (en_env w)) as [|[] l]; simpl; [|done|].
    all: destruct (policy_state (e_db (en_env w)) !! series_id_of sk) eqn:Er; simpl; [|done].
    all: by apply (proj2 HI (series_id_of sk)).
  - intros [err|row].
    + case_match; [|apply triple_err]. eapply triple_weaken; [by apply Hset|done|done].
    + intros w HI Hrow. by apply (Hset _ Hrow w HI).
Qed.

(** ** A severe finding *)

(** A score that allows every status. *)
Definition high (st : PolicyState) : Prop :=
  named (Status st) = true ∧ fnonneg (Score (Bucket st)) ∧ fleb close (Score (Bucket st)) = true.

Lemma high_ok st : high st → firing_ok st.
Proof. by intros (H1 & H2 & H3). Qed.

Lemma firing_openEvent sk st f : high st → go_inv firing_inv (openEvent sk st f).
Proof.
  intros Hst w HI. pose proof (openEvent_cases sk st f w) as HC. destruct HI as [Hs Hr].
  destruct (openEvent sk st f w) as [w' [a|e|e]]; simpl.
  2,3: destruct HC as [Hs' Hd']; unfold firing_inv; by rewrite Hs', Hd'.
  destruct HC as (u & ids & _ & _ & Hs' & Hd'). unfold firing_inv. rewrite Hs', Hd'.
  split; [|done]. apply map_Forall_insert_2; [|done]. by destruct Hst as (? & ? & ?).
Qed.

Lemma firing_transition sk st f fid co :
  high st → go_inv firing_inv (transition sk st f fid co).
Proof.
  intros Hst. pose proof Hst as (Hnm & Hn & Hc). unfold transition.
  assert (∀ sta t p e, named sta = true → firing_ok (with_status (with_pending (with_event st e) p) sta t)) as Hok
    by done.
  destruct (Status st) eqn:Es; [..|done].
  - apply go_inv_bind; [by apply firing_set|]. intros _.
    destruct co; [by apply firing_openEvent|apply go_inv_ret].
  - apply go_inv_bind; [apply firing_set; split; [by simpl; rewrite Es|done]|]. intros _.
    destruct co; [apply firing_openEvent; split; [by simpl; rewrite Es|done]|apply go_inv_ret].
  - destruct (OpenEventId st); [|apply go_inv_err]. apply firing_db, grows_Attach.
  - destruct (OpenEventId st); [|apply go_inv_err].
    apply go_inv_bind; [apply firing_db, grows_Attach|]. intros _. by apply firing_set.
Qed.

Lemma firing_Apply sk f fid now :
  severe close f → go_inv firing_inv (ApplyFinding cfg sk f fid now).
Proof.
  intros Hf. apply inv_triple with (Q := λ _ _, True). unfold ApplyFinding.
  eapply triple_bind; [apply firing_load|]. intros st w HI Hst.
  destruct Hst as (Hnm & Hn & _).
  pose proof (Add_severe bcfg (Bucket st) f (TS f) Hcfg Hn Hf) as Hb.
  split; [|by destruct (snd _)]. revert w HI.
  apply (go_inv_bind firing_inv); [by apply firing_set, high_ok|]. intros _.
  apply go_inv_bind; [by apply firing_transition|]. intros _.
  apply inv_triple with (Q := λ _ _, True). eapply triple_bind; [apply triple_get|]. intros w0.
  intros w HI [-> _]. split; [|by destruct (snd _)].
  destruct (states w !! sk) as [st2|] eqn:E; [|done]. apply firing_save; [|done]. by apply (proj1 HI sk).
Qed.

(** ** A sweep *)

Lemma Decay_ok st now :
  firing_ok st → let u := Decay bcfg (Bucket st) now in
  fnonneg (Score (NewState u)) ∧
  (Status st = Firing → CrossedClose u = false → fleb close (Score (NewState u)) = true).
Proof.
  intros (_ & Hn & Hf). simpl. pose proof (decayed_number bcfg (Bucket st) now Hcfg Hn) as Hd.
  split; [done|]. intros Hs Hc. rewrite (Hf Hs) in Hc. simpl in Hc.
  apply not_ltb_leb; [by apply fnonneg_not_nan|apply Hcfg|done].
Qed.

(** Storing a state in memory and in its row, as a sweep ends. *)
Lemma firing_store sk st :
  firing_ok st →
  go_inv firing_inv (set_state sk st ;;; let* _ := go_try (savePolicyState sk st) in go_ret tt).
Proof.
  intros Hst. apply go_inv_bind; [by apply firing_set|]. intros _.
  apply go_inv_bind; [by apply go_inv_try, firing_save|]. intros _. apply go_inv_ret.
Qed.

(** The switch of a series that does not fire. *)
Lemma firing_sweep_status sk st cc now :
  firing_ok st → Status st ≠ Firing →
  triple firing_inv (λ _, True) (sweep_status cfg sk st cc now) (λ st' _, firing_ok st').
Proof.
  intros (Hn & Hp & Hf) Hne. unfold sweep_status.
  assert (firing_ok st) as Hst by done.
  destruct (Status st) eqn:Es; try done; try (by apply triple_ret).
  - case_match; by apply triple_ret.
  - destruct (OpenEventId st) as [e|]; [|by apply triple_ret]. case_match; [|by apply triple_ret].
    eapply triple_bind; [apply triple_inv, firing_db, grows_Close|]. intros ?. by apply triple_ret.
Qed.

Lemma firing_sweep_one now sk : go_inv firing_inv (sweep_one cfg now sk).
Proof.
  intros w HI. unfold sweep_one, go_bind at 1, go_get.
  destruct (states w !! sk) as [st|] eqn:E; [|done].
  pose proof (proj1 HI sk st E) as Hst. simpl in Hst. destruct (Decay_ok st now Hst) as [Hn Hk].
  set (u := Decay bcfg (Bucket st) now) in *. set (st1 := with_bucket st (NewState u)).
  destruct (decide (Status st = Firing)) as [Es|Es].
  - unfold go_bind at 1. rewrite set_state_run. unfold go_bind at 1, sweep_status.
    change (Status st1) with (Status st). rewrite Es.
    set (st2 := if CrossedClose u then with_status st1 Recovering now else st1).
    assert (firing_ok st2) as Hst2.
    { subst st2. destruct Hst as (Hnm & _). destruct (CrossedClose u) eqn:Ec; [done|].
      split; [done|]. split; [done|]. intros _. by apply Hk. }
    assert ((if CrossedClose u then go_ret (with_status st1 Recovering now) else go_ret st1) =
      go_ret (S := engine) st2) as -> by (unfold st2; by destruct (CrossedClose u)).
    pose proof (firing_store sk st2 Hst2 w HI) as HT. unfold go_bind at 1 in HT. unfold go_ret at 1, go_bind at 1.
    rewrite set_state_run in HT |- *. simpl in *. by rewrite insert_insert_eq.
  - assert (firing_ok st1) as Hst1 by (destruct Hst as (Hnm & _); by repeat split).
    revert w HI E. intros w HI _. revert w HI. apply (inv_triple firing_inv _ (λ _ _, True)).
    eapply triple_bind; [apply triple_inv, firing_set; exact Hst1|]. intros ?.
    eapply triple_bind; [by apply firing_sweep_status|]. intros st2 w HI Hst2.
    split; [by apply firing_store|by destruct (snd _)].
Qed.

Lemma firing_hydrate r : firing_ok (state_of_row (nc_row r)) → go_inv firing_inv (hydrate r).
Proof.
  intros Hr w HI. unfold hydrate, go_bind, go_get.
  destruct (states w !! key_of_row r); [done|].
  destruct (ps_open_event_id (nc_row r)); [|by apply firing_set].
  destruct (uuid_Parse _); [by apply firing_set|done].
Qed.

Lemma firing_Sweep order now : go_inv firing_inv (Sweep cfg order now).
Proof.
  apply (inv_triple firing_inv _ (λ _ _, True)). unfold Sweep.
  eapply triple_bind with (Q := λ rows _, Forall (λ r, firing_ok (state_of_row (nc_row r))) rows).
  - intros w HI _. split; [exact (firing_db _ (grows_ListNonClean _) w HI)|].
    unfold db, ListNonCleanPolicyStates, db_call.
    destruct (e_faults (en_env w)) as [|[] l]; simpl; [|done|].
    all: apply Forall_forall; intros r; rewrite list_elem_of_omap.
    all: intros ([k row] & Hin & Hr); apply elem_of_rows in Hin.
    all: case_decide; simplify_eq/=; by apply (proj2 HI k).
  - intros rows w HI Hrows. split; [|by destruct (snd _)]. revert w HI.
    apply (go_inv_bind firing_inv).
    + apply go_inv_each. intros r Hr. apply firing_hydrate. by eapply Forall_forall in Hrows.
    + intros _. apply go_inv_bind; [apply go_inv_get|]. intros w0.
      apply go_inv_each. intros k _. apply firing_sweep_one.
Qed.

(** ** Workers whose detectors are severe *)

Context (registry : gmap string (list Extractor)) (detectors : gmap string Detector).
Context `{!SevereDetectors close detectors}.

Definition registered (m : monitor) : Prop := ∃ dt, detectors !! dt = Some (mo_detector m).

Lemma firing_report now key f : severe close f → go_inv firing_inv (report cfg now key f).
Proof.
  intros Hf. unfold report. apply go_inv_bind.
  - apply go_inv_try. unfold InsertFinding. case_match; [|apply go_inv_err].
    apply firing_db, grows_InsertFinding.
  - intros [e|fid]; [apply go_inv_ret|].
    apply go_inv_bind; [by apply go_inv_try, firing_Apply|]. intros _. apply go_inv_ret.
Qed.

Lemma firing_fold_sample now m rs : registered m → go_inv firing_inv (fold_sample cfg now m rs).
Proof.
  intros [dt Hdt]. unfold fold_sample. case_match; [|apply go_inv_ret].
  destruct (Extract _ _) as [v|e|e]; [|apply go_inv_ret|apply go_inv_panic].
  destruct (mo_detector m (mo_state m) (rs_TS rs) v) as [[next [f|]]|e|e] eqn:Ed;
    [|apply go_inv_ret..|apply go_inv_panic].
  apply go_inv_bind; [|intros _; apply go_inv_ret]. apply firing_report. by eapply severe_findings.
Qed.

Lemma firing_fold_samples now m rows : registered m → go_inv firing_inv (fold_samples cfg now m rows).
Proof.
  revert m. induction rows as [|rs rows IH]; intros m Hm w HI; [done|]. simpl.
  pose proof (firing_fold_sample now m rs Hm w HI) as HI1. unfold go_bind.
  destruct (fold_sample cfg now m rs w) as [w1 [m1|e|e]] eqn:E1; [|done..].
  apply IH; [|done]. by apply fold_sample_ok in E1 as [(-> & _)|(_ & _ & next & ->)].
Qed.

Lemma firing_fold now m rows : registered m → go_inv firing_inv (fold cfg now m rows).
Proof.
  intros Hm. unfold fold. apply go_inv_bind; [by apply firing_fold_samples|].
  intros m'. apply go_inv_bind; [|intros; apply go_inv_ret]. case_match; [|apply go_inv_ret].
  apply go_inv_bind; [|intros; apply go_inv_ret]. apply go_inv_try, firing_db, grows_UpsertBaseline.
Qed.

Lemma firing_fold_monitors now ms rows :
  Forall registered ms → go_inv firing_inv (fold_monitors cfg now ms rows).
Proof.
  induction 1 as [|m ms Hm _ IH]; simpl; [apply go_inv_ret|].
  apply go_inv_bind; [by apply firing_fold|]. intros m'.
  apply go_inv_bind; [apply IH|]. intros. apply go_inv_ret.
Qed.

Lemma fold_monitors_registered now ms rows w w' ms' :
  fold_monitors cfg now ms rows w = (w', ROk ms') → Forall registered ms → Forall registered ms'.
Proof.
  intros E%fold_monitors_length Hms. induction E as [|m m' ms ms' (_ & _ & Hd) _ IH]; [done|].
  apply Forall_cons in Hms as [[dt Hdt] Hms]. constructor; [|by apply IH]. exists dt. by rewrite Hd.
Qed.

Lemma firing_plan s :
  triple firing_inv (λ _, True) (plan registry detectors s) (λ ms _, Forall registered ms).
Proof.
  unfold plan. induction (plan_pairs registry s) as [|[ex dt] l IH]; simpl; [by apply triple_ret|].
  eapply triple_bind with (Q := λ ms _, Forall registered ms).
  - unfold plan_one. destruct (detectors !! dt) as [det|] eqn:Ed; [|by apply triple_ret].
    eapply triple_bind; [apply triple_inv, go_inv_try, firing_db, grows_GetBaseline|].
    intros [e|b]; [case_match; [|by apply triple_ret]|].
    all: apply triple_ret; intros; repeat constructor; by exists dt.
  - intros ms w HI Hms. revert w HI.
    assert (triple firing_inv (λ _, True)
      (let* ms' := plan_all detectors s l in go_ret (ms ++ ms')) (λ ms _, Forall registered ms)) as HT.
    { eapply triple_bind; [exact IH|]. intros ms'. apply triple_ret. intros. by apply Forall_app. }
    intros w HI. exact (HT w HI Logic.I).
Qed.

(** ** Argus running *)

Record argus_firing (a : argus) : Prop := {
  af_engine : firing_inv (au_engine a);
  af_workers : ∀ s ms, au_workers a !! s = Some (Working ms) → Forall registered ms;
}.

Lemma argus_firing_start w : firing_inv w → argus_firing (argus_start w).
Proof. intros Hw. by split. Qed.

Lemma with_engine_firing w a : firing_inv w → argus_firing a → argus_firing (with_engine w a).
Proof. by intros Hw []. Qed.

Lemma crash_firing e a : argus_firing a → argus_firing (argus_crash e a).
Proof. by intros []. Qed.

Lemma with_worker_firing s ms a :
  Forall registered ms → argus_firing a → argus_firing (with_worker s (Working ms) a).
Proof.
  intros Hms [H1 H2]. split; [done|]. intros s' ms'. simpl. rewrite lookup_insert.
  case_decide; [by intros [= <-]|apply H2].
Qed.

(** The router touches neither the engine nor a worker that plans or works. *)
Lemma router_firing r routes s b term left a :
  argus_firing a → argus_firing (with_router r routes (spawn s b (au_workers a)) term left a).
Proof.
  intros [H1 H2]. split; [done|]. intros s' ms'. unfold spawn. simpl.
  destruct b; [|apply H2]. rewrite lookup_insert. case_decide; [done|apply H2].
Qed.

Lemma argus_step_firing e a a' :
  argus_step cfg registry detectors e a = Some a' → argus_firing a → argus_firing a'.
Proof.
  intros Hs Ha. pose proof Ha as [H1 H2]. unfold argus_step in Hs. destruct (au_crashed a); [done|].
  destruct e as [|msgs| | | | |s faults|s now faults|s|order now faults|].
  - destruct (au_done a); simplify_eq. by split.
  - destruct (au_router a) as [[|??]|]; try done. destruct (au_done a || _); simplify_eq. by split.
  - destruct (au_router a) as [[|??]|]; try done. destruct (au_done a); by simplify_eq.
  - destruct (au_router a) as [[|??]|]; try done. destruct (au_done a); simplify_eq. by split.
  - destruct (au_router a) as [[|[id d] rest]|]; try done. unfold router_dispatch in Hs.
    destruct (dispatch _ _ _) as [routes [|s b|s b]]; simplify_eq; [by split|by apply router_firing].
  - destruct (au_router a) as [[|[id d] rest]|]; try done. destruct (au_done a); [|done].
    unfold router_drop in Hs. destruct (dispatch _ _ _) as [routes [|s b|s b]]; simplify_eq; by apply router_firing.
  - destruct (au_workers a !! s) as [[| |]|]; simplify_eq. unfold worker_plan.
    destruct (firing_plan s (engine_faults faults (au_engine a)) H1 Logic.I) as [HI Hms].
    destruct (plan _ _ _ _) as [w [ms|e|e]]; simpl in *.
    + by apply with_worker_firing, with_engine_firing.
    + by apply crash_firing, with_engine_firing.
    + by apply crash_firing, with_engine_firing.
  - destruct (au_workers a !! s) as [[|ms|]|] eqn:Ew; try done.
    destruct (au_routes a !! s) as [[|first inbox]|]; simplify_eq.
    unfold worker_turn, process_turn, go_bind.
    pose proof (firing_fold_monitors now ms (it_sample <$> drainInbox first inbox) (H2 _ _ Ew)
      (engine_faults faults (au_engine a)) H1) as HI.
    destruct (fold_monitors _ _ _ _ _) as [w [ms'|e|e]] eqn:Ef; simpl in HI |- *.
    + apply fold_monitors_registered in Ef; [|by eapply H2].
      by destruct (with_worker_firing s ms' (with_engine w a) Ef (with_engine_firing w a HI Ha)); split.
    + by apply crash_firing, with_engine_firing.
    + by apply crash_firing, with_engine_firing.
  - destruct (au_workers a !! s) as [[|ms|]|]; try done. destruct (au_done a); simplify_eq.
    split; [done|]. intros s' ms'. simpl. rewrite lookup_insert. case_decide; [done|apply H2].
  - destruct (au_sweeper a); simplify_eq. unfold sweep_tick.
    pose proof (firing_Sweep order now (engine_faults faults (au_engine a)) H1) as HI.
    destruct (Sweep _ _ _ _) as [w [?|e|e]]; simpl in HI; [by apply with_engine_firing..|].
    by apply crash_firing, with_engine_firing.
  - destruct (au_done a && au_sweeper a); simplify_eq. by split.
Qed.

Lemma argus_run_firing es a a' :
  argus_run cfg registry detectors es a = Some a' → argus_firing a → argus_firing a'.
Proof.
  revert a. induction es as [|e es IH]; intros a; simpl; [by intros [= <-]|].
  intros (a1 & Hs & Hr)%bind_Some Ha. eapply IH; [done|]. by eapply argus_step_firing.
Qed.

(** The engines processes of Argus start with: the first on an empty database,
    a later one on the database that the run of its predecessor left, however
    that run ended; each sweeps before it starts, and runs only if that
    succeeds. *)
Inductive argus_lives : engine → Prop :=
| lives_first e : e_db e = empty_db → argus_lives (started e)
| lives_unstarted order now w :
    argus_lives w → argus_lives (started (en_env (fst (PolicyEngine_Start cfg order now w))))
| lives_again order now w w1 es a :
    argus_lives w → PolicyEngine_Start cfg order now w = (w1, ROk tt) →
    argus_run cfg registry detectors es (argus_start w1) = Some a →
    argus_lives (started (en_env (au_engine a))).

(** The engine of an Argus that runs. *)
Definition argus_engine (w : engine) : Prop :=
  ∃ order now w0 w1 es a, argus_lives w0 ∧ PolicyEngine_Start cfg order now w0 = (w1, ROk tt) ∧
    argus_run cfg registry detectors es (argus_start w1) = Some a ∧ w = au_engine a.

Lemma started_inv w : engine_inv w → engine_inv (started (en_env w)).
Proof. intros [_ Hr]. split; [done|exact Hr]. Qed.

Lemma Start_inv order now w :
  engine_inv w ∧ firing_inv w → let w1 := fst (PolicyEngine_Start cfg order now w) in
  engine_inv w1 ∧ firing_inv w1.
Proof. intros [H1 H2]. split; [by apply Sweep_inv|by apply firing_Sweep]. Qed.

Lemma run_inv es w1 a :
  engine_inv w1 ∧ firing_inv w1 → argus_run cfg registry detectors es (argus_start w1) = Some a →
  engine_inv (au_engine a) ∧ firing_inv (au_engine a).
Proof.
  intros [H1 H2] Hr. split.
  - eapply ao_engine, argus_run_ok; [done|]. by apply argus_start_ok.
  - eapply af_engine, argus_run_firing; [done|]. by apply argus_firing_start.
Qed.

Lemma lives_inv w : argus_lives w → engine_inv w ∧ firing_inv w.
Proof.
  induction 1 as [e He|order now w _ IH|order now w w1 es a _ IH Hst Hr].
  - split; [|by apply firing_started]. unfold engine_inv, started, en_db. simpl. rewrite He. by split.
  - apply (Start_inv order now) in IH as [? ?]. split; [by apply started_inv|by apply firing_restart].
  - apply (Start_inv order now) in IH. rewrite Hst in IH. apply (run_inv es w1 a) in IH as [? ?]; [|done].
    split; [by apply started_inv|by apply firing_restart].
Qed.

Lemma engine_of_argus w : argus_engine w → engine_inv w ∧ firing_inv w.
Proof.
  intros (order & now & w0 & w1 & es & a & Hl & Hst & Hr & ->).
  pose proof (Start_inv order now w0 (lives_inv w0 Hl)) as Hi. rewrite Hst in Hi. by eapply run_inv.
Qed.

Context (order : sweep_order).
Context (Horder : ∀ m, order m ≡ₚ (map_to_list m).*1).

(** C4. No alert is stuck.  Take Argus with any detectors whose findings are
    at least as severe as the close threshold, after any number of lives of the
    process, each a run of the router, the workers and the sweeper interleaved
    in any way, with findings stamped in the past and any statement failing.
    Every series that fires then has a score at or above the close threshold
    and an event, so once it falls silent on a healthy database the first sweep
    after its score has leaked below the threshold puts it in recovery, and the
    first one after the quiet period closes that event and makes it clean. *)
Theorem firing_recovers w sk st t1 t2 :
  argus_engine w → states w !! sk = Some st → Status st = Firing →
  fleb close (Score (Bucket st)) = true ∧
  ∃ u, OpenEventId st = Some u ∧
    (quiet w → fltb (decayed bcfg (Bucket st) t1) close = true → QuietPeriod cfg < Sub t2 t1 →
     ∃ w1 w2, Sweep cfg order t1 w = (w1, ROk tt) ∧ status_at w1 sk = Some Recovering ∧
       Sweep cfg order t2 w1 = (w2, ROk tt) ∧ status_at w2 sk = Some Clean ∧ closed_at t2 (en_db w2) u).
Proof.
  intros [HI [Hf _]]%engine_of_argus Hst Hs.
  destruct (Hf sk st Hst) as (_ & _ & Hsc). specialize (Hsc Hs). split; [done|].
  pose proof (proj1 HI sk st Hst) as Hok. unfold state_ok in Hok. rewrite Hs in Hok.
  destruct Hok as [(u & Hu & _) _]. exists u. split; [done|]. intros Hq Hd Ht.
  destruct (sweeps_close cfg order Horder sk st u t1 t2 w) as
    (w1 & w2 & st1 & st2 & E1 & E2 & H1 & Hs1 & H2 & Hs2 & _ & Hc); try done.
  { apply andb_true_iff. by split. }
  exists w1, w2. unfold status_at. rewrite H1, H2. simpl. rewrite Hs1, Hs2. done.
Qed.

End Recovery.

(** ** The registered detectors *)

Lemma fleb_neg x y : fleb x y = true → fleb (fneg y) (fneg x) = true.
Proof.
  unfold fleb, fneg, SpecFloat.SFleb, SpecFloat.SFcompare, SpecFloat.SFopp.
  destruct x as [sx|sx| |sx mx ex], y as [sy|sy| |sy my ey]; try done; try (by destruct sx, sy);
    try (by destruct sx); try (by destruct sy).
  destruct sx, sy; simpl; try done; rewrite (Z.compare_antisym ex ey), (Pos_compare_cont_Eq mx my), (Pos_compare_cont_Eq my mx), (Pos.compare_antisym mx my);
    destruct (Z.compare ex ey), (Pos.compare mx my); done.
Qed.

Lemma severe_intro close f :
  valid (Severity f) → fnonneg close → fleb close (Severity f) = true → severe close f.
Proof.
  intros Hv Hc Hle. assert (fnonneg (Severity f)) as Hn by (by apply (fleb_trans _ close)).
  split; [done|]. split; [by apply fnonneg_not_nan|].
  apply fnonneg_spec in Hn. by destruct (Severity f) as [[]|[]| |[] m e].
Qed.

Lemma ewma_severe e st ts v st' f c :
  fnonneg c → fleb c (Ewma.Threshold e) = true → fleb (Ewma.Threshold e) (f64 12) = true →
  Ewma.ewma_Step e st ts v = ROk (st', Some f) → severe c f.
Proof.
  intros Hc H1 H2. unfold Ewma.ewma_Step. destruct v as [x|x|x]; try done.
  destruct (Ewma.ewma_load st) as [s|]; [|done]. unfold Ewma.ewma_step.
  destruct (Z.eqb (Ewma.N s) 0); [by case_match|].
  set (z := fdiv _ _). case_match; [|done]. intros [= _ Hf].
  destruct (Z.leb _ _ && fleb (Ewma.Threshold e) (fabs z)) eqn:Efire; [|done].
  apply andb_true_iff in Efire as [_ Ez]. injection Hf as <-. apply severe_intro; [|done|].
  - apply fmin_valid; [apply f64_valid|apply fabs_valid, fdiv_valid].
  - apply (fleb_trans _ (Ewma.Threshold e)); [done|]. by apply fmin_glb.
Qed.

Lemma beta_severe `{GoMath} b st ts v st' f :
  fleb (BetaBinomial.Threshold b) (fconst 1 10000) = true →
  BetaBinomial.beta_Step b st ts v = ROk (st', Some f) → severe (f64 3) f.
Proof.
  intros Hb. unfold BetaBinomial.beta_Step. destruct v as [x|x|x]; try done.
  destruct (BetaBinomial.beta_load st) as [s|]; [|done]. unfold BetaBinomial.beta_step.
  case_match; [|done]. intros [= _ Hf].
  destruct (Z.ltb 0 (ls_Sent x)); [|done]. set (tail := BetaBinomial.betaBinomialUpperTail _ _ _ _) in *.
  destruct (_ && _ && fleb tail _) eqn:Efire; [|done]. apply andb_true_iff in Efire as [_ Ht].
  injection Hf as <-. assert (fleb tail (fconst 1 10000) = true) as Htail by (by eapply fleb_trans).
  assert (is_nan tail = false) as Hn by (by destruct tail).
  set (y := fmax tail (fconst 1 1000000000000)).
  assert (fleb y (fconst 1 10000) = true) as Hhi.
  { subst y. by destruct (fmax_cases tail (fconst 1 1000000000000)) as [-> | ->]. }
  assert (fltb fzero y = true) as Hlo.
  { eapply fltb_leb_trans; [|by apply (fmax_ub_r tail (fconst 1 1000000000000))]. done. }
  pose proof (fleb_neg _ _ (Log10_decades y Hlo Hhi)) as Hsev. change (fneg (f64 (-3))) with (f64 3) in Hsev.
  apply severe_intro; [|done|by apply fmin_glb].
  apply fmin_valid; [apply f64_valid|]. pose proof (Log10_valid y) as Hv. by destruct (math_Log10 y).
Qed.

(** What Argus registers keeps the promise, for the threshold it configures. *)
#[export] Instance argus_detectors_severe `{GoMath} :
  SevereDetectors (CloseThreshold (LeakyBucketCfg defaultPolicy)) argus_detectors.
Proof.
  intros dt det st ts v st' f Hdt Hf. unfold argus_detectors in Hdt.
  apply lookup_insert_Some in Hdt as [[<- <-]|[_ Hdt]].
  { by eapply ewma_severe, Hf. }
  apply lookup_insert_Some in Hdt as [[<- <-]|[_ Hdt]]; [|by rewrite lookup_empty in Hdt].
  by eapply beta_severe, Hf.
Qed.

(** ** Witness: forty calm round trips, then a slow one *)

#[local] Existing Instance BinaryUuid.
#[local] Existing Instance BetaBinomial.ExampleMath.

Definition ping_sample (sec : Z) (rtt : Z) : raw :=
  let e := {| me_Type := ProbeTypePing; me_SerialID := "agent-1"; me_Target := "192.0.2.1"; me_Port := 0;
              me_Src := ""; me_Timestamp := at_sec sec;
              me_Metrics := RawDoc (ping_to_json {| pm_RttP95Ns := rtt; pm_Sent := 10; pm_Received := 10 |}) |} in
  match event_to_json e with Some j => RawDoc j | None => RawBad end.

Definition calm_samples (from : Z) : list raw := (λ i, ping_sample (from + i) 12000000) <$> seqZ 0 10.

Definition fetch_all (msgs : list raw) : list argus_event := RouterFetch msgs :: (const RouterDispatch <$> msgs).

Definition alarm_events : list argus_event :=
  fetch_all (calm_samples 0) ++ [WorkerPlan ping_series []] ++ fetch_all (calm_samples 10) ++
  fetch_all (calm_samples 20) ++ fetch_all (calm_samples 30) ++ fetch_all [ping_sample 40 22000000] ++
  [WorkerTurn ping_series (at_sec 41) []].

Definition alarm : argus :=
  default (argus_start (started env0))
    (argus_run defaultPolicy CreateDefaultRegistry argus_detectors alarm_events (argus_start (started env0))).

Definition alarm_state : PolicyState := default (new_state 0) (states (au_engine alarm) !! sk0).

Lemma defaultPolicy_bucket_ok : bucket_cfg_ok (LeakyBucketCfg defaultPolicy).
Proof. by split; [|vm_compute; discriminate|]. Qed.

Lemma firing_recovers_witness :
  status_at (au_engine alarm) sk0 = Some Firing ∧
  ∃ w1 w2, Sweep defaultPolicy key_order (at_sec 140) (au_engine alarm) = (w1, ROk tt) ∧
    status_at w1 sk0 = Some Recovering ∧
    Sweep defaultPolicy key_order (at_sec 270) w1 = (w2, ROk tt) ∧ status_at w2 sk0 = Some Clean.
Proof.
  split; [vm_compute; reflexivity|].
  assert (argus_run defaultPolicy CreateDefaultRegistry argus_detectors alarm_events (argus_start (started env0)) =
    Some alarm) as E.
  { assert (match argus_run defaultPolicy CreateDefaultRegistry argus_detectors alarm_events
      (argus_start (started env0)) with Some _ => true | None => false end = true) as Hs by (vm_compute; reflexivity).
    unfold alarm. by destruct (argus_run _ _ _ _ _). }
  destruct (firing_recovers defaultPolicy defaultPolicy_bucket_ok CreateDefaultRegistry argus_detectors key_order
    (λ m, reflexivity _) (au_engine alarm) sk0 alarm_state (at_sec 140) (at_sec 270)) as (_ & u & _ & H2).
  - exists key_order, (at_sec 0), (started env0), (started env0), alarm_events, alarm.
    split; [apply lives_first; reflexivity|]. split; [reflexivity|]. split; [exact E|reflexivity].
  - vm_compute. reflexivity.
  - vm_compute. reflexivity.
  - destruct H2 as (w1 & w2 & E1 & H1 & E2 & H2' & _); [vm_compute; reflexivity..|].
    exact (ex_intro _ w1 (ex_intro _ w2 (conj E1 (conj H1 (conj E2 H2'))))).
Defined.

(** ** Why severity matters *)

(** A finding less severe than the close threshold, on a recovering series
    whose score has leaked away, makes it fire with a score below the
    threshold: no later sweep, however late, sees a falling edge, and the
    series fires, its event open, until another finding comes. *)
Definition weakly_refired : engine := feed 100 1 (sweep_at 60 (feed 0 6 (started env0))).

Theorem weak_finding_sticks :
  status_at (sweep_at 60 (feed 0 6 (started env0))) sk0 = Some Recovering ∧
  status_at weakly_refired sk0 = Some Firing ∧
  status_at (sweep_at 1000000 (sweep_at 1000 (sweep_at 130 weakly_refired))) sk0 = Some Firing.
Proof. vm_compute. repeat split. Qed.
