(* ===== verification/Provenance.v ===== *)
(** * Where a finding comes from (services/argus)

    Every row of the findings table was made from a measurement event: it has
    the serial, the target and the port of the event's series and, at the
    resolution of the table, the event's instant.  This holds through attaching,
    rolled back transactions, failing statements and restarts, because the only
    statement that adds a finding is the worker's, for the sample it folds. *)

From S2P Require Import Prelude Float64 Float64Round GoTime Json ArgusTypes LeakyBucket Detectors.
From S2P Require Import ArgusDb PolicyEngine PolicyEngineFacts PolicyEngineProps ArgusWorker ArgusWorkerProps.
From S2P Require Import ArgusRun.
Import PolicyEngine.PolicyEngine.

Local Open Scope go_scope.

(** ** Findings tables up to attaching *)

Section Findings.
Context `{UuidLib} (cfg : PolicyEngineConfig) (Q : ArgusFinding → Prop).
Context (HQ : ∀ u r, Q r → Q (attached u r)).

Definition all_findings (w : engine) : Prop := map_Forall (λ _, Q) (findings (en_db w)).

(** A statement that adds no finding. *)
Definition quotes {A} (c : go env A) : Prop :=
  ∀ e, map_Forall (λ _, Q) (findings (e_db e)) → map_Forall (λ _, Q) (findings (e_db (fst (c e)))).

Lemma quotes_call {A} (k : go env A) : quotes k → quotes (db_call k).
Proof.
  intros Hk e He. unfold db_call. specialize (Hk (next_fault e) He). by destruct (e_faults e) as [|[] l].
Qed.

Lemma quotes_db {A} (c : go env A) : quotes c → go_inv all_findings (db c).
Proof. intros Hc w Hw. unfold db. specialize (Hc (en_env w) Hw). by destruct (c (en_env w)). Qed.

(** A statement that leaves the table as it is. *)
Lemma quotes_same {A} (k : go env A) : (∀ e, findings (e_db (fst (k e))) = findings (e_db e)) → quotes (db_call k).
Proof. intros Hk. apply quotes_call. intros e. by rewrite Hk. Qed.

Lemma quotes_Attach u i : quotes (AttachFindingToEvent (pg_some u) i).
Proof.
  apply quotes_call. intros e He. simpl. destruct (pg_col i) as [j|]; [|done].
  destruct (findings (e_db e) !! j) as [row|] eqn:E; [|done].
  destruct (events (e_db e) !! u); [|done]. simpl. apply map_Forall_insert_2; [|done].
  by apply (HQ u), (He j).
Qed.

Lemma all_openEvent sk st f : go_inv all_findings (openEvent sk st f).
Proof.
  intros w Hw. pose proof (openEvent_cases sk st f w) as HC. unfold all_findings in *.
  destruct (openEvent sk st f w) as [w' [a|e|e]]; simpl; [|by destruct HC as [_ ->]..].
  destruct HC as (u & ids & _ & _ & _ & ->). simpl. intros i r. rewrite lookup_attach_all.
  case_decide; [|apply Hw]. intros (r0 & Hr0 & ->)%fmap_Some. by apply HQ, (Hw i).
Qed.

Lemma all_set sk st : go_inv all_findings (set_state sk st).
Proof. by intros w Hw. Qed.

Lemma all_save sk st : go_inv all_findings (savePolicyState sk st).
Proof.
  unfold savePolicyState. destruct (parse_pending _); [|apply go_inv_err].
  apply quotes_db, quotes_same. intros e. simpl.
  by destruct (match pg_col _ with Some _ => _ | None => _ end).
Qed.

#[local] Hint Resolve all_openEvent all_set all_save : cepheus.
#[local] Hint Resolve go_inv_ret go_inv_err go_inv_panic go_inv_get : cepheus.

Lemma all_load sk now : go_inv all_findings (load_state sk now).
Proof.
  unfold load_state. apply go_inv_bind; [auto with cepheus|]. intros w. case_match; [auto with cepheus|].
  apply go_inv_bind.
  - apply go_inv_try, quotes_db, quotes_same. intros ev. simpl. by case_match.
  - intros [e|r]; [case_match; [|auto with cepheus]|]; apply go_inv_bind; auto with cepheus.
Qed.

Lemma all_transition sk st f fid co : go_inv all_findings (transition sk st f fid co).
Proof.
  unfold transition, attachFindingToEvent. destruct (Status st); [| |case_match..|auto with cepheus].
  1, 2: apply go_inv_bind; [auto with cepheus|intros _; destruct co; auto with cepheus].
  - apply quotes_db, quotes_Attach.
  - auto with cepheus.
  - apply go_inv_bind; [apply quotes_db, quotes_Attach|auto with cepheus].
  - auto with cepheus.
Qed.

Lemma all_Apply sk f fid now : go_inv all_findings (ApplyFinding cfg sk f fid now).
Proof.
  unfold ApplyFinding. apply go_inv_bind; [apply all_load|]. intros st.
  apply go_inv_bind; [auto with cepheus|]. intros _. apply go_inv_bind; [apply all_transition|]. intros _.
  apply go_inv_bind; [auto with cepheus|]. intros w. case_match; auto with cepheus.
Qed.

Lemma all_Insert sk f : Q (finding_row sk f) → go_inv all_findings (InsertFinding sk f).
Proof.
  intros Hf. unfold InsertFinding. case_match; [|auto with cepheus]. apply quotes_db, quotes_call.
  intros e He. simpl. case_decide; [done|]. destruct (findings (e_db e) !! _); [done|].
  simpl. by apply map_Forall_insert_2.
Qed.

Lemma all_sweep_one now sk : go_inv all_findings (sweep_one cfg now sk).
Proof.
  unfold sweep_one. apply go_inv_bind; [auto with cepheus|]. intros w. case_match; [|auto with cepheus].
  apply go_inv_bind; [auto with cepheus|]. intros _. apply go_inv_bind.
  - unfold sweep_status. repeat case_match; auto with cepheus.
    apply go_inv_bind; [|auto with cepheus]. apply quotes_db, quotes_same. intros ev. simpl. by case_match.
  - intros st2. apply go_inv_bind; [auto with cepheus|]. intros _.
    apply go_inv_bind; [apply go_inv_try|]; auto with cepheus.
Qed.

Lemma all_Sweep order now : go_inv all_findings (Sweep cfg order now).
Proof.
  unfold Sweep. apply go_inv_bind; [by apply quotes_db, quotes_same|]. intros rows.
  apply go_inv_bind.
  - apply go_inv_each. intros r _. unfold hydrate. apply go_inv_bind; [auto with cepheus|]. intros w.
    repeat case_match; auto with cepheus.
  - intros _. apply go_inv_bind; [auto with cepheus|]. intros w. apply go_inv_each. intros k _. apply all_sweep_one.
Qed.

Lemma all_report now key f : Q (finding_row key f) → go_inv all_findings (report cfg now key f).
Proof.
  intros Hf. unfold report. apply go_inv_bind; [by apply go_inv_try, all_Insert|].
  intros [e|fid]; [auto with cepheus|].
  apply go_inv_bind; [apply go_inv_try, all_Apply|auto with cepheus].
Qed.

(** ** Workers *)

(** A monitor reports only rows [Q] allows, for these samples. *)
Definition reports_ok (m : monitor) (rows : list RawSample) : Prop :=
  ∀ rs st v st' f, rs ∈ rows → mo_detector m st (rs_TS rs) v = ROk (st', Some f) → Q (finding_row (mo_key m) f).

Lemma all_fold_samples now m rows : reports_ok m rows → go_inv all_findings (fold_samples cfg now m rows).
Proof.
  revert m. induction rows as [|rs rows IH]; intros m Hm w Hw; [done|]. simpl.
  assert (all_findings (fst (fold_sample cfg now m rs w))) as H1.
  { revert w Hw. unfold fold_sample. change (go_inv all_findings (fold_sample cfg now m rs)). unfold fold_sample.
    case_match; [|auto with cepheus].
    destruct (Extract _ _) as [v|e|e]; [|auto with cepheus..].
    destruct (mo_detector m (mo_state m) (rs_TS rs) v) as [[next [f|]]|e|e] eqn:Ed; [|auto with cepheus..].
    apply go_inv_bind; [|auto with cepheus]. apply all_report. simpl. eapply Hm; [|exact Ed]. set_solver. }
  unfold go_bind. destruct (fold_sample cfg now m rs w) as [w1 [m1|e|e]] eqn:E1; [|done..].
  apply IH; [|done]. intros rs' st v st' f Hrs. apply fold_sample_ok in E1 as [(-> & _)|(_ & _ & next & ->)];
    apply Hm; set_solver.
Qed.

Lemma all_fold_monitors now ms rows :
  Forall (λ m, reports_ok m rows) ms → go_inv all_findings (fold_monitors cfg now ms rows).
Proof.
  induction 1 as [|m ms Hm _ IH]; simpl; [auto with cepheus|]. apply go_inv_bind.
  - unfold fold. apply go_inv_bind; [by apply all_fold_samples|]. intros m'.
    apply go_inv_bind; [|auto with cepheus]. case_match; [|auto with cepheus].
    apply go_inv_bind; [|auto with cepheus]. apply go_inv_try, quotes_db, quotes_same.
    intros e. by destruct (mo_state m').
  - intros m'. apply go_inv_bind; [exact IH|auto with cepheus].
Qed.

Lemma all_plan registry detectors s : go_inv all_findings (plan registry detectors s).
Proof.
  unfold plan. induction (plan_pairs registry s) as [|[ex dt] l IH]; simpl; [auto with cepheus|].
  apply go_inv_bind; [|intros ms; apply go_inv_bind; auto with cepheus].
  unfold plan_one. case_match; [|auto with cepheus]. apply go_inv_bind.
  - apply go_inv_try, quotes_db, quotes_same. intros ev. simpl. by case_match.
  - intros [e|b]; [case_match|]; auto with cepheus.
Qed.

End Findings.

(** ** Argus *)

(** What a detector promises besides: a finding is of the instant it was given. *)
Class TimelyDetectors (detectors : gmap string Detector) : Prop :=
  timely dt det st ts v st' f :
    detectors !! dt = Some det → det st ts v = ROk (st', Some f) → TS f = ts.

#[export] Instance argus_detectors_timely `{GoMath} : TimelyDetectors argus_detectors.
Proof.
  intros dt det st ts v st' f Hdt. unfold argus_detectors in Hdt.
  apply lookup_insert_Some in Hdt as [[<- <-]|[_ Hdt]].
  { unfold Ewma.ewma_Step. destruct v as [x|x|x]; try done. destruct (Ewma.ewma_load st) as [s|]; [|done].
    unfold Ewma.ewma_step. destruct (Z.eqb (Ewma.N s) 0); [by case_match|].
    case_match; [|done]. intros [= _ Hf]. case_match; [|done]. by injection Hf as <-. }
  apply lookup_insert_Some in Hdt as [[<- <-]|[_ Hdt]]; [|by rewrite lookup_empty in Hdt].
  unfold BetaBinomial.beta_Step. destruct v as [x|x|x]; try done.
  destruct (BetaBinomial.beta_load st) as [s|]; [|done]. unfold BetaBinomial.beta_step.
  case_match; [|done]. intros [= _ Hf]. repeat case_match; try done. by injection Hf as <-.
Qed.

Section Argus.
Context `{UuidLib} (cfg : PolicyEngineConfig).
Context (registry : gmap string (list Extractor)) (detectors : gmap string Detector) `{!TimelyDetectors detectors}.

(** The finding is about an event among these messages. *)
Definition sourced (log : list raw) (r : ArgusFinding) : Prop :=
  ∃ d e s, d ∈ log ∧ unmarshal event_from_json event_zero d = Some e ∧ seriesFromEvent e = Some s ∧
    fi_serial_id r = s_SerialId s ∧ fi_target r = s_Target s ∧ fi_port r = s_Port s ∧
    fi_ts r = timestamptz (me_Timestamp e).

Lemma sourced_attached log u r : sourced log r → sourced log (attached u r).
Proof. done. Qed.

Lemma sourced_mono log log' r : log ⊆ log' → sourced log r → sourced log' r.
Proof. intros Hl (d & e & s & Hd & Hr). exists d, e, s. split; [by apply Hl|done]. Qed.

Definition monitors_of (s : DiscoveredSeries) (m : monitor) : Prop :=
  (∃ dt, detectors !! dt = Some (mo_detector m)) ∧
  sk_SerialId (mo_key m) = s_SerialId s ∧ sk_Target (mo_key m) = s_Target s ∧ sk_Port (mo_key m) = s_Port s.

(** [known] is what earlier lives fetched. *)
Record argus_sourced (known : list raw) (a : argus) : Prop := {
  as_findings : all_findings (sourced (known ++ au_log a)) (au_engine a);
  as_workers : ∀ s ms, au_workers a !! s = Some (Working ms) → Forall (monitors_of s) ms;
}.

Lemma plan_monitors s w w' ms :
  plan registry detectors s w = (w', ROk ms) → Forall (monitors_of s) ms.
Proof.
  unfold plan. revert w w' ms. induction (plan_pairs registry s) as [|[ex dt] l IH]; simpl; intros w w' ms.
  { by intros [= _ <-]. }
  intros (w1 & ms1 & E1 & (w2 & ms2 & E2 & [= _ <-])%go_bind_inv)%go_bind_inv.
  apply Forall_app. split; [|by eapply IH]. clear E2 IH. unfold plan_one in E1.
  destruct (detectors !! dt) as [det|] eqn:Ed; [|by injection E1 as _ <-].
  apply go_bind_inv in E1 as (w3 & [e|b] & _ & E1); [case_match|]; injection E1 as _ <-; repeat constructor; eauto.
Qed.

(** The samples in an inbox and the monitors of its worker. *)
Lemma items_reports s l log ms :
  Forall (λ it, ∃ d, log !! it_msg it = Some d ∧ sample_of (it_msg it) d = Some (s, it)) l →
  Forall (monitors_of s) ms →
  Forall (λ m, reports_ok (sourced log) m (it_sample <$> l)) ms.
Proof.
  intros Hl Hms. eapply Forall_impl; [exact Hms|]. intros m ((dt & Hdt) & K1 & K2 & K3) rs st v st' f Hrs Hf.
  apply list_elem_of_fmap in Hrs as (it & -> & Hit). rewrite Forall_forall in Hl.
  destruct (Hl it Hit) as (d & Hd & Hs). unfold sample_of in Hs.
  destruct (unmarshal event_from_json event_zero d) as [e|] eqn:Ee; [|done]. simpl in Hs.
  destruct (seriesFromEvent e) as [s'|] eqn:Es; [|done]. simpl in Hs.
  destruct (decodeMetrics e) as [r|]; [|done]. injection Hs as <- Hit'.
  exists d, e, s'. split; [by eapply list_elem_of_lookup_2|]. split; [done|]. split; [done|].
  simpl. rewrite (timely dt _ _ _ _ _ _ Hdt Hf), <- Hit'. done.
Qed.

Lemma as_mono known log log' w :
  log ⊆ log' → all_findings (sourced (known ++ log)) w → all_findings (sourced (known ++ log')) w.
Proof.
  intros Hl Hw i r Hr. eapply sourced_mono; [|by apply (Hw i)]. set_solver.
Qed.

Lemma argus_step_sourced known e a a' :
  argus_step cfg registry detectors e a = Some a' → argus_ok a → argus_sourced known a → argus_sourced known a'.
Proof.
  intros Hs Hok [H1 H2]. unfold argus_step in Hs. destruct (au_crashed a); [done|].
  pose proof (sourced_attached (known ++ au_log a)) as HQ.
  destruct e as [|msgs| | | | |s faults|s now faults|s|order now faults|].
  - destruct (au_done a); simplify_eq. by split.
  - destruct (au_router a) as [[|??]|]; try done. destruct (au_done a || _); simplify_eq.
    split; [|done]. eapply as_mono; [|exact H1]. simpl. set_solver.
  - destruct (au_router a) as [[|??]|]; try done. destruct (au_done a); by simplify_eq.
  - destruct (au_router a) as [[|??]|]; try done. destruct (au_done a); simplify_eq. by split.
  - destruct (au_router a) as [[|[id d] rest]|]; try done. unfold router_dispatch in Hs.
    destruct (dispatch _ _ _) as [routes [|s b|s b]]; simplify_eq; split; try done.
    intros s' ms'. unfold spawn. simpl. destruct b; [|apply H2]. rewrite lookup_insert. case_decide; [done|apply H2].
  - destruct (au_router a) as [[|[id d] rest]|]; try done. destruct (au_done a); [|done].
    unfold router_drop in Hs.
    destruct (dispatch _ _ _) as [routes [|s b|s b]]; simplify_eq; split; try done; intros s' ms'; unfold spawn; simpl;
      (destruct b; [|apply H2]; rewrite lookup_insert; case_decide; [done|apply H2]).
  - destruct (au_workers a !! s) as [[| |]|]; simplify_eq. unfold worker_plan.
    pose proof (all_plan _ registry detectors s (engine_faults faults (au_engine a)) H1) as HI.
    destruct (plan _ _ _ _) as [w [ms|e|e]] eqn:Ep; split; try done.
    intros s' ms'. simpl. rewrite lookup_insert. case_decide; [|apply H2]. intros [= <-]. subst. by eapply plan_monitors.
  - destruct (au_workers a !! s) as [[|ms|]|] eqn:Ew; try done.
    destruct (au_routes a !! s) as [[|first inbox]|] eqn:Er; simplify_eq.
    unfold worker_turn, process_turn, go_bind.
    assert (Forall (λ m, reports_ok (sourced (known ++ au_log a)) m (it_sample <$> drainInbox first inbox)) ms) as Hrep.
    { eapply Forall_impl; [eapply items_reports; [by eapply ao_items|by eapply H2]|].
      intros m Hm rs st v st' f Hrs Hf. eapply sourced_mono; [|by eapply Hm]. set_solver. }
    pose proof (all_fold_monitors cfg _ HQ now ms _ Hrep (engine_faults faults (au_engine a)) H1) as HI.
    destruct (fold_monitors _ _ _ _ _) as [w [ms'|e|e]] eqn:Ef; split; try done.
    intros s' ms''. simpl. rewrite lookup_insert. case_decide; [|apply H2]. intros [= <-]. subst s'.
    apply fold_monitors_length in Ef. specialize (H2 _ _ Ew). clear -Ef H2.
    induction Ef as [|m m' l l' (K1 & _ & K3) _ IH]; [done|]. apply Forall_cons in H2 as [Hm H2].
    constructor; [|by apply IH]. unfold monitors_of in *. by rewrite K1, K3.
  - destruct (au_workers a !! s) as [[|ms|]|]; try done. destruct (au_done a); simplify_eq.
    split; [done|]. intros s' ms'. simpl. rewrite lookup_insert. case_decide; [done|apply H2].
  - destruct (au_sweeper a); simplify_eq. unfold sweep_tick.
    pose proof (all_Sweep cfg _ order now (engine_faults faults (au_engine a)) H1) as HI.
    by destruct (Sweep _ _ _ _) as [w [?|e|e]]; split.
  - destruct (au_done a && au_sweeper a); simplify_eq. by split.
Qed.

End Argus.
