(* ===== verification/Reports.v ===== *)
(** * Probe reports (libs/common/types.go)

    What the agent's executors measure, the envelope the dispatcher sends it in,
    and the JSON the agent writes and the processors read. *)

From S2P Require Import Prelude Float64 GoTime Json ArgusWorker.

Local Open Scope Z_scope.

(** ** STAMP *)

Record StampProbeData := {
  pd_Tx : time;
  pd_IsLost : bool;
  pd_Rx : time;
  pd_Rtt : duration;
  pd_ForwardDelay : duration;
  pd_BackwardDelay : duration;
}.

Record StampData := {
  sd_Target : string;
  sd_Port : Z;
  sd_Sent : Z;
  sd_Received : Z;
  sd_Loss : float64;
  sd_Probes : list StampProbeData;
  sd_Timestamp : time;
}.

Definition stamp_probe_zero : StampProbeData :=
  {| pd_Tx := zeroTime; pd_IsLost := false; pd_Rx := zeroTime; pd_Rtt := 0; pd_ForwardDelay := 0;
     pd_BackwardDelay := 0 |}.

(** [omitempty] omits zero durations, and never a [time.Time]. *)
Definition omit_zero (k : string) (z : Z) : list (string * json) :=
  if Z.eqb z 0 then [] else [(k, enc_int z)].

Definition stamp_probe_to_json (p : StampProbeData) : option json :=
  tx ← enc_time (pd_Tx p);
  rx ← enc_time (pd_Rx p);
  Some (JObj ([("tx", tx); ("is_lost", JBool (pd_IsLost p)); ("rx", rx)]
              ++ omit_zero "rtt" (pd_Rtt p) ++ omit_zero "forward_delay" (pd_ForwardDelay p)
              ++ omit_zero "backward_delay" (pd_BackwardDelay p))).

Definition stamp_data_to_json (d : StampData) : option json :=
  loss ← enc_float (sd_Loss d);
  probes ← mapM stamp_probe_to_json (sd_Probes d);
  ts ← enc_time (sd_Timestamp d);
  Some (JObj [("target", JStr (sd_Target d)); ("port", enc_int (sd_Port d)); ("sent", enc_int (sd_Sent d));
              ("received", enc_int (sd_Received d)); ("loss", loss); ("probes", JArr probes);
              ("timestamp", ts)]).

Definition stamp_probe_set (a : StampProbeData) (k : string) (j : json) : option StampProbeData :=
  let '(Build_StampProbeData tx lost rx rtt fwd bwd) := a in
  if key_is "tx" k then v ← dec_time tx j; Some (Build_StampProbeData v lost rx rtt fwd bwd)
  else if key_is "is_lost" k then v ← dec_bool lost j; Some (Build_StampProbeData tx v rx rtt fwd bwd)
  else if key_is "rx" k then v ← dec_time rx j; Some (Build_StampProbeData tx lost v rtt fwd bwd)
  else if key_is "rtt" k then v ← dec_int64 rtt j; Some (Build_StampProbeData tx lost rx v fwd bwd)
  else if key_is "forward_delay" k then v ← dec_int64 fwd j; Some (Build_StampProbeData tx lost rx rtt v bwd)
  else if key_is "backward_delay" k then v ← dec_int64 bwd j; Some (Build_StampProbeData tx lost rx rtt fwd v)
  else Some a.

Definition stamp_data_set (a : StampData) (k : string) (j : json) : option StampData :=
  let '(Build_StampData target port sent received loss probes ts) := a in
  if key_is "target" k then
    v ← dec_string target j; Some (Build_StampData v port sent received loss probes ts)
  else if key_is "port" k then
    v ← dec_int64 port j; Some (Build_StampData target v sent received loss probes ts)
  else if key_is "sent" k then
    v ← dec_int64 sent j; Some (Build_StampData target port v received loss probes ts)
  else if key_is "received" k then
    v ← dec_int64 received j; Some (Build_StampData target port sent v loss probes ts)
  else if key_is "loss" k then
    v ← dec_float loss j; Some (Build_StampData target port sent received v probes ts)
  else if key_is "probes" k then
    v ← dec_list (dec_struct stamp_probe_set) stamp_probe_zero probes j;
    Some (Build_StampData target port sent received loss v ts)
  else if key_is "timestamp" k then
    v ← dec_time ts j; Some (Build_StampData target port sent received loss probes v)
  else Some a.

Definition stamp_data_zero : StampData :=
  {| sd_Target := ""; sd_Port := 0; sd_Sent := 0; sd_Received := 0; sd_Loss := fzero; sd_Probes := [];
     sd_Timestamp := zeroTime |}.

Definition stamp_data_from_json : dec StampData := dec_struct stamp_data_set.

(** ** Ping: the report of scamper *)

Record PingResponse := {
  pr_Seq : Z;
  pr_TxSec : Z; pr_TxUsec : Z;
  pr_RxSec : Z; pr_RxUsec : Z;
  pr_Rtt : float64;
}.

(** The fields the processor reads; the others only have to be of their type. *)
Record PingDataPayload := {
  pdp_Dst : string;
  pdp_PingSent : Z;
  pdp_Responses : list PingResponse;
  pdp_Replies : Z;
  pdp_Min : float64; pdp_Max : float64; pdp_Avg : float64; pdp_Stddev : float64;
}.

Definition is_key (names : list string) (k : string) : bool := existsb (λ n, key_is n k) names.

(** A field that is decoded and not read. *)
Definition unread {A B} (d : dec B) (zero : B) (a : A) (j : json) : option A := _ ← d zero j; Some a.

Definition sec_usec_set (a : Z * Z) (k : string) (j : json) : option (Z * Z) :=
  if key_is "sec" k then v ← dec_int64 a.1 j; Some (v, a.2)
  else if key_is "usec" k then v ← dec_int64 a.2 j; Some (a.1, v)
  else Some a.

Definition ping_response_set (a : PingResponse) (k : string) (j : json) : option PingResponse :=
  let '(Build_PingResponse seq txs txu rxs rxu rtt) := a in
  if key_is "seq" k then v ← dec_int64 seq j; Some (Build_PingResponse v txs txu rxs rxu rtt)
  else if key_is "tx" k then
    v ← dec_struct sec_usec_set (txs, txu) j; Some (Build_PingResponse seq v.1 v.2 rxs rxu rtt)
  else if key_is "rx" k then
    v ← dec_struct sec_usec_set (rxs, rxu) j; Some (Build_PingResponse seq txs txu v.1 v.2 rtt)
  else if key_is "rtt" k then v ← dec_float rtt j; Some (Build_PingResponse seq txs txu rxs rxu v)
  else if is_key ["from"; "reply_proto"; "ifname"] k then unread dec_string "" a j
  else if is_key ["reply_size"; "reply_ttl"; "icmp_id"; "icmp_seq"; "probe_ipid"; "reply_ipid"; "reply_tos";
                  "icmp_type"; "icmp_code"] k then unread dec_int64 0 a j
  else Some a.

Definition ping_stats_set (a : PingDataPayload) (k : string) (j : json) : option PingDataPayload :=
  let '(Build_PingDataPayload dst sent rs replies mn mx avg sd) := a in
  if key_is "replies" k then v ← dec_int64 replies j; Some (Build_PingDataPayload dst sent rs v mn mx avg sd)
  else if key_is "min" k then v ← dec_float mn j; Some (Build_PingDataPayload dst sent rs replies v mx avg sd)
  else if key_is "max" k then v ← dec_float mx j; Some (Build_PingDataPayload dst sent rs replies mn v avg sd)
  else if key_is "avg" k then v ← dec_float avg j; Some (Build_PingDataPayload dst sent rs replies mn mx v sd)
  else if key_is "stddev" k then v ← dec_float sd j; Some (Build_PingDataPayload dst sent rs replies mn mx avg v)
  else if key_is "loss" k then unread dec_float fzero a j
  else Some a.

(** [no_responses] is a list of anything. *)
Definition dec_any_list : dec (list json) := dec_list (λ _ j, Some j) JNull.

Definition ping_response_zero : PingResponse :=
  {| pr_Seq := 0; pr_TxSec := 0; pr_TxUsec := 0; pr_RxSec := 0; pr_RxUsec := 0; pr_Rtt := fzero |}.

Definition ping_data_set (a : PingDataPayload) (k : string) (j : json) : option PingDataPayload :=
  let '(Build_PingDataPayload dst sent rs replies mn mx avg sd) := a in
  if key_is "dst" k then v ← dec_string dst j; Some (Build_PingDataPayload v sent rs replies mn mx avg sd)
  else if key_is "ping_sent" k then
    v ← dec_int64 sent j; Some (Build_PingDataPayload dst v rs replies mn mx avg sd)
  else if key_is "responses" k then
    v ← dec_list (dec_struct ping_response_set) ping_response_zero rs j;
    Some (Build_PingDataPayload dst sent v replies mn mx avg sd)
  else if key_is "statistics" k then dec_struct ping_stats_set a j
  else if is_key ["type"; "version"; "method"; "src"; "stop_reason"] k then unread dec_string "" a j
  else if is_key ["stop_data"; "probe_size"; "userid"; "ttl"; "tos"; "wait"; "timeout"] k then unread dec_int64 0 a j
  else if key_is "start" k then unread (dec_struct sec_usec_set) (0, 0) a j
  else if key_is "no_responses" k then unread dec_any_list [] a j
  else Some a.

Definition ping_data_zero : PingDataPayload :=
  {| pdp_Dst := ""; pdp_PingSent := 0; pdp_Responses := []; pdp_Replies := 0; pdp_Min := fzero;
     pdp_Max := fzero; pdp_Avg := fzero; pdp_Stddev := fzero |}.

Definition ping_data_from_json : dec PingDataPayload := dec_struct ping_data_set.

(** ** Trace *)

Record TraceData := { td_Type : string; td_Method : string; td_Format : string; td_Data : raw }.

Definition TraceProbeTypeTrace : string := "trace".
Definition TraceProbeTypeTraceLb : string := "tracelb".

Definition trace_data_to_json (d : TraceData) : json :=
  JObj [("type", JStr (td_Type d)); ("method", JStr (td_Method d)); ("format", JStr (td_Format d));
        ("data", enc_bytes (td_Data d))].

Definition trace_data_set (a : TraceData) (k : string) (j : json) : option TraceData :=
  let '(Build_TraceData ty m f d) := a in
  if key_is "type" k then v ← dec_string ty j; Some (Build_TraceData v m f d)
  else if key_is "method" k then v ← dec_string m j; Some (Build_TraceData ty v f d)
  else if key_is "format" k then v ← dec_string f j; Some (Build_TraceData ty m v d)
  else if key_is "data" k then v ← dec_bytes d j; Some (Build_TraceData ty m f v)
  else Some a.

Definition trace_data_zero : TraceData :=
  {| td_Type := ""; td_Method := ""; td_Format := ""; td_Data := RawEmpty |}.

(** ** Envelope *)

Record ProbeResult := {
  prr_TaskID : string; prr_ProbeType : string; prr_Kind : string; prr_Timestamp : time; prr_Data : raw }.

Record ReportPayload := {
  rpl_Payload : ProbeResult; rpl_SerialID : string; rpl_SentTimestamp : time; rpl_AgentConfigId : string }.

Definition probe_result_zero : ProbeResult :=
  {| prr_TaskID := ""; prr_ProbeType := ""; prr_Kind := ""; prr_Timestamp := zeroTime; prr_Data := RawEmpty |}.

Definition report_zero : ReportPayload :=
  {| rpl_Payload := probe_result_zero; rpl_SerialID := ""; rpl_SentTimestamp := zeroTime;
     rpl_AgentConfigId := "" |}.

Definition probe_result_to_json (p : ProbeResult) : option json :=
  ts ← enc_time (prr_Timestamp p);
  d ← match prr_Data p with RawEmpty => Some JNull | RawBad => None | RawDoc j => Some j end;
  Some (JObj [("task_id", JStr (prr_TaskID p)); ("probe_type", JStr (prr_ProbeType p));
              ("kind", JStr (prr_Kind p)); ("timestamp", ts); ("data", d)]).

Definition report_to_json (r : ReportPayload) : option json :=
  p ← probe_result_to_json (rpl_Payload r);
  ts ← enc_time (rpl_SentTimestamp r);
  Some (JObj [("payload", p); ("serial_id", JStr (rpl_SerialID r)); ("sent_timestamp", ts);
              ("agent_config_id", JStr (rpl_AgentConfigId r))]).

Definition probe_result_set (a : ProbeResult) (k : string) (j : json) : option ProbeResult :=
  let '(Build_ProbeResult id ty kind ts d) := a in
  if key_is "task_id" k then v ← dec_string id j; Some (Build_ProbeResult v ty kind ts d)
  else if key_is "probe_type" k then v ← dec_string ty j; Some (Build_ProbeResult id v kind ts d)
  else if key_is "kind" k then v ← dec_string kind j; Some (Build_ProbeResult id ty v ts d)
  else if key_is "timestamp" k then v ← dec_time ts j; Some (Build_ProbeResult id ty kind v d)
  else if key_is "data" k then v ← dec_raw d j; Some (Build_ProbeResult id ty kind ts v)
  else Some a.

Definition report_set (a : ReportPayload) (k : string) (j : json) : option ReportPayload :=
  let '(Build_ReportPayload p s ts c) := a in
  if key_is "payload" k then v ← dec_struct probe_result_set p j; Some (Build_ReportPayload v s ts c)
  else if key_is "serial_id" k then v ← dec_string s j; Some (Build_ReportPayload p v ts c)
  else if key_is "sent_timestamp" k then v ← dec_time ts j; Some (Build_ReportPayload p s v c)
  else if key_is "agent_config_id" k then v ← dec_string c j; Some (Build_ReportPayload p s ts v)
  else Some a.

Definition report_from_json : dec ReportPayload := dec_struct report_set.

(** ** Round trips *)

(** The integers of the Go value are Go integers. *)
Definition stamp_data_ok (d : StampData) : Prop :=
  int64_ok (sd_Port d) ∧ int64_ok (sd_Sent d) ∧ int64_ok (sd_Received d) ∧
  Forall (λ p, int64_ok (pd_Rtt p) ∧ int64_ok (pd_ForwardDelay p) ∧ int64_ok (pd_BackwardDelay p))
    (sd_Probes d).

(** Decoding a struct field by field. *)
Lemma dec_fields_app {A} (set : A → string → json → option A) a fs1 fs2 :
  dec_fields set a (fs1 ++ fs2) = a' ← dec_fields set a fs1; dec_fields set a' fs2.
Proof.
  revert a. induction fs1 as [|[k j] fs1 IH]; intros a; [done|]. simpl.
  destruct (set a k j); [apply IH|done].
Qed.

(** An omitted zero is read back as the zero already there. *)
Lemma dec_omit_zero {A} (set : A → string → json → option A) (put : Z → A) k z :
  int64_ok z → (∀ v, set (put 0) k (enc_int v) = w ← dec_int64 0 (enc_int v); Some (put w)) →
  dec_fields set (put 0) (omit_zero k z) = Some (put z).
Proof.
  intros Hz Hset. unfold omit_zero. destruct (Z.eqb_spec z 0) as [->|_]; [done|]. cbn [dec_fields].
  by rewrite Hset, dec_enc_int64.
Qed.

Lemma stamp_probe_roundtrip p j :
  int64_ok (pd_Rtt p) → int64_ok (pd_ForwardDelay p) → int64_ok (pd_BackwardDelay p) →
  stamp_probe_to_json p = Some j → dec_struct stamp_probe_set stamp_probe_zero j = Some p.
Proof.
  intros H1 H2 H3. unfold stamp_probe_to_json.
  destruct (enc_time (pd_Tx p)) as [jtx|] eqn:Etx; [|done].
  destruct (enc_time (pd_Rx p)) as [jrx|] eqn:Erx; [|done]. intros [= <-].
  change (dec_fields stamp_probe_set stamp_probe_zero
    ([("tx", jtx); ("is_lost", JBool (pd_IsLost p)); ("rx", jrx)] ++ omit_zero "rtt" (pd_Rtt p)
     ++ omit_zero "forward_delay" (pd_ForwardDelay p) ++ omit_zero "backward_delay" (pd_BackwardDelay p))
    = Some p).
  rewrite dec_fields_app.
  assert (dec_fields stamp_probe_set stamp_probe_zero
    [("tx", jtx); ("is_lost", JBool (pd_IsLost p)); ("rx", jrx)]
    = Some (Build_StampProbeData (pd_Tx p) (pd_IsLost p) (pd_Rx p) 0 0 0)) as ->.
  { simpl. by rewrite (dec_enc_time _ _ _ Etx); simpl; rewrite (dec_enc_time _ _ _ Erx). }
  cbn [mbind option_bind].
  rewrite dec_fields_app, (dec_omit_zero _ (λ z, Build_StampProbeData (pd_Tx p) (pd_IsLost p) (pd_Rx p) z 0 0))
    by done. cbn [mbind option_bind].
  rewrite dec_fields_app, (dec_omit_zero _ (λ z, Build_StampProbeData (pd_Tx p) (pd_IsLost p) (pd_Rx p)
    (pd_Rtt p) z 0)) by done. cbn [mbind option_bind].
  rewrite (dec_omit_zero _ (λ z, Build_StampProbeData (pd_Tx p) (pd_IsLost p) (pd_Rx p) (pd_Rtt p)
    (pd_ForwardDelay p) z)) by done. by destruct p.
Qed.

Lemma stamp_data_roundtrip d j :
  stamp_data_ok d → stamp_data_to_json d = Some j →
  unmarshal stamp_data_from_json stamp_data_zero (RawDoc j) = Some d.
Proof.
  intros (H1 & H2 & H3 & H4). unfold stamp_data_to_json.
  destruct (enc_float (sd_Loss d)) as [jl|] eqn:El; [|done]. cbn [mbind option_bind].
  destruct (mapM stamp_probe_to_json (sd_Probes d)) as [jp|] eqn:Ep; [|done]. cbn [mbind option_bind].
  destruct (enc_time (sd_Timestamp d)) as [jt|] eqn:Et; [|done]. cbn [mbind option_bind].
  assert (∀ old, dec_list (dec_struct stamp_probe_set) stamp_probe_zero old (JArr jp) = Some (sd_Probes d))
    as Hp.
  { intros old. eapply dec_enc_list; [|exact Ep]. intros p j' Hin.
    rewrite Forall_forall in H4. apply H4 in Hin as (? & ? & ?). by apply stamp_probe_roundtrip. }
  intros [= <-]. unfold unmarshal, stamp_data_from_json, dec_struct.
  unfold stamp_data_zero.
  json_field stamp_data_set (eq_refl : dec_string "" (JStr (sd_Target d)) = Some (sd_Target d)).
  do 3 json_field stamp_data_set dec_enc_int64.
  json_field stamp_data_set dec_enc_float.
  json_field stamp_data_set Hp.
  json_field stamp_data_set dec_enc_time. by destruct d.
Qed.

Lemma trace_data_roundtrip d :
  unmarshal (dec_struct trace_data_set) trace_data_zero (RawDoc (trace_data_to_json d)) = Some d.
Proof. destruct d as [ty m f r]. simpl. by rewrite dec_enc_bytes. Qed.

Lemma report_roundtrip r j d :
  prr_Data (rpl_Payload r) = RawDoc d → report_to_json r = Some j →
  unmarshal report_from_json report_zero (RawDoc j) = Some r.
Proof.
  intros Hd. unfold report_to_json, probe_result_to_json. rewrite Hd.
  destruct (enc_time (prr_Timestamp (rpl_Payload r))) as [jt|] eqn:Et; [|done].
  destruct (enc_time (rpl_SentTimestamp r)) as [js|] eqn:Es; [|done]. cbn [mbind option_bind].
  intros [= <-]. simpl. rewrite (dec_enc_time _ _ _ Et). simpl. rewrite (dec_enc_time _ _ _ Es). simpl.
  destruct r as [[? ? ? ? ?] ? ? ?]. simpl in *. by subst.
Qed.
