(* ===== verification/AgentConfig.v ===== *)
(** * Agent configuration, end to end
    (services/server/handler/agent_config.go, services/agent/config_from_proto.go,
    services/agent/domain.go)

    The control plane reads a device's rows, decodes the stored task parameters
    and assembles the wire message; the agent maps the message to its own task
    model.  The generated messages are records with the source's fields and the
    protobuf oneof is an inductive type; well-known types belong to the protobuf
    runtime. *)

From S2P Require Import Prelude Float64 GoTime Json.

Local Open Scope Z_scope.
Local Open Scope go_scope.

(** The well-known types of the protobuf runtime: a duration survives its
    message. *)
Class ProtoTime := {
  PbDuration : Type;
  durationpb_New : duration → PbDuration;
  AsDuration : PbDuration → duration;
  AsDuration_New d :
    -9223372036854775808 ≤ d ≤ 9223372036854775807 → AsDuration (durationpb_New d) = d;
  PbTimestamp : Type;
  AsTime : option PbTimestamp → time;
}.

(** ** The wire contract (libs/api/gen/cepheus/agent/v1) *)

Inductive PbTaskType :=
| TASK_TYPE_UNSPECIFIED
| TASK_TYPE_PING
| TASK_TYPE_TRACE
| TASK_TYPE_TRACE_LB
| TASK_TYPE_STAMP_SENDER
| TASK_TYPE_STAMP_REFLECTOR
| TASK_TYPE_OTHER (n : Z).

Inductive PbPendingActionType :=
| PENDING_ACTION_TYPE_UNSPECIFIED
| PENDING_ACTION_TYPE_RESTART
| PENDING_ACTION_TYPE_OTHER (n : Z).

Section Messages.
Context `{ProtoTime}.

Record PbPing := {
  pbp_Target : string; pbp_SourceIp : string; pbp_Count : Z; pbp_Size : Z;
  pbp_Dscp : Z; pbp_TimeoutSeconds : Z }.

Record PbTrace := {
  pbt_Target : string; pbt_SourceIp : string; pbt_Method : string; pbt_MaxTtl : Z;
  pbt_FirstTtl : Z; pbt_Dscp : Z; pbt_WaitSeconds : Z }.

Record PbTraceLb := {
  pbl_Target : string; pbl_SourceIp : string; pbl_MaxTtl : Z; pbl_FirstTtl : Z;
  pbl_Dscp : Z; pbl_Confidence : float64 }.

Record PbStampSender := {
  pbs_Target : string; pbs_TargetPort : Z; pbs_SourceIp : string; pbs_Dscp : Z;
  pbs_RequireClockSync : bool; pbs_PacketCount : Z; pbs_PacketInterval : option PbDuration }.

Record PbStampReflector := {
  pbr_ListenPort : Z; pbr_SourceIp : string; pbr_Dscp : Z; pbr_RequireClockSync : bool }.

Inductive PbParams :=
| Task_Ping (v : PbPing)
| Task_Trace (v : PbTrace)
| Task_TraceLb (v : PbTraceLb)
| Task_StampSender (v : PbStampSender)
| Task_StampReflector (v : PbStampReflector).

Record PbSchedule := { pbc_Enabled : bool; pbc_IntervalSeconds : Z; pbc_JitterPercent : Z }.

Record PbTask := {
  pb_TaskId : string;
  pb_Type : PbTaskType;
  pb_Enabled : bool;
  pb_Generation : Z;
  pb_Params : option PbParams;
  pb_Schedule : option PbSchedule;
}.

Record PbPendingAction := {
  pba_Id : string;
  pba_Type : PbPendingActionType;
  pba_CreatedOn : Z;
  pba_ScheduledOn : option PbTimestamp;
}.

Record PbAgentConfig := {
  pb_Id : string;
  pb_ConfigGeneration : Z;
  pb_ReportEndpoint : string;
  pb_ReportBatchSize : Z;
  pb_ReportIntervalSeconds : Z;
  pb_ReportTimeoutSeconds : Z;
  pb_UpdatedAt : Z;
  pb_ScamperPps : Z;
  pb_Tasks : list PbTask;
  pb_PendingActions : list PbPendingAction;
}.

(** ** The control plane: rows to message *)

Definition taskTypePing : string := "ping".
Definition taskTypeTrace : string := "trace".
Definition taskTypeTraceLb : string := "tracelb".
Definition taskTypeStampSender : string := "stamp-sender".
Definition taskTypeStampReflector : string := "stamp-reflector".

Definition taskTypeToProto (taskType : string) : PbTaskType :=
  if String.eqb taskType taskTypePing then TASK_TYPE_PING
  else if String.eqb taskType taskTypeTrace then TASK_TYPE_TRACE
  else if String.eqb taskType taskTypeTraceLb then TASK_TYPE_TRACE_LB
  else if String.eqb taskType taskTypeStampSender then TASK_TYPE_STAMP_SENDER
  else if String.eqb taskType taskTypeStampReflector then TASK_TYPE_STAMP_REFLECTOR
  else TASK_TYPE_UNSPECIFIED.

(** The local structs [setTaskParams] decodes into; Go's [int] is 64 bits. *)
Definition ping_params_set (a : PbPing) (k : string) (j : json) : option PbPing :=
  let '(Build_PbPing ta so co si ds ti) := a in
  if key_is "target" k then v ← dec_string ta j; Some (Build_PbPing v so co si ds ti)
  else if key_is "source_ip" k then v ← dec_string so j; Some (Build_PbPing ta v co si ds ti)
  else if key_is "count" k then v ← dec_int64 co j; Some (Build_PbPing ta so v si ds ti)
  else if key_is "size" k then v ← dec_int64 si j; Some (Build_PbPing ta so co v ds ti)
  else if key_is "dscp" k then v ← dec_int64 ds j; Some (Build_PbPing ta so co si v ti)
  else if key_is "timeout_seconds" k then v ← dec_int64 ti j; Some (Build_PbPing ta so co si ds v)
  else Some a.

Definition trace_params_set (a : PbTrace) (k : string) (j : json) : option PbTrace :=
  let '(Build_PbTrace ta so me mx fi ds wa) := a in
  if key_is "target" k then v ← dec_string ta j; Some (Build_PbTrace v so me mx fi ds wa)
  else if key_is "source_ip" k then v ← dec_string so j; Some (Build_PbTrace ta v me mx fi ds wa)
  else if key_is "method" k then v ← dec_string me j; Some (Build_PbTrace ta so v mx fi ds wa)
  else if key_is "max_ttl" k then v ← dec_int64 mx j; Some (Build_PbTrace ta so me v fi ds wa)
  else if key_is "first_ttl" k then v ← dec_int64 fi j; Some (Build_PbTrace ta so me mx v ds wa)
  else if key_is "dscp" k then v ← dec_int64 ds j; Some (Build_PbTrace ta so me mx fi v wa)
  else if key_is "wait_seconds" k then v ← dec_int64 wa j; Some (Build_PbTrace ta so me mx fi ds v)
  else Some a.

Definition tracelb_params_set (a : PbTraceLb) (k : string) (j : json) : option PbTraceLb :=
  let '(Build_PbTraceLb ta so mx fi ds co) := a in
  if key_is "target" k then v ← dec_string ta j; Some (Build_PbTraceLb v so mx fi ds co)
  else if key_is "source_ip" k then v ← dec_string so j; Some (Build_PbTraceLb ta v mx fi ds co)
  else if key_is "max_ttl" k then v ← dec_int64 mx j; Some (Build_PbTraceLb ta so v fi ds co)
  else if key_is "first_ttl" k then v ← dec_int64 fi j; Some (Build_PbTraceLb ta so mx v ds co)
  else if key_is "dscp" k then v ← dec_int64 ds j; Some (Build_PbTraceLb ta so mx fi v co)
  else if key_is "confidence" k then v ← dec_float co j; Some (Build_PbTraceLb ta so mx fi ds v)
  else Some a.

(** The sender's local struct, with its interval still a duration. *)
Record StampSenderJson := mkStampSenderJson {
  ssj_Target : string; ssj_TargetPort : Z; ssj_SourceIP : string; ssj_Dscp : Z;
  ssj_RequireClockSync : bool; ssj_PacketCount : Z; ssj_PacketInterval : duration }.

Definition sender_params_set (a : StampSenderJson) (k : string) (j : json) : option StampSenderJson :=
  let '(mkStampSenderJson ta po so ds sy co iv) := a in
  if key_is "target" k then v ← dec_string ta j; Some (mkStampSenderJson v po so ds sy co iv)
  else if key_is "target_port" k then v ← dec_int64 po j; Some (mkStampSenderJson ta v so ds sy co iv)
  else if key_is "source_ip" k then v ← dec_string so j; Some (mkStampSenderJson ta po v ds sy co iv)
  else if key_is "dscp" k then v ← dec_int64 ds j; Some (mkStampSenderJson ta po so v sy co iv)
  else if key_is "require_clock_sync" k then
    v ← dec_bool sy j; Some (mkStampSenderJson ta po so ds v co iv)
  else if key_is "packet_count" k then v ← dec_int64 co j; Some (mkStampSenderJson ta po so ds sy v iv)
  else if key_is "packet_interval" k then v ← dec_int64 iv j; Some (mkStampSenderJson ta po so ds sy co v)
  else Some a.

Definition reflector_params_set (a : PbStampReflector) (k : string) (j : json) : option PbStampReflector :=
  let '(Build_PbStampReflector po so ds sy) := a in
  if key_is "listen_port" k then v ← dec_int64 po j; Some (Build_PbStampReflector v so ds sy)
  else if key_is "source_ip" k then v ← dec_string so j; Some (Build_PbStampReflector po v ds sy)
  else if key_is "dscp" k then v ← dec_int64 ds j; Some (Build_PbStampReflector po so v sy)
  else if key_is "require_clock_sync" k then v ← dec_bool sy j; Some (Build_PbStampReflector po so ds v)
  else Some a.

Definition setTaskParams (taskType : string) (raw_ : raw) : res PbParams :=
  let decode {A B} (set : A → string → json → option A) (zero : A) (k : A → B) : res B :=
    match unmarshal (dec_struct set) zero raw_ with Some p => ROk (k p) | None => RErr "json" end in
  if String.eqb taskType taskTypePing then
    decode ping_params_set (Build_PbPing "" "" 0 0 0 0) (λ p,
      Task_Ping (Build_PbPing (pbp_Target p) (pbp_SourceIp p) (int32 (pbp_Count p))
        (int32 (pbp_Size p)) (int32 (pbp_Dscp p)) (int32 (pbp_TimeoutSeconds p))))
  else if String.eqb taskType taskTypeTrace then
    decode trace_params_set (Build_PbTrace "" "" "" 0 0 0 0) (λ p,
      Task_Trace (Build_PbTrace (pbt_Target p) (pbt_SourceIp p) (pbt_Method p) (int32 (pbt_MaxTtl p))
        (int32 (pbt_FirstTtl p)) (int32 (pbt_Dscp p)) (int32 (pbt_WaitSeconds p))))
  else if String.eqb taskType taskTypeTraceLb then
    decode tracelb_params_set (Build_PbTraceLb "" "" 0 0 0 fzero) (λ p,
      Task_TraceLb (Build_PbTraceLb (pbl_Target p) (pbl_SourceIp p) (int32 (pbl_MaxTtl p))
        (int32 (pbl_FirstTtl p)) (int32 (pbl_Dscp p)) (pbl_Confidence p)))
  else if String.eqb taskType taskTypeStampSender then
    decode sender_params_set (mkStampSenderJson "" 0 "" 0 false 0 0) (λ p,
      Task_StampSender (Build_PbStampSender (ssj_Target p) (int32 (ssj_TargetPort p)) (ssj_SourceIP p)
        (int32 (ssj_Dscp p)) (ssj_RequireClockSync p) (int32 (ssj_PacketCount p))
        (Some (durationpb_New (ssj_PacketInterval p)))))
  else if String.eqb taskType taskTypeStampReflector then
    decode reflector_params_set (Build_PbStampReflector 0 "" 0 false) (λ p,
      Task_StampReflector (Build_PbStampReflector (int32 (pbr_ListenPort p)) (pbr_SourceIp p)
        (int32 (pbr_Dscp p)) (pbr_RequireClockSync p)))
  else RErr "unknown task type".

(** A row of the join: the configuration columns and, when the task id is not
    null, the nullable task columns. *)
Record TaskColumns := {
  tc_task_id : string;
  tc_type : option string;
  tc_enabled : option bool;
  tc_generation : option Z;
  tc_params : option raw;
  tc_interval : option Z;
  tc_jitter : option Z;
  tc_schedule_enabled : option bool;
}.

Record ConfigRow := {
  cr_id : string;
  cr_generation : Z;
  cr_report_endpoint : string;
  cr_report_batch : Z;
  cr_report_interval : Z;
  cr_report_timeout : Z;
  cr_updated_at : Z;
  cr_task : option TaskColumns;
}.

Definition task_of_columns (c : TaskColumns) : res PbTask :=
  let typeStr := default "" (tc_type c) in
  let task params :=
    {| pb_TaskId := tc_task_id c; pb_Type := taskTypeToProto typeStr;
       pb_Enabled := default false (tc_enabled c);
       pb_Generation := int32 (default 0 (tc_generation c)); pb_Params := params;
       pb_Schedule := Some {| pbc_Enabled := default false (tc_schedule_enabled c);
                              pbc_IntervalSeconds := int32 (default 0 (tc_interval c));
                              pbc_JitterPercent := int32 (default 0 (tc_jitter c)) |} |} in
  match tc_params c with
  | Some r => if raw_len_pos r then let? p := setTaskParams typeStr r in ROk (task (Some p))
              else ROk (task None)
  | None => ROk (task None)
  end.

(** The message after the rows so far, [None] before the first row.  Each
    element of [rows] is what [rows.Scan] yields for a row. *)
Fixpoint load_rows (cfg : option PbAgentConfig) (rows : list (res ConfigRow))
    : res (option PbAgentConfig) :=
  match rows with
  | [] => ROk cfg
  | scanned :: rows' =>
      let? r := scanned in
      let cfg' tasks :=
        {| pb_Id := cr_id r; pb_ConfigGeneration := int32 (cr_generation r);
           pb_ReportEndpoint := cr_report_endpoint r; pb_ReportBatchSize := int32 (cr_report_batch r);
           pb_ReportIntervalSeconds := int32 (cr_report_interval r);
           pb_ReportTimeoutSeconds := int32 (cr_report_timeout r); pb_UpdatedAt := cr_updated_at r;
           pb_ScamperPps := 0; pb_Tasks := tasks; pb_PendingActions := [] |} in
      let tasks := match cfg with Some c => pb_Tasks c | None => [] end in
      match cr_task r with
      | None => load_rows (Some (cfg' tasks)) rows'
      | Some c => let? t := task_of_columns c in load_rows (Some (cfg' (tasks ++ [t]))) rows'
      end
  end.

(** [queried] is the outcome of the query, [iterated] of the row iteration. *)
Definition loadAgentConfig (queried : res (list (res ConfigRow))) (iterated : res unit)
    : res PbAgentConfig :=
  let? rows := queried in
  let? cfg := load_rows None rows in
  let? _ := iterated in
  match cfg with Some c => ROk c | None => RErr "agent not found" end.

(** ** The agent: message to domain model *)

Definition TaskTypeStampSender : string := "stamp-sender".
Definition TaskTypeStampReflector : string := "stamp-reflector".
Definition TaskTypeTrace : string := "trace".
Definition TaskTypeTraceLb : string := "tracelb".
Definition TaskTypePing : string := "ping".

Inductive TaskParams :=
| PingParams (Target SourceIP : string) (Count Size Dscp Timeout : Z)
| TraceParams (Target SourceIP Method : string) (MaxTTL FirstTTL Dscp WaitSeconds : Z)
| TraceLbParams (Target SourceIP : string) (MaxTTL FirstTTL Dscp : Z) (Confidence : float64)
| StampSenderParams (Target : string) (TargetPort : Z) (SourceIP : string) (Dscp : Z)
    (RequireClockSync : bool) (PacketCount : Z) (PacketInterval : duration)
| StampReflectorParams (ListenPort : Z) (SourceIP : string) (Dscp : Z) (RequireClockSync : bool).

Record TaskSchedule := { sc_Enabled : bool; sc_IntervalSeconds : Z; sc_JitterPercent : Z }.

Record Task := {
  t_TaskID : string;
  t_Type : string;
  t_Enabled : bool;
  t_Generation : Z;
  t_Params : option TaskParams;
  t_Schedule : TaskSchedule;
}.

Record PendingAction := {
  pa_ID : string;
  pa_Type : string;
  pa_CreatedOn : Z;
  pa_ScheduledOn : time;
}.

Record AgentConfig := {
  ac_ID : string;
  ac_Generation : Z;
  ac_ReportEndpoint : string;
  ac_ReportBatchSize : Z;
  ac_ReportIntervalSeconds : Z;
  ac_ReportTimeoutSeconds : Z;
  ac_PendingActions : list PendingAction;
  ac_Tasks : list Task;
  ac_UpdatedAt : Z;
  ac_ScamperPPS : Z;
}.

Definition taskTypeFromProto (t : PbTaskType) : res string :=
  match t with
  | TASK_TYPE_STAMP_SENDER => ROk TaskTypeStampSender
  | TASK_TYPE_STAMP_REFLECTOR => ROk TaskTypeStampReflector
  | TASK_TYPE_TRACE => ROk TaskTypeTrace
  | TASK_TYPE_TRACE_LB => ROk TaskTypeTraceLb
  | TASK_TYPE_PING => ROk TaskTypePing
  | TASK_TYPE_UNSPECIFIED | TASK_TYPE_OTHER _ => RErr "unknown task type"
  end.

Definition taskParamsFromProto (p : option PbParams) : option TaskParams :=
  match p with
  | Some (Task_Ping v) =>
      Some (PingParams (pbp_Target v) (pbp_SourceIp v) (pbp_Count v) (pbp_Size v) (pbp_Dscp v)
              (pbp_TimeoutSeconds v))
  | Some (Task_Trace v) =>
      Some (TraceParams (pbt_Target v) (pbt_SourceIp v) (pbt_Method v) (pbt_MaxTtl v) (pbt_FirstTtl v)
              (pbt_Dscp v) (pbt_WaitSeconds v))
  | Some (Task_TraceLb v) =>
      Some (TraceLbParams (pbl_Target v) (pbl_SourceIp v) (pbl_MaxTtl v) (pbl_FirstTtl v) (pbl_Dscp v)
              (pbl_Confidence v))
  | Some (Task_StampSender v) =>
      Some (StampSenderParams (pbs_Target v) (pbs_TargetPort v) (pbs_SourceIp v) (pbs_Dscp v)
              (pbs_RequireClockSync v) (pbs_PacketCount v)
              (match pbs_PacketInterval v with Some d => AsDuration d | None => 0 end))
  | Some (Task_StampReflector v) =>
      Some (StampReflectorParams (pbr_ListenPort v) (pbr_SourceIp v) (pbr_Dscp v) (pbr_RequireClockSync v))
  | None => None
  end.

Definition taskFromProto (t : PbTask) : res Task :=
  let? taskType := taskTypeFromProto (pb_Type t) in
  let s := default {| pbc_Enabled := false; pbc_IntervalSeconds := 0; pbc_JitterPercent := 0 |}
             (pb_Schedule t) in
  ROk {| t_TaskID := pb_TaskId t; t_Type := taskType; t_Enabled := pb_Enabled t;
         t_Generation := pb_Generation t; t_Params := taskParamsFromProto (pb_Params t);
         t_Schedule := {| sc_Enabled := pbc_Enabled s; sc_IntervalSeconds := pbc_IntervalSeconds s;
                          sc_JitterPercent := pbc_JitterPercent s |} |}.

Definition pendingActionFromProto (a : PbPendingAction) : res PendingAction :=
  match pba_Type a with
  | PENDING_ACTION_TYPE_RESTART =>
      ROk {| pa_ID := pba_Id a; pa_Type := "restart"; pa_CreatedOn := pba_CreatedOn a;
             pa_ScheduledOn := AsTime (pba_ScheduledOn a) |}
  | _ => RErr "unknown pending action type"
  end.

(** [append] in a loop that returns at the first error. *)
Fixpoint res_map {A B} (f : A → res B) (l : list A) : res (list B) :=
  match l with
  | [] => ROk []
  | x :: l' => let? y := f x in let? ys := res_map f l' in ROk (y :: ys)
  end.

Definition agentConfigFromProto (resp : option PbAgentConfig) : res AgentConfig :=
  match resp with
  | None => RErr "response carries no agent config"
  | Some pb =>
      let? tasks := res_map taskFromProto (pb_Tasks pb) in
      let? actions := res_map pendingActionFromProto (pb_PendingActions pb) in
      ROk {| ac_ID := pb_Id pb; ac_Generation := pb_ConfigGeneration pb;
             ac_ReportEndpoint := pb_ReportEndpoint pb; ac_ReportBatchSize := pb_ReportBatchSize pb;
             ac_ReportIntervalSeconds := pb_ReportIntervalSeconds pb;
             ac_ReportTimeoutSeconds := pb_ReportTimeoutSeconds pb; ac_PendingActions := actions;
             ac_Tasks := tasks; ac_UpdatedAt := pb_UpdatedAt pb; ac_ScamperPPS := pb_ScamperPps pb |}
  end.

(** The handler and the agent's pull over a transport that delivers. *)
Definition GetAgentConfig (serial : string) (queried : res (list (res ConfigRow)))
    (iterated : res unit) : res PbAgentConfig :=
  if String.eqb serial "" then RErr "invalid_argument: missing serial_id"
  else match loadAgentConfig queried iterated with
       | RErr e => RErr (if String.eqb e "agent not found" then "not_found" else "internal")
       | x => x
       end.

Definition pullConfiguration (serial : string) (queried : res (list (res ConfigRow)))
    (iterated : res unit) : res AgentConfig :=
  let? msg := GetAgentConfig serial queried iterated in
  agentConfigFromProto (Some msg).

(** ** Theorems *)

(** The task type whose executor asserts this variant. *)
Definition params_type (p : TaskParams) : string :=
  match p with
  | PingParams _ _ _ _ _ _ => TaskTypePing
  | TraceParams _ _ _ _ _ _ _ => TaskTypeTrace
  | TraceLbParams _ _ _ _ _ _ => TaskTypeTraceLb
  | StampSenderParams _ _ _ _ _ _ _ => TaskTypeStampSender
  | StampReflectorParams _ _ _ _ => TaskTypeStampReflector
  end.

Definition pb_typed (t : PbTask) : Prop :=
  ∀ p q, pb_Params t = Some p → taskParamsFromProto (Some p) = Some q →
    taskTypeFromProto (pb_Type t) = ROk (params_type q).

Definition columns_of (rows : list ConfigRow) : list TaskColumns := omap cr_task rows.

(** The columns of a task the pipeline accepts. *)
Definition known_type (c : TaskColumns) : Prop :=
  taskTypeToProto (default "" (tc_type c)) ≠ TASK_TYPE_UNSPECIFIED.

Lemma setTaskParams_typed ty r p q :
  setTaskParams ty r = ROk p → taskParamsFromProto (Some p) = Some q →
  taskTypeFromProto (taskTypeToProto ty) = ROk (params_type q).
Proof.
  unfold setTaskParams, taskTypeToProto.
  destruct (String.eqb ty taskTypePing); [case_match; intros; by simplify_eq/=|].
  destruct (String.eqb ty taskTypeTrace); [case_match; intros; by simplify_eq/=|].
  destruct (String.eqb ty taskTypeTraceLb); [case_match; intros; by simplify_eq/=|].
  destruct (String.eqb ty taskTypeStampSender); [case_match; intros; by simplify_eq/=|].
  destruct (String.eqb ty taskTypeStampReflector); [case_match; intros; by simplify_eq/=|done].
Qed.

Lemma task_of_columns_ok c t :
  task_of_columns c = ROk t →
  pb_TaskId t = tc_task_id c ∧ pb_Type t = taskTypeToProto (default "" (tc_type c)) ∧
  pb_Generation t = int32 (default 0 (tc_generation c)) ∧ pb_typed t.
Proof.
  unfold task_of_columns. destruct (tc_params c) as [r|].
  - destruct (raw_len_pos r).
    + destruct (setTaskParams _ r) as [p|e|e] eqn:E; simpl; [|done..]. intros [= <-].
      repeat split. intros p' q. simpl. intros [= <-]. by eapply setTaskParams_typed.
    + intros [= <-]. by repeat split.
  - intros [= <-]. by repeat split.
Qed.

Lemma load_rows_ok cfg rows cfg' :
  load_rows cfg (ROk <$> rows) = ROk cfg' →
  (rows ≠ [] ∨ is_Some cfg → is_Some cfg') ∧
  ∃ ts, Forall2 (λ c t, task_of_columns c = ROk t) (columns_of rows) ts ∧
    match cfg' with
    | Some c' => pb_Tasks c' = match cfg with Some c => pb_Tasks c | None => [] end ++ ts
    | None => cfg = None ∧ rows = []
    end ∧
    (∀ c', cfg' = Some c' → pb_PendingActions c' = [] ∨ cfg' = cfg).
Proof.
  revert cfg. induction rows as [|r rows IH]; intros cfg; csimpl.
  { intros [= <-]. split; [tauto|]. exists []. split; [constructor|].
    split; [destruct cfg; [by rewrite app_nil_r|done]|auto]. }
  destruct (cr_task r) as [c|]; simpl.
  - destruct (task_of_columns c) as [t|e|e] eqn:E; simpl; [|done..].
    intros Hl. apply IH in Hl as [Hs (ts & Hts & Htasks & Hp)].
    destruct (Hs ltac:(eauto)) as [c' ->]. split; [eauto|]. exists (t :: ts).
    split; [by constructor|]. split; [rewrite Htasks; simpl; by rewrite <- app_assoc|].
    intros c'' [= <-]. left. destruct (Hp c' eq_refl) as [?|[= ->]]; done.
  - intros Hl. apply IH in Hl as [Hs (ts & Hts & Htasks & Hp)].
    destruct (Hs ltac:(eauto)) as [c' ->]. split; [eauto|]. exists ts.
    split; [done|]. split; [by rewrite Htasks|].
    intros c'' [= <-]. left. destruct (Hp c' eq_refl) as [?|[= ->]]; done.
Qed.

Lemma res_map_ok {A B} (f : A → res B) l l' :
  res_map f l = ROk l' ↔ Forall2 (λ x y, f x = ROk y) l l'.
Proof.
  split.
  - revert l'. induction l as [|x l IH]; intros l'; simpl; [by intros [= <-]|].
    destruct (f x) as [y|e|e] eqn:E; simpl; [|done..].
    destruct (res_map f l) as [ys|e|e]; simpl; [|done..]. intros [= <-]. constructor; auto.
  - induction 1 as [|x y l l' E _ IH]; simpl; [done|]. rewrite E. simpl. by rewrite IH.
Qed.

Lemma load_rows_succeeds cfg rows ts :
  Forall2 (λ c t, task_of_columns c = ROk t) (columns_of rows) ts →
  is_ok (load_rows cfg (ROk <$> rows)) = true.
Proof.
  revert cfg ts. induction rows as [|r rows IH]; intros cfg ts; csimpl; [done|].
  destruct (cr_task r) as [c|]; simpl; [|apply IH].
  intros (t & ts' & E & Hts & ->)%Forall2_cons_inv_l. rewrite E. simpl. by eapply IH.
Qed.

Lemma pull_ok serial rows c :
  pullConfiguration serial (ROk (ROk <$> rows)) (ROk tt) = ROk c →
  serial ≠ "" ∧ rows ≠ [] ∧
  ∃ ts, Forall2 (λ c t, task_of_columns c = ROk t) (columns_of rows) ts ∧
    Forall2 (λ t t', taskFromProto t = ROk t') ts (ac_Tasks c).
Proof.
  unfold pullConfiguration, GetAgentConfig. destruct (String.eqb_spec serial ""); [done|].
  unfold loadAgentConfig. cbn [res_bind].
  destruct (load_rows None (ROk <$> rows)) as [[cfg|]|e|e] eqn:E; cbn [res_bind]; [| |done..].
  2: { done. }
  assert (rows ≠ []) as Hne by (by intros ->).
  apply load_rows_ok in E as [_ (ts & Hts & Htasks & _)]. simpl in Htasks.
  unfold agentConfigFromProto. rewrite Htasks.
  destruct (res_map taskFromProto ts) as [ts'|e|e] eqn:Et; simpl; [|done..].
  destruct (res_map pendingActionFromProto _) as [pa|e|e]; simpl; [|done..].
  intros [= <-]. split; [done|]. split; [done|]. exists ts. split; [done|]. by apply res_map_ok.
Qed.

(** What the stored parameters of a task of this type mean: integers are cut to
    32 bits on the wire, the interval of a sender is not. *)
Definition params_meant (ty : string) (r : raw) : option TaskParams :=
  if String.eqb ty "ping" then
    (λ v, PingParams (pbp_Target v) (pbp_SourceIp v) (int32 (pbp_Count v)) (int32 (pbp_Size v))
            (int32 (pbp_Dscp v)) (int32 (pbp_TimeoutSeconds v))) <$>
      unmarshal (dec_struct ping_params_set) (Build_PbPing "" "" 0 0 0 0) r
  else if String.eqb ty "trace" then
    (λ v, TraceParams (pbt_Target v) (pbt_SourceIp v) (pbt_Method v) (int32 (pbt_MaxTtl v))
            (int32 (pbt_FirstTtl v)) (int32 (pbt_Dscp v)) (int32 (pbt_WaitSeconds v))) <$>
      unmarshal (dec_struct trace_params_set) (Build_PbTrace "" "" "" 0 0 0 0) r
  else if String.eqb ty "tracelb" then
    (λ v, TraceLbParams (pbl_Target v) (pbl_SourceIp v) (int32 (pbl_MaxTtl v)) (int32 (pbl_FirstTtl v))
            (int32 (pbl_Dscp v)) (pbl_Confidence v)) <$>
      unmarshal (dec_struct tracelb_params_set) (Build_PbTraceLb "" "" 0 0 0 fzero) r
  else if String.eqb ty "stamp-sender" then
    (λ v, StampSenderParams (ssj_Target v) (int32 (ssj_TargetPort v)) (ssj_SourceIP v) (int32 (ssj_Dscp v))
            (ssj_RequireClockSync v) (int32 (ssj_PacketCount v)) (ssj_PacketInterval v)) <$>
      unmarshal (dec_struct sender_params_set) (mkStampSenderJson "" 0 "" 0 false 0 0) r
  else if String.eqb ty "stamp-reflector" then
    (λ v, StampReflectorParams (int32 (pbr_ListenPort v)) (pbr_SourceIp v) (int32 (pbr_Dscp v))
            (pbr_RequireClockSync v)) <$>
      unmarshal (dec_struct reflector_params_set) (Build_PbStampReflector 0 "" 0 false) r
  else None.

(** The task an agent is to run for the columns of a row. *)
Record task_meant (c : TaskColumns) (t : Task) : Prop := {
  tm_id : t_TaskID t = tc_task_id c;
  tm_type : Some (t_Type t) = tc_type c;
  tm_enabled : t_Enabled t = default false (tc_enabled c);
  tm_generation : t_Generation t = int32 (default 0 (tc_generation c));
  tm_schedule : t_Schedule t = {| sc_Enabled := default false (tc_schedule_enabled c);
                                  sc_IntervalSeconds := int32 (default 0 (tc_interval c));
                                  sc_JitterPercent := int32 (default 0 (tc_jitter c)) |};
  tm_params : match tc_params c with
              | Some r => if raw_len_pos r
                          then ∃ p, t_Params t = Some p ∧ params_type p = t_Type t ∧
                                 params_meant (t_Type t) r = Some p
                          else t_Params t = None
              | None => t_Params t = None
              end;
}.

Lemma sender_interval r v :
  unmarshal (dec_struct sender_params_set) (mkStampSenderJson "" 0 "" 0 false 0 0) r = Some v →
  int64_ok (ssj_PacketInterval v).
Proof.
  assert (dec_keeps (λ v, int64_ok (ssj_PacketInterval v)) (dec_struct sender_params_set)) as Hk.
  { apply dec_struct_keeps. intros [ta po so ds sy co iv] k j a' Ha. unfold sender_params_set.
    repeat case_match; try (intros (x & _ & [= <-])%bind_Some; exact Ha); [|by intros [= <-]].
    intros (x & Hx & [= <-])%bind_Some. by eapply dec_int64_keeps. }
  unfold unmarshal. destruct r; try done. apply Hk. by split.
Qed.

Lemma setTaskParams_meant ty r p :
  setTaskParams ty r = ROk p →
  ∃ q, taskParamsFromProto (Some p) = Some q ∧ params_meant ty r = Some q ∧ params_type q = ty.
Proof.
  unfold setTaskParams, params_meant.
  destruct (String.eqb_spec ty taskTypePing) as [->|_]; [simpl; case_match; intros; simplify_eq/=; eauto|].
  destruct (String.eqb_spec ty taskTypeTrace) as [->|_]; [simpl; case_match; intros; simplify_eq/=; eauto|].
  destruct (String.eqb_spec ty taskTypeTraceLb) as [->|_]; [simpl; case_match; intros; simplify_eq/=; eauto|].
  destruct (String.eqb_spec ty taskTypeStampSender) as [->|_].
  { simpl. destruct (unmarshal _ _ r) as [v|] eqn:E; [|done]. intros; simplify_eq/=.
    rewrite AsDuration_New by (by apply sender_interval in E). eauto. }
  destruct (String.eqb_spec ty taskTypeStampReflector) as [->|_]; [simpl; case_match; intros; simplify_eq/=; eauto|done].
Qed.

Lemma known_type_same ty x : taskTypeFromProto (taskTypeToProto ty) = ROk x → x = ty.
Proof.
  unfold taskTypeToProto.
  repeat (match goal with |- context [String.eqb ty ?s] => destruct (String.eqb_spec ty s) as [->|_]; [by intros [= <-]|] end).
  done.
Qed.

Lemma task_arrives c t t' : task_of_columns c = ROk t → taskFromProto t = ROk t' → task_meant c t'.
Proof.
  intros E Et. pose proof E as (_ & Ety & _)%task_of_columns_ok. unfold taskFromProto in Et.
  destruct (taskTypeFromProto (pb_Type t)) as [ty|e|e] eqn:Ef; simplify_eq/=. rewrite Ety in Ef.
  pose proof (known_type_same _ _ Ef) as Hty. unfold task_of_columns in E.
  assert (Some ty = tc_type c) as Hc by (destruct (tc_type c); [by subst|by subst]).
  destruct (tc_params c) as [r|] eqn:Ep; [destruct (raw_len_pos r) eqn:El|]; simplify_eq/=.
  - destruct (setTaskParams _ r) as [p|e|e] eqn:Es; simplify_eq/=.
    apply setTaskParams_meant in Es as (q & E1 & E2 & E3). split; try done. rewrite Ep, El.
    exists q. simpl in E1. split; [exact E1|]. split; [exact E3|exact E2].
  - split; try done. by rewrite Ep, El.
  - split; try done. by rewrite Ep.
Qed.

(** The tasks of a pulled configuration, row by row. *)
Lemma pull_tasks serial rows c :
  pullConfiguration serial (ROk (ROk <$> rows)) (ROk tt) = ROk c →
  Forall2 task_meant (columns_of rows) (ac_Tasks c).
Proof.
  intros (_ & _ & ts & Hts & Hts')%pull_ok. revert Hts'. generalize (ac_Tasks c) as l. clear c.
  induction Hts as [|x t cols ts E _ IH]; intros l Hl.
  { apply Forall2_nil_inv_l in Hl as ->. constructor. }
  apply Forall2_cons_inv_l in Hl as (t' & l' & Et & Hl' & ->). constructor; [by eapply task_arrives|by apply IH].
Qed.


Lemma type_known ty : is_ok (taskTypeFromProto (taskTypeToProto ty)) = true ↔
  taskTypeToProto ty ≠ TASK_TYPE_UNSPECIFIED.
Proof. unfold taskTypeToProto. repeat case_match; split; done. Qed.

Lemma task_accepted c t :
  task_of_columns c = ROk t → is_ok (taskFromProto t) = true ↔ known_type c.
Proof.
  intros (_ & E & _)%task_of_columns_ok. unfold taskFromProto, known_type. rewrite E, <- type_known.
  by destruct (taskTypeFromProto _).
Qed.

Lemma res_map_all {A B} (f : A → res B) l :
  Forall (λ x, is_ok (f x) = true) l → ∃ l', Forall2 (λ x y, f x = ROk y) l l'.
Proof.
  induction 1 as [|x l Hx _ [l' IH]]; [by exists []|].
  destruct (f x) as [y|e|e] eqn:E; [|done..]. exists (y :: l'). by constructor.
Qed.

(** C37. A pull succeeds exactly when the serial is given, the device has rows,
    and every task's parameters decode and its type is known: one task of an
    unknown type makes the agent reject its whole configuration. *)
Theorem config_accepted_iff serial rows :
  is_ok (pullConfiguration serial (ROk (ROk <$> rows)) (ROk tt)) = true ↔
  serial ≠ "" ∧ rows ≠ [] ∧
  Forall (λ c, is_ok (task_of_columns c) = true ∧ known_type c) (columns_of rows).
Proof.
  split.
  - destruct (pullConfiguration _ _ _) as [c|e|e] eqn:E; [|done..]. intros _.
    apply pull_ok in E as (H1 & H2 & ts & Hts & Hts'). split; [done|]. split; [done|].
    revert Hts'. generalize (ac_Tasks c). induction Hts as [|x t cols ts E _ IH]; intros l Hl; [done|].
    apply Forall2_cons_inv_l in Hl as (t' & l' & Et & Hl' & ->). constructor; [|by eapply IH].
    rewrite E. split; [done|]. apply (task_accepted x t E). by rewrite Et.
  - intros (Hs & Hr & Hall). unfold pullConfiguration, GetAgentConfig.
    destruct (String.eqb_spec serial ""); [done|].
    destruct (res_map_all task_of_columns (columns_of rows)) as [ts Hts];
      [eapply Forall_impl; [done|by intros ? []]|].
    pose proof (load_rows_succeeds None rows ts Hts) as Hok.
    unfold loadAgentConfig. cbn [res_bind].
    destruct (load_rows None (ROk <$> rows)) as [cfg|e|e] eqn:E; [|done..].
    apply load_rows_ok in E as [Hsome (ts' & Hts' & Htasks & Hpa)].
    destruct (Hsome ltac:(by left)) as [c ->]. cbn [res_bind]. unfold agentConfigFromProto.
    simpl in Htasks. rewrite Htasks.
    destruct (Hpa c eq_refl) as [->|?]; [|done].
    assert (Forall (λ t, is_ok (taskFromProto t) = true) ts') as Hok'.
    { clear -Hts' Hall. induction Hts' as [|x t cols ts E _ IH]; [done|].
      apply Forall_cons in Hall as [[_ Hk] Hall]. constructor; [by apply (task_accepted x t E)|auto]. }
    destruct (res_map_all taskFromProto ts' Hok') as [l Hl].
    apply res_map_ok in Hl. by rewrite Hl.
Qed.

End Messages.

(** ** Witnesses *)

(** A duration message as its nanoseconds. *)
#[export] Instance ExampleProto : ProtoTime.
Proof.
  refine {| PbDuration := Z; durationpb_New := id; AsDuration := id; PbTimestamp := Z;
            AsTime := λ o, default 0 o |}.
  done.
Defined.

Definition ping_columns : TaskColumns :=
  {| tc_task_id := "t1"; tc_type := Some "ping"; tc_enabled := Some true; tc_generation := Some 3;
     tc_params := Some (RawDoc (JObj [("target", JStr "192.0.2.1"); ("count", enc_int 5)]));
     tc_interval := Some 60; tc_jitter := Some 10; tc_schedule_enabled := Some true |}.

Definition one_row : list ConfigRow :=
  [{| cr_id := "c1"; cr_generation := 1; cr_report_endpoint := "nats"; cr_report_batch := 10;
      cr_report_interval := 5; cr_report_timeout := 5; cr_updated_at := 0; cr_task := Some ping_columns |}].

