(* ===== verification/ControlPlane.v ===== *)
(** * The control plane's HTTP service (services/server/server.go, agentv1connect)

    The agent's client derives the address of the one procedure from the base
    URL it is configured with; the server mounts the handler of the service in
    a [ServeMux] and the handler switches on the path.  The theorem follows a
    request from the configured URL to [Handler.GetAgentConfig] and back. *)

From Stdlib Require Import Ascii.
From S2P Require Import Prelude Json AgentConfig Environment.

Local Open Scope go_scope.

#[local] Arguments String.append !_ _ / : simpl nomatch.

(** ** The client *)

Definition AgentConfigServiceGetAgentConfigProcedure : string :=
  "/cepheus.agent.v1.AgentConfigService/GetAgentConfig".

(** [strings.TrimRight(s, "/")] *)
Fixpoint TrimRight (s : string) : string :=
  match s with
  | EmptyString => EmptyString
  | String c s' =>
      match TrimRight s' with
      | EmptyString => if Ascii.eqb c "/" then EmptyString else String c EmptyString
      | t => String c t
      end
  end.

(** The URL every call of the client is sent to. *)
Definition NewAgentConfigServiceClient (baseURL : string) : string :=
  TrimRight baseURL +:+ AgentConfigServiceGetAgentConfigProcedure.

(** [url.Parse] and the checks of [http.Client] on the URL of a call: the scheme
    is "http" in any case, an authority is there and its port is a number; query
    and fragment are no part of the path.  A URL with other characters (escapes,
    user names, IPv6 literals) or for TLS is not for this server as it is. *)

Definition char_in (l : string) (c : ascii) : bool := bool_decide (c ∈ String.list_ascii_of_string l).

Definition in_range (lo hi : nat) (c : ascii) : bool := Nat.leb lo (nat_of_ascii c) && Nat.leb (nat_of_ascii c) hi.

Definition alnum (c : ascii) : bool := in_range 48 57 c || in_range 65 90 c || in_range 97 122 c.

Definition plain_char (c : ascii) : bool := alnum c || char_in "-._~:/?#!$&'()*+,;=" c.

Fixpoint all_chars (f : ascii → bool) (s : string) : bool :=
  match s with EmptyString => true | String c s' => f c && all_chars f s' end.

(** The longest prefix without a character of [stop], and the rest. *)
Fixpoint span (stop : ascii → bool) (s : string) : string * string :=
  match s with
  | EmptyString => (EmptyString, EmptyString)
  | String c s' => if stop c then (EmptyString, s) else let '(a, b) := span stop s' in (String c a, b)
  end.

Fixpoint strip (p s : string) : option string :=
  match p, s with
  | EmptyString, _ => Some s
  | String c p', String d s' => if Ascii.eqb c d then strip p' s' else None
  | _, EmptyString => None
  end.

Definition valid_authority (a : string) : bool :=
  negb (String.eqb a "") &&
  match snd (span (char_in ":") a) with
  | EmptyString => true
  | String _ port => all_chars (in_range 48 57) port
  end.

Inductive parsed_url := BadURL | Elsewhere | PlainHTTP (path : string).

Definition parse_url (url : string) : parsed_url :=
  if negb (all_chars plain_char url) then Elsewhere
  else
    let '(scheme, rest) := span (char_in ":") url in
    match strip "://" rest with
    | None => BadURL
    | Some r =>
        if String.eqb (lower scheme) "http" then
          let '(authority, tail) := span (char_in "/?#") r in
          if valid_authority authority then PlainHTTP (fst (span (char_in "?#") tail)) else BadURL
        else if String.eqb (lower scheme) "https" then Elsewhere
        else BadURL
    end.

(** ** The server *)

Inductive http_answer := Handled | NotFound | Redirected (to : string).

(** The handler of the service, with the path it is mounted on. *)
Definition service_path : string := "/cepheus.agent.v1.AgentConfigService/".

Definition service_handler (path : string) : http_answer :=
  if String.eqb path AgentConfigServiceGetAgentConfigProcedure then Handled else NotFound.

Definition NewAgentConfigServiceHandler : string * (string → http_answer) := (service_path, service_handler).

(** [http.ServeMux] with one pattern that ends in a slash: a path that is not
    clean is redirected, and so is the pattern without its slash. *)
Definition ends_in_slash (s : string) : bool :=
  match last (String.list_ascii_of_string s) with Some c => Ascii.eqb c "/" | None => false end.

Definition cleanPath (p : string) : string :=
  let p1 := if rooted p then p else "/" +:+ p in
  let np := Clean p1 in
  if ends_in_slash p1 && negb (String.eqb np "/") then np +:+ "/" else np.

Definition ServeMux (pattern : string) (handler : string → http_answer) (path : string) : http_answer :=
  if negb (String.eqb (cleanPath path) path) then Redirected (cleanPath path)
  else if String.prefix pattern path then handler path
  else if String.eqb (path +:+ "/") pattern then Redirected pattern
  else NotFound.

Definition NewServer : string → http_answer :=
  ServeMux (fst NewAgentConfigServiceHandler) (snd NewAgentConfigServiceHandler).

(** A call of the agent against a server whose database answers with [queried]
    and [iterated]; a redirected or unknown path is an error for the client.  The
    empty path is requested as "/".  [elsewhere] is what comes of other URLs. *)
Definition call (elsewhere : string → res AgentConfig) (baseURL serial : string)
    (queried : res (list (res ConfigRow))) (iterated : res unit) : res AgentConfig :=
  let url := NewAgentConfigServiceClient baseURL in
  match parse_url url with
  | BadURL => RErr "unsupported protocol scheme or no Host in request URL"
  | Elsewhere => elsewhere url
  | PlainHTTP path =>
      match NewServer (if String.eqb path "" then "/" else path) with
      | Handled => pullConfiguration serial queried iterated
      | NotFound => RErr "unimplemented: 404 Not Found"
      | Redirected _ => RErr "unexpected redirect"
      end
  end.

(** ** Theorems *)

Fixpoint slashes (n : nat) : string := match n with O => EmptyString | S n' => String "/" (slashes n') end.

Lemma TrimRight_slashes n : TrimRight (slashes n) = "".
Proof. induction n as [|n IH]; simpl; [done|]. by rewrite IH. Qed.

Lemma TrimRight_app s t : TrimRight t = "" → TrimRight (s +:+ t) = TrimRight s.
Proof. intros Ht. induction s as [|c s IH]; simpl; [done|]. by rewrite IH. Qed.

Lemma TrimRight_id s t : t ≠ "" → TrimRight t = t → TrimRight (s +:+ t) = s +:+ t.
Proof.
  intros Hne Ht. induction s as [|c s IH]; simpl; [done|]. rewrite IH.
  destruct (s +:+ t) eqn:E; [|done]. by destruct s, t.
Qed.

(** No character of [s] is one of [l]. *)
Definition free_of (l s : string) : bool := all_chars (negb ∘ char_in l) s.

Lemma all_chars_app f s t : all_chars f (s +:+ t) = all_chars f s && all_chars f t.
Proof. induction s as [|c s IH]; simpl; [done|]. by rewrite IH, andb_assoc. Qed.

Lemma all_chars_impl (f g : ascii → bool) s :
  (∀ c, f c = true → g c = true) → all_chars f s = true → all_chars g s = true.
Proof. intros H. induction s as [|c s IH]; simpl; [done|]. intros [? ?]%andb_true_iff. by rewrite H, IH. Qed.

Lemma TrimRight_free t : free_of "/" t = true → TrimRight t = t.
Proof.
  unfold free_of. induction t as [|c t IH]; simpl; [done|]. intros [Hc Ht]%andb_true_iff.
  rewrite IH by done. destruct t; [|done]. destruct (Ascii.eqb_spec c "/") as [->|]; done.
Qed.

Lemma TrimRight_mid s c t : c ≠ "/"%char → TrimRight (s +:+ String c t) = s +:+ String c (TrimRight t).
Proof.
  intros Hc. induction s as [|d s IH]; simpl.
  - destruct (TrimRight t); [|done]. by destruct (Ascii.eqb_spec c "/").
  - rewrite IH. by destruct s.
Qed.

Lemma TrimRight_chars f s : all_chars f s = true → all_chars f (TrimRight s) = true.
Proof.
  induction s as [|c s IH]; simpl; [done|]. intros [Hc Hs]%andb_true_iff. specialize (IH Hs).
  destruct (TrimRight s); [destruct (Ascii.eqb c "/"); simpl; by rewrite ?Hc|]. simpl in *. by rewrite Hc.
Qed.

Lemma span_app stop s t :
  all_chars (negb ∘ stop) s = true → match t with EmptyString => true | String c _ => stop c end = true →
  span stop (s +:+ t) = (s, t).
Proof.
  intros Hs Ht. induction s as [|c s IH]; simpl in *.
  - destruct t as [|c t]; [done|]. simpl. by rewrite Ht.
  - apply andb_true_iff in Hs as [Hc%negb_true_iff Hs]. by rewrite Hc, IH.
Qed.

(** An authority of plain characters. *)
Definition host_ok (host : string) : bool :=
  all_chars plain_char host && free_of "/?#" host && valid_authority host.

Lemma parse_http host tail :
  host_ok host = true → all_chars plain_char tail = true →
  match tail with EmptyString => true | String c _ => char_in "/?#" c end = true →
  parse_url ("http://" +:+ host +:+ tail) = PlainHTTP (fst (span (char_in "?#") tail)).
Proof.
  intros [[Hp Hf]%andb_true_iff Hv]%andb_true_iff Ht Hc. unfold parse_url.
  rewrite !all_chars_app, Hp, Ht. cbn [negb andb all_chars]. rewrite !andb_true_r.
  change (negb (all_chars plain_char "http://")) with false. cbv iota.
  change ("http://" +:+ host +:+ tail) with ("http" +:+ ("://" +:+ host +:+ tail)).
  rewrite span_app by done. cbn [strip String.append Ascii.eqb Bool.eqb]. simpl strip.
  change (String.eqb (lower "http") "http") with true. cbv iota. rewrite span_app by done. by rewrite Hv.
Qed.

Lemma NewServer_handled path :
  NewServer path = Handled ↔ path = AgentConfigServiceGetAgentConfigProcedure.
Proof.
  split; [|intros ->; by vm_compute].
  unfold NewServer, ServeMux. simpl. case_match; [done|]. case_match; [|by case_match].
  unfold service_handler. case_match; [|done]. intros _. by apply String.eqb_eq.
Qed.

(** What the client requests for a base URL with a path of its own. *)
Lemma client_path host path n :
  host_ok host = true → all_chars plain_char path = true → free_of "?#" path = true →
  TrimRight path = path → (path = "" ∨ ∃ p, path = String "/" p) →
  parse_url (NewAgentConfigServiceClient ("http://" +:+ host +:+ path +:+ slashes n)) =
    PlainHTTP (path +:+ AgentConfigServiceGetAgentConfigProcedure).
Proof.
  intros Hh Hp Hq Ht Hcase. unfold NewAgentConfigServiceClient.
  assert (TrimRight ("http://" +:+ host +:+ path +:+ slashes n) = "http://" +:+ host +:+ path) as ->.
  { rewrite <- !str_app_assoc. rewrite TrimRight_app by apply TrimRight_slashes.
    destruct Hcase as [->|[p ->]]; [rewrite str_app_nil_r|by apply TrimRight_id].
    unfold host_ok, valid_authority in Hh. apply andb_true_iff in Hh as [[_ Hf]%andb_true_iff [Hne _]%andb_true_iff].
    apply TrimRight_id; [intros ->; done|]. apply TrimRight_free. unfold free_of.
    eapply all_chars_impl; [|exact Hf]. intros c. simpl. rewrite !negb_true_iff.
    unfold char_in. rewrite !bool_decide_eq_false. simpl. set_solver. }
  rewrite !str_app_assoc, parse_http; [|done|by rewrite all_chars_app, Hp|destruct Hcase as [->|[p ->]]; done].
  pose proof (span_app (char_in "?#") (path +:+ AgentConfigServiceGetAgentConfigProcedure) "") as E.
  rewrite str_app_nil_r in E. rewrite E; [done| |done]. unfold free_of in Hq. by rewrite all_chars_app, Hq.
Qed.


