(* ===== verification/ServerRun.v ===== *)
(** * The running control plane (services/server/server.go, cmd/main.go)

    The server once its pool is open: main in [srv.Start], requests in flight,
    and the goroutine that waits for a signal and calls [srv.Shutdown].  As
    net/http documents, [ListenAndServe] returns [ErrServerClosed] as soon as
    [Shutdown] is called, while [Shutdown] itself returns when the requests in
    flight are answered or its context ends.  A request is its path; the
    handler is the mux of [NewServer]. *)

From S2P Require Import Prelude Environment ControlPlane.

(** main: before the socket is bound, serving, and at its end. *)
Inductive main_position := Binding | Serving | Ended (status : nat).

(** The goroutine: waiting for a signal, in [srv.Shutdown], after it. *)
Inductive shutdown_position := AwaitingSignal | ShuttingDown | ShutDown (drained : bool).

(** Requests are numbered by their place in [sr_accepted]; [sr_cut] are those in
    flight when the process ended. *)
Record server := {
  sr_main : main_position;
  sr_shutdown : shutdown_position;
  sr_accepted : list string;
  sr_inflight : list nat;
  sr_answered : list (nat * http_answer);
  sr_cut : list nat;
}.

Definition server_init : server :=
  {| sr_main := Binding; sr_shutdown := AwaitingSignal; sr_accepted := []; sr_inflight := []; sr_answered := [];
     sr_cut := [] |}.

Inductive server_event :=
| Binds (outcome : res unit)
| Accepts (path : string)
| Answers (i : nat)
| Signalled
| ServeReturns
| ShutdownReturns (drained : bool).

Definition set_main (m : main_position) (s : server) : server :=
  {| sr_main := m; sr_shutdown := sr_shutdown s; sr_accepted := sr_accepted s; sr_inflight := sr_inflight s;
     sr_answered := sr_answered s; sr_cut := sr_cut s |}.

Definition set_shutdown (g : shutdown_position) (s : server) : server :=
  {| sr_main := sr_main s; sr_shutdown := g; sr_accepted := sr_accepted s; sr_inflight := sr_inflight s;
     sr_answered := sr_answered s; sr_cut := sr_cut s |}.

(** The return of main ends the process and every goroutine with it. *)
Definition main_ends (status : nat) (s : server) : server :=
  {| sr_main := Ended status; sr_shutdown := sr_shutdown s; sr_accepted := sr_accepted s; sr_inflight := [];
     sr_answered := sr_answered s; sr_cut := sr_inflight s |}.

(** [Server.Start] up to its first accept: after [Shutdown] it does not listen
    at all, and a failure to bind ends main with status 1. *)
Definition Server_Start (outcome : res unit) (s : server) : option server :=
  match sr_main s, sr_shutdown s, outcome with
  | Binding, AwaitingSignal, ROk _ => Some (set_main Serving s)
  | Binding, AwaitingSignal, _ => Some (main_ends 1 s)
  | Binding, _, _ => Some (main_ends 0 s)
  | _, _, _ => None
  end.

Definition accept (path : string) (s : server) : option server :=
  match sr_main s, sr_shutdown s with
  | Serving, AwaitingSignal =>
      Some {| sr_main := sr_main s; sr_shutdown := sr_shutdown s; sr_accepted := sr_accepted s ++ [path];
              sr_inflight := sr_inflight s ++ [length (sr_accepted s)]; sr_answered := sr_answered s;
              sr_cut := sr_cut s |}
  | _, _ => None
  end.

Definition answer (i : nat) (s : server) : option server :=
  match sr_accepted s !! i with
  | Some path =>
      if decide (i ∈ sr_inflight s) then
        Some {| sr_main := sr_main s; sr_shutdown := sr_shutdown s; sr_accepted := sr_accepted s;
                sr_inflight := filter (λ j, j ≠ i) (sr_inflight s);
                sr_answered := sr_answered s ++ [(i, NewServer path)]; sr_cut := sr_cut s |}
      else None
  | None => None
  end.

(** SIGINT or SIGTERM, and the call of [Shutdown]. *)
Definition signalled (s : server) : option server :=
  match sr_main s, sr_shutdown s with
  | Ended _, _ => None
  | _, AwaitingSignal => Some (set_shutdown ShuttingDown s)
  | _, _ => None
  end.

(** [ListenAndServe] returns [ErrServerClosed], which main takes for success. *)
Definition serve_returns (s : server) : option server :=
  match sr_main s, sr_shutdown s with
  | Serving, AwaitingSignal => None
  | Serving, _ => Some (main_ends 0 s)
  | _, _ => None
  end.

(** [Server.Shutdown] returns without error when nothing is in flight, and with
    the error of its context otherwise. *)
Definition Server_Shutdown (drained : bool) (s : server) : option server :=
  match sr_main s, sr_shutdown s with
  | Ended _, _ => None
  | _, ShuttingDown =>
      if implb drained (bool_decide (sr_inflight s = [])) then Some (set_shutdown (ShutDown drained) s) else None
  | _, _ => None
  end.

Definition server_step (e : server_event) (s : server) : option server :=
  match e with
  | Binds outcome => Server_Start outcome s
  | Accepts path => accept path s
  | Answers i => answer i s
  | Signalled => signalled s
  | ServeReturns => serve_returns s
  | ShutdownReturns drained => Server_Shutdown drained s
  end.

Definition server_run (es : list server_event) (s : server) : option server :=
  foldl (λ o e, o ≫= server_step e) (Some s) es.

(** ** The invariant *)

Record server_ok (s : server) : Prop := {
  so_once : seq 0 (length (sr_accepted s)) ≡ₚ (sr_answered s).*1 ++ sr_inflight s ++ sr_cut s;
  so_answers : ∀ i a, (i, a) ∈ sr_answered s → ∃ path, sr_accepted s !! i = Some path ∧ a = NewServer path;
  so_cut : sr_cut s ≠ [] → ∃ n, sr_main s = Ended n;
  so_status : match sr_main s with
              | Ended O => sr_shutdown s ≠ AwaitingSignal
              | Ended _ => sr_accepted s = []
              | Binding => sr_accepted s = []
              | Serving => True
              end;
}.

Lemma server_init_ok : server_ok server_init.
Proof. split; try done. intros i a Hi. by apply elem_of_nil in Hi. Qed.

Lemma main_ends_ok n s :
  server_ok s → (∀ k, sr_main s ≠ Ended k) →
  match n with O => sr_shutdown s ≠ AwaitingSignal | S _ => sr_accepted s = [] end → server_ok (main_ends n s).
Proof.
  intros [H1 H2 H3 _] Hm Hn. split; simpl; [|done|by exists n|by destruct n].
  destruct (decide (sr_cut s = [])) as [E|E]; [by rewrite E, app_nil_r in H1|].
  by destruct (H3 E) as [k Hk%Hm].
Qed.

Lemma server_step_ok e s s' : server_ok s → server_step e s = Some s' → server_ok s'.
Proof.
  intros Hok. pose proof Hok as [H1 H2 H3 H4].
  destruct e as [outcome|path|i| | |d]; simpl.
  - unfold Server_Start. destruct (sr_main s) eqn:Em; [|done|done].
    destruct (sr_shutdown s) eqn:Es; [destruct outcome|..]; intros [= <-].
    all: try (apply main_ends_ok; [done|congruence|congruence]).
    split; simpl; [done|done| |done]. by intros [n Hn]%H3.
  - unfold accept. destruct (sr_main s) eqn:Em; [done| |done]. destruct (sr_shutdown s) eqn:Es; [|done..].
    intros [= <-]. split; simpl; rewrite ?Em; [| |by intros [n Hn]%H3|done].
    + rewrite length_app, seq_app, H1, <- !(assoc_L (++)). simpl. apply Permutation_app_head, Permutation_app_head.
      apply Permutation_app_comm.
    + intros i a (p & Hp & ->)%H2. exists p. split; [|done]. by apply lookup_app_l_Some.
  - unfold answer. destruct (sr_accepted s !! i) as [path|] eqn:Ea; [|done].
    destruct (decide (i ∈ sr_inflight s)) as [Hi|]; [|done]. intros [= <-].
    assert (NoDup (sr_inflight s)) as Hnd.
    { pose proof (NoDup_seq 0 (length (sr_accepted s))) as Hn. rewrite H1 in Hn.
      apply NoDup_app in Hn as (_ & _ & Hn). by apply NoDup_app in Hn as (Hn & _). }
    split; simpl; [|intros j a [Hj|Hj]%elem_of_app; [by auto|apply list_elem_of_singleton in Hj; naive_solver]|done|done].
    rewrite fmap_app, <- !(assoc_L (++)), H1. simpl. apply Permutation_app_head.
    change (i :: ?a ++ ?b) with ((i :: a) ++ b). apply Permutation_app_tail.
    apply NoDup_Permutation; [done| |intros x; rewrite elem_of_cons, list_elem_of_filter; destruct (decide (x = i)); naive_solver].
    constructor; [rewrite list_elem_of_filter; naive_solver|by apply NoDup_filter].
  - unfold signalled. destruct (sr_main s) eqn:Em; [| |done]; destruct (sr_shutdown s) eqn:Es; try done.
    all: intros [= <-]; split; simpl; rewrite ?Em; auto; by intros [? ?]%H3.
  - unfold serve_returns. destruct (sr_main s) eqn:Em; [done| |done]. destruct (sr_shutdown s) eqn:Es; [done|..].
    all: intros [= <-]; apply main_ends_ok; [done|congruence|congruence].
  - unfold Server_Shutdown. destruct (sr_main s) eqn:Em; [| |done]; destruct (sr_shutdown s) eqn:Es; try done.
    all: case_match; [|done]; intros [= <-]; split; simpl; rewrite ?Em; auto; by intros [? ?]%H3.
Qed.

Lemma run_none es : foldl (λ o e, o ≫= server_step e) None es = None.
Proof. by induction es. Qed.

(** Requests are accounted for: in every run each accepted request is answered
    once, with what the mux says, or is in flight, or was cut off by the end of
    the process; main ends with status 0 only after a signal, and with another
    only when the socket could not be bound, before any request. *)
Theorem server_accounts es s : server_run es server_init = Some s → server_ok s.
Proof.
  unfold server_run. generalize server_init_ok. generalize server_init. induction es as [|e es IH]; intros s0 H0; simpl.
  - by intros [= <-].
  - destruct (server_step e s0) as [s1|] eqn:E; [|by rewrite run_none].
    apply IH. by eapply server_step_ok.
Qed.

(** main does not wait for [Shutdown]: a run in which a signal arrives while a
    request is in flight and the process ends with status 0 before answering. *)
Example exit_cuts_requests :
  ∃ s, server_run [Binds (ROk tt); Accepts AgentConfigServiceGetAgentConfigProcedure; Signalled; ServeReturns]
         server_init = Some s ∧ sr_main s = Ended 0 ∧ sr_cut s = [0].
Proof. eexists. split; [vm_compute; reflexivity|]. done. Qed.
