(* ===== verification/Supervisor.v ===== *)
(** * The agent's supervisor (services/agent/supervisor*.go, task.go, utils.go, data_stream.go)

    Reconciliation of the running tasks with the desired ones, the schedule of
    a task loop with its jitter, and the bounded buffer of probe results.  A
    running task is a handle on the goroutine that was started for it: each
    start draws a new identity, and [live] is the set of goroutines that have
    not returned.  A goroutine returns when [Stop] cancels its context, which
    waits for it, or by itself ([loop_returns]); in the second case its handle
    stays in [running]. *)

From S2P Require Import Prelude Float64 GoTime Json AgentConfig.

Local Open Scope Z_scope.

(** ** Reconciliation *)

Record RunningTask := { rt_Spec : Task; rt_id : nat }.

Record Supervisor := {
  running : gmap string RunningTask;
  desired : gmap string Task;
  live : gset nat;
  next_id : nat;
}.

Definition NewSupervisor : Supervisor :=
  {| running := ∅; desired := ∅; live := ∅; next_id := 0 |}.

(** [startTask]: the goroutine and its handle. *)
Definition startTask (spec : Task) (s : Supervisor) : Supervisor * RunningTask :=
  ({| running := running s; desired := desired s; live := {[next_id s]} ∪ live s;
      next_id := S (next_id s) |}, {| rt_Spec := spec; rt_id := next_id s |}).

Definition Stop (rt : RunningTask) (s : Supervisor) : Supervisor :=
  {| running := running s; desired := desired s; live := live s ∖ {[rt_id rt]}; next_id := next_id s |}.

(** [startTaskLoop] has returned by itself and [done] is closed; nobody looks at
    [done] but [Stop], so the handle stays where it is. *)
Definition loop_returns (rt : RunningTask) (s : Supervisor) : Supervisor :=
  {| running := running s; desired := desired s; live := live s ∖ {[rt_id rt]}; next_id := next_id s |}.

Definition set_running (s : Supervisor) (m : gmap string RunningTask) : Supervisor :=
  {| running := m; desired := desired s; live := live s; next_id := next_id s |}.

Definition toStop (s : Supervisor) : list RunningTask :=
  (filter (λ kv, desired s !! kv.1 = None) (map_to_list (running s))).*2.

(** [delete(s.running, rt.Spec.TaskID)] for each stopped task. *)
Definition forget (l : list RunningTask) (m : gmap string RunningTask) : gmap string RunningTask :=
  foldr (λ rt m, delete (t_TaskID (rt_Spec rt)) m) m l.

(** The first half: stop what is no longer desired, forget it. *)
Definition stop_removed (s : Supervisor) : Supervisor :=
  let l := toStop s in
  let s1 := foldr Stop s l in
  set_running s1 (forget l (running s1)).

(** One iteration of the second loop. *)
Definition reconcile_one (s : Supervisor) (kv : string * Task) : Supervisor :=
  let '(id, d) := kv in
  match running s !! id with
  | None =>
      let '(s1, rt) := startTask d s in set_running s1 (<[id := rt]> (running s1))
  | Some rt =>
      if Z.eqb (t_Generation (rt_Spec rt)) (t_Generation d) then s
      else
        let '(s1, rt') := startTask d (Stop rt s) in set_running s1 (<[id := rt']> (running s1))
  end.

(** [order] is the iteration order of [range s.desired]. *)
Definition reconcile (order : gmap string Task → list (string * Task)) (s : Supervisor) : Supervisor :=
  let s1 := stop_removed s in
  foldl reconcile_one s1 (order (desired s1)).

Definition SetDesiredTasks (order : gmap string Task → list (string * Task)) (tasks : list Task)
    (s : Supervisor) : Supervisor :=
  let d := foldl (λ m t, <[t_TaskID t := t]> m) ∅ tasks in
  reconcile order {| running := running s; desired := d; live := live s; next_id := next_id s |}.

(** ** Task loops *)

(** [rand] is the value [rand.Int63n] returns, taken modulo its bound; the
    function panics when its argument is not positive. *)
Definition computeJitter (rand : Z) (interval : duration) (jitterPerc : Z) : res duration :=
  if Z.leb jitterPerc 0 then ROk interval
  else
    let maxJitter := Z.quot (int64 (interval * jitterPerc)) 100 in
    let bound := int64 (maxJitter * 2) in
    if Z.leb bound 0 then RPanic "invalid argument to Int63n"
    else ROk (int64 (interval + int64 (rand mod bound - maxJitter))).

(** What a task's goroutine does. *)
Inductive loop_result :=
| LoopRefused (why : string)
| LoopOnce
| LoopPanics (runs : nat)
| LoopPeriodic (first period : duration).

Definition startTaskLoop (rand : Z) (spec : Task) : loop_result :=
  match t_Params spec with
  | None => LoopRefused "task has no params"
  | Some _ =>
      let interval := int64 (sc_IntervalSeconds (t_Schedule spec) * Second) in
      if Z.ltb interval 0 then LoopRefused "interval less than zero"
      else if negb (sc_Enabled (t_Schedule spec)) then LoopOnce
      else
        match computeJitter rand interval (sc_JitterPercent (t_Schedule spec)) with
        | ROk jitter =>
            (* time.After(jitter), runOnce, then time.NewTicker(interval) *)
            if Z.leb interval 0 then LoopPanics 1 else LoopPeriodic jitter interval
        | _ => LoopPanics 0
        end
  end.

(** ** Probe results *)

Section Stream.
Context {A : Type}.

Record ProbeDataStream := { ps_buf : list A; ps_cap : nat }.

Definition NewProbeDataStream (size : nat) : ProbeDataStream := {| ps_buf := []; ps_cap := size |}.

(** [done]: the context is cancelled; [pick_done]: what select chooses when
    both the send and the cancellation are ready.  The default branch logs on a
    logger that is never set. *)
Definition Insert (done pick_done : bool) (data : A) : go ProbeDataStream bool := fun p =>
  if Nat.ltb (length (ps_buf p)) (ps_cap p) then
    if done && pick_done then (p, ROk false)
    else ({| ps_buf := ps_buf p ++ [data]; ps_cap := ps_cap p |}, ROk true)
  else if done then (p, ROk false)
  else (p, RPanic "nil pointer dereference").

(** The loop of [Pull] from round [i]: [ctx i] tells whether the context is
    cancelled in that round and what select chooses when a result is ready too.
    On cancellation what was taken is dropped. *)
Fixpoint pull_loop (ctx : nat → bool * bool) (i n : nat) (acc : list A) (p : ProbeDataStream)
    : ProbeDataStream * option (list A) :=
  match n with
  | O => (p, Some acc)
  | S n' =>
      let '(done, pick_done) := ctx i in
      match ps_buf p with
      | [] => (p, if done then None else Some acc)
      | x :: l =>
          if done && pick_done then (p, None)
          else pull_loop ctx (S i) n' (acc ++ [x]) {| ps_buf := l; ps_cap := ps_cap p |}
      end
  end.

Definition Pull (ctx : nat → bool * bool) (n : Z) : go ProbeDataStream (option (list A)) := fun p =>
  if Z.ltb n 0 then (p, RPanic "makeslice: cap out of range")
  else let '(p', r) := pull_loop ctx 0 (Z.to_nat n) [] p in (p', ROk r).

End Stream.
Arguments ProbeDataStream A : clear implicits.

(** ** Reconciliation: lemmas *)

(** Handles are filed under their task id and name distinct goroutines, and
    every live goroutine has a handle. *)
Record sup_ok (s : Supervisor) : Prop := {
  so_id : ∀ id rt, running s !! id = Some rt → t_TaskID (rt_Spec rt) = id;
  so_inj : ∀ id1 id2 rt1 rt2, running s !! id1 = Some rt1 → running s !! id2 = Some rt2 →
    rt_id rt1 = rt_id rt2 → id1 = id2;
  so_live : ∀ n, n ∈ live s → ∃ id rt, running s !! id = Some rt ∧ rt_id rt = n;
  so_next : ∀ id rt, running s !! id = Some rt → (rt_id rt < next_id s)%nat;
  so_desired : ∀ id t, desired s !! id = Some t → t_TaskID t = id;
}.

(** What is filed under a task id: the handle and whether its goroutine lives. *)
Definition task_at (s : Supervisor) (id : string) : option (RunningTask * bool) :=
  rt ← running s !! id; Some (rt, bool_decide (rt_id rt ∈ live s)).

Lemma task_at_Some s id rt alive :
  task_at s id = Some (rt, alive) ↔ running s !! id = Some rt ∧ alive = bool_decide (rt_id rt ∈ live s).
Proof. unfold task_at. destruct (running s !! id); naive_solver. Qed.

Lemma task_at_None s id : task_at s id = None ↔ running s !! id = None.
Proof. unfold task_at. by destruct (running s !! id). Qed.

(** The same handle, as alive as before. *)
Lemma task_at_same s s' id :
  running s' !! id = running s !! id →
  (∀ rt, running s !! id = Some rt → rt_id rt ∈ live s' ↔ rt_id rt ∈ live s) → task_at s' id = task_at s id.
Proof.
  intros E Hl. unfold task_at. rewrite E. destruct (running s !! id) as [rt|]; [|done]. simpl.
  do 2 f_equal. apply bool_decide_ext. by apply Hl.
Qed.

(** A goroutine that returns by itself. *)
Lemma loop_returns_ok s rt : sup_ok s → sup_ok (loop_returns rt s).
Proof. intros [H1 H2 H3 H4 H5]. split; simpl; try done. intros n [Hn _]%elem_of_difference. by apply H3. Qed.

Lemma foldr_Stop l s :
  running (foldr Stop s l) = running s ∧ desired (foldr Stop s l) = desired s ∧
  next_id (foldr Stop s l) = next_id s ∧
  ∀ n, n ∈ live (foldr Stop s l) ↔ n ∈ live s ∧ ∀ rt, rt ∈ l → rt_id rt ≠ n.
Proof.
  induction l as [|rt l (H1 & H2 & H3 & H4)]; simpl; [set_solver|].
  split; [done|]. split; [done|]. split; [done|]. intros n. set_solver.
Qed.

Lemma forget_out l m id :
  (∀ rt, rt ∈ l → t_TaskID (rt_Spec rt) ≠ id) → forget l m !! id = m !! id.
Proof.
  induction l as [|rt l IH]; intros Hl; [done|]. simpl.
  rewrite lookup_delete_ne by (apply Hl; set_solver). apply IH. set_solver.
Qed.

Lemma forget_in l m id rt :
  rt ∈ l → t_TaskID (rt_Spec rt) = id → forget l m !! id = None.
Proof.
  intros Hin Hid. induction l as [|rt' l IH]; [set_solver|]. simpl.
  destruct (decide (t_TaskID (rt_Spec rt') = id)) as [->|Hne]; [apply lookup_delete_eq|].
  rewrite lookup_delete_ne by done. apply IH. set_solver.
Qed.

Lemma elem_of_toStop s rt :
  rt ∈ toStop s ↔ ∃ id, running s !! id = Some rt ∧ desired s !! id = None.
Proof.
  unfold toStop. rewrite list_elem_of_fmap. split.
  - intros ([id rt'] & -> & [Hd Hin%elem_of_map_to_list]%list_elem_of_filter). eauto.
  - intros (id & Hr & Hd). exists (id, rt). split; [done|].
    apply list_elem_of_filter. split; [done|]. by apply elem_of_map_to_list.
Qed.

Lemma stop_removed_spec s :
  sup_ok s →
  sup_ok (stop_removed s) ∧ desired (stop_removed s) = desired s ∧
  ∀ id, task_at (stop_removed s) id = if decide (is_Some (desired s !! id)) then task_at s id else None.
Proof.
  intros Hok. destruct (foldr_Stop (toStop s) s) as (Hr & Hd & Hn & Hl).
  assert (∀ id, running (stop_removed s) !! id =
    if decide (is_Some (desired s !! id)) then running s !! id else None) as Hrun.
  { intros id. unfold stop_removed. simpl. rewrite Hr.
    destruct (desired s !! id) as [t|] eqn:Ed.
    - rewrite decide_True by eauto. apply forget_out.
      intros rt (id' & Hrt & Hd')%elem_of_toStop Hid. apply (so_id s Hok) in Hrt. congruence.
    - rewrite decide_False by (by intros []).
      destruct (running s !! id) as [rt|] eqn:Ert.
      + apply (forget_in _ _ _ rt); [apply elem_of_toStop; eauto|by eapply so_id].
      + rewrite <- Ert. apply forget_out.
        intros rt (id' & Hrt & Hd')%elem_of_toStop Hid. pose proof (so_id s Hok _ _ Hrt). congruence. }
  assert (∀ id rt, running (stop_removed s) !! id = Some rt → running s !! id = Some rt) as Hsub.
  { intros id rt. rewrite Hrun. by case_decide. }
  assert (∀ n, n ∈ live (stop_removed s) ↔ n ∈ live s ∧ ∀ rt, rt ∈ toStop s → rt_id rt ≠ n) as Hlive
    by (intros n; unfold stop_removed; simpl; apply Hl).
  split; [|split; [unfold stop_removed; simpl; done|]].
  - split.
    + intros id rt Hrt%Hsub. by eapply so_id.
    + intros id1 id2 rt1 rt2 H1%Hsub H2%Hsub. by eapply so_inj.
    + intros n [Hn' Hns]%Hlive. destruct (so_live s Hok n Hn') as (id & rt & Hrt & <-).
      exists id, rt. rewrite Hrun. rewrite decide_True; [done|]. destruct (desired s !! id) eqn:Ed; [by eauto|].
      exfalso. apply (Hns rt); [apply elem_of_toStop; eauto|done].
    + intros id rt Hrt%Hsub. unfold stop_removed. simpl. rewrite Hn. by eapply so_next.
    + unfold stop_removed. simpl. rewrite Hd. apply (so_desired s Hok).
  - intros id. case_decide as Ed.
    + apply task_at_same; [by rewrite Hrun, decide_True|]. intros rt Hrt. rewrite Hlive.
      split; [by intros [? _]|]. intros Hin. split; [done|].
      intros rt' (id' & Hrt' & Hd')%elem_of_toStop Heq.
      assert (id' = id) as -> by (by eapply so_inj). rewrite Hd' in Ed. by destruct Ed.
    + apply task_at_None. by rewrite Hrun, decide_False.
Qed.

(** What reconciliation makes of a desired task, given what was filed under its
    id: nothing changes when the generation is the same, otherwise a goroutine
    with the new spec runs. *)
Definition converged (old : option (RunningTask * bool)) (t : Task) (new : RunningTask * bool) : Prop :=
  match old with
  | Some (rt0, alive) =>
      if Z.eqb (t_Generation (rt_Spec rt0)) (t_Generation t) then new = (rt0, alive)
      else rt_Spec new.1 = t ∧ new.2 = true
  | None => rt_Spec new.1 = t ∧ new.2 = true
  end.

Lemma start_ok s id d :
  sup_ok s → t_TaskID d = id → running s !! id = None →
  let '(s1, rt) := startTask d s in
  let s' := set_running s1 (<[id := rt]> (running s1)) in
  sup_ok s' ∧ task_at s' id = Some (rt, true) ∧ ∀ id', id' ≠ id → task_at s' id' = task_at s id'.
Proof.
  intros [H1 H2 H3 H4 H5] Hd Hnone. simpl.
  assert (∀ id' rt, running s !! id' = Some rt → rt_id rt ≠ next_id s) as Hfresh
    by (intros id' rt Hrt%H4; lia).
  split; [split; simpl|split].
  - intros id' rt. rewrite lookup_insert. case_decide; [|eauto]. by intros [= <-]; subst.
  - intros id1 id2 rt1 rt2. rewrite !lookup_insert.
    repeat case_decide; subst; intros; simplify_eq/=; try done; try (by eapply H2); exfalso.
    + eapply Hfresh; [done|]. by symmetry.
    + by eapply Hfresh.
  - intros n [->%elem_of_singleton|(id' & rt & Hrt & <-)%H3]%elem_of_union.
    + eexists id, _. by rewrite lookup_insert_eq.
    + exists id', rt. rewrite lookup_insert_ne; [done|]. congruence.
  - intros id' rt. rewrite lookup_insert. case_decide; [intros [= <-]; simpl; lia|]. intros Hl%H4. lia.
  - done.
  - apply task_at_Some. simpl. rewrite lookup_insert_eq. split; [done|].
    by rewrite bool_decide_true by set_solver.
  - intros id' Hne. apply task_at_same; simpl; [by rewrite lookup_insert_ne|].
    intros rt Hrt%Hfresh. set_solver.
Qed.

(** Stopping a task and forgetting it. *)
Lemma stop_ok s id rt :
  sup_ok s → running s !! id = Some rt →
  let s' := set_running (Stop rt s) (delete id (running s)) in
  sup_ok s' ∧ ∀ id', id' ≠ id → task_at s' id' = task_at s id'.
Proof.
  intros [H1 H2 H3 H4 H5] Hrt.
  assert (∀ id' rt', delete id (running s) !! id' = Some rt' → id' ≠ id ∧ running s !! id' = Some rt') as Hd.
  { intros id' rt'. rewrite lookup_delete_Some. naive_solver. }
  split; [split; simpl|].
  - intros id' rt' [_ ?]%Hd. by eapply H1.
  - intros id1 id2 rt1 rt2 [_ ?]%Hd [_ ?]%Hd. by eapply H2.
  - intros n [(id' & rt' & Hrt' & <-)%H3 Hne%not_elem_of_singleton]%elem_of_difference.
    exists id', rt'. split; [|done]. rewrite lookup_delete_ne; [done|]. congruence.
  - intros id' rt' [_ ?]%Hd. by eapply H4.
  - done.
  - intros id' Hne. apply task_at_same; simpl; [by rewrite lookup_delete_ne|].
    intros rt' Hrt'. assert (rt_id rt' ≠ rt_id rt) by (intros E; apply Hne; by eapply H2). set_solver.
Qed.

Lemma reconcile_one_spec s id d :
  sup_ok s → t_TaskID d = id →
  let s' := reconcile_one s (id, d) in
  sup_ok s' ∧ desired s' = desired s ∧
  (∃ x, task_at s' id = Some x ∧ converged (task_at s id) d x) ∧
  ∀ id', id' ≠ id → task_at s' id' = task_at s id'.
Proof.
  intros Hok Hd s'. subst s'. unfold reconcile_one, converged.
  destruct (running s !! id) as [rt|] eqn:Ert.
  - assert (task_at s id = Some (rt, bool_decide (rt_id rt ∈ live s))) as Hat by (by apply task_at_Some).
    rewrite Hat. destruct (Z.eqb_spec (t_Generation (rt_Spec rt)) (t_Generation d)) as [Heq|Hne].
    + split; [done|]. split; [done|]. split; [eauto|done].
    + destruct (stop_ok s id rt Hok Ert) as [Hok1 Hf1].
      pose proof (start_ok _ id d Hok1 Hd ltac:(apply lookup_delete_eq)) as Hok2. simpl in Hok2.
      assert (<[id := {| rt_Spec := d; rt_id := next_id s |}]> (delete id (running s)) =
              <[id := {| rt_Spec := d; rt_id := next_id s |}]> (running s)) as E
        by (apply insert_delete_eq).
      simpl. unfold set_running in *. simpl in *. rewrite E in Hok2. destruct Hok2 as (Hok2 & Hnew & Hf2).
      split; [exact Hok2|]. split; [done|]. split; [by eexists|].
      intros id' Hid. rewrite Hf2 by done. by apply Hf1.
  - pose proof (start_ok s id d Hok Hd Ert) as Hok1. simpl in *. destruct Hok1 as (Hok1 & Hnew & Hf).
    apply task_at_None in Ert as ->. split; [exact Hok1|]. split; [done|]. split; [by eexists|exact Hf].
Qed.

Lemma reconcile_loop l s :
  sup_ok s → NoDup l.*1 → (∀ id t, (id, t) ∈ l → t_TaskID t = id) →
  let s' := foldl reconcile_one s l in
  sup_ok s' ∧ desired s' = desired s ∧
  (∀ id t, (id, t) ∈ l → ∃ x, task_at s' id = Some x ∧ converged (task_at s id) t x) ∧
  ∀ id, id ∉ l.*1 → task_at s' id = task_at s id.
Proof.
  revert s. induction l as [|[id d] l IH]; intros s Hok Hnd Hid.
  { split; [done|]. split; [done|]. split; [set_solver|done]. }
  cbn [fmap list_fmap fst] in *. apply NoDup_cons in Hnd as [Hnin Hnd].
  destruct (reconcile_one_spec s id d Hok) as (Hok1 & Hd1 & (x & Hx & Hc) & Hother);
    [apply Hid; set_solver|].
  cbn [foldl]. destruct (IH (reconcile_one s (id, d)) Hok1 Hnd) as (Hok2 & Hd2 & Hin & Hout);
    [intros; apply Hid; set_solver|].
  split; [done|]. split; [by rewrite Hd2|]. split.
  - intros id' t [[= -> ->]|Hl]%elem_of_cons.
    + exists x. by rewrite Hout.
    + destruct (Hin id' t Hl) as (x' & Hx' & Hc'). exists x'. split; [done|].
      rewrite Hother in Hc'; [done|]. intros ->. apply Hnin.
      apply list_elem_of_fmap. by exists (id, t).
  - intros id' [Hne Hnot]%not_elem_of_cons. rewrite Hout by done. by apply Hother.
Qed.

(** ** Reconciliation: theorems *)

(** The map that SetDesiredTasks builds. *)
Definition task_map (tasks : list Task) : gmap string Task := foldl (λ m t, <[t_TaskID t := t]> m) ∅ tasks.

Lemma task_map_snoc tasks t : task_map (tasks ++ [t]) = <[t_TaskID t := t]> (task_map tasks).
Proof. unfold task_map. by rewrite foldl_snoc. Qed.

Lemma task_map_ids tasks id t : task_map tasks !! id = Some t → t_TaskID t = id.
Proof.
  induction tasks as [|t0 tasks IH] using rev_ind; [done|].
  rewrite task_map_snoc, lookup_insert. case_decide; [by intros [= <-]|done].
Qed.

(** With distinct ids every task is in the map. *)
Lemma task_map_lookup tasks t : NoDup (t_TaskID <$> tasks) → t ∈ tasks → task_map tasks !! t_TaskID t = Some t.
Proof.
  induction tasks as [|t0 tasks IH] using rev_ind; [set_solver|].
  rewrite fmap_app, NoDup_app. intros (Hnd & Hdis & _) [Hin|[->|[]%elem_of_nil]%elem_of_cons]%elem_of_app;
    rewrite task_map_snoc; [|by rewrite lookup_insert_eq].
  rewrite lookup_insert_ne; [by apply IH|]. intros E. apply (Hdis (t_TaskID t)).
  - apply list_elem_of_fmap. eauto.
  - simpl. rewrite E. set_solver.
Qed.

(** The last task of an id wins. *)
Lemma task_map_last tasks id : task_map tasks !! id = last (filter (λ t, t_TaskID t = id) tasks).
Proof.
  induction tasks as [|t tasks IH] using rev_ind; [done|].
  rewrite task_map_snoc, filter_app, last_app, filter_cons, filter_nil, lookup_insert, IH.
  by case_decide.
Qed.

Lemma task_map_dom tasks : dom (task_map tasks) = list_to_set (t_TaskID <$> tasks).
Proof.
  induction tasks as [|t0 tasks IH] using rev_ind; [apply dom_empty_L|].
  rewrite task_map_snoc, dom_insert_L, IH, fmap_app, list_to_set_app_L. simpl. set_solver.
Qed.

Section Reconcile.
Context (order : gmap string Task → list (string * Task)).
Context (Horder : ∀ m, order m ≡ₚ map_to_list m).

(** One pass, whatever the iteration order. *)
Lemma reconcile_spec s :
  sup_ok s →
  let s' := reconcile order s in
  sup_ok s' ∧ desired s' = desired s ∧
  ∀ id, match desired s !! id with
        | Some t => ∃ x, task_at s' id = Some x ∧ converged (task_at s id) t x
        | None => task_at s' id = None
        end.
Proof.
  intros Hok. destruct (stop_removed_spec s Hok) as (Hok1 & Hd1 & Hrun).
  unfold reconcile. rewrite Hd1.
  assert (∀ id t, (id, t) ∈ order (desired s) ↔ desired s !! id = Some t) as Hin.
  { intros id t. by rewrite Horder, elem_of_map_to_list. }
  destruct (reconcile_loop (order (desired s)) (stop_removed s) Hok1) as (Hok2 & Hd2 & Hl & Hout).
  { rewrite Horder. apply NoDup_fst_map_to_list. }
  { intros id t Hid%Hin. exact (so_desired s Hok _ _ Hid). }
  split; [done|]. split; [by rewrite Hd2, Hd1|]. intros id.
  destruct (desired s !! id) as [t|] eqn:Ed.
  - destruct (Hl id t) as (x & Hx & Hc); [by apply Hin|]. exists x. split; [done|].
    rewrite Hrun, decide_True in Hc by eauto. done.
  - rewrite Hout.
    + rewrite Hrun, decide_False; [done|]. rewrite Ed. by intros [].
    + rewrite list_elem_of_fmap. intros ([id' t] & -> & Hin'%Hin). simpl in *. congruence.
Qed.

Lemma converged_generation old t x : converged old t x → t_Generation (rt_Spec x.1) = t_Generation t.
Proof.
  unfold converged. destruct old as [[rt0 alive]|]; [|by intros [-> _]].
  destruct (Z.eqb_spec (t_Generation (rt_Spec rt0)) (t_Generation t)); [by intros ->|by intros [-> _]].
Qed.

Lemma SetDesiredTasks_spec tasks s :
  sup_ok s →
  let s' := SetDesiredTasks order tasks s in
  sup_ok s' ∧ desired s' = task_map tasks ∧
  ∀ id, match task_map tasks !! id with
        | Some t => ∃ x, task_at s' id = Some x ∧ converged (task_at s id) t x
        | None => task_at s' id = None
        end.
Proof.
  intros [H1 H2 H3 H4 _]. unfold SetDesiredTasks. fold (task_map tasks).
  set (s0 := Build_Supervisor (running s) (task_map tasks) (live s) (next_id s)).
  assert (sup_ok s0) as Hok0 by (split; try done; apply task_map_ids).
  destruct (reconcile_spec s0 Hok0) as (Hok & Hd & Hall). by split; [|split].
Qed.

(** C25. After the desired tasks are set, whatever ran before and in whatever
    order the map is walked: the ids that run are those of the given tasks; for
    each id the last task given decides.  Where the handle already there has its
    generation nothing changes: the same handle, whose goroutine lives if and
    only if it lived before, so a goroutine that returned by itself is not
    started again.  Where the generation differs or there was no handle, a live
    goroutine runs the given spec.  And no other goroutine is alive: each live
    one belongs to the handle of one id. *)
Theorem SetDesiredTasks_converges tasks s :
  sup_ok s →
  let s' := SetDesiredTasks order tasks s in
  sup_ok s' ∧ dom (running s') = list_to_set (t_TaskID <$> tasks) ∧
  (∀ id t, last (filter (λ t, t_TaskID t = id) tasks) = Some t →
    desired s' !! id = Some t ∧
    match task_at s id with
    | Some (rt0, alive) =>
        if Z.eqb (t_Generation (rt_Spec rt0)) (t_Generation t) then task_at s' id = Some (rt0, alive)
        else ∃ rt, task_at s' id = Some (rt, true) ∧ rt_Spec rt = t
    | None => ∃ rt, task_at s' id = Some (rt, true) ∧ rt_Spec rt = t
    end) ∧
  ∀ n, n ∈ live s' → ∃ id rt, running s' !! id = Some rt ∧ rt_id rt = n.
Proof.
  intros Hok s'. destruct (SetDesiredTasks_spec tasks s Hok) as (Hok' & Hd & Hall). fold s' in Hok', Hd, Hall.
  split; [done|]. split; [|split; [|apply (so_live s' Hok')]].
  - rewrite <- task_map_dom. apply set_eq. intros id. rewrite !elem_of_dom. specialize (Hall id).
    destruct (task_map tasks !! id).
    + destruct Hall as ([rt alive] & [-> _]%task_at_Some & _). split; eauto.
    + apply task_at_None in Hall as ->. split; by intros [].
  - intros id t Ht. rewrite <- task_map_last in Ht. rewrite Hd. split; [done|].
    specialize (Hall id). rewrite Ht in Hall. destruct Hall as ([rt alive] & Hx & Hc).
    unfold converged in Hc. simpl in Hc. destruct (task_at s id) as [[rt0 alive0]|]; [|destruct Hc as [? ->]; eauto].
    destruct (Z.eqb (t_Generation (rt_Spec rt0)) (t_Generation t)); [by rewrite Hx, Hc|].
    destruct Hc as [? ->]; eauto.
Qed.

Lemma reconcile_one_id s id t rt :
  running s !! id = Some rt → t_Generation (rt_Spec rt) = t_Generation t →
  reconcile_one s (id, t) = s.
Proof. intros Hrt Hg. unfold reconcile_one. rewrite Hrt, Hg. by rewrite Z.eqb_refl. Qed.

(** Reconciliation is idempotent: a second pass over the same desired tasks
    starts nothing, stops nothing and changes nothing. *)
Theorem reconcile_idempotent s :
  sup_ok s → reconcile order (reconcile order s) = reconcile order s.
Proof.
  intros Hok. destruct (reconcile_spec s Hok) as (Hok' & Hd & Hall).
  set (s' := reconcile order s) in *.
  assert (toStop s' = []) as Hstop.
  { destruct (toStop s') as [|rt l] eqn:E; [done|].
    assert (rt ∈ toStop s') as Hin by (rewrite E; set_solver).
    apply elem_of_toStop in Hin as (id & Hrt & Hnone). rewrite Hd in Hnone.
    specialize (Hall id). rewrite Hnone in Hall. apply task_at_None in Hall. congruence. }
  assert (stop_removed s' = s') as Hs by (unfold stop_removed; rewrite Hstop; by destruct s').
  unfold reconcile at 1. rewrite Hs.
  assert (∀ l, (∀ id t, (id, t) ∈ l → desired s' !! id = Some t) → foldl reconcile_one s' l = s') as Hl.
  { induction l as [|[id t] l IH]; intros Hl; [done|]. cbn [foldl].
    pose proof (Hl id t ltac:(set_solver)) as Ht. rewrite Hd in Ht.
    specialize (Hall id). rewrite Ht in Hall. destruct Hall as ([rt alive] & [Hrt _]%task_at_Some & Hc).
    rewrite (reconcile_one_id s' id t rt Hrt) by (by apply converged_generation in Hc).
    apply IH. set_solver. }
  apply Hl. intros id t. by rewrite Horder, elem_of_map_to_list.
Qed.

End Reconcile.

(** ** Schedules *)

Lemma jitter_range rand interval perc :
  0 < perc ≤ 100 → 100 ≤ interval * perc ≤ 4611686018427387904 →
  let m := interval * perc / 100 in
  ∃ d, computeJitter rand interval perc = ROk d ∧ interval - m ≤ d < interval + m ∧ 0 ≤ d.
Proof.
  intros Hp Hi m. unfold computeJitter. destruct (Z.leb_spec perc 0); [lia|].
  assert (0 ≤ interval) as Hi0 by nia.
  rewrite (int64_id (interval * perc)) by lia. rewrite Z.quot_div_nonneg by lia.
  pose proof (Z.div_mod (interval * perc) 100 ltac:(lia)) as E.
  pose proof (Z.mod_pos_bound (interval * perc) 100 ltac:(lia)) as B. fold m in E |- *.
  assert (1 ≤ m ≤ interval) as Hm by nia.
  assert (m ≤ 46116860184273879) as Hm2 by lia.
  rewrite (int64_id (m * 2)) by lia. destruct (Z.leb_spec (m * 2) 0); [lia|].
  pose proof (Z.mod_pos_bound rand (m * 2) ltac:(lia)) as Br.
  rewrite (int64_id (rand mod (m * 2) - m)) by lia.
  assert (interval ≤ 4611686018427387904) by nia.
  rewrite int64_id by lia. eexists. split; [done|]. lia.
Qed.

(** The schedule of a task with parameters and a moderate interval: a task
    that is not scheduled runs once; a scheduled task with a positive interval
    first runs after the interval give or take the jitter percentage, never a
    negative time, and then every interval; a scheduled task with a zero
    interval panics, after one run without jitter and before any with it. *)
Theorem task_loop_schedule rand spec p :
  t_Params spec = Some p →
  let secs := sc_IntervalSeconds (t_Schedule spec) in
  let perc := sc_JitterPercent (t_Schedule spec) in
  0 ≤ secs ≤ 4611686018 → perc ≤ 100 → secs * perc ≤ 4611686018 →
  match startTaskLoop rand spec with
  | LoopRefused _ => False
  | LoopOnce => sc_Enabled (t_Schedule spec) = false
  | LoopPanics runs => sc_Enabled (t_Schedule spec) = true ∧ secs = 0 ∧
      runs = (if Z.leb perc 0 then 1 else 0)%nat
  | LoopPeriodic first period => sc_Enabled (t_Schedule spec) = true ∧ 0 < secs ∧
      period = secs * Second ∧ 0 ≤ first ∧
      Z.abs (first - period) ≤ period * Z.max 0 perc / 100
  end.
Proof.
  intros Hp secs perc Hs Hpc Hov. unfold startTaskLoop. rewrite Hp. fold secs perc.
  assert (int64 (secs * Second) = secs * Second) as -> by (apply int64_id; unfold Second; lia).
  destruct (Z.ltb_spec (secs * Second) 0); [unfold Second in *; lia|].
  destruct (sc_Enabled (t_Schedule spec)); simpl; [|done].
  destruct (Z.leb_spec perc 0) as [Hnp|Hpos].
  - unfold computeJitter. destruct (Z.leb_spec perc 0); [|lia].
    destruct (Z.leb_spec (secs * Second) 0); unfold Second in *; [split; [done|]; lia|].
    repeat split; try lia. rewrite Z.max_l, Z.mul_0_r, Z.sub_diag by lia. done.
  - destruct (decide (secs = 0)) as [->|Hne].
    + unfold computeJitter. destruct (Z.leb_spec perc 0); [lia|]. done.
    + destruct (jitter_range rand (secs * Second) perc) as (d & -> & Hd & Hd0);
        [lia|unfold Second in *; nia|].
      destruct (Z.leb_spec (secs * Second) 0); [unfold Second in *; lia|].
      repeat split; try done; [lia|]. rewrite Z.max_r by lia. lia.
Qed.

(** The course of a task's loop but for the first delay. *)
Definition course (r : loop_result) : loop_result :=
  match r with LoopPeriodic _ period => LoopPeriodic 0 period | _ => r end.

(** The random number moves the first run and nothing else. *)
Lemma startTaskLoop_rand r1 r2 spec : course (startTaskLoop r1 spec) = course (startTaskLoop r2 spec).
Proof. unfold startTaskLoop, computeJitter. by repeat case_match; simplify_eq. Qed.

(** A task left without its goroutine was so before. *)
Lemma SetDesiredTasks_idle order tasks s id rt :
  (∀ m, order m ≡ₚ map_to_list m) → sup_ok s →
  task_at (SetDesiredTasks order tasks s) id = Some (rt, false) → task_at s id = Some (rt, false).
Proof.
  intros Ho Hok Hat. destruct (SetDesiredTasks_spec order Ho tasks s Hok) as (_ & _ & Hall).
  specialize (Hall id). destruct (task_map tasks !! id) as [t|]; [|congruence].
  destruct Hall as (x & Hx & Hc). rewrite Hat in Hx. injection Hx as <-. unfold converged in Hc.
  destruct (task_at s id) as [[rt0 alive]|]; [|by destruct Hc].
  destruct (Z.eqb (t_Generation (rt_Spec rt0)) (t_Generation t)); [by rewrite Hc|by destruct Hc].
Qed.

(** ** The buffer of results *)

(** The buffer never exceeds its capacity, an accepted result is the last in
    it, and an insert into a full buffer without cancellation panics on the
    logger that was never set. *)
Lemma insert_spec {A} (p : ProbeDataStream A) (data : A) d k :
  (length (ps_buf p) ≤ ps_cap p)%nat →
  let '(p', r) := Insert d k data p in
  (length (ps_buf p') ≤ ps_cap p')%nat ∧
  (r = ROk true → ps_buf p' = ps_buf p ++ [data]) ∧ (r ≠ ROk true → p' = p) ∧
  (is_panic r = true ↔ length (ps_buf p) = ps_cap p ∧ d = false).
Proof.
  intros Hlen. unfold Insert. destruct (Nat.ltb_spec (length (ps_buf p)) (ps_cap p)).
  - destruct (d && k); simpl; rewrite ?length_app; simpl;
      (split; [lia|]); (split; [done|]); (split; [done|]); (split; [done|lia]).
  - destruct d; simpl; (split; [done|]); (split; [done|]); (split; [done|]);
      [split; [done|by intros []]|split; [split; [lia|done]|done]].
Qed.

Lemma pull_loop_spec {A} ctx i n acc (p : ProbeDataStream A) :
  let '(p', r) := pull_loop ctx i n acc p in
  ∃ l, ps_buf p = l ++ ps_buf p' ∧ (length l ≤ n)%nat ∧ ps_cap p' = ps_cap p ∧
    match r with
    | Some out => out = acc ++ l ∧ (length l = n ∨ ps_buf p' = [])
    | None => ∃ k, fst (ctx (i + k)%nat) = true ∧ length l = k
    end.
Proof.
  revert i acc p. induction n as [|n IH]; intros i acc p; simpl.
  { exists []. rewrite app_nil_r. simpl. split; [done|]. split; [lia|]. auto. }
  destruct (ctx i) as [dn pick] eqn:Ec. destruct (ps_buf p) as [|x buf] eqn:Eb.
  { exists []. rewrite Eb. simpl. split; [done|]. split; [lia|]. split; [done|].
    destruct dn; [exists 0%nat; rewrite Nat.add_0_r; by rewrite Ec|]. rewrite app_nil_r. auto. }
  destruct (dn && pick) eqn:Ed.
  { exists []. rewrite Eb. simpl. split; [done|]. split; [lia|]. split; [done|].
    exists 0%nat. rewrite Nat.add_0_r, Ec. by apply andb_true_iff in Ed as [-> _]. }
  specialize (IH (S i) (acc ++ [x]) {| ps_buf := buf; ps_cap := ps_cap p |}).
  destruct (pull_loop _ _ _ _ _) as [p' r]. destruct IH as (l & H1 & H2 & H3 & H4). simpl in *.
  exists (x :: l). simpl. rewrite H1. split; [done|]. split; [lia|]. split; [done|].
  destruct r as [out|].
  - destruct H4 as [-> H4]. rewrite <- app_assoc. split; [done|]. destruct H4; [left; lia|by right].
  - destruct H4 as (k & Hk & Hl). exists (S k). rewrite Nat.add_succ_r. simpl in Hk. split; [done|lia].
Qed.

(** ** Witnesses *)

Definition task_gen (g : Z) : Task :=
  {| t_TaskID := "t1"; t_Type := TaskTypePing; t_Enabled := true; t_Generation := g;
     t_Params := Some (PingParams "192.0.2.1" "" 5 0 0 0);
     t_Schedule := {| sc_Enabled := true; sc_IntervalSeconds := 60; sc_JitterPercent := 10 |} |}.

Lemma NewSupervisor_ok : sup_ok NewSupervisor.
Proof. split; set_solver. Qed.

(** A second generation replaces a goroutine that had returned by itself; the
    same generation does not. *)
Definition returned_once : Supervisor :=
  let s := SetDesiredTasks map_to_list [task_gen 1] NewSupervisor in
  loop_returns {| rt_Spec := task_gen 1; rt_id := 0 |} s.

Lemma SetDesiredTasks_converges_witness :
  task_at returned_once "t1" = Some ({| rt_Spec := task_gen 1; rt_id := 0 |}, false) ∧
  task_at (SetDesiredTasks map_to_list [task_gen 1] returned_once) "t1" =
    Some ({| rt_Spec := task_gen 1; rt_id := 0 |}, false) ∧
  ∃ rt, task_at (SetDesiredTasks map_to_list [task_gen 2] returned_once) "t1" = Some (rt, true) ∧
    rt_Spec rt = task_gen 2.
Proof.
  assert (sup_ok returned_once) as Hok.
  { apply loop_returns_ok. apply (SetDesiredTasks_converges map_to_list (λ m, Permutation_refl _)).
    apply NewSupervisor_ok. }
  assert (task_at returned_once "t1" = Some ({| rt_Spec := task_gen 1; rt_id := 0 |}, false)) as E
    by (vm_compute; reflexivity).
  split; [exact E|]. split.
  - destruct (SetDesiredTasks_converges map_to_list (λ m, Permutation_refl _) [task_gen 1] returned_once Hok)
      as (_ & _ & H & _).
    destruct (H "t1" (task_gen 1)) as [_ H']; [reflexivity|]. rewrite E in H'. exact H'.
  - destruct (SetDesiredTasks_converges map_to_list (λ m, Permutation_refl _) [task_gen 2] returned_once Hok)
      as (_ & _ & H & _).
    destruct (H "t1" (task_gen 2)) as [_ H']; [reflexivity|]. rewrite E in H'. exact H'.
Defined.

Lemma reconcile_idempotent_witness :
  reconcile map_to_list (reconcile map_to_list NewSupervisor) = reconcile map_to_list NewSupervisor.
Proof. apply (reconcile_idempotent map_to_list (λ m, Permutation_refl _)). apply NewSupervisor_ok. Defined.

Lemma task_loop_schedule_witness :
  startTaskLoop 7 (task_gen 1) = LoopPeriodic 54000000007 (60 * Second) ∧ 60 * Second = 60 * Second ∧
  0 ≤ 54000000007.
Proof.
  assert (startTaskLoop 7 (task_gen 1) = LoopPeriodic 54000000007 (60 * Second)) as E
    by (vm_compute; reflexivity).
  pose proof (task_loop_schedule 7 (task_gen 1) _ eq_refl ltac:(simpl; lia) ltac:(simpl; lia)
    ltac:(simpl; lia)) as HT.
  rewrite E in HT. destruct HT as (_ & _ & Hp & Hf & _). split; [exact E|]. split; [exact Hp|exact Hf].
Defined.
