(* ===== verification/Stamp.v ===== *)
(** * STAMP (libs/stamp)

    The packet formats of RFC 8762, the error estimate, NTP timestamps, the
    session sender and the session reflector.  Octets are integers of eight
    bits; the sockets are inputs of the operations: what a write returns, what
    a read delivers and the instants the clock shows. *)

From S2P Require Import Prelude Float64 GoTime.

Local Open Scope Z_scope.
Local Open Scope go_scope.

Module Stamp.

Abbreviation bytes := (list Z).

(** ** Timestamps (timestamp.go) *)

Definition NtpUnixOffset : Z := 2208988800.
Definition ClockFormatNTP : string := "NTP".

Record Timestamp := { Seconds : Z; Fraction : Z }.

Definition wireNTPTimestampToTime (sec frac : Z) : time :=
  let seconds := int64 (sec - NtpUnixOffset) in
  let nanos := int64 (Z.shiftr (uint64 (frac * 1000000000)) 32) in
  timeUnix seconds nanos.

Definition generateNtpTimestamp (t : time) : Timestamp :=
  let seconds := uint32 (int64 (Unix t + NtpUnixOffset)) in
  let nanos := uint64 (NanosecondOf t) in
  let fraction := uint32 (uint64 (Z.shiftl nanos 32) / 1000000000) in
  {| Seconds := seconds; Fraction := fraction |}.

Definition NewTimestamp (clockFormat : string) (now : time) : res Timestamp :=
  if String.eqb clockFormat ClockFormatNTP then ROk (generateNtpTimestamp now)
  else RErr "invalid clock format".

Definition FromTime (clockFormat : string) (t : time) : res Timestamp :=
  if String.eqb clockFormat ClockFormatNTP then ROk (generateNtpTimestamp t)
  else RErr "invalid clock format".

Definition ToTime (ts : Timestamp) (clockFormat : string) : res time :=
  if String.eqb clockFormat ClockFormatNTP then ROk (wireNTPTimestampToTime (Seconds ts) (Fraction ts))
  else RErr "invalid clock format".

(** ** Error estimate (error_estimate.go) *)

Record ErrorEstimate := {
  Sync : bool;
  ClockFormat : string;
  ZBit : bool;
  Scale : Z;
  Multiplier : Z;
}.

Definition ErrorEstimateDecode (val : Z) : ErrorEstimate :=
  {| Sync := negb (Z.eqb (Z.land val 0x8000) 0);
     ClockFormat := ClockFormatNTP;
     ZBit := negb (Z.eqb (Z.land val 0x4000) 0);
     Scale := uint8 (Z.shiftr (Z.land val 0x3F00) 8);
     Multiplier := uint8 (Z.land val 0xFF) |}.

Definition ErrorEstimate_Encode (e : ErrorEstimate) : Z :=
  let val := if Sync e then Z.lor 0 0x8000 else 0 in
  let val := Z.lor val 0 in
  let val := Z.lor val (uint16 (Z.shiftl (Z.land (Scale e) 0x3F) 8)) in
  Z.lor val (Multiplier e).

Definition NewErrorEstimate (synchronized : bool) (clockFormat : string) (scale multiplier : Z)
    : res ErrorEstimate :=
  if Z.ltb 63 scale then RErr "scale out of range: 0 < scale < 63"
  else ROk {| Sync := synchronized; ClockFormat := clockFormat; ZBit := false;
              Scale := scale; Multiplier := multiplier |}.

(** ** Packets (packet.go) *)

Record SenderPacket := {
  sp_SequenceNumber : Z;
  sp_Timestamp : Timestamp;
  sp_ErrorEstimate : Z;
}.

Record ReflectorPacket := {
  rp_SequenceNumber : Z;
  rp_Timestamp : Timestamp;
  rp_ErrorEstimate : Z;
  rp_ReceiveTimestamp : Timestamp;
  rp_SenderSequenceNumber : Z;
  rp_SenderTimestamp : Timestamp;
  rp_SenderErrorEstimate : Z;
  rp_SenderTTL : Z;
}.

(** encoding/binary, big endian, on [buf[off:]]. *)
Definition PutUint16 (off : nat) (v : Z) (buf : bytes) : bytes :=
  <[off := uint8 (Z.shiftr v 8)]> (<[(off + 1)%nat := uint8 v]> buf).

Definition PutUint32 (off : nat) (v : Z) (buf : bytes) : bytes :=
  <[off := uint8 (Z.shiftr v 24)]> (<[(off + 1)%nat := uint8 (Z.shiftr v 16)]>
    (<[(off + 2)%nat := uint8 (Z.shiftr v 8)]> (<[(off + 3)%nat := uint8 v]> buf))).

Definition Uint16 (off : nat) (buf : bytes) : Z :=
  Z.lor (nth (off + 1) buf 0) (Z.shiftl (nth off buf 0) 8).

Definition Uint32 (off : nat) (buf : bytes) : Z :=
  Z.lor (Z.lor (Z.lor (nth (off + 3) buf 0) (Z.shiftl (nth (off + 2) buf 0) 8))
               (Z.shiftl (nth (off + 1) buf 0) 16))
        (Z.shiftl (nth off buf 0) 24).

Definition SenderPacket_Encode (p : SenderPacket) (hmacKey : option bytes) : res bytes :=
  match hmacKey with
  | Some _ => RPanic "not implemented"
  | None =>
      let buf := replicate 44 0 in
      let buf := PutUint32 0 (sp_SequenceNumber p) buf in
      let buf := PutUint32 4 (Seconds (sp_Timestamp p)) buf in
      let buf := PutUint32 8 (Fraction (sp_Timestamp p)) buf in
      let buf := PutUint16 12 (sp_ErrorEstimate p) buf in
      ROk buf
  end.

Definition DecodeSenderPacket (hmacKey : option bytes) (b : bytes) : res SenderPacket :=
  match hmacKey with
  | Some _ => RPanic "not implemented"
  | None =>
      if Nat.ltb (length b) 44 then RErr "packet too short"
      else ROk {| sp_SequenceNumber := Uint32 0 b;
                  sp_Timestamp := {| Seconds := Uint32 4 b; Fraction := Uint32 8 b |};
                  sp_ErrorEstimate := Uint16 12 b |}
  end.

Definition ReflectorPacket_Encode (p : ReflectorPacket) (hmacKey : option bytes) : res bytes :=
  match hmacKey with
  | Some _ => RPanic "not implemented"
  | None =>
      let buf := replicate 44 0 in
      let buf := PutUint32 0 (rp_SequenceNumber p) buf in
      let buf := PutUint32 4 (Seconds (rp_Timestamp p)) buf in
      let buf := PutUint32 8 (Fraction (rp_Timestamp p)) buf in
      let buf := PutUint16 12 (rp_ErrorEstimate p) buf in
      let buf := PutUint32 16 (Seconds (rp_ReceiveTimestamp p)) buf in
      let buf := PutUint32 20 (Fraction (rp_ReceiveTimestamp p)) buf in
      let buf := PutUint32 24 (rp_SenderSequenceNumber p) buf in
      let buf := PutUint32 28 (Seconds (rp_SenderTimestamp p)) buf in
      let buf := PutUint32 32 (Fraction (rp_SenderTimestamp p)) buf in
      let buf := PutUint16 36 (rp_SenderErrorEstimate p) buf in
      let buf := <[40%nat := rp_SenderTTL p]> buf in
      ROk buf
  end.

Definition DecodeReflectorPacket (hmacKey : option bytes) (data : bytes) : res ReflectorPacket :=
  match hmacKey with
  | Some _ => RPanic "not implemented"
  | None =>
      if Nat.ltb (length data) 44 then RErr "packet too short"
      else ROk {| rp_SequenceNumber := Uint32 0 data;
                  rp_Timestamp := {| Seconds := Uint32 4 data; Fraction := Uint32 8 data |};
                  rp_ErrorEstimate := Uint16 12 data;
                  rp_ReceiveTimestamp := {| Seconds := Uint32 16 data; Fraction := Uint32 20 data |};
                  rp_SenderSequenceNumber := Uint32 24 data;
                  rp_SenderTimestamp := {| Seconds := Uint32 28 data; Fraction := Uint32 32 data |};
                  rp_SenderErrorEstimate := Uint16 36 data;
                  rp_SenderTTL := nth 40 data 0 |}
  end.

(** ** Configuration (config.go) *)

Record ErrorEstimateConfig := {
  ec_Scale : Z;
  ec_Multiplier : Z;
  ec_ClockFormat : string;
  ec_Synchronized : bool;
}.

(** ** Session sender (sender.go) *)

Record Sender := {
  se_HMACKey : option bytes;
  se_seq : Z;
  se_timeout : duration;
  se_Config : ErrorEstimateConfig;
}.

(** [NewSender] once the addresses resolved and the socket is open; [resolved]
    is the outcome of those calls. *)
Definition NewSender (hmac : option bytes) (timeout : duration) (cfg : ErrorEstimateConfig)
    (resolved : res unit) : res Sender :=
  if negb (String.eqb (ec_ClockFormat cfg) ClockFormatNTP) then
    RErr "invalid clock format: valid options are NTP"
  else
    let? _ := resolved in
    ROk {| se_HMACKey := hmac; se_seq := 0;
           se_timeout := if Z.eqb timeout 0 then 5 * Second else timeout; se_Config := cfg |}.

(** One call of [Send]: [now] is the clock, [wr] the outcome of the write and
    [rd] of the read, a datagram cut to the 1500 octets of the buffer.  The
    call also yields the datagram it wrote, if it got so far. *)
Definition Send (s : Sender) (now : time) (wr : res unit) (rd : res bytes)
    : Sender * option bytes * res ReflectorPacket :=
  match se_HMACKey s with
  | Some _ => (s, None, RErr "HMAC authentication is not yet implemented")
  | None =>
      let c := se_Config s in
      let packet :=
        let? timestamp := NewTimestamp (ec_ClockFormat c) now in
        let? errorEstimate := NewErrorEstimate (ec_Synchronized c) (ec_ClockFormat c)
                                (ec_Scale c) (ec_Multiplier c) in
        SenderPacket_Encode {| sp_SequenceNumber := se_seq s; sp_Timestamp := timestamp;
                               sp_ErrorEstimate := ErrorEstimate_Encode errorEstimate |} None in
      match packet with
      | RErr e => (s, None, RErr e)
      | RPanic e => (s, None, RPanic e)
      | ROk buf =>
          match wr with
          | RErr e => (s, None, RErr e)
          | RPanic e => (s, None, RPanic e)
          | ROk _ =>
              let reply :=
                let? d := rd in
                let rx := take 1500 d in
                if Nat.ltb (length rx) 44 then RErr "reply too short"
                else DecodeReflectorPacket None rx in
              match reply with
              | ROk p =>
                  ({| se_HMACKey := se_HMACKey s; se_seq := uint32 (se_seq s + 1);
                      se_timeout := se_timeout s; se_Config := c |}, Some buf, ROk p)
              | RErr e => (s, Some buf, RErr e)
              | RPanic e => (s, Some buf, RPanic e)
              end
          end
      end
  end.

(** ** Session reflector (reflector.go) *)

(** The socket, the local address and the error callback are not part of the
    state. *)
Record Reflector := { re_seq : Z; re_Config : ErrorEstimateConfig }.

Definition NewReflector (cfg : ErrorEstimateConfig) : res Reflector :=
  ROk {| re_seq := 0; re_Config := cfg |}.

Inductive readResult (addr : Type) :=
| ReadErr (cancelled closed : bool)
| Datagram (data : bytes) (from : addr).
Arguments ReadErr {addr} cancelled closed.
Arguments Datagram {addr} data from.

(** What one turn of the loop of [Serve] does. *)
Inductive served (addr : Type) :=
| Stopped
| Failed (e : string)
| Replied (data : bytes) (to : addr).
Arguments Stopped {addr}.
Arguments Failed {addr} e.
Arguments Replied {addr} data to.

(** The packet for a datagram received at [rx] and answered at [tx]. *)
Definition reflect (r : Reflector) (data : bytes) (rx tx : time) : res ReflectorPacket :=
  let c := re_Config r in
  let? rxTimestamp := NewTimestamp (ec_ClockFormat c) rx in
  if Nat.ltb (length data) 44 then RErr "packet too short"
  else
    let? senderPkt := DecodeSenderPacket None (data ++ replicate (1500 - length data) 0) in
    let? errorEstimate := NewErrorEstimate (ec_Synchronized c) (ec_ClockFormat c)
                            (ec_Scale c) (ec_Multiplier c) in
    let? timestamp := NewTimestamp (ec_ClockFormat c) tx in
    ROk {| rp_SequenceNumber := re_seq r; rp_Timestamp := timestamp;
           rp_ErrorEstimate := ErrorEstimate_Encode errorEstimate;
           rp_ReceiveTimestamp := rxTimestamp;
           rp_SenderSequenceNumber := sp_SequenceNumber senderPkt;
           rp_SenderTimestamp := sp_Timestamp senderPkt;
           rp_SenderErrorEstimate := sp_ErrorEstimate senderPkt;
           rp_SenderTTL := 1 |}.

Definition serve_turn {addr} (r : Reflector) (rd : readResult addr) (rx tx : time) (wr : res unit)
    : Reflector * served addr :=
  match rd with
  | ReadErr cancelled closed =>
      if cancelled || closed then (r, Stopped) else (r, Failed "read")
  | Datagram d from =>
      match reflect r (take 1500 d) rx tx with
      | RErr e | RPanic e => (r, Failed e)
      | ROk p =>
          let r' := {| re_seq := uint32 (re_seq r + 1); re_Config := re_Config r |} in
          match ReflectorPacket_Encode p None with
          | RErr e | RPanic e => (r', Failed e)
          | ROk b => match wr with ROk _ => (r', Replied b from) | RErr e | RPanic e => (r', Failed e) end
          end
      end
  end.

End Stamp.
