(* ===== verification/StampProps.v ===== *)
(** * STAMP: the theorems

    Packets and error estimates round-trip through their wire formats, NTP
    timestamps lose at most a nanosecond within an era and wrap beyond it, a
    sender and a reflector together echo what the protocol says, and a sender
    accepts whatever long enough datagram comes first. *)

From S2P Require Import Prelude Float64 GoTime Stamp.
Import Stamp.Stamp.

Local Open Scope Z_scope.

(** ** Octets *)

Lemma uint8_testbit z i : 0 ≤ i → Z.testbit (uint8 z) i = Z.ltb i 8 && Z.testbit z i.
Proof.
  intros Hi. unfold uint8, wrapU. destruct (Z.ltb_spec i 8).
  - by rewrite Z.mod_pow2_bits_low by lia.
  - by rewrite Z.mod_pow2_bits_high by lia.
Qed.

Lemma testbit_high w z i : inU w z → 0 ≤ w ≤ i → Z.testbit z i = false.
Proof. intros [H1 H2] Hw. rewrite <- (Z.mod_small z (2 ^ w)) by done. apply Z.mod_pow2_bits_high. lia. Qed.

Lemma be32 v : inU 32 v →
  Z.lor (Z.lor (Z.lor (uint8 v) (Z.shiftl (uint8 (Z.shiftr v 8)) 8))
               (Z.shiftl (uint8 (Z.shiftr v 16)) 16)) (Z.shiftl (uint8 (Z.shiftr v 24)) 24) = v.
Proof.
  intros Hv. apply Z.bits_inj'. intros i Hi. rewrite !Z.lor_spec, !Z.shiftl_spec by lia.
  rewrite uint8_testbit by lia.
  assert (∀ k, 0 ≤ k → Z.testbit (uint8 (Z.shiftr v k)) (i - k) =
    Z.leb k i && Z.ltb i (k + 8) && Z.testbit v i) as E.
  { intros k Hk. destruct (Z.leb_spec k i).
    - rewrite uint8_testbit, Z.shiftr_spec by lia. replace (i - k + k) with i by lia. simpl.
      f_equal. destruct (Z.ltb_spec (i - k) 8), (Z.ltb_spec i (k + 8)); lia || done.
    - rewrite Z.testbit_neg_r by lia. done. }
  rewrite !E by lia.
  destruct (Z.ltb_spec i 32).
  - destruct (Z.testbit v i); rewrite ?andb_false_r, ?andb_true_r; [|done].
    destruct (Z.ltb_spec i 8), (Z.ltb_spec i (8 + 8)), (Z.ltb_spec i (16 + 8)), (Z.ltb_spec i (24 + 8)),
      (Z.leb_spec 8 i), (Z.leb_spec 16 i), (Z.leb_spec 24 i); try lia; done.
  - rewrite (testbit_high 32 v i) by (done || lia). by rewrite !andb_false_r.
Qed.

Lemma be16 v : inU 16 v → Z.lor (uint8 v) (Z.shiftl (uint8 (Z.shiftr v 8)) 8) = v.
Proof.
  intros Hv. apply Z.bits_inj'. intros i Hi. rewrite !Z.lor_spec, !Z.shiftl_spec by lia.
  rewrite uint8_testbit by lia. destruct (Z.ltb_spec i 8).
  - rewrite (Z.testbit_neg_r _ (i - 8)) by lia. by rewrite orb_false_r.
  - rewrite uint8_testbit, Z.shiftr_spec by lia. replace (i - 8 + 8) with i by lia. simpl.
    destruct (Z.ltb_spec (i - 8) 8); [done|]. rewrite (testbit_high 16 v i) by (done || lia). done.
Qed.

(** ** Packets *)

Definition ts_ok (t : Timestamp) : Prop := inU 32 (Seconds t) ∧ inU 32 (Fraction t).

Definition sender_packet_ok (p : SenderPacket) : Prop :=
  inU 32 (sp_SequenceNumber p) ∧ ts_ok (sp_Timestamp p) ∧ inU 16 (sp_ErrorEstimate p).

Definition reflector_packet_ok (p : ReflectorPacket) : Prop :=
  inU 32 (rp_SequenceNumber p) ∧ ts_ok (rp_Timestamp p) ∧ inU 16 (rp_ErrorEstimate p) ∧
  ts_ok (rp_ReceiveTimestamp p) ∧ inU 32 (rp_SenderSequenceNumber p) ∧
  ts_ok (rp_SenderTimestamp p) ∧ inU 16 (rp_SenderErrorEstimate p) ∧ inU 8 (rp_SenderTTL p).

#[local] Arguments uint8 : simpl never.
#[local] Arguments Z.shiftr : simpl never.
#[local] Arguments Z.shiftl : simpl never.
#[local] Arguments Z.lor : simpl never.

(** Padding after the packet does not matter: the reflector decodes its whole
    buffer. *)
Lemma sender_decode_encode p pad :
  sender_packet_ok p →
  ∃ b, SenderPacket_Encode p None = ROk b ∧ length b = 44%nat ∧
    DecodeSenderPacket None (b ++ pad) = ROk p.
Proof.
  intros (Hs & [Ht Hf] & He). eexists. split; [reflexivity|]. split; [reflexivity|].
  unfold DecodeSenderPacket. simpl. unfold Uint32, Uint16. simpl.
  rewrite !be32, be16 by done. by destruct p as [? [] ?].
Qed.

Lemma reflector_decode_encode p pad :
  reflector_packet_ok p →
  ∃ b, ReflectorPacket_Encode p None = ROk b ∧ length b = 44%nat ∧
    DecodeReflectorPacket None (b ++ pad) = ROk p.
Proof.
  intros (Hs & [Ht Hf] & He & [Hr Hrf] & Hss & [Hst Hsf] & Hse & Httl).
  eexists. split; [reflexivity|]. split; [reflexivity|].
  unfold DecodeReflectorPacket. simpl. unfold Uint32, Uint16. simpl.
  rewrite !be32, !be16 by done. by destruct p as [? [] ? [] ? [] ? ?].
Qed.

(** C30. Every packet with fields of the declared widths is encoded in 44 octets
    that decode to the same packet, for the sender's format and for the
    reflector's, whatever follows in the buffer; and either decoder refuses
    exactly the buffers shorter than 44 octets, the prefixes of an encoding
    among them. *)
Theorem packets_roundtrip p q pad :
  sender_packet_ok p → reflector_packet_ok q →
  (∃ b, SenderPacket_Encode p None = ROk b ∧ length b = 44%nat ∧
     DecodeSenderPacket None (b ++ pad) = ROk p) ∧
  (∃ b, ReflectorPacket_Encode q None = ROk b ∧ length b = 44%nat ∧
     DecodeReflectorPacket None (b ++ pad) = ROk q) ∧
  ∀ buf, (DecodeSenderPacket None buf = RErr "packet too short" ↔ (length buf < 44)%nat) ∧
    (DecodeReflectorPacket None buf = RErr "packet too short" ↔ (length buf < 44)%nat) ∧
    ((44 ≤ length buf)%nat → (∃ p, DecodeSenderPacket None buf = ROk p) ∧ ∃ q, DecodeReflectorPacket None buf = ROk q).
Proof.
  intros. split; [by apply sender_decode_encode|]. split; [by apply reflector_decode_encode|].
  intros buf. unfold DecodeSenderPacket, DecodeReflectorPacket. destruct (Nat.ltb_spec (length buf) 44).
  - split; [done|]. split; [done|]. lia.
  - split; [split; [done|lia]|]. split; [split; [done|lia]|]. eauto.
Qed.

(** ** Error estimates *)

(** All the octet pairs, by evaluation. *)
Definition estimate_checks (v : Z) : bool :=
  let e := ErrorEstimateDecode v in
  Z.eqb (ErrorEstimate_Encode e) (Z.land v 0xBFFF) &&
  Z.leb 0 (Scale e) && Z.leb (Scale e) 63 && Z.leb 0 (Multiplier e) && Z.leb (Multiplier e) 255.

Lemma estimate_checks_all :
  forallb (λ hi, forallb (λ lo, estimate_checks (hi * 256 + lo)) (seqZ 0 256)) (seqZ 0 256) = true.
Proof. vm_compute. reflexivity. Qed.

Definition encode_checks (sync : bool) (scale mult : Z) : bool :=
  let v := ErrorEstimate_Encode {| Sync := sync; ClockFormat := ClockFormatNTP; ZBit := false;
                                   Scale := scale; Multiplier := mult |} in
  let e := ErrorEstimateDecode v in
  Z.leb 0 v && Z.ltb v 65536 && Bool.eqb (Sync e) sync && negb (ZBit e) &&
  Z.eqb (Scale e) scale && Z.eqb (Multiplier e) mult.

Lemma encode_checks_all :
  forallb (λ b, forallb (λ s, forallb (encode_checks b s) (seqZ 0 256)) (seqZ 0 64)) [true; false] = true.
Proof. vm_compute. reflexivity. Qed.

Lemma encode_checks_ok sync scale mult :
  0 ≤ scale ≤ 63 → 0 ≤ mult ≤ 255 → encode_checks sync scale mult = true.
Proof.
  intros Hs Hm. pose proof encode_checks_all as H. rewrite forallb_forall in H.
  specialize (H sync ltac:(destruct sync; simpl; auto)). rewrite forallb_forall in H.
  specialize (H scale ltac:(apply list_elem_of_In, elem_of_seqZ; lia)).
  rewrite forallb_forall in H. apply H, list_elem_of_In, elem_of_seqZ. lia.
Qed.

Lemma estimate_width sync scale mult :
  0 ≤ scale ≤ 63 → 0 ≤ mult ≤ 255 →
  inU 16 (ErrorEstimate_Encode {| Sync := sync; ClockFormat := ClockFormatNTP; ZBit := false;
                                  Scale := scale; Multiplier := mult |}).
Proof.
  intros Hs Hm. pose proof (encode_checks_ok sync scale mult Hs Hm) as H.
  unfold encode_checks in H. rewrite !andb_true_iff in H. unfold inU. simpl.
  destruct H as [[[[[H1 H2] _] _] _] _]. lia.
Qed.

(** Every estimate [NewErrorEstimate] accepts (with an octet multiplier)
    encodes to 16 bits that decode to it; conversely every 16-bit field decodes
    to an in-range scale and multiplier and encodes back to itself with the Z
    bit cleared; scales above 63 are refused. *)
Theorem error_estimate_roundtrip :
  (∀ sync scale mult, 0 ≤ scale ≤ 255 → 0 ≤ mult ≤ 255 →
     match NewErrorEstimate sync ClockFormatNTP scale mult with
     | ROk e => scale ≤ 63 ∧ inU 16 (ErrorEstimate_Encode e) ∧
                ErrorEstimateDecode (ErrorEstimate_Encode e) = e
     | _ => 63 < scale
     end) ∧
  (∀ v, inU 16 v →
     ErrorEstimate_Encode (ErrorEstimateDecode v) = Z.land v 0xBFFF ∧
     0 ≤ Scale (ErrorEstimateDecode v) ≤ 63 ∧ 0 ≤ Multiplier (ErrorEstimateDecode v) ≤ 255).
Proof.
  split.
  - intros sync scale mult Hs Hm. unfold NewErrorEstimate.
    destruct (Z.ltb_spec 63 scale); [done|]. split; [done|].
    split; [apply estimate_width; lia|].
    pose proof (encode_checks_ok sync scale mult ltac:(lia) Hm) as H0. unfold encode_checks in H0.
    rewrite !andb_true_iff, !Z.eqb_eq, negb_true_iff, eqb_true_iff in H0.
    destruct H0 as [[[[[_ _] E1] E2] E3] E4].
    destruct (ErrorEstimateDecode _) eqn:E; simpl in *. subst.
    assert (ClockFormat (ErrorEstimateDecode (ErrorEstimate_Encode
      {| Sync := sync; ClockFormat := ClockFormatNTP; ZBit := false; Scale := scale;
         Multiplier := mult |})) = ClockFormatNTP) as Hc by done.
    rewrite E in Hc. simpl in Hc. by subst.
  - intros v Hv. pose proof estimate_checks_all as H. rewrite forallb_forall in H.
    unfold inU in Hv. simpl in Hv. pose proof (Z.div_mod v 256 ltac:(lia)) as Ev.
    pose proof (Z.mod_pos_bound v 256 ltac:(lia)).
    specialize (H (v / 256) ltac:(apply list_elem_of_In, elem_of_seqZ; lia)).
    rewrite forallb_forall in H.
    specialize (H (v mod 256) ltac:(apply list_elem_of_In, elem_of_seqZ; lia)).
    replace (v / 256 * 256 + v mod 256) with v in H by lia.
    unfold estimate_checks in H. rewrite !andb_true_iff, Z.eqb_eq in H.
    destruct H as [[[[H1 H2] H3] H4] H5]. split; [done|]. lia.
Qed.

(** ** NTP timestamps *)

Lemma frac_bounds n :
  0 ≤ n < 1000000000 →
  let f := n * 2 ^ 32 / 1000000000 in
  0 ≤ f < 2 ^ 32 ∧ n - 1 ≤ f * 1000000000 / 2 ^ 32 ≤ n.
Proof.
  intros Hn f. subst f.
  pose proof (Z.div_mod (n * 2 ^ 32) 1000000000 ltac:(lia)) as E1.
  pose proof (Z.mod_pos_bound (n * 2 ^ 32) 1000000000 ltac:(lia)) as B1.
  set (f := n * 2 ^ 32 / 1000000000) in *. set (r := (n * 2 ^ 32) mod 1000000000) in *.
  pose proof (Z.div_mod (f * 1000000000) (2 ^ 32) ltac:(lia)) as E2.
  pose proof (Z.mod_pos_bound (f * 1000000000) (2 ^ 32) ltac:(lia)) as B2.
  set (g := f * 1000000000 / 2 ^ 32) in *. set (q := (f * 1000000000) mod 2 ^ 32) in *.
  change (2 ^ 32) with 4294967296 in *. lia.
Qed.

(** The NTP era of an instant. *)
Definition era (t : time) : Z := (Unix t + NtpUnixOffset) / 2 ^ 32.

Lemma ntp_decode t :
  -9223372036854775808 ≤ Unix t + NtpUnixOffset < 9223372036854775808 →
  let ts := generateNtpTimestamp t in
  ts_ok ts ∧ ∃ d, 0 ≤ d ≤ 1 ∧
    wireNTPTimestampToTime (Seconds ts) (Fraction ts) = t - d - era t * 2 ^ 32 * Second.
Proof.
  intros Ht ts. subst ts. unfold generateNtpTimestamp, era. simpl. rewrite int64_id by lia.
  assert (0 ≤ NanosecondOf t < 1000000000) as Hn by (apply (Z.mod_pos_bound t 1000000000); lia).
  assert (uint64 (NanosecondOf t) = NanosecondOf t) as -> by (apply wrapU_id; unfold inU; lia).
  rewrite Z.shiftl_mul_pow2 by lia.
  assert (uint64 (NanosecondOf t * 2 ^ 32) = NanosecondOf t * 2 ^ 32) as ->
    by (apply wrapU_id; unfold inU; lia).
  destruct (frac_bounds (NanosecondOf t) Hn) as [Hf Hg]. cbv zeta in *.
  set (f := NanosecondOf t * 2 ^ 32 / 1000000000) in *.
  assert (uint32 f = f) as -> by (by apply wrapU_id).
  split; [split; [apply wrapU_range; lia|exact Hf]|].
  set (s := Unix t + NtpUnixOffset) in *.
  pose proof (Z.div_mod s (2 ^ 32) ltac:(lia)) as Es.
  pose proof (Z.mod_pos_bound s (2 ^ 32) ltac:(lia)) as Bs.
  unfold wireNTPTimestampToTime. change (uint32 s) with (s mod 2 ^ 32).
  assert (uint64 (f * 1000000000) = f * 1000000000) as -> by (apply wrapU_id; unfold inU; lia).
  rewrite Z.shiftr_div_pow2 by lia.
  rewrite !int64_id by (unfold NtpUnixOffset; lia).
  exists (NanosecondOf t - f * 1000000000 / 2 ^ 32). split; [lia|].
  pose proof (timeUnix_parts t) as Hp. unfold timeUnix in *. unfold Second in *. lia.
Qed.

(** An instant survives its NTP form up to one nanosecond, for every
    instant whose Unix seconds fit in 63 bits, except that whole eras of 2^32
    seconds are lost: from 1900 to February 2036 the decoded instant is the one
    that was encoded or the nanosecond before, and after that it is 2^32
    seconds per era earlier. *)
Theorem ntp_roundtrip t :
  -9223372036854775808 ≤ Unix t + NtpUnixOffset < 9223372036854775808 →
  ∃ ts t', FromTime ClockFormatNTP t = ROk ts ∧ ts_ok ts ∧ ToTime ts ClockFormatNTP = ROk t' ∧
    t - 1 ≤ t' + era t * 2 ^ 32 * Second ≤ t ∧
    (0 ≤ Unix t + NtpUnixOffset < 2 ^ 32 → t - 1 ≤ t' ≤ t).
Proof.
  intros Ht. destruct (ntp_decode t Ht) as (Hok & d & Hd & E). cbv zeta in *.
  exists (generateNtpTimestamp t), (t - d - era t * 2 ^ 32 * Second).
  split; [done|]. split; [done|]. split; [unfold ToTime; rewrite E; reflexivity|].
  split; [lia|]. intros H0. assert (era t = 0) as -> by (apply Z.div_small; lia). lia.
Qed.

(** ** A sender and a reflector *)

(** A configuration both sides accept. *)
Definition config_ok (c : ErrorEstimateConfig) : Prop :=
  ec_ClockFormat c = ClockFormatNTP ∧ 0 ≤ ec_Scale c ≤ 63 ∧ 0 ≤ ec_Multiplier c ≤ 255.

Definition estimate_of (c : ErrorEstimateConfig) : Z :=
  ErrorEstimate_Encode {| Sync := ec_Synchronized c; ClockFormat := ec_ClockFormat c; ZBit := false;
                          Scale := ec_Scale c; Multiplier := ec_Multiplier c |}.

Definition in_era (t : time) : Prop :=
  -9223372036854775808 ≤ Unix t + NtpUnixOffset < 9223372036854775808.

Lemma NewErrorEstimate_ok c :
  config_ok c → NewErrorEstimate (ec_Synchronized c) (ec_ClockFormat c) (ec_Scale c) (ec_Multiplier c) =
    ROk {| Sync := ec_Synchronized c; ClockFormat := ec_ClockFormat c; ZBit := false;
           Scale := ec_Scale c; Multiplier := ec_Multiplier c |}.
Proof. intros (_ & Hs & _). unfold NewErrorEstimate. destruct (Z.ltb_spec 63 (ec_Scale c)); [lia|done]. Qed.

Lemma estimate_of_width c : config_ok c → inU 16 (estimate_of c).
Proof. intros (E & Hs & Hm). unfold estimate_of. rewrite E. by apply estimate_width. Qed.

(** The datagram [Send] writes does not depend on the network. *)
Lemma Send_writes s now wr rd :
  se_HMACKey s = None → config_ok (se_Config s) → inU 32 (se_seq s) → in_era now →
  ∃ b, SenderPacket_Encode {| sp_SequenceNumber := se_seq s;
         sp_Timestamp := generateNtpTimestamp now;
         sp_ErrorEstimate := estimate_of (se_Config s) |} None = ROk b ∧
    Send s now wr rd =
      match wr with
      | RErr e => (s, None, RErr e)
      | RPanic e => (s, None, RPanic e)
      | ROk _ =>
          let reply := res_bind rd (λ d, if Nat.ltb (length (take 1500 d)) 44 then RErr "reply too short"
                                         else DecodeReflectorPacket None (take 1500 d)) in
          match reply with
          | ROk p => ({| se_HMACKey := None; se_seq := uint32 (se_seq s + 1);
                         se_timeout := se_timeout s; se_Config := se_Config s |}, Some b, ROk p)
          | RErr e => (s, Some b, RErr e)
          | RPanic e => (s, Some b, RPanic e)
          end
      end.
Proof.
  intros Hk Hc Hq Ht. pose proof Hc as (Ef & Hs & Hm).
  unfold Send. rewrite Hk. unfold NewTimestamp. rewrite Ef. rewrite String.eqb_refl.
  pose proof (NewErrorEstimate_ok (se_Config s) Hc) as EE. rewrite Ef in EE.
  cbn [res_bind]. rewrite EE. cbn [res_bind]. unfold estimate_of. rewrite Ef.
  eexists. split; reflexivity.
Qed.

(** C29. A sender and a reflector with valid configurations, over a network that
    delivers: the reflector answers the datagram [Send] wrote, and [Send]
    returns a packet whose sender fields are its own sequence number,
    timestamp and estimate, whose receive and transmit timestamps are the
    reflector's, whose sequence number is the reflector's counter; both
    counters advance by one, modulo 2^32. *)
Theorem stamp_exchange {addr} (a : addr) s r t0 rx tx :
  se_HMACKey s = None → config_ok (se_Config s) → config_ok (re_Config r) →
  inU 32 (se_seq s) → inU 32 (re_seq r) → in_era t0 → in_era rx → in_era tx →
  ∃ req reply p,
    (∀ rd, snd (fst (Send s t0 (ROk tt) rd)) = Some req) ∧
    serve_turn r (Datagram req a) rx tx (ROk tt) =
      ({| re_seq := uint32 (re_seq r + 1); re_Config := re_Config r |}, Replied reply a) ∧
    Send s t0 (ROk tt) (ROk reply) =
      ({| se_HMACKey := None; se_seq := uint32 (se_seq s + 1); se_timeout := se_timeout s;
          se_Config := se_Config s |}, Some req, ROk p) ∧
    p = {| rp_SequenceNumber := re_seq r; rp_Timestamp := generateNtpTimestamp tx;
           rp_ErrorEstimate := estimate_of (re_Config r);
           rp_ReceiveTimestamp := generateNtpTimestamp rx;
           rp_SenderSequenceNumber := se_seq s; rp_SenderTimestamp := generateNtpTimestamp t0;
           rp_SenderErrorEstimate := estimate_of (se_Config s); rp_SenderTTL := 1 |}.
Proof.
  intros Hk Hcs Hcr Hqs Hqr H0 Hrx Htx.
  destruct (ntp_decode t0 H0) as [Ht0 _], (ntp_decode rx Hrx) as [Ht1 _], (ntp_decode tx Htx) as [Ht2 _].
  set (sp := {| sp_SequenceNumber := se_seq s; sp_Timestamp := generateNtpTimestamp t0;
                sp_ErrorEstimate := estimate_of (se_Config s) |}).
  destruct (sender_decode_encode sp (replicate 1456 0)) as (req & Ereq & Lreq & Dreq);
    [split; [done|split; [done|by apply estimate_of_width]]|].
  set (p := Build_ReflectorPacket (re_seq r) (generateNtpTimestamp tx) (estimate_of (re_Config r))
    (generateNtpTimestamp rx) (se_seq s) (generateNtpTimestamp t0) (estimate_of (se_Config s)) 1).
  destruct (reflector_decode_encode p []) as (reply & Erep & Lrep & Drep).
  { repeat split; try apply Hqr; try apply Hqs; try apply Ht0; try apply Ht1; try apply Ht2;
      try (by apply estimate_of_width); simpl; lia. }
  rewrite app_nil_r in Drep. exists req, reply, p.
  split; [|split; [|split; [|done]]].
  - intros rd. destruct (Send_writes s t0 (ROk tt) rd Hk Hcs Hqs H0) as (b & Eb & ->).
    assert (b = req) as -> by (subst sp; congruence). cbv zeta.
    by destruct (res_bind rd _).
  - unfold serve_turn, reflect. rewrite take_ge by lia. unfold NewTimestamp.
    pose proof (NewErrorEstimate_ok _ Hcr) as EE. destruct Hcr as (Ef & _ & _).
    assert (String.eqb (ec_ClockFormat (re_Config r)) ClockFormatNTP = true) as ->
      by (rewrite Ef; apply String.eqb_refl). cbn [res_bind].
    destruct (Nat.ltb_spec (length req) 44); [lia|]. rewrite Lreq.
    change (1500 - 44)%nat with 1456%nat. rewrite Dreq. cbn [res_bind]. rewrite EE. cbn [res_bind].
    match goal with |- context [ReflectorPacket_Encode ?q None] => change q with p end.
    by rewrite Erep.
  - destruct (Send_writes s t0 (ROk tt) (ROk reply) Hk Hcs Hqs H0) as (b & Eb & ->).
    assert (b = req) as -> by (subst sp; congruence). cbv zeta. cbn [res_bind].
    rewrite take_ge by lia. destruct (Nat.ltb_spec (length reply) 44); [lia|]. by rewrite Drep.
Qed.

(** Nothing matches replies to outstanding sequence numbers: [Send] accepts
    any datagram of at least 44 octets as the answer, whatever sequence number
    and timestamps it echoes, and counts the exchange as successful; shorter
    datagrams and read errors leave the sequence number unchanged, so the next
    packet repeats it. *)
Theorem Send_accepts_any_reply s t0 d :
  se_HMACKey s = None → config_ok (se_Config s) → inU 32 (se_seq s) → in_era t0 →
  let '(s', _, r) := Send s t0 (ROk tt) (ROk d) in
  if Nat.leb 44 (length d)
  then r = DecodeReflectorPacket None (take 1500 d) ∧ is_ok r = true ∧ se_seq s' = uint32 (se_seq s + 1)
  else r = RErr "reply too short" ∧ s' = s.
Proof.
  intros Hk Hc Hq Ht. destruct (Send_writes s t0 (ROk tt) (ROk d) Hk Hc Hq Ht) as (b & _ & ->).
  cbv zeta. cbn [res_bind]. rewrite length_take.
  destruct (Nat.leb_spec 44 (length d)).
  - destruct (Nat.ltb_spec (1500 `min` length d) 44); [lia|].
    unfold DecodeReflectorPacket. rewrite length_take.
    destruct (Nat.ltb_spec (1500 `min` length d) 44); [lia|]. done.
  - destruct (Nat.ltb_spec (1500 `min` length d) 44); [done|lia].
Qed.

(** ** Witnesses *)

Definition cfg0 : ErrorEstimateConfig :=
  {| ec_Scale := 10; ec_Multiplier := 3; ec_ClockFormat := ClockFormatNTP; ec_Synchronized := true |}.

Definition sender0 : Sender :=
  {| se_HMACKey := None; se_seq := 4294967295; se_timeout := 5 * Second; se_Config := cfg0 |}.

Definition reflector0 : Reflector := {| re_seq := 7; re_Config := cfg0 |}.

Definition day0 : time := timeUnix 1700000000 123456789.

Lemma cfg0_ok : config_ok cfg0.
Proof. repeat split; vm_compute; discriminate. Qed.

Lemma day0_in_era : in_era day0.
Proof. split; vm_compute; [discriminate|reflexivity]. Qed.

Lemma packets_roundtrip_witness :
  ∃ b, SenderPacket_Encode {| sp_SequenceNumber := 1;
         sp_Timestamp := {| Seconds := 2; Fraction := 3 |}; sp_ErrorEstimate := 4 |} None = ROk b ∧
       length b = 44%nat ∧ DecodeSenderPacket None (take 43 b) = RErr "packet too short".
Proof.
  destruct (packets_roundtrip
    {| sp_SequenceNumber := 1; sp_Timestamp := {| Seconds := 2; Fraction := 3 |}; sp_ErrorEstimate := 4 |}
    {| rp_SequenceNumber := 1; rp_Timestamp := {| Seconds := 2; Fraction := 3 |}; rp_ErrorEstimate := 4;
       rp_ReceiveTimestamp := {| Seconds := 2; Fraction := 3 |}; rp_SenderSequenceNumber := 5;
       rp_SenderTimestamp := {| Seconds := 2; Fraction := 3 |}; rp_SenderErrorEstimate := 6;
       rp_SenderTTL := 7 |} []) as ((b & E & L & _) & _ & Hs).
  - repeat split; simpl; lia.
  - repeat split; simpl; lia.
  - exists b. split; [exact E|]. split; [exact L|]. apply Hs. rewrite length_take. lia.
Defined.

Lemma ntp_roundtrip_witness :
  ∃ ts, FromTime ClockFormatNTP day0 = ROk ts ∧ ts_ok ts.
Proof.
  destruct (ntp_roundtrip day0 day0_in_era) as (ts & t' & E & Hok & _).
  exists ts. split; [exact E|exact Hok].
Defined.

Lemma stamp_exchange_witness :
  ∃ req reply p,
    fst (serve_turn reflector0 (Datagram req tt) (day0 + 5) (day0 + 9) (ROk tt)) =
      {| re_seq := 8; re_Config := cfg0 |} ∧
    snd (Send sender0 day0 (ROk tt) (ROk reply)) = ROk p ∧ rp_SenderSequenceNumber p = 4294967295.
Proof.
  destruct (stamp_exchange tt sender0 reflector0 day0 (day0 + 5) (day0 + 9))
    as (req & reply & p & _ & E1 & E2 & ->);
    [reflexivity|apply cfg0_ok|apply cfg0_ok|split; vm_compute; [discriminate|reflexivity]..|].
  exists req, reply. eexists. rewrite E1, E2. split; [reflexivity|split; reflexivity].
Defined.

Lemma Send_accepts_any_reply_witness :
  let '(s', _, r) := Send sender0 day0 (ROk tt) (ROk (replicate 44 0)) in is_ok r = true.
Proof.
  pose proof (Send_accepts_any_reply sender0 day0 (replicate 44 0) eq_refl cfg0_ok
    ltac:(split; vm_compute; [discriminate|reflexivity]) day0_in_era) as HT.
  destruct (Send sender0 day0 (ROk tt) (ROk (replicate 44 0))) as [[s' b] r].
  simpl in HT. apply HT.
Defined.
