(* ===== verification/StampProbe.v ===== *)
(** * STAMP probes (services/agent/executor_stamp_sender.go, executor_stamp_reflector.go)

    The sender executor runs a batch of exchanges and turns each reply's
    timestamps into delays; the reflector executor serves until it is stopped.
    Time, the sockets and cancellation are inputs of each iteration. *)

From S2P Require Import Prelude Float64 GoTime Json ArgusWorker Reports AgentConfig Stamp StampProps.
Import Stamp.Stamp.

Local Open Scope Z_scope.
Local Open Scope go_scope.

(** ** The sender executor *)

(** What the outside does in one iteration: the context before it, the clock at
    its start and in [Send], the socket, the clock after [Send], and whether
    the context ends during the pause. *)
Record iteration := {
  it_cancelled : bool;
  it_start : time;
  it_now : time;
  it_write : res unit;
  it_read : res bytes;
  it_t4 : time;
  it_cancelled_pause : bool;
}.

Definition lost_probe (start : time) : StampProbeData :=
  {| pd_Tx := start; pd_IsLost := true; pd_Rx := zeroTime; pd_Rtt := 0; pd_ForwardDelay := 0;
     pd_BackwardDelay := 0 |}.

(** The delays of a reply that arrived at [t4]. *)
Definition probe_of (clockFormat : string) (pkt : ReflectorPacket) (t4 : time) : res StampProbeData :=
  let? t1 := ToTime (rp_SenderTimestamp pkt) clockFormat in
  let? t2 := ToTime (rp_ReceiveTimestamp pkt) clockFormat in
  let? t3 := ToTime (rp_Timestamp pkt) clockFormat in
  ROk {| pd_Tx := t1; pd_IsLost := false; pd_Rx := t4;
         pd_Rtt := int64 (Sub t4 t1 - Sub t3 t2);
         pd_ForwardDelay := Sub t2 t1; pd_BackwardDelay := Sub t4 t3 |}.

(** The loop from iteration [i] with [left] iterations to go. *)
Fixpoint probe_loop (env : nat → iteration) (i left : nat) (s : Sender)
    (probes : list StampProbeData) (received : Z) : res (list StampProbeData * Z) :=
  match left with
  | O => ROk (probes, received)
  | S left' =>
      let it := env i in
      if it_cancelled it then RErr "context canceled"
      else
        let '(s', _, r) := Send s (it_now it) (it_write it) (it_read it) in
        let? step :=
          match r with
          | RErr _ => ROk (probes ++ [lost_probe (it_start it)], received)
          | RPanic e => RPanic e
          | ROk pkt =>
              let? p := probe_of (ec_ClockFormat (se_Config s)) pkt (it_t4 it) in
              ROk (probes ++ [p], received + 1)
          end in
        if Nat.ltb 0 left' && it_cancelled_pause it then RErr "context canceled"
        else probe_loop env (S i) left' s' step.1 step.2
  end.

Definition packet_count (PacketCount : Z) : Z := if Z.leb PacketCount 0 then 10 else PacketCount.

Definition stamp_batch (cfg : ErrorEstimateConfig) (params : option TaskParams)
    (resolved : res unit) (startTimestamp : time) (env : nat → iteration) : res StampData :=
  match params with
  | Some (StampSenderParams target port sourceIP dscp sync packetCount packetInterval) =>
      let? sender := NewSender None (1 * Second) cfg resolved in
      let count := packet_count packetCount in
      let? done := probe_loop env 0 (Z.to_nat count) sender [] 0 in
      let '(probes, received) := done in
      let sent := Z.of_nat (length probes) in
      ROk {| sd_Target := target; sd_Port := port; sd_Sent := sent; sd_Received := received;
             sd_Loss := fdiv (f64 (sent - received)) (f64 sent); sd_Probes := probes;
             sd_Timestamp := startTimestamp |}
  | _ => RErr "stamp-sender: expected StampSenderParams"
  end.

(** The batch and its report, stamped [now]. *)
Definition StampSender_Execute (cfg : ErrorEstimateConfig) (params : option TaskParams) (spec : Task)
    (resolved : res unit) (startTimestamp : time) (env : nat → iteration) (now : time) : res ProbeResult :=
  let? stampData := stamp_batch cfg params resolved startTimestamp env in
  match stamp_data_to_json stampData with
  | None => RErr "json: unsupported value"
  | Some marshaled =>
      ROk {| prr_TaskID := t_TaskID spec; prr_ProbeType := ProbeTypeStamp; prr_Kind := t_Type spec;
             prr_Timestamp := now; prr_Data := RawDoc marshaled |}
  end.

(** ** The reflector executor *)

(** [Serve] over the turns the outside provides: what each turn did, and
    whether the loop has returned. *)
Fixpoint Serve {addr} (r : Reflector) (turns : list (readResult addr * time * time * res unit))
    : Reflector * list (served addr) * bool :=
  match turns with
  | [] => (r, [], false)
  | (rd, rx, tx, wr) :: turns' =>
      match serve_turn r rd rx tx wr with
      | (r', Stopped) => (r', [Stopped], true)
      | (r', out) => let '(r'', outs, ended) := Serve r' turns' in (r'', out :: outs, ended)
      end
  end.

(** The executor never has a result of its own: [None] while it is serving, an
    error when it cannot listen or its context is cancelled, and the empty
    result when the socket was closed under it. *)
Definition StampReflector_Execute {addr} (cfg : ErrorEstimateConfig) (params : option TaskParams)
    (listened : res unit) (cancelled : bool) (turns : list (readResult addr * time * time * res unit))
    : option (res ProbeResult) :=
  match params with
  | Some (StampReflectorParams listenPort sourceIP dscp sync) =>
      match (let? reflector := NewReflector cfg in let? _ := listened in ROk reflector) with
      | ROk reflector =>
          let '(_, _, ended) := Serve reflector turns in
          if cancelled then Some (RErr "context canceled")
          else if ended then Some (ROk probe_result_zero) else None
      | RErr e => Some (RErr e)
      | RPanic e => Some (RPanic e)
      end
  | _ => Some (RErr "stamp-reflector: expected StampReflectorParams")
  end.

(** The configuration of both executors in [Agent.Run]. *)
Definition agentStampConfig : ErrorEstimateConfig :=
  {| ec_Scale := 22; ec_Multiplier := 1; ec_ClockFormat := ClockFormatNTP; ec_Synchronized := true |}.

(** ** Theorems *)

Definition not_lost (p : StampProbeData) : bool := negb (pd_IsLost p).

Definition count_received (l : list StampProbeData) : Z := Z.of_nat (length (List.filter not_lost l)).

Lemma probe_of_not_lost fmt pkt t4 p : probe_of fmt pkt t4 = ROk p → pd_IsLost p = false.
Proof.
  unfold probe_of. destruct (ToTime (rp_SenderTimestamp pkt) fmt); simpl; [|done..].
  destruct (ToTime (rp_ReceiveTimestamp pkt) fmt); simpl; [|done..].
  destruct (ToTime (rp_Timestamp pkt) fmt); simpl; [|done..]. by intros [= <-].
Qed.

Lemma count_received_snoc l p :
  count_received (l ++ [p]) = count_received l + (if not_lost p then 1 else 0).
Proof.
  unfold count_received. rewrite List.filter_app, length_app. simpl. destruct (not_lost p); simpl; lia.
Qed.

Lemma probe_loop_counts env i left s probes received probes' received' :
  probe_loop env i left s probes received = ROk (probes', received') →
  received = count_received probes →
  length probes' = (length probes + left)%nat ∧ received' = count_received probes'.
Proof.
  revert i s probes received. induction left as [|left IH]; intros i s probes received; simpl.
  { intros [= <- <-] ->. split; [lia|done]. }
  destruct (it_cancelled (env i)); [done|].
  destruct (Send s _ _ _) as [[s' w] [pkt|e|e]]; simpl; [| |done].
  - destruct (probe_of _ pkt _) as [p|e|e] eqn:Ep; simpl; [|done..].
    destruct (_ && _); [done|]. intros Hl Hr. apply IH in Hl as [Hlen ->]; simpl in *.
    + split; [|done]. rewrite Hlen, length_app. simpl. lia.
    + rewrite count_received_snoc, Hr. unfold not_lost. by rewrite (probe_of_not_lost _ _ _ _ Ep).
  - destruct (_ && _); [done|]. intros Hl Hr. apply IH in Hl as [Hlen ->]; simpl in *.
    + split; [|done]. rewrite Hlen, length_app. simpl. lia.
    + rewrite count_received_snoc, Hr. simpl. lia.
Qed.

Lemma probe_of_ok fmt pkt t4 p :
  probe_of fmt pkt t4 = ROk p →
  int64_ok (pd_Rtt p) ∧ int64_ok (pd_ForwardDelay p) ∧ int64_ok (pd_BackwardDelay p).
Proof.
  unfold probe_of. destruct (ToTime (rp_SenderTimestamp pkt) fmt) as [t1|e|e]; simpl; [|done..].
  destruct (ToTime (rp_ReceiveTimestamp pkt) fmt) as [t2|e|e]; simpl; [|done..].
  destruct (ToTime (rp_Timestamp pkt) fmt) as [t3|e|e]; simpl; [|done..]. intros [= <-]. simpl.
  pose proof (int64_range (Sub t4 t1 - Sub t3 t2)).
  pose proof (Sub_range t2 t1). pose proof (Sub_range t4 t3).
  unfold int64_ok, minDuration, maxDuration in *. lia.
Qed.

Lemma probe_loop_ok env i left s probes received probes' received' :
  probe_loop env i left s probes received = ROk (probes', received') →
  let ok p := int64_ok (pd_Rtt p) ∧ int64_ok (pd_ForwardDelay p) ∧ int64_ok (pd_BackwardDelay p) in
  Forall ok probes → Forall ok probes'.
Proof.
  intros E ok. revert i s probes received E. induction left as [|left IH]; intros i s probes received; simpl.
  { by intros [= <- <-]. }
  destruct (it_cancelled (env i)); [done|].
  destruct (Send s _ _ _) as [[s' w] [pkt|e|e]]; simpl; [| |done].
  - destruct (probe_of _ pkt _) as [p|e|e] eqn:Ep; simpl; [|done..].
    destruct (_ && _); [done|]. intros Hl Hp. apply (IH _ _ _ _ Hl), Forall_app_2, Forall_singleton; [done|].
    by eapply probe_of_ok.
  - destruct (_ && _); [done|]. intros Hl Hp. apply (IH _ _ _ _ Hl), Forall_app_2, Forall_singleton; [done|].
    unfold ok, int64_ok. simpl. lia.
Qed.

Lemma stamp_batch_ok cfg target port sip dscp sync pc pi resolved start env d :
  int64_ok port → int64_ok pc →
  stamp_batch cfg (Some (StampSenderParams target port sip dscp sync pc pi)) resolved start env = ROk d →
  stamp_data_ok d ∧ sd_Target d = target ∧ sd_Port d = port ∧ sd_Timestamp d = start ∧
  sd_Sent d = packet_count pc ∧ 0 < sd_Sent d ∧ sd_Sent d = Z.of_nat (length (sd_Probes d)) ∧
  sd_Received d = count_received (sd_Probes d) ∧ 0 ≤ sd_Received d ≤ sd_Sent d ∧
  sd_Loss d = fdiv (f64 (sd_Sent d - sd_Received d)) (f64 (sd_Sent d)).
Proof.
  intros Hport Hpc. unfold stamp_batch. destruct (NewSender _ _ _ _) as [s|e|e]; simpl; [|done..].
  destruct (probe_loop _ _ _ _ _ _) as [[probes received]|e|e] eqn:E; simpl; [|done..].
  intros [= <-]. simpl. pose proof (probe_loop_ok _ _ _ _ _ _ _ _ E (Forall_nil_2 _)) as Hok.
  apply probe_loop_counts in E as [Hlen ->]; [|done]. simpl in Hlen.
  assert (0 < packet_count pc ∧ int64_ok (packet_count pc)) as [H1 H2].
  { unfold packet_count, int64_ok in *. destruct (Z.leb_spec pc 0); lia. }
  assert (0 ≤ count_received probes ≤ Z.of_nat (length probes)) as H3.
  { unfold count_received. pose proof (List.filter_length_le not_lost probes). lia. }
  unfold stamp_data_ok, int64_ok in *. simpl. repeat split; try done; lia.
Qed.

(** The report of a STAMP batch that completes is what a processor decodes:
    exactly the configured number of probes (ten when none is configured), the
    received ones are exactly the probes that are not lost, and the loss is
    their ratio, for the target and port of the task. *)
Theorem stamp_batch_counts cfg target port sip dscp sync pc pi spec resolved start env now r :
  int64_ok port → int64_ok pc →
  StampSender_Execute cfg (Some (StampSenderParams target port sip dscp sync pc pi)) spec resolved start env now
    = ROk r →
  ∃ d, unmarshal stamp_data_from_json stamp_data_zero (prr_Data r) = Some d ∧
    sd_Target d = target ∧ sd_Port d = port ∧ sd_Timestamp d = start ∧
    sd_Sent d = packet_count pc ∧ 0 < sd_Sent d ∧ sd_Sent d = Z.of_nat (length (sd_Probes d)) ∧
    sd_Received d = count_received (sd_Probes d) ∧ 0 ≤ sd_Received d ≤ sd_Sent d ∧
    sd_Loss d = fdiv (f64 (sd_Sent d - sd_Received d)) (f64 (sd_Sent d)).
Proof.
  intros Hport Hpc. unfold StampSender_Execute.
  destruct (stamp_batch _ _ _ _ _) as [d|e|e] eqn:E; simpl; [|done..].
  destruct (stamp_data_to_json d) as [j|] eqn:Ej; [|done]. intros [= <-].
  apply stamp_batch_ok in E as [Hok Hd]; [|done..]. exists d. split; [|done].
  by apply stamp_data_roundtrip.
Qed.

(** Instants of the current NTP era, less than 292 years apart. *)
Definition now_like (t : time) : Prop := 0 ≤ Unix t + NtpUnixOffset < 2 ^ 32.

Lemma now_like_era t : now_like t → in_era t ∧ era t = 0.
Proof.
  unfold now_like, in_era, era. intros Ht. split; [lia|]. apply Z.div_small. lia.
Qed.

Lemma ToTime_close t :
  now_like t → ∃ t', ToTime (generateNtpTimestamp t) ClockFormatNTP = ROk t' ∧ t - 1 ≤ t' ≤ t.
Proof.
  intros [He H0]%now_like_era. destruct (ntp_decode t He) as (_ & d & Hd & E). cbv zeta in E.
  eexists. split; [unfold ToTime; rewrite E; reflexivity|]. rewrite H0. lia.
Qed.

Lemma now_like_range t : now_like t → 0 ≤ t - timeUnix (- NtpUnixOffset) 0 < 2 ^ 32 * Second.
Proof.
  unfold now_like, Unix, timeUnix, NtpUnixOffset, Second, unixToInternal. intros Ht.
  pose proof (Z.div_mod t 1000000000 ltac:(lia)). pose proof (Z.mod_pos_bound t 1000000000 ltac:(lia)).
  lia.
Qed.

(** C36. The delays of an answered probe are those of the two clocks, up to the
    nanosecond an NTP timestamp loses: for a packet sent at [t0], received by
    the reflector at [rx], answered at [tx] and back at [t4], the forward and
    backward delays are within one nanosecond of [rx - t0] and [t4 - tx], and
    the round trip, which leaves out the reflector's own time, is within two.
    The instants are those of the current NTP era, which ends in February 2036. *)
Theorem stamp_delays pkt t0 rx tx t4 :
  now_like t0 → now_like rx → now_like tx → now_like t4 →
  rp_SenderTimestamp pkt = generateNtpTimestamp t0 →
  rp_ReceiveTimestamp pkt = generateNtpTimestamp rx →
  rp_Timestamp pkt = generateNtpTimestamp tx →
  ∃ p, probe_of ClockFormatNTP pkt t4 = ROk p ∧ pd_IsLost p = false ∧
    Z.abs (pd_ForwardDelay p - (rx - t0)) ≤ 1 ∧ Z.abs (pd_BackwardDelay p - (t4 - tx)) ≤ 1 ∧
    Z.abs (pd_Rtt p - ((t4 - t0) - (tx - rx))) ≤ 2.
Proof.
  intros H0 H1 H2 H3 E0 E1 E2.
  destruct (ToTime_close t0 H0) as (a & Ea & Ba), (ToTime_close rx H1) as (b & Eb & Bb),
    (ToTime_close tx H2) as (c & Ec & Bc).
  unfold probe_of. rewrite E0, E1, E2, Ea, Eb, Ec. cbn [res_bind]. eexists. split; [done|].
  apply now_like_range in H0, H1, H2, H3. unfold Second in *. simpl.
  rewrite !Sub_exact by (unfold minDuration, maxDuration; lia). rewrite int64_id by lia. lia.
Qed.

(** ** Witnesses *)

Definition lost_iteration : iteration :=
  {| it_cancelled := false; it_start := 5; it_now := 6; it_write := ROk tt; it_read := RErr "timeout";
     it_t4 := 7; it_cancelled_pause := false |}.

Definition sender_task : Task :=
  {| t_TaskID := "s1"; t_Type := TaskTypeStampSender; t_Enabled := true; t_Generation := 1;
     t_Params := Some (StampSenderParams "192.0.2.1" 862 "" 0 false 2 0);
     t_Schedule := {| sc_Enabled := true; sc_IntervalSeconds := 60; sc_JitterPercent := 0 |} |}.

Definition lost_report : ProbeResult :=
  match StampSender_Execute agentStampConfig (t_Params sender_task) sender_task (ROk tt) 4
          (λ _, lost_iteration) 9 with
  | ROk r => r | _ => probe_result_zero
  end.

Lemma stamp_batch_counts_witness :
  ∃ d, unmarshal stamp_data_from_json stamp_data_zero (prr_Data lost_report) = Some d ∧ sd_Sent d = 2.
Proof.
  destruct (stamp_batch_counts agentStampConfig "192.0.2.1" 862 "" 0 false 2 0 sender_task (ROk tt) 4
    (λ _, lost_iteration) 9 lost_report) as (d & E & _ & _ & _ & Hs & _).
  - unfold int64_ok. lia.
  - unfold int64_ok. lia.
  - vm_compute. reflexivity.
  - exists d. split; [exact E|exact Hs].
Defined.

Lemma stamp_delays_witness :
  ∃ p, probe_of ClockFormatNTP
         {| rp_SequenceNumber := 0; rp_Timestamp := generateNtpTimestamp (day0 + 30);
            rp_ErrorEstimate := 0; rp_ReceiveTimestamp := generateNtpTimestamp (day0 + 20);
            rp_SenderSequenceNumber := 0; rp_SenderTimestamp := generateNtpTimestamp day0;
            rp_SenderErrorEstimate := 0; rp_SenderTTL := 1 |} (day0 + 50) = ROk p ∧
       Z.abs (pd_Rtt p - 40) ≤ 2.
Proof.
  destruct (stamp_delays
         {| rp_SequenceNumber := 0; rp_Timestamp := generateNtpTimestamp (day0 + 30);
            rp_ErrorEstimate := 0; rp_ReceiveTimestamp := generateNtpTimestamp (day0 + 20);
            rp_SenderSequenceNumber := 0; rp_SenderTimestamp := generateNtpTimestamp day0;
            rp_SenderErrorEstimate := 0; rp_SenderTTL := 1 |} day0 (day0 + 20) (day0 + 30) (day0 + 50))
    as (p & E & _ & _ & _ & Hr);
    [split; vm_compute; [discriminate|reflexivity]..|reflexivity|reflexivity|reflexivity|].
  exists p. split; [exact E|exact Hr].
Defined.
