(* ===== verification/ReflectorLife.v ===== *)
(** * Stopping a reflector (libs/stamp/reflector.go, executor_stamp_reflector.go)

    The executor runs [Serve] in a goroutine of its own.  When its context ends
    it closes the socket through [Reflector.Close] and waits for the goroutine.
    [Close] does nothing while [Serve] has not yet stored its socket; that the
    loop looks at the context before every read is what makes the wait end.
    The model has one event per step of either goroutine and proves it for
    every interleaving. *)

From S2P Require Import Prelude GoTime Reports AgentConfig Stamp StampProbe.
Import Stamp.Stamp.

Inductive serve_position :=
| Listening
| Opened
| Checking
| Reading
| ServeDone (err : res unit).

Inductive execute_position :=
| Selecting
| Closing
| Awaiting
| ExecuteDone (err : res unit).

Inductive socket := NoSocket | SocketOpen | SocketClosed.

#[export] Instance socket_eq_dec : EqDecision socket.
Proof. solve_decision. Defined.

Section Life.
Context {addr : Type}.

(** [rl_server]: [r.Server] is set; a value waits in [errChan] from the return
    of [Serve] until the executor takes it. *)
Record reflector_life := {
  rl_reflector : Reflector;
  rl_cancelled : bool;
  rl_serve : serve_position;
  rl_server : bool;
  rl_socket : socket;
  rl_execute : execute_position;
  rl_served : list (served addr);
}.

Definition execute_start (cfg : ErrorEstimateConfig) : reflector_life :=
  {| rl_reflector := {| re_seq := 0; re_Config := cfg |}; rl_cancelled := false; rl_serve := Listening;
     rl_server := false; rl_socket := NoSocket; rl_execute := Selecting; rl_served := [] |}.

Definition set_serve (p : serve_position) (so : socket) (s : reflector_life) : reflector_life :=
  {| rl_reflector := rl_reflector s; rl_cancelled := rl_cancelled s; rl_serve := p; rl_server := rl_server s;
     rl_socket := so; rl_execute := rl_execute s; rl_served := rl_served s |}.

Definition set_execute (p : execute_position) (so : socket) (s : reflector_life) : reflector_life :=
  {| rl_reflector := rl_reflector s; rl_cancelled := rl_cancelled s; rl_serve := rl_serve s;
     rl_server := rl_server s; rl_socket := so; rl_execute := p; rl_served := rl_served s |}.

(** ** Serve *)

Definition serve_listens (outcome : res unit) (s : reflector_life) : option reflector_life :=
  match rl_serve s with
  | Listening => Some (match outcome with
                       | ROk _ => set_serve Opened SocketOpen s
                       | e => set_serve (ServeDone e) (rl_socket s) s
                       end)
  | _ => None
  end.

Definition serve_stores (s : reflector_life) : option reflector_life :=
  match rl_serve s with
  | Opened => Some {| rl_reflector := rl_reflector s; rl_cancelled := rl_cancelled s; rl_serve := Checking;
                      rl_server := true; rl_socket := rl_socket s; rl_execute := rl_execute s;
                      rl_served := rl_served s |}
  | _ => None
  end.

(** The deferred close of the socket. *)
Definition serve_returns (s : reflector_life) : reflector_life := set_serve (ServeDone (ROk tt)) SocketClosed s.

Definition serve_checks (s : reflector_life) : option reflector_life :=
  match rl_serve s with
  | Checking => Some (if rl_cancelled s then serve_returns s else set_serve Reading (rl_socket s) s)
  | _ => None
  end.

(** A closed socket gives no datagrams, and every read of it fails. *)
Definition read_possible (rd : readResult addr) (s : reflector_life) : bool :=
  match rd with
  | Datagram _ _ => bool_decide (rl_socket s = SocketOpen)
  | ReadErr cancelled closed =>
      Bool.eqb cancelled (rl_cancelled s) && Bool.eqb closed (bool_decide (rl_socket s = SocketClosed))
  end.

Definition serve_reads (rd : readResult addr) (rx tx : time) (wr : res unit) (s : reflector_life)
    : option reflector_life :=
  match rl_serve s with
  | Reading =>
      if read_possible rd s then
        let '(r', out) := serve_turn (rl_reflector s) rd rx tx wr in
        let s' := {| rl_reflector := r'; rl_cancelled := rl_cancelled s; rl_serve := Checking;
                     rl_server := rl_server s; rl_socket := rl_socket s; rl_execute := rl_execute s;
                     rl_served := rl_served s ++ [out] |} in
        Some (match out with Stopped => serve_returns s' | _ => s' end)
      else None
  | _ => None
  end.

(** ** Execute *)

(** The select of the executor, on the context and on [errChan]. *)
Definition selects_done (s : reflector_life) : option reflector_life :=
  match rl_execute s with
  | Selecting => if rl_cancelled s then Some (set_execute Closing (rl_socket s) s) else None
  | _ => None
  end.

Definition selects_error (s : reflector_life) : option reflector_life :=
  match rl_execute s, rl_serve s with
  | Selecting, ServeDone e => Some (set_execute (ExecuteDone e) (rl_socket s) s)
  | _, _ => None
  end.

(** [Reflector.Close]. *)
Definition Close (s : reflector_life) : option reflector_life :=
  match rl_execute s with
  | Closing => Some (set_execute Awaiting (if rl_server s then SocketClosed else rl_socket s) s)
  | _ => None
  end.

Definition awaits (s : reflector_life) : option reflector_life :=
  match rl_execute s, rl_serve s with
  | Awaiting, ServeDone _ => Some (set_execute (ExecuteDone (RErr "context canceled")) (rl_socket s) s)
  | _, _ => None
  end.

Definition cancels (s : reflector_life) : option reflector_life :=
  if rl_cancelled s then None else
  Some {| rl_reflector := rl_reflector s; rl_cancelled := true; rl_serve := rl_serve s; rl_server := rl_server s;
          rl_socket := rl_socket s; rl_execute := rl_execute s; rl_served := rl_served s |}.

Inductive reflector_event :=
| Cancels
| Listens (outcome : res unit)
| Stores
| Checks
| Reads (rd : readResult addr) (rx tx : time) (wr : res unit)
| SelectsDone
| SelectsError
| Closes
| Awaits.

Definition reflector_step (e : reflector_event) (s : reflector_life) : option reflector_life :=
  match e with
  | Cancels => cancels s
  | Listens outcome => serve_listens outcome s
  | Stores => serve_stores s
  | Checks => serve_checks s
  | Reads rd rx tx wr => serve_reads rd rx tx wr s
  | SelectsDone => selects_done s
  | SelectsError => selects_error s
  | Closes => Close s
  | Awaits => awaits s
  end.

Inductive reachable (cfg : ErrorEstimateConfig) : reflector_life → Prop :=
| reach_start : reachable cfg (execute_start cfg)
| reach_step e s s' : reachable cfg s → reflector_step e s = Some s' → reachable cfg s'.

Inductive steps : nat → reflector_life → reflector_life → Prop :=
| steps_nil s : steps 0 s s
| steps_cons e n s s' s'' : reflector_step e s = Some s' → steps n s' s'' → steps (S n) s s''.

(** ** The invariant *)

Definition serve_done (p : serve_position) : bool := match p with ServeDone _ => true | _ => false end.
Definition execute_done (p : execute_position) : bool := match p with ExecuteDone _ => true | _ => false end.

Definition life_ok (s : reflector_life) : Prop :=
  match rl_serve s with
  | Listening => rl_socket s = NoSocket ∧ rl_server s = false
  | Opened => rl_socket s = SocketOpen ∧ rl_server s = false
  | Checking | Reading => rl_socket s ≠ NoSocket ∧ rl_server s = true
  | ServeDone _ => rl_socket s ≠ SocketOpen
  end ∧
  match rl_execute s with
  | Selecting => True
  | Closing => rl_cancelled s = true
  | Awaiting => rl_cancelled s = true ∧ (rl_serve s = Reading → rl_socket s = SocketClosed)
  | ExecuteDone _ => serve_done (rl_serve s) = true
  end.

Ltac reflector_cases H p x :=
  unfold reflector_step, cancels, serve_listens, serve_stores, serve_checks, selects_done, selects_error, Close,
    awaits in H; simpl in H; first [destruct p; try discriminate H | idtac];
  first [destruct x; try discriminate H | idtac]; repeat case_match; simplify_eq/=.

(** What a read leaves. *)
Lemma serve_reads_cases rd rx tx wr s s' :
  serve_reads rd rx tx wr s = Some s' →
  rl_serve s = Reading ∧ rl_cancelled s' = rl_cancelled s ∧ rl_server s' = rl_server s ∧
  rl_execute s' = rl_execute s ∧
  (rl_serve s' = Checking ∧ rl_socket s' = rl_socket s ∨ rl_serve s' = ServeDone (ROk tt) ∧ rl_socket s' = SocketClosed).
Proof.
  unfold serve_reads. destruct (rl_serve s); try done. destruct (read_possible rd s); [|done].
  destruct (serve_turn _ _ _ _ _) as [r' []]; intros [= <-]; simpl; auto 10.
Qed.

Lemma life_step_ok e s s' : reflector_step e s = Some s' → life_ok s → life_ok s'.
Proof.
  destruct e as [|o| | |rd rx tx wr| | | |]; intros Hst [H1 H2].
  5: { apply serve_reads_cases in Hst as (Ep & Ec & Esv & Ex & Hso). unfold life_ok. rewrite Ep in *.
       rewrite Ec, Esv, Ex. destruct Hso as [[-> ->]|[-> ->]]; (split; [done|]); destruct (rl_execute s); naive_solver. }
  all: destruct s as [r c p sv so x out]; simpl in H1, H2; unfold life_ok.
  all: reflector_cases Hst p x; intuition congruence.
Qed.

Lemma reachable_ok cfg s : reachable cfg s → life_ok s.
Proof. induction 1 as [|e s s' _ IH Hst]; [done|]. by eapply life_step_ok. Qed.

(** ** Termination *)

(** What is left of either goroutine once the context has ended. *)
Definition turns_left (s : reflector_life) : nat :=
  match rl_serve s with Listening => 4 | Opened => 3 | Reading => 2 | Checking => 1 | ServeDone _ => 0 end +
  match rl_execute s with Selecting => 3 | Closing => 2 | Awaiting => 1 | ExecuteDone _ => 0 end.

Lemma turn_taken e s s' :
  rl_cancelled s = true → reflector_step e s = Some s' → rl_cancelled s' = true ∧ (turns_left s' < turns_left s)%nat.
Proof.
  intros Hc Hst. destruct e as [|o| | |rd rx tx wr| | | |].
  5: { apply serve_reads_cases in Hst as (Ep & Ec & _ & Ex & Hso). unfold turns_left. rewrite Ec, Ep, Ex. split; [done|].
       destruct Hso as [[-> _]|[-> _]]; lia. }
  all: destruct s as [r c p sv so x out]; simpl in Hc; subst c.
  all: reflector_cases Hst p x; (split; [done|]); unfold turns_left; simpl; lia.
Qed.

Lemma turns_bounded n s s' : rl_cancelled s = true → steps n s s' → (n + turns_left s' ≤ turns_left s)%nat.
Proof.
  intros Hc Hs. induction Hs as [s|e n s s1 s2 Hst Hs IH]; [lia|].
  destruct (turn_taken e s s1 Hc Hst) as [Hc1 Hlt]. specialize (IH Hc1). lia.
Qed.

(** A step of the two goroutines that needs nothing from the network. *)
Definition own (e : reflector_event) : bool := match e with Reads (Datagram _ _) _ _ _ | Cancels => false | _ => true end.

Lemma own_enabled s :
  life_ok s → rl_cancelled s = true → execute_done (rl_execute s) = false →
  ∃ e, own e = true ∧ is_Some (reflector_step e s).
Proof.
  destruct s as [r c p sv so x out]. intros [H1 H2]. simpl in *. intros -> Hx. destruct p as [| | | |err].
  - exists (Listens (ROk tt)). split; [done|]. by eexists.
  - exists Stores. split; [done|]. by eexists.
  - exists Checks. split; [done|]. by eexists.
  - destruct x; [exists SelectsDone; split; [done|]; by eexists|exists Closes; split; [done|]; by eexists| |done].
    destruct H2 as [_ ->]; [|done]. exists (Reads (ReadErr true true) 0%Z 0%Z (ROk tt)). split; [done|]. by eexists.
  - destruct x; [exists SelectsDone|exists Closes|exists Awaits|done]; (split; [done|]); by eexists.
Qed.

(** C33. The reflector executor stops.  From every state in which its context has
    ended, however the two goroutines got there, at most seven steps are left;
    until the executor has returned one of them can be taken without anything
    from the network; and when it has returned, [Serve] has too and no socket is
    left open. *)
Theorem reflector_stops cfg s :
  reachable cfg s → rl_cancelled s = true →
  (∀ n s', steps n s s' → (n ≤ 7)%nat) ∧
  (execute_done (rl_execute s) = false → ∃ e, own e = true ∧ is_Some (reflector_step e s)) ∧
  (execute_done (rl_execute s) = true → serve_done (rl_serve s) = true ∧ rl_socket s ≠ SocketOpen).
Proof.
  intros Hr%reachable_ok Hc. split; [|split].
  - intros n s' Hs%turns_bounded; [|done].
    assert (turns_left s ≤ 7)%nat by (unfold turns_left; repeat case_match; lia). lia.
  - by apply own_enabled.
  - destruct Hr as [H1 H2]. destruct (rl_execute s); try done. intros _. split; [done|].
    by destruct (rl_serve s).
Qed.

End Life.

(** ** Witness: Close finds no socket, because the cancellation came while
    [Serve] was listening. *)

Definition early_close : list (reflector_event (addr:=nat)) :=
  [Cancels; SelectsDone; Closes; Listens (ROk tt); Stores].

Fixpoint after_events (es : list (reflector_event (addr:=nat))) (s : reflector_life) : reflector_life :=
  match es with [] => s | e :: es' => after_events es' (default s (reflector_step e s)) end.

Lemma after_reachable cfg es s : reachable cfg s → reachable cfg (after_events es s).
Proof.
  revert s. induction es as [|e es IH]; intros s Hs; [done|]. simpl. apply IH.
  destruct (reflector_step e s) eqn:E; [by eapply reach_step|done].
Qed.

Lemma reflector_stops_witness :
  let s := after_events early_close (execute_start agentStampConfig) in
  rl_execute s = Awaiting ∧ rl_socket s = SocketOpen ∧ ∃ e, own e = true ∧ is_Some (reflector_step e s).
Proof.
  split; [reflexivity|]. split; [reflexivity|].
  apply (reflector_stops agentStampConfig).
  - apply after_reachable. constructor.
  - reflexivity.
  - reflexivity.
Defined.
