(* ===== verification/Scamper.v ===== *)
(** * The scamper client (libs/scamper-client/client.go)

    Commands are written to the scamper control socket and answered in order by
    OK (with the id of a measurement, or without one) or ERR; measurements come
    back later as DATA lines with the id and a payload, in any order.  A channel
    is a name and the results sent on it; [Send] and the reader's turns
    interleave under the client's lock. *)

From Stdlib Require Import Ascii.
From S2P Require Import Prelude Float64 GoTime Json.

Local Open Scope Z_scope.
Local Open Scope go_scope.

Module Scamper.

(** ** Lines *)

(** What [fmt] takes for a space, as the octets of its UTF-8 encoding: U+0009 to
    U+000D and U+0020; U+0085 and U+00A0; U+1680, U+2000 to U+200A, U+2028,
    U+2029, U+202F, U+205F and U+3000. *)
Definition space1 (c : ascii) : bool :=
  let n := nat_of_ascii c in Nat.eqb n 32 || (Nat.leb 9 n && Nat.leb n 13).

Definition space2 (a b : ascii) : bool :=
  Nat.eqb (nat_of_ascii a) 0xC2 && (Nat.eqb (nat_of_ascii b) 0x85 || Nat.eqb (nat_of_ascii b) 0xA0).

Definition space3 (a b c : ascii) : bool :=
  let '(x, y, z) := (nat_of_ascii a, nat_of_ascii b, nat_of_ascii c) in
  (Nat.eqb x 0xE1 && Nat.eqb y 0x9A && Nat.eqb z 0x80) ||
  (Nat.eqb x 0xE2 && Nat.eqb y 0x80 &&
     ((Nat.leb 0x80 z && Nat.leb z 0x8A) || Nat.eqb z 0xA8 || Nat.eqb z 0xA9 || Nat.eqb z 0xAF)) ||
  (Nat.eqb x 0xE2 && Nat.eqb y 0x81 && Nat.eqb z 0x9F) ||
  (Nat.eqb x 0xE3 && Nat.eqb y 0x80 && Nat.eqb z 0x80).

(** A space is at the head.  No space begins inside another character, so
    octets can be looked at one after the other. *)
Definition is_space (s : string) : bool :=
  match s with
  | String a s1 =>
      space1 a ||
      match s1 with
      | String b s2 => space2 a b || match s2 with String c _ => space3 a b c | EmptyString => false end
      | EmptyString => false
      end
  | EmptyString => false
  end.

Fixpoint skip_spaces (s : string) : string :=
  match s with
  | String a s1 =>
      if space1 a then skip_spaces s1
      else
        match s1 with
        | String b s2 =>
            if space2 a b then skip_spaces s2
            else match s2 with String c s3 => if space3 a b c then skip_spaces s3 else s | EmptyString => s end
        | EmptyString => s
        end
  | EmptyString => EmptyString
  end.

(** The text up to the next space, and the rest. *)
Fixpoint token (s : string) : string * string :=
  match s with
  | String c s' => if is_space s then (EmptyString, s) else let '(t, r) := token s' in (String c t, r)
  | EmptyString => (EmptyString, EmptyString)
  end.

(** A run of spaces in a Sscanf format: at least one space of input, or its end. *)
Definition format_space (s : string) : option string :=
  match s with
  | EmptyString => Some EmptyString
  | String _ _ => if is_space s then Some (skip_spaces s) else None
  end.

Definition digit_of (c : ascii) : option Z :=
  let n := Z.of_nat (nat_of_ascii c) in
  if Z.leb 48 n && Z.leb n 57 then Some (n - 48) else None.

(** The digits at the head of [s], as a number, with the rest. *)
Fixpoint digits (acc : Z) (seen : bool) (s : string) : option (Z * string) :=
  match s with
  | String c s' =>
      match digit_of c with
      | Some d => digits (acc * 10 + d) true s'
      | None => if seen then Some (acc, s) else None
      end
  | EmptyString => if seen then Some (acc, EmptyString) else None
  end.

(** [%d] into an [int]. *)
Definition scan_int (s : string) : option (Z * string) :=
  let s := skip_spaces s in
  let '(neg, s) := match s with
                   | String c s' => if bool_decide (c = "-"%char) then (true, s')
                                    else if bool_decide (c = "+"%char) then (false, s') else (false, s)
                   | EmptyString => (false, s)
                   end in
  match digits 0 false s with
  | Some (n, r) => let n := if neg : bool then - n else n in if in_int64 n then Some (n, r) else None
  | None => None
  end.

Fixpoint strip_prefix (p s : string) : option string :=
  match p, s with
  | EmptyString, _ => Some s
  | String a p', String b s' => if bool_decide (a = b) then strip_prefix p' s' else None
  | _, EmptyString => None
  end.

Inductive line :=
| LErr
| LMore
| LOk (id : string)
| LData (length : Z) (id : string)
| LMalformed
| LIgnored.

(** The prefix tests in the order of the loop, with the two Sscanf calls. *)
Definition classify (l : string) : line :=
  match strip_prefix "ERR" l with
  | Some _ => LErr
  | None =>
      match strip_prefix "MORE" l with
      | Some _ => LMore
      | None =>
          match strip_prefix "OK" l with
          | Some r => LOk (match format_space r with Some r' => fst (token r') | None => EmptyString end)
          | None =>
              match strip_prefix "DATA" l with
              | Some r =>
                  match format_space r ≫= scan_int with
                  | Some (n, r1) =>
                      match format_space r1 with
                      | Some r2 => let id := fst (token r2) in
                                   if bool_decide (id = EmptyString) then LMalformed else LData n id
                      | None => LMalformed
                      end
                  | None => LMalformed
                  end
              | None => LIgnored
              end
          end
      end
  end.

(** ** The client *)

Definition ScamperFormatWarts : string := "warts".
Definition ScamperFormatJSON : string := "json".

Record ScamperClientConfig := {
  BinPath : string;
  SocketPath : string;
  PPS : Z;
  Window : Z;
  Format : string;
}.

(** [commands] are the lines written to the connection; a channel is a number,
    [delivered] what was sent on it.  The connection, the reader and the mutex
    are not part of the state. *)
Record ScamperClient := {
  client_cfg : ScamperClientConfig;
  commands : list string;
  pendingQ : list nat;
  waiters : gmap string nat;
  delivered : gmap nat (list raw);
  next_chan : nat;
}.

Definition NewClient (cfg : ScamperClientConfig) : res ScamperClient :=
  if String.eqb (BinPath cfg) "" then RErr "invalid config: cfg.BinPath: bin path cannot be empty"
  else
    ROk {| client_cfg :=
             {| BinPath := BinPath cfg;
                SocketPath := if String.eqb (SocketPath cfg) "" then "/tmp/scamper-client.sock" else SocketPath cfg;
                PPS := if Z.eqb (PPS cfg) 0 then 100 else PPS cfg; Window := Window cfg;
                Format := if String.eqb (Format cfg) "" then ScamperFormatWarts else Format cfg |};
           commands := []; pendingQ := []; waiters := ∅; delivered := ∅; next_chan := 0 |}.

(** [written] is the outcome of the write to the socket; a write that fails
    counts as not written. *)
Definition Send (cmd : string) (written : res unit) : go ScamperClient nat := fun s =>
  match written with
  | ROk _ => ({| client_cfg := client_cfg s; commands := commands s ++ [cmd];
                 pendingQ := pendingQ s ++ [next_chan s]; waiters := waiters s;
                 delivered := delivered s; next_chan := S (next_chan s) |}, ROk (next_chan s))
  | RErr e => (s, RErr e)
  | RPanic e => (s, RPanic e)
  end.

Definition deliver (c : nat) (r : raw) (s : ScamperClient) : ScamperClient :=
  {| client_cfg := client_cfg s; commands := commands s; pendingQ := pendingQ s; waiters := waiters s;
     delivered := <[c := default [] (delivered s !! c) ++ [r]]> (delivered s); next_chan := next_chan s |}.

Definition set_queue (q : list nat) (s : ScamperClient) : ScamperClient :=
  {| client_cfg := client_cfg s; commands := commands s; pendingQ := q; waiters := waiters s; delivered := delivered s; next_chan := next_chan s |}.

Definition set_waiters (m : gmap string nat) (s : ScamperClient) : ScamperClient :=
  {| client_cfg := client_cfg s; commands := commands s; pendingQ := pendingQ s; waiters := m; delivered := delivered s; next_chan := next_chan s |}.

(** The largest object the Go runtime allocates on 64-bit Linux. *)
Definition maxAlloc : Z := 281474976710656.

(** Lengths for which [make([]byte, length)] panics. *)
Definition unallocatable (length : Z) : bool := Z.ltb length 0 || Z.ltb maxAlloc length.

(** One line of the reader; [payload] is what reading the announced number of
    octets yields, [None] when the read fails.  A length that is negative or
    cannot be allocated panics; that there is enough memory is not modelled. *)
Definition handle_line (l : line) (payload : option raw) : go ScamperClient unit := fun s =>
  match l with
  | LErr =>
      match pendingQ s with
      | [] => (s, ROk tt)
      | _ :: q => (set_queue q s, ROk tt)
      end
  | LOk id =>
      match pendingQ s with
      | [] => (s, ROk tt)
      | c :: q =>
          if String.eqb id "" then (deliver c RawEmpty (set_queue q s), ROk tt)
          else (set_waiters (<[id := c]> (waiters s)) (set_queue q s), ROk tt)
      end
  | LData length id =>
      if unallocatable length then (s, RPanic "makeslice: len out of range")
      else
        match payload with
        | None => (s, ROk tt)
        | Some d =>
            if String.eqb id "" then (s, ROk tt)
            else match waiters s !! id with
            | None => (s, ROk tt)
            | Some c => (deliver c d (set_waiters (delete id (waiters s)) s), ROk tt)
            end
        end
  | LMore | LMalformed | LIgnored => (s, ROk tt)
  end.

(** ** Executions *)

Inductive client_step : ScamperClient → ScamperClient → Prop :=
| StepSend s cmd w : client_step s (fst (Send cmd w s))
| StepLine s l p : client_step s (fst (handle_line l p s)).

(** The client of [Agent.Run]. *)
Definition agentScamperConfig (binPath : string) (pps : Z) : ScamperClientConfig :=
  {| BinPath := binPath; SocketPath := "/tmp/scamper.sock"; PPS := pps; Window := 0;
     Format := ScamperFormatJSON |}.

Definition empty_client : ScamperClient :=
  {| client_cfg := agentScamperConfig "/usr/bin/scamper" 100; commands := []; pendingQ := []; waiters := ∅; delivered := ∅; next_chan := 0 |}.

(** A channel is pending at most once, waits under at most one id, and has a
    result only when it is neither pending nor waiting, and then exactly one. *)
Record client_ok (s : ScamperClient) : Prop := {
  co_nodup : NoDup (pendingQ s);
  co_inj : ∀ id1 id2 c, waiters s !! id1 = Some c → waiters s !! id2 = Some c → id1 = id2;
  co_disj : ∀ id c, waiters s !! id = Some c → c ∉ pendingQ s;
  co_pending : ∀ c, c ∈ pendingQ s → (c < next_chan s)%nat ∧ delivered s !! c = None;
  co_waiting : ∀ id c, waiters s !! id = Some c → (c < next_chan s)%nat ∧ delivered s !! c = None;
  co_one : ∀ c l, delivered s !! c = Some l → (c < next_chan s)%nat ∧ ∃ r, l = [r];
}.

Lemma send_ok cmd w s : client_ok s → client_ok (fst (Send cmd w s)).
Proof.
  intros [H1 H2 H3 H4 H5 H6]. destruct w as [[]|e|e]; simpl; [|by split..].
  assert (next_chan s ∉ pendingQ s) as Hn by (intros [? _]%H4; lia).
  assert (delivered s !! next_chan s = None) as Hd.
  { destruct (delivered s !! next_chan s) eqn:E; [|done]. apply H6 in E as [? _]. lia. }
  split; simpl; try done.
  - apply NoDup_app. split; [done|]. split; [set_solver|apply NoDup_singleton].
  - intros id c Hc. pose proof (H5 _ _ Hc) as [? _]. specialize (H3 _ _ Hc).
    rewrite not_elem_of_app, list_elem_of_singleton. split; [done|lia].
  - intros c. rewrite elem_of_app, list_elem_of_singleton. intros [[? ?]%H4| ->]; [split; [lia|done]|].
    split; [lia|done].
  - intros id c Hc. apply H5 in Hc as [? ?]. split; [lia|done].
  - intros c l Hl. apply H6 in Hl as [? ?]. split; [lia|done].
Qed.

(** The head of the queue leaves it. *)
Lemma pop_ok s c q :
  client_ok s → pendingQ s = c :: q →
  client_ok (set_queue q s) ∧ c ∉ q ∧ (∀ id, waiters s !! id ≠ Some c) ∧
  (c < next_chan s)%nat ∧ delivered s !! c = None.
Proof.
  intros [H1 H2 H3 H4 H5 H6] E. rewrite E in *. apply NoDup_cons in H1 as [Hc Hnd].
  destruct (H4 c ltac:(set_solver)) as [Hlt Hd]. split; [|split; [done|split; [|done]]].
  - split; simpl; try done; [|intros; apply H4; set_solver].
    intros id c' Hc'. specialize (H3 _ _ Hc'). set_solver.
  - intros id Hid. apply (H3 _ _ Hid). set_solver.
Qed.

Lemma deliver_ok c r s :
  client_ok s → c ∉ pendingQ s → (∀ id, waiters s !! id ≠ Some c) →
  (c < next_chan s)%nat → delivered s !! c = None → client_ok (deliver c r s).
Proof.
  intros [H1 H2 H3 H4 H5 H6] Hp Hw Hlt Hd. split; simpl; try done.
  - intros c' Hc'. destruct (H4 c' Hc') as [? ?]. split; [done|].
    rewrite lookup_insert_ne; [done|]. by intros ->.
  - intros id c' Hc'. destruct (H5 id c' Hc') as [? ?]. split; [done|].
    rewrite lookup_insert_ne; [done|]. intros ->. by apply (Hw id).
  - intros c' l. rewrite lookup_insert. case_decide; [|apply H6].
    subst c'. rewrite Hd. intros [= <-]. split; [done|]. by eexists.
Qed.

Lemma wait_ok id c s :
  client_ok s → c ∉ pendingQ s → (∀ id, waiters s !! id ≠ Some c) →
  (c < next_chan s)%nat → delivered s !! c = None →
  client_ok (set_waiters (<[id := c]> (waiters s)) s).
Proof.
  intros [H1 H2 H3 H4 H5 H6] Hp Hw Hlt Hd. split; simpl; try done.
  - intros id1 id2 c'. rewrite !lookup_insert.
    repeat case_decide; intros; simplify_eq; try done; try (by eapply H2);
      exfalso; by eapply Hw.
  - intros id' c'. rewrite lookup_insert. case_decide; [by intros [= <-]|apply H3].
  - intros id' c'. rewrite lookup_insert. case_decide; [by intros [= <-]|apply H5].
Qed.

Lemma handle_line_ok l p s : client_ok s → client_ok (fst (handle_line l p s)).
Proof.
  intros Hok. destruct l as [| |id|len id| |]; simpl; try done.
  - destruct (pendingQ s) as [|c q] eqn:E; [done|]. by apply (pop_ok s c q).
  - destruct (pendingQ s) as [|c q] eqn:E; [done|].
    destruct (pop_ok s c q Hok E) as (Hok' & Hq & Hw & Hlt & Hd).
    destruct (String.eqb id ""); simpl; [by apply deliver_ok|].
    apply (wait_ok id c (set_queue q s)); done.
  - destruct (unallocatable len); [done|]. destruct p as [d|]; [|done].
    destruct (String.eqb id ""); [done|]. destruct (waiters s !! id) as [c|] eqn:E; [|done]. simpl.
    destruct Hok as [H1 H2 H3 H4 H5 H6]. destruct (H5 _ _ E) as [Hlt Hd].
    apply deliver_ok; simpl; try done.
    + split; simpl; try done.
      * intros id1 id2 c' [_ ?]%lookup_delete_Some [_ ?]%lookup_delete_Some. by eapply H2.
      * intros id' c' [_ ?]%lookup_delete_Some. by eapply H3.
      * intros id' c' [_ ?]%lookup_delete_Some. by eapply H5.
    + by eapply H3.
    + intros id' [Hne ?]%lookup_delete_Some. apply Hne. by eapply H2.
Qed.

Lemma client_step_ok s s' : client_step s s' → client_ok s → client_ok s'.
Proof. intros []; [apply send_ok|apply handle_line_ok]. Qed.

Lemma client_reachable s : rtc client_step empty_client s → client_ok s.
Proof.
  intros Hr. assert (client_ok empty_client) as H0 by (split; simpl; [apply NoDup_nil_2|..]; intros; simplify_map_eq; set_solver).
  revert H0. induction Hr; eauto using client_step_ok.
Qed.

(** ** Theorems *)

(** Whatever lines scamper sends and however commands interleave with them,
    every command's channel gets at most one result (so the reader never
    blocks on the one-place buffer) and is never both answered and still
    waiting. *)
Theorem scamper_one_result s c :
  rtc client_step empty_client s →
  match delivered s !! c with
  | Some l => length l = 1%nat ∧ c ∉ pendingQ s ∧ (∀ id, waiters s !! id ≠ Some c)
  | None => True
  end.
Proof.
  intros [H1 H2 H3 H4 H5 H6]%client_reachable.
  destruct (delivered s !! c) as [l|] eqn:E; [|done]. destruct (H6 c l E) as [_ [r ->]].
  split; [done|]. split.
  - intros [_ Hn]%H4. congruence.
  - intros id [_ Hn]%H5. congruence.
Qed.

(** [s'] comes after [s] by steps that never mention [id]. *)
Inductive other_steps (id : string) : ScamperClient → ScamperClient → Prop :=
| other_refl s : other_steps id s s
| other_send s cmd w s' : other_steps id (fst (Send cmd w s)) s' → other_steps id s s'
| other_line s l p s' :
    (∀ i, l = LOk i → i ≠ id) → (∀ n i, l = LData n i → i ≠ id) →
    other_steps id (fst (handle_line l p s)) s' → other_steps id s s'.

Lemma other_line_waits id l p s c :
  (∀ i, l = LOk i → i ≠ id) → (∀ n i, l = LData n i → i ≠ id) →
  waiters s !! id = Some c → waiters (fst (handle_line l p s)) !! id = Some c.
Proof.
  intros Hok Hdata Hw. destruct l as [| |i|len i| |]; simpl; try done.
  - by destruct (pendingQ s).
  - destruct (pendingQ s) as [|c' q]; [done|]. destruct (String.eqb i ""); simpl; [done|].
    rewrite lookup_insert_ne; [done|]. by apply Hok.
  - destruct (unallocatable len); [done|]. destruct p as [d|]; [|done].
    destruct (String.eqb i ""); [done|]. destruct (waiters s !! i) as [c'|]; [|done]. simpl.
    rewrite lookup_delete_ne; [done|]. by apply (Hdata len).
Qed.

Lemma other_steps_waits id s s' c :
  other_steps id s s' → waiters s !! id = Some c → waiters s' !! id = Some c.
Proof.
  induction 1 as [s|s cmd w s' _ IH|s l p s' Hok Hdata _ IH]; intros Hw; [done|..].
  - apply IH. by destruct w.
  - apply IH. by apply other_line_waits.
Qed.

Lemma other_steps_rtc id s s' : other_steps id s s' → rtc client_step s s'.
Proof.
  induction 1 as [s|s cmd w s' _ IH|s l p s' _ _ _ IH]; [done|..].
  - eapply rtc_l; [apply StepSend|exact IH].
  - eapply rtc_l; [apply StepLine|exact IH].
Qed.

(** C31. A command whose turn it is gets the payload of its measurement: if it is
    first in the queue when its OK arrives with an id, then whatever commands
    and other measurements come in between, the DATA line of that id delivers
    that payload, whose length the runtime can allocate, and nothing else, on
    its channel. *)
Theorem scamper_delivers s c q id s1 n d p0 :
  rtc client_step empty_client s → pendingQ s = c :: q → id ≠ "" →
  other_steps id (fst (handle_line (LOk id) p0 s)) s1 → 0 ≤ n ≤ maxAlloc →
  delivered (fst (handle_line (LData n id) (Some d) s1)) !! c = Some [d].
Proof.
  intros Hr Hq Hid Hsteps Hn.
  assert (waiters (fst (handle_line (LOk id) p0 s)) !! id = Some c) as Hw.
  { simpl. rewrite Hq. destruct (String.eqb_spec id ""); [done|]. simpl. apply lookup_insert_eq. }
  pose proof (other_steps_waits _ _ _ _ Hsteps Hw) as Hw1.
  assert (client_ok s1) as Hok.
  { apply client_reachable. etrans; [exact Hr|]. eapply rtc_l; [apply (StepLine s (LOk id) p0)|].
    by eapply other_steps_rtc. }
  destruct (co_waiting s1 Hok _ _ Hw1) as [_ Hd]. simpl.
  assert (unallocatable n = false) as -> by (apply orb_false_iff; split; apply Z.ltb_ge; lia).
  destruct (String.eqb_spec id ""); [done|]. rewrite Hw1. simpl. rewrite Hd. apply lookup_insert_eq.
Qed.

(** Forgotten: neither pending, nor waiting, nor answered. *)
Definition forgotten (c : nat) (s : ScamperClient) : Prop :=
  (c < next_chan s)%nat ∧ c ∉ pendingQ s ∧ (∀ id, waiters s !! id ≠ Some c) ∧ delivered s !! c = None.

Lemma forgotten_step c s s' : client_step s s' → forgotten c s → forgotten c s'.
Proof.
  intros Hs (Hlt & Hp & Hw & Hd). destruct Hs as [s cmd w|s l p].
  - destruct w as [[]|e|e]; simpl; [|by repeat split..].
    split; [simpl; lia|]. split; [simpl; rewrite not_elem_of_app, list_elem_of_singleton; split; [done|lia]|done].
  - destruct l as [| |i|len i| |]; simpl; try (by repeat split).
    + destruct (pendingQ s) as [|c' q] eqn:E; repeat split; simpl; try done; [by rewrite E|set_solver].
    + destruct (pendingQ s) as [|c' q] eqn:E; [repeat split; simpl; try done; by rewrite E|].
      assert (c ≠ c' ∧ c ∉ q) as [Hne Hq] by set_solver.
      destruct (String.eqb i ""); repeat split; simpl; try done.
      * by rewrite lookup_insert_ne.
      * intros id. rewrite lookup_insert. case_decide; [congruence|apply Hw].
    + destruct (unallocatable len); [by repeat split|]. destruct p as [d|]; [|by repeat split].
      destruct (String.eqb i ""); [by repeat split|]. destruct (waiters s !! i) as [c'|] eqn:E; [|by repeat split].
      assert (c' ≠ c) by (intros ->; by apply (Hw i)). repeat split; simpl; try done.
      * intros id. rewrite lookup_delete. case_decide; [done|apply Hw].
      * by rewrite lookup_insert_ne.
Qed.

(** A rejected command is forgotten: after an ERR its channel is dropped from
    the queue without a result, and nothing scamper says later ever answers it;
    the executor waiting on it ends only when its context does. *)
Theorem scamper_err_forgets s c q p s' :
  rtc client_step empty_client s → pendingQ s = c :: q →
  rtc client_step (fst (handle_line LErr p s)) s' → delivered s' !! c = None.
Proof.
  intros Hok%client_reachable Hq Hr.
  assert (forgotten c (fst (handle_line LErr p s))) as Hf.
  { simpl. rewrite Hq. destruct (pop_ok s c q Hok Hq) as (_ & ? & ? & ? & ?). by repeat split. }
  revert Hf. induction Hr as [s0|s0 s1 s2 Hs _ IH]; [by intros (_ & _ & _ & ?)|].
  intros Hf. apply IH. by eapply forgotten_step.
Qed.

(** ** Witnesses *)

Definition sent_one : ScamperClient := fst (Send "ping 192.0.2.1" (ROk tt) empty_client).

Lemma sent_one_reachable : rtc client_step empty_client sent_one.
Proof. apply rtc_once, (StepSend empty_client "ping 192.0.2.1" (ROk tt)). Qed.

Definition answered : ScamperClient :=
  fst (handle_line (classify "DATA 2 id-1") (Some (RawDoc JNull))
         (fst (handle_line (classify "OK id-1") None sent_one))).

Lemma scamper_one_result_witness : delivered answered !! 0%nat = Some [RawDoc JNull] ∧ 0%nat ∉ pendingQ answered.
Proof.
  split; [reflexivity|].
  refine (proj1 (proj2 (scamper_one_result answered 0%nat _))).
  eapply rtc_l; [apply (StepSend empty_client "ping 192.0.2.1" (ROk tt))|].
  eapply rtc_l; [apply (StepLine sent_one (classify "OK id-1") None)|].
  eapply rtc_l; [apply (StepLine _ (classify "DATA 2 id-1") (Some (RawDoc JNull)))|].
  apply rtc_refl.
Defined.

Lemma scamper_delivers_witness :
  delivered (fst (handle_line (LData 2 "id-1") (Some (RawDoc JNull))
    (fst (handle_line (LOk "id-1") None sent_one)))) !! 0%nat = Some [RawDoc JNull].
Proof.
  apply (scamper_delivers sent_one 0%nat [] "id-1" (fst (handle_line (LOk "id-1") None sent_one)) 2
    (RawDoc JNull) None); [apply sent_one_reachable|reflexivity|discriminate|constructor|unfold maxAlloc; lia].
Defined.

Lemma scamper_err_forgets_witness :
  delivered (fst (handle_line LErr None sent_one)) !! 0%nat = None.
Proof.
  apply (scamper_err_forgets sent_one 0%nat [] None (fst (handle_line LErr None sent_one)));
    [apply sent_one_reachable|reflexivity|apply rtc_refl].
Defined.

End Scamper.
