(* ===== verification/ScamperProcess.v ===== *)
(** * The scamper process and the reader of its control socket

    libs/scamper-client/client.go: Start (the process, the wait for its socket,
    the attach command), Stop, and StartRead as a loop over the octets that
    arrive on the connection.  The file system, the dialer and the context are
    arguments; [parse] reads the octets of a measurement as a message. *)

From S2P Require Import Prelude Float64 GoTime Json Environment Scamper.
From stdpp Require Import pretty.
From Stdlib Require Import Ascii.
Import Scamper.Scamper.

#[local] Arguments String.append !_ _ / : simpl nomatch.

Local Open Scope Z_scope.
Local Open Scope go_scope.

(** ** StartRead *)

Definition newline : ascii := ascii_of_nat 10.

(** [ReadString('\n')] without the newline, and what follows; [None] when the
    connection ends before one. *)
Fixpoint read_line (s : string) : option (string * string) :=
  match s with
  | EmptyString => None
  | String c s' =>
      if Ascii.eqb c newline then Some (EmptyString, s')
      else '(l, r) ← read_line s'; Some (String c l, r)
  end.

(** [io.ReadFull] of [n] octets; a short read fails and consumes everything. *)
Fixpoint read_full (n : nat) (s : string) : option string * string :=
  match n, s with
  | O, _ => (Some EmptyString, s)
  | S n', String c s' => let '(b, r) := read_full n' s' in (String c <$> b, r)
  | S _, EmptyString => (None, EmptyString)
  end.

Section Reader.
Context (parse : string → raw).

(** What one turn of the loop takes from the connection: a line and, after a
    DATA line with a length that can be allocated, its payload. *)
Definition read_turn (input : string) : option (line * option raw * string) :=
  '(l, rest) ← read_line input;
  match classify l with
  | LData n id =>
      if unallocatable n then Some (LData n id, None, rest)
      else let '(buf, rest') := read_full (Z.to_nat n) rest in Some (LData n id, parse <$> buf, rest')
  | x => Some (x, None, rest)
  end.

(** The loop; [fuel] bounds its turns and is never used up when it exceeds the
    length of the input. *)
Fixpoint StartRead (fuel : nat) (input : string) : go ScamperClient unit :=
  match fuel with
  | O => go_panic "out of fuel"
  | S fuel' =>
      match read_turn input with
      | None => go_err "EOF"
      | Some (l, payload, rest) => handle_line l payload ;;; StartRead fuel' rest
      end
  end.

End Reader.

(** ** Start and Stop *)

Inductive process := NotStarted | Running | Killed.

(** The client with its process; [sp_polls] counts the looks at the socket's
    path, [sp_conn] tells whether the connection was made, [sp_reading] whether
    the reader was started and [sp_stopped] whether [done] was closed. *)
Record scamper := {
  sp_client : ScamperClient;
  sp_process : process;
  sp_polls : nat;
  sp_conn : bool;
  sp_reading : bool;
  sp_stopped : bool;
}.

(** A client that [NewClient] made. *)
Definition unstarted (c : ScamperClient) : scamper :=
  {| sp_client := c; sp_process := NotStarted; sp_polls := 0; sp_conn := false; sp_reading := false;
     sp_stopped := false |}.

Definition set_process (p : process) : go scamper unit :=
  go_modify (λ s, {| sp_client := sp_client s; sp_process := p; sp_polls := sp_polls s; sp_conn := sp_conn s;
                     sp_reading := sp_reading s; sp_stopped := sp_stopped s |}).

Definition poll : go scamper unit :=
  go_modify (λ s, {| sp_client := sp_client s; sp_process := sp_process s; sp_polls := S (sp_polls s);
                     sp_conn := sp_conn s; sp_reading := sp_reading s; sp_stopped := sp_stopped s |}).

Definition set_conn : go scamper unit :=
  go_modify (λ s, {| sp_client := sp_client s; sp_process := sp_process s; sp_polls := sp_polls s;
                     sp_conn := true; sp_reading := sp_reading s; sp_stopped := sp_stopped s |}).

Definition set_reading : go scamper unit :=
  go_modify (λ s, {| sp_client := sp_client s; sp_process := sp_process s; sp_polls := sp_polls s;
                     sp_conn := sp_conn s; sp_reading := true; sp_stopped := sp_stopped s |}).

Definition set_stopped : go scamper unit :=
  go_modify (λ s, {| sp_client := sp_client s; sp_process := sp_process s; sp_polls := sp_polls s;
                     sp_conn := sp_conn s; sp_reading := sp_reading s; sp_stopped := true |}).

Definition with_client {A} (c : go ScamperClient A) : go scamper A := fun s =>
  let '(c', r) := c (sp_client s) in
  ({| sp_client := c'; sp_process := sp_process s; sp_polls := sp_polls s; sp_conn := sp_conn s;
      sp_reading := sp_reading s; sp_stopped := sp_stopped s |}, r).

(** The arguments scamper is run with. *)
Definition scamper_args (cfg : ScamperClientConfig) : list string :=
  ["-U"; SocketPath cfg; "-p"; pretty (PPS cfg); "-w"; pretty (Window cfg); "-O"; Format cfg].

(** The loop that waits for the socket: at round [i] the context may be done,
    or the path may exist. *)
Fixpoint wait_socket (n i : nat) (ctx_done exists_ : nat → bool) : go scamper unit :=
  match n with
  | O => go_ret tt
  | S n' =>
      if ctx_done i then set_process Killed ;;; go_err "context canceled"
      else poll ;;; if exists_ i then go_ret tt else wait_socket n' (S i) ctx_done exists_
  end.

(** [executed], [dialled] and [written] are the outcomes of running the binary,
    of connecting and of writing the attach command; [acked] tells whether the
    acknowledgement arrives before the context ends. *)
Definition Start (executed : res unit) (ctx_done exists_ : nat → bool) (dialled written : res unit)
    (acked : bool) : go scamper unit :=
  match executed with
  | RErr _ => go_err "failed to start scamper-client"
  | RPanic e => go_panic e
  | ROk _ =>
      set_process Running ;;;
      wait_socket 20 0 ctx_done exists_ ;;;
      match dialled with
      | RErr _ => set_process Killed ;;; go_err "failed to connect to socket"
      | RPanic e => go_panic e
      | ROk _ =>
          set_conn ;;;
          let* s := go_get in
          let* _ := with_client (Send ("attach format " +:+ Format (client_cfg (sp_client s))) written) in
          set_reading ;;;
          if acked then go_ret tt else go_err "context canceled"
      end
  end.

(** Closing [done] twice panics, and so does closing a connection that was never
    made. *)
Definition Stop : go scamper unit :=
  let* s := go_get in
  if sp_stopped s then go_panic "close of closed channel"
  else
    set_stopped ;;;
    if sp_conn s then go_ret tt else go_panic "nil pointer dereference".

(** ** Termination *)

Lemma read_line_shorter s l r : read_line s = Some (l, r) → (String.length r < String.length s)%nat.
Proof.
  revert l r. induction s as [|c s IH]; intros l r; simpl; [done|].
  destruct (Ascii.eqb c newline); [intros [= <- <-]; lia|].
  intros ([l' r'] & Hl & [= <- <-])%bind_Some. specialize (IH _ _ Hl). lia.
Qed.

Lemma read_full_shorter n s : (String.length (snd (read_full n s)) ≤ String.length s)%nat.
Proof.
  revert s. induction n as [|n IH]; intros s; simpl; [lia|]. destruct s as [|c s]; simpl; [lia|].
  specialize (IH s). destruct (read_full n s). simpl in *. lia.
Qed.

Section ReaderFacts.
Context (parse : string → raw).

Lemma read_turn_shorter input l p rest :
  read_turn parse input = Some (l, p, rest) → (String.length rest < String.length input)%nat.
Proof.
  unfold read_turn. intros ([l0 r0] & Hl & Ht)%bind_Some. apply read_line_shorter in Hl.
  destruct (classify l0) as [| | |n id| |]; simplify_eq; try done.
  destruct (unallocatable n); simplify_eq; [done|].
  pose proof (read_full_shorter (Z.to_nat n) r0) as Hf.
  destruct (read_full (Z.to_nat n) r0). simplify_eq/=. lia.
Qed.

(** A DATA line whose length cannot be allocated. *)
Definition bad_length (l : line) : bool := match l with LData n _ => unallocatable n | _ => false end.

(** A turn of the reader never returns an error, and panics on a bad length
    only. *)
Lemma handle_line_outcome l p s :
  snd (handle_line l p s) = if bad_length l then RPanic "makeslice: len out of range" else ROk tt.
Proof.
  unfold handle_line. destruct l as [| |id|n id| |]; simpl; try done.
  - by destruct (pendingQ s).
  - destruct (pendingQ s); [done|]. by destruct (String.eqb id "").
  - destruct (unallocatable n); [done|]. repeat case_match; done.
Qed.

(** The lines that the turns of the loop find in the input. *)
Fixpoint lines_read (fuel : nat) (input : string) : list line :=
  match fuel with
  | O => []
  | S fuel' =>
      match read_turn parse input with
      | None => []
      | Some (l, _, rest) => l :: lines_read fuel' rest
      end
  end.

(** The bound on the number of turns is not what stops the reader. *)
Lemma StartRead_fuel fuel fuel' input s :
  (String.length input < fuel)%nat → (String.length input < fuel')%nat →
  StartRead parse fuel input s = StartRead parse fuel' input s.
Proof.
  revert fuel' input s. induction fuel as [|fuel IH]; intros fuel' input s H1 H2; [lia|].
  destruct fuel' as [|fuel']; [lia|]. simpl.
  destruct (read_turn parse input) as [[[l p] rest]|] eqn:E; [|done].
  apply read_turn_shorter in E. unfold go_bind. destruct (handle_line l p s) as [s' [[]|?|?]]; try done.
  apply IH; lia.
Qed.

(** C32. On every input that ends the reader stops, after at most one turn per
    octet: it returns the end of the connection when no DATA line that its turns
    find announces a length that cannot be allocated, that is a negative one or
    one above the runtime's limit, and otherwise panics on the first such line. *)
Theorem reader_terminates fuel input s :
  (String.length input < fuel)%nat →
  snd (StartRead parse fuel input s) =
    (if existsb bad_length (lines_read fuel input) then RPanic "makeslice: len out of range" else RErr "EOF") ∧
  (length (lines_read fuel input) ≤ String.length input)%nat.
Proof.
  revert input s. induction fuel as [|fuel IH]; intros input s Hf; [lia|]. simpl.
  destruct (read_turn parse input) as [[[l p] rest]|] eqn:E; [|simpl; split; [done|lia]].
  apply read_turn_shorter in E. pose proof (handle_line_outcome l p s) as Ho. unfold go_bind.
  destruct (handle_line l p s) as [s' r]. simpl in Ho. subst r. simpl.
  destruct (IH rest s' ltac:(lia)) as [IH1 IH2]. destruct (bad_length l); simpl; (split; [done|lia]).
Qed.

End ReaderFacts.

(** ** Framing *)

(** What scamper writes on the control socket. *)
Inductive frame :=
| FOk (id : string)
| FErr
| FMore
| FData (id payload : string).

Definition print_frame (f : frame) : string :=
  match f with
  | FOk id => "OK " +:+ id +:+ String newline ""
  | FErr => "ERR" +:+ String newline ""
  | FMore => "MORE" +:+ String newline ""
  | FData id payload =>
      "DATA " +:+ pretty (N.of_nat (String.length payload)) +:+ " " +:+ id +:+ String newline payload
  end.

Definition print_frames (l : list frame) : string := foldr (λ f s, print_frame f +:+ s) "" l.

(** An identifier: no spaces. *)
Fixpoint plain (s : string) : bool :=
  match s with EmptyString => true | String c s' => negb (is_space s) && plain s' end.

Definition frame_ok (f : frame) : Prop :=
  match f with
  | FOk id => plain id = true
  | FData id payload => plain id = true ∧ id ≠ "" ∧ Z.of_nat (String.length payload) ≤ maxAlloc
  | _ => True
  end.

(** What the loop makes of a frame. *)
Definition handle_frame (parse : string → raw) (f : frame) : go ScamperClient unit :=
  match f with
  | FOk id => handle_line (LOk id) None
  | FErr => handle_line LErr None
  | FMore => handle_line LMore None
  | FData id payload =>
      handle_line (LData (Z.of_nat (String.length payload)) id) (Some (parse payload))
  end.

Lemma token_plain s : plain s = true → token s = (s, "").
Proof.
  induction s as [|c s IH]; [done|]. cbn [plain token]. intros [Hc Hs]%andb_true_iff.
  destruct (is_space (String c s)); [done|]. by rewrite IH.
Qed.

Lemma skip_none s : is_space s = false → skip_spaces s = s.
Proof.
  destruct s as [|a [|b [|c s]]]; simpl; [done|..].
  - by rewrite orb_false_r; intros ->.
  - intros [-> H2]%orb_false_iff. rewrite orb_false_r in H2. by rewrite H2.
  - by intros [-> [-> ->]%orb_false_iff]%orb_false_iff.
Qed.

Lemma skip_plain s : plain s = true → skip_spaces s = s.
Proof.
  destruct s as [|c s]; [done|]. cbn [plain]. intros [Hc _]%andb_true_iff. apply skip_none.
  by destruct (is_space (String c s)).
Qed.

(** A digit begins no space. *)
Lemma digit_no_space c d s : digit_of c = Some d → is_space (String c s) = false.
Proof.
  unfold digit_of. intros Hd. destruct (_ && _) eqn:E; [|done]. clear Hd.
  apply andb_true_iff in E as [E1%Z.leb_le E2%Z.leb_le].
  assert (48 ≤ nat_of_ascii c ∧ nat_of_ascii c ≤ 57)%nat as [H1 H2] by lia.
  simpl. unfold space1, space2, space3.
  assert (∀ k, (k < 48 ∨ 57 < k)%nat → Nat.eqb (nat_of_ascii c) k = false) as Hk
    by (intros k Hk; apply Nat.eqb_neq; lia).
  assert (Nat.leb (nat_of_ascii c) 13 = false) as Hle by (apply Nat.leb_gt; lia).
  rewrite Hle, !Hk by lia. rewrite andb_false_r. by destruct s as [|? []].
Qed.

Lemma skip_digit c s t : digit c ≠ None → skip_spaces (String c s +:+ t) = String c s +:+ t.
Proof.
  change digit with digit_of. intros Hc. apply skip_none. cbn [String.append].
  destruct (digit_of c) as [d|] eqn:E; [|done]. by eapply digit_no_space.
Qed.

(** Characters a line may hold: anything but a newline. *)
Fixpoint one_line (s : string) : bool :=
  match s with EmptyString => true | String c s' => negb (Ascii.eqb c newline) && one_line s' end.

Lemma one_line_app s t : one_line (s +:+ t) = one_line s && one_line t.
Proof. induction s as [|c s IH]; simpl; [done|]. by rewrite IH, andb_assoc. Qed.

Lemma one_line_plain s : plain s = true → one_line s = true.
Proof.
  induction s as [|c s IH]; [done|]. cbn [plain one_line]. intros [Hc Hs]%andb_true_iff. rewrite IH by done.
  destruct (Ascii.eqb_spec c newline) as [->|]; [|done]. by destruct s as [|? []].
Qed.

Lemma read_line_app l s : one_line l = true → read_line (l +:+ String newline s) = Some (l, s).
Proof.
  induction l as [|c l IH]; simpl; [done|]. intros [Hc Hl]%andb_true_iff.
  destruct (Ascii.eqb c newline); [done|]. by rewrite (IH Hl).
Qed.

Lemma read_full_app p s : read_full (String.length p) (p +:+ s) = (Some p, s).
Proof. induction p as [|c p IH]; simpl; [done|]. by rewrite IH. Qed.

(** *** Numbers *)

Lemma pretty_go_plain n s : plain s = true → plain (pretty_N_go n s) = true.
Proof.
  revert s. induction (N.lt_wf_0 n) as [n _ IH]. intros s Hs.
  destruct (decide (n = 0%N)) as [->|Hn]; [by rewrite pretty_N_go_0|].
  rewrite pretty_N_go_step by lia. apply IH; [apply N.div_lt; lia|]. cbn [plain].
  pose proof (digit_pretty (n mod 10) (N.mod_lt n 10 ltac:(lia))) as Hd. change digit with digit_of in Hd.
  by rewrite (digit_no_space _ _ _ Hd), Hs.
Qed.

Lemma pretty_plain (n : N) : plain (pretty n) = true.
Proof. unfold pretty, pretty_N. case_decide; [done|]. by apply pretty_go_plain. Qed.

Lemma digits_pretty_go n s t :
  (0 < n)%N → Scamper.Scamper.digits 0 false (pretty_N_go n s +:+ t) = Scamper.Scamper.digits (Z.of_N n) true (s +:+ t).
Proof.
  revert s. induction (N.lt_wf_0 n) as [n _ IH]. intros s Hn. rewrite pretty_N_go_step by done.
  assert (n = 10 * (n / 10) + n mod 10)%N as E by (apply N.div_mod; lia).
  pose proof (N.mod_lt n 10 ltac:(lia)) as Hm.
  pose proof (digit_pretty _ Hm) as Hd. change digit with digit_of in Hd.
  destruct (decide (n / 10 = 0)%N) as [E0|Hne].
  - rewrite E0, pretty_N_go_0. simpl. rewrite Hd. f_equal. lia.
  - rewrite IH; [|apply N.div_lt; lia|by apply N.neq_0_lt_0]. simpl. rewrite Hd. f_equal. lia.
Qed.

Lemma digits_pretty_stop (n : N) t :
  match t with String c _ => digit_of c = None | EmptyString => True end →
  Scamper.Scamper.digits 0 false (pretty n +:+ t) = Some (Z.of_N n, t).
Proof.
  intros Ht. assert (∀ z, Scamper.Scamper.digits z true t = Some (z, t)) as Hs.
  { intros z. destruct t; simpl; [done|]. by rewrite Ht. }
  unfold pretty, pretty_N. case_decide as Hn; [subst; simpl; apply Hs|].
  rewrite digits_pretty_go by lia. apply Hs.
Qed.

Lemma scan_int_pretty (n : N) t :
  Z.of_N n ≤ 9223372036854775807 →
  match t with String c _ => digit_of c = None | EmptyString => True end →
  scan_int (pretty n +:+ t) = Some (Z.of_N n, t).
Proof.
  intros Hn Ht. pose proof (digits_pretty_stop n t Ht) as Hd.
  destruct (pretty_N_head n) as (c & s & E & Hc).
  unfold scan_int. rewrite E in *.
  assert (skip_spaces (String c s +:+ t) = String c s +:+ t) as -> by (by apply skip_digit).
  assert (c ≠ "-"%char ∧ c ≠ "+"%char) as [H1 H2] by (split; intros ->; by destruct Hc).
  cbn [String.append]. rewrite !bool_decide_false by done. cbn [String.append] in Hd. rewrite Hd.
  unfold in_int64. destruct (Z.leb_spec (-9223372036854775808) (Z.of_N n)); [|lia].
  destruct (Z.ltb_spec (Z.of_N n) 9223372036854775808); [done|lia].
Qed.

(** *** Frames *)

Lemma classify_ok id : plain id = true → classify ("OK " +:+ id) = LOk id.
Proof.
  intros Hp. unfold classify. simpl. unfold format_space. simpl.
  by rewrite skip_plain, token_plain.
Qed.

Lemma classify_data (n : N) id :
  plain id = true → id ≠ "" → Z.of_N n ≤ 9223372036854775807 →
  classify ("DATA " +:+ pretty n +:+ " " +:+ id) = LData (Z.of_N n) id.
Proof.
  intros Hp Hne Hn. unfold classify. simpl. unfold format_space at 1. simpl.
  assert (skip_spaces (pretty n +:+ String " " id) = pretty n +:+ String " " id) as ->.
  { destruct (pretty_N_head n) as (c & s & E & Hc). rewrite E. by apply skip_digit. }
  rewrite scan_int_pretty by done. simpl. by rewrite skip_plain, token_plain, bool_decide_false.
Qed.

(** One turn of the reader takes exactly one frame. *)
Lemma read_turn_frame parse f s :
  frame_ok f →
  ∃ l p, read_turn parse (print_frame f +:+ s) = Some (l, p, s) ∧ handle_frame parse f = handle_line l p.
Proof.
  intros Hf. unfold read_turn. destruct f as [id| | |id payload]; unfold print_frame.
  - exists (LOk id), None. split; [|done].
    assert (("OK " +:+ id +:+ String newline "") +:+ s = ("OK " +:+ id) +:+ String newline s) as ->
      by (by rewrite !str_app_assoc).
    rewrite read_line_app by (rewrite one_line_app; simpl; by apply one_line_plain).
    cbn [mbind option_bind]. by rewrite classify_ok.
  - by exists LErr, None.
  - by exists LMore, None.
  - destruct Hf as (Hp & Hne & Hl). exists (LData (Z.of_nat (String.length payload)) id), (Some (parse payload)).
    split; [|done].
    assert (("DATA " +:+ pretty (N.of_nat (String.length payload)) +:+ " " +:+ id +:+ String newline payload) +:+ s =
      ("DATA " +:+ pretty (N.of_nat (String.length payload)) +:+ " " +:+ id) +:+ String newline (payload +:+ s)) as ->
      by (rewrite !str_app_assoc; done).
    rewrite read_line_app.
    2: { rewrite !one_line_app, (one_line_plain id Hp), (one_line_plain (pretty _) (pretty_plain _)). done. }
    cbn [mbind option_bind]. rewrite classify_data by (try done; unfold maxAlloc in Hl; lia). rewrite nat_N_Z.
    assert (unallocatable (Z.of_nat (String.length payload)) = false) as ->
      by (apply orb_false_iff; split; apply Z.ltb_ge; lia).
    by rewrite Nat2Z.id, read_full_app.
Qed.

Lemma print_frame_nonempty f : (0 < String.length (print_frame f))%nat.
Proof. destruct f; simpl; lia. Qed.

(** C26. Framing is lossless: on the octets of any sequence of frames, whose
    payloads may hold anything, newlines and text that looks like a frame
    included, the reader handles exactly those frames, in order, each DATA with
    its whole payload, and then returns the end of the connection. *)
Theorem reader_frames parse frames fuel s :
  Forall frame_ok frames → (String.length (print_frames frames) < fuel)%nat →
  StartRead parse fuel (print_frames frames) s =
    (go_each (handle_frame parse) frames ;;; go_err "EOF") s.
Proof.
  intros Hf. revert fuel s. induction Hf as [|f frames Hf Hfs IH]; intros fuel s Hl.
  { destruct fuel; [simpl in Hl; lia|done]. }
  destruct fuel as [|fuel]; [lia|]. cbn [print_frames foldr] in *. fold (print_frames frames) in *.
  destruct (read_turn_frame parse f (print_frames frames) Hf) as (l & p & E & Eh).
  rewrite str_length_app in Hl. pose proof (print_frame_nonempty f).
  cbn [StartRead go_each]. rewrite E, Eh. unfold go_bind.
  destruct (handle_line l p s) as [s' [[]|?|?]]; [|done..].
  rewrite (IH fuel s') by lia. done.
Qed.

(** ** Starting *)

Lemma wait_socket_spec n i ctx_done exists_ s :
  let '(s', r) := wait_socket n i ctx_done exists_ s in
  (sp_polls s' ≤ sp_polls s + n)%nat ∧ sp_client s' = sp_client s ∧ sp_stopped s' = sp_stopped s ∧
  ((r = ROk tt ∧ sp_process s' = sp_process s) ∨
   (r = RErr "context canceled" ∧ sp_process s' = Killed ∧ ∃ k, ctx_done k = true)).
Proof.
  revert i s. induction n as [|n IH]; intros i s; simpl.
  { split; [lia|]. auto. }
  destruct (ctx_done i) eqn:Ec.
  { simpl. split; [lia|]. do 2 (split; [done|]). right. eauto. }
  unfold go_bind, poll, go_modify. destruct (exists_ i); simpl.
  { split; [lia|]. auto. }
  match goal with |- context [wait_socket n (S i) ctx_done exists_ ?t] =>
    specialize (IH (S i) t); destruct (wait_socket n (S i) ctx_done exists_ t) as [s' r] end.
  simpl in IH. destruct IH as (H1 & H2 & H3 & H4). split; [lia|]. auto.
Qed.

#[local] Opaque wait_socket.

(** Starting looks for the socket at most twenty times; it succeeds only with
    the process running, the attach command written in the client's format and
    the reader started, and a process whose socket cannot be reached is killed. *)
Lemma Start_spec executed ctx_done exists_ dialled written acked c :
  let s0 := unstarted c in
  let '(s, r) := Start executed ctx_done exists_ dialled written acked s0 in
  (sp_polls s ≤ 20)%nat ∧
  (r = ROk tt → sp_process s = Running ∧ sp_reading s = true ∧ sp_conn s = true ∧ sp_stopped s = false ∧
     commands (sp_client s) = commands c ++ ["attach format " +:+ Format (client_cfg c)]) ∧
  (∀ e, dialled = RErr e → sp_process s ≠ Running).
Proof.
  intros s0. unfold Start. destruct executed as [[]|e|e]; simpl; [|split; [lia|done]..].
  unfold go_bind at 1, set_process at 1, go_modify. simpl.
  set (s1 := {| sp_client := c; sp_process := Running; sp_polls := 0; sp_conn := false; sp_reading := false;
                sp_stopped := false |}).
  pose proof (wait_socket_spec 20 0 ctx_done exists_ s1) as Hw. unfold go_bind at 1.
  destruct (wait_socket 20 0 ctx_done exists_ s1) as [s2 r].
  destruct Hw as (H1 & H2 & H3 & [[-> H4]|(-> & H4 & _)]); [|simpl in *; split; [lia|]; split; [done|congruence]].
  simpl in H1. destruct dialled as [[]|e|e]; simpl in *; [|split; [lia|done]..].
  unfold go_bind, with_client. simpl. destruct written as [[]|e|e]; simpl; [|split; [lia|done]..].
  destruct acked; simpl; (split; [lia|]); [|done]. rewrite H2, H3. by auto 10.
Qed.

(** A started client is stopped once. *)
Lemma Stop_once s :
  sp_conn s = true → sp_stopped s = false →
  ∃ s', Stop s = (s', ROk tt) ∧ Stop s' = (s', RPanic "close of closed channel").
Proof.
  intros Hc Hs. unfold Stop, go_bind, go_get, set_stopped, go_modify. rewrite Hs, Hc. eexists. split; done.
Qed.

(** A failed attach command leaves the process running. *)
Lemma failed_attach_leaks ctx_done exists_ e c :
  (∀ k, ctx_done k = false) →
  let s0 := unstarted c in
  let '(s, r) := Start (ROk tt) ctx_done exists_ (ROk tt) (RErr e) true s0 in
  r = RErr e ∧ sp_process s = Running.
Proof.
  intros Hc s0. unfold Start. unfold go_bind at 1, set_process at 1, go_modify. simpl.
  set (s1 := {| sp_client := c; sp_process := Running; sp_polls := 0; sp_conn := false; sp_reading := false;
                sp_stopped := false |}).
  pose proof (wait_socket_spec 20 0 ctx_done exists_ s1) as Hw. unfold go_bind at 1.
  destruct (wait_socket 20 0 ctx_done exists_ s1) as [s2 r].
  destruct Hw as (_ & _ & _ & [[-> H4]|(_ & _ & k & Hk)]); [|by rewrite Hc in Hk].
  unfold go_bind, with_client. simpl. auto.
Qed.

(** ** Witnesses *)

(** A measurement whose payload looks like another answer. *)
Definition example_frames : list frame :=
  [FOk "id-1"; FMore; FData "id-1" ("OK id-2" +:+ String newline "ERR" +:+ String newline "")].

Lemma reader_frames_witness :
  delivered (fst (StartRead (λ _, RawDoc JNull) 100 (print_frames example_frames) sent_one)) !! 0%nat =
    Some [RawDoc JNull].
Proof.
  rewrite (reader_frames (λ _, RawDoc JNull) example_frames 100 sent_one).
  - vm_compute. reflexivity.
  - repeat constructor; simpl; done.
  - apply Nat.ltb_lt. vm_compute. reflexivity.
Defined.

Definition negative_data : string := "MORE" +:+ String newline "DATA -1 x" +:+ String newline "".

Lemma reader_terminates_witness :
  snd (StartRead (λ _, RawDoc JNull) 5 "OK x" sent_one) = RErr "EOF" ∧
  snd (StartRead (λ _, RawDoc JNull) 40 negative_data sent_one) = RPanic "makeslice: len out of range".
Proof.
  split.
  - destruct (reader_terminates (λ _, RawDoc JNull) 5 "OK x" sent_one) as [E _]; [apply Nat.ltb_lt; reflexivity|].
    rewrite E. reflexivity.
  - destruct (reader_terminates (λ _, RawDoc JNull) 40 negative_data sent_one) as [E _]; [apply Nat.ltb_lt; reflexivity|].
    rewrite E. reflexivity.
Defined.
