(* ===== verification/AgentPipeline.v ===== *)
(** * Executors and dispatcher of the agent

    services/agent/executor_ping.go, executor_trace.go, supervisor_tasks.go
    (runOnce) and dispatcher.go: a task's executor yields a probe result, runOnce
    puts it into the buffer, and the dispatcher wraps it into a report and
    publishes it on the subject of its probe type. *)

From S2P Require Import Prelude Float64 GoTime Json ArgusWorker Reports AgentConfig Supervisor Stamp StampProbe Scamper.
Import Stamp.Stamp.

Local Open Scope Z_scope.
Local Open Scope go_scope.

(** ** Scamper executors

    [written] is the outcome of the write to scamper's socket; [answer] is what
    arrives on the command's channel, [None] when the context ends first. *)

Definition Ping_Execute (params : option TaskParams) (spec : Task) (written : res unit)
    (answer : option raw) (now : time) : go Scamper.Scamper.ScamperClient ProbeResult :=
  match params with
  | Some (PingParams target sourceIP count size dscp timeout) =>
      let* sent := go_try (Scamper.Scamper.Send ("ping " +:+ target) written) in
      match sent with
      | inl _ => go_err "failed to send ping probe"
      | inr _ =>
          match answer with
          | None => go_err "context canceled"
          | Some data =>
              go_ret {| prr_TaskID := t_TaskID spec; prr_ProbeType := ProbeTypePing; prr_Timestamp := now;
                        prr_Kind := t_Type spec; prr_Data := data |}
          end
      end
  | _ => go_err "params parsing error: expected PingParams"
  end.

Definition Trace_Execute (params : option TaskParams) (spec : Task) (written : res unit)
    (answer : option raw) (now : time) : go Scamper.Scamper.ScamperClient ProbeResult :=
  match params with
  | Some (TraceParams target sourceIP method maxTTL firstTTL dscp wait) =>
      let* sent := go_try (Scamper.Scamper.Send ("trace -P " +:+ method +:+ " " +:+ target) written) in
      match sent with
      | inl _ => go_err "scamper-client-trace: failed to send trace command"
      | inr _ =>
          match answer with
          | None => go_err "context canceled"
          | Some data =>
              let* s := go_get in
              go_ret {| prr_TaskID := t_TaskID spec; prr_ProbeType := ProbeTypeTrace; prr_Timestamp := now;
                        prr_Kind := t_Type spec;
                        prr_Data := RawDoc (trace_data_to_json
                          {| td_Type := TraceProbeTypeTrace; td_Method := method; td_Data := data;
                             td_Format := Scamper.Scamper.Format (Scamper.Scamper.client_cfg s) |}) |}
          end
      end
  | _ => go_err "scamper-client-trace: expected TraceParams"
  end.

(** ** runOnce *)

(** The [Executor] interface. *)
Class Executor (E : Type) := Execute : E → option TaskParams → Task → res ProbeResult.

(** [done] and [pick_done] are the context at the insertion.  A panic of the
    executor or of the insertion takes the agent down. *)
Definition runOnce {E} `{Executor E} (executors : gmap string E) (spec : Task) (done pick_done : bool)
    : go (ProbeDataStream ProbeResult) unit :=
  match executors !! t_Type spec with
  | None => go_ret tt
  | Some e =>
      match Execute e (t_Params spec) spec with
      | RErr _ => go_ret tt
      | RPanic p => go_panic p
      | ROk r => let* _ := Insert done pick_done r in go_ret tt
      end
  end.

(** ** Dispatcher *)

Record Dispatcher := { di_SerialID : string; di_getAgentConfig : string }.

Inductive published :=
| Skipped
| Published (subject : string) (payload : json).

Definition subject_of (probeType serial : string) : string :=
  if String.eqb probeType ProbeTypeStamp then "cepheus.probe.stamp." +:+ serial
  else if String.eqb probeType ProbeTypeTrace then "cepheus.probe.trace." +:+ serial
  else if String.eqb probeType ProbeTypePing then "cepheus.probe.ping." +:+ serial
  else "".

(** What the dispatcher attempts to publish for a result taken at [now]. *)
Definition dispatch_result (d : Dispatcher) (now : time) (data : ProbeResult) : published :=
  if String.eqb (prr_ProbeType data) "" then Skipped
  else
    let payload := {| rpl_Payload := data; rpl_SerialID := di_SerialID d; rpl_SentTimestamp := now;
                      rpl_AgentConfigId := di_getAgentConfig d |} in
    match report_to_json payload with
    | None => Skipped
    | Some j => Published (subject_of (prr_ProbeType data) (di_SerialID d)) j
    end.

(** One turn of the loop: the oldest result leaves the buffer. *)
Definition dispatcher_turn (d : Dispatcher) (now : time) (s : ProbeDataStream ProbeResult)
    : ProbeDataStream ProbeResult * option published :=
  match ps_buf s with
  | [] => (s, None)
  | data :: l => ({| ps_buf := l; ps_cap := ps_cap s |}, Some (dispatch_result d now data))
  end.

(** ** Lemmas *)

(** A result with data arrives at the subject of its type and is read back. *)
Lemma dispatch_result_roundtrip d now data j0 :
  prr_ProbeType data ≠ "" → prr_Data data = RawDoc j0 →
  enc_time (prr_Timestamp data) ≠ None → enc_time now ≠ None →
  ∃ j, dispatch_result d now data = Published (subject_of (prr_ProbeType data) (di_SerialID d)) j ∧
    unmarshal report_from_json report_zero (RawDoc j) =
      Some {| rpl_Payload := data; rpl_SerialID := di_SerialID d; rpl_SentTimestamp := now;
              rpl_AgentConfigId := di_getAgentConfig d |}.
Proof.
  intros Hty Hd Ht Hn. unfold dispatch_result. destruct (String.eqb_spec (prr_ProbeType data) ""); [done|].
  set (payload := {| rpl_Payload := data |}).
  destruct (report_to_json payload) as [j|] eqn:Ej.
  { exists j. split; [done|]. by eapply report_roundtrip. }
  exfalso. unfold report_to_json, probe_result_to_json in Ej. simpl in Ej.
  destruct (enc_time (prr_Timestamp data)); [|done]. rewrite Hd in Ej. cbn [mbind option_bind] in Ej.
  by destruct (enc_time now).
Qed.

(** What the trace executor reports is what the trace processor decodes, in the
    format of the agent's client; the command names the method and the target. *)
Lemma Trace_Execute_report target sip method mt ft dscp wait spec answer now s :
  let '(s', r) := Trace_Execute (Some (TraceParams target sip method mt ft dscp wait)) spec (ROk tt)
                    (Some answer) now s in
  Scamper.Scamper.commands s' =
    Scamper.Scamper.commands s ++ ["trace -P " +:+ method +:+ " " +:+ target] ∧
  ∃ p, r = ROk p ∧ prr_ProbeType p = ProbeTypeTrace ∧ prr_TaskID p = t_TaskID spec ∧
    unmarshal (dec_struct trace_data_set) trace_data_zero (prr_Data p) =
      Some {| td_Type := TraceProbeTypeTrace; td_Method := method; td_Data := answer;
              td_Format := Scamper.Scamper.Format (Scamper.Scamper.client_cfg s) |}.
Proof.
  split; [reflexivity|]. eexists. split; [reflexivity|]. split; [reflexivity|]. split; [reflexivity|].
  apply trace_data_roundtrip.
Qed.

Lemma Ping_Execute_report target sip count size dscp timeout spec answer now s :
  let '(s', r) := Ping_Execute (Some (PingParams target sip count size dscp timeout)) spec (ROk tt)
                    (Some answer) now s in
  Scamper.Scamper.commands s' = Scamper.Scamper.commands s ++ ["ping " +:+ target] ∧
  r = ROk {| prr_TaskID := t_TaskID spec; prr_ProbeType := ProbeTypePing; prr_Kind := t_Type spec;
             prr_Timestamp := now; prr_Data := answer |}.
Proof. split; reflexivity. Qed.

(** One run appends at most the result of the executor of the task's type, and
    what the dispatcher takes next is the oldest result. *)
Lemma runOnce_spec {E} `{Executor E} (executors : gmap string E) spec dn pick s :
  (length (ps_buf s) ≤ ps_cap s)%nat →
  let '(s', r) := runOnce executors spec dn pick s in
  (length (ps_buf s') ≤ ps_cap s')%nat ∧
  (s' = s ∨ ∃ e p, executors !! t_Type spec = Some e ∧ Execute e (t_Params spec) spec = ROk p ∧
     ps_buf s' = ps_buf s ++ [p]).
Proof.
  intros Hlen. unfold runOnce. destruct (executors !! t_Type spec) as [e|] eqn:Ee; [|by split; [|left]].
  destruct (Execute e (t_Params spec) spec) as [p|err|err] eqn:Ex; [|by split; [|left]..].
  pose proof (insert_spec s p dn pick Hlen) as Hi.
  unfold go_bind. destruct (Insert dn pick p s) as [s' r]. destruct Hi as (H1 & H2 & H3 & _).
  assert (r = ROk true ∨ r ≠ ROk true) as [->|Hne].
  { destruct r as [[]|?|?]; [by left|right; congruence..]. }
  - split; [done|]. right. exists e, p. auto.
  - rewrite (H3 Hne). destruct r as [b|?|?]; simpl; auto.
Qed.
