(* ===== verification/DispatcherLife.v ===== *)
(** * The life of the dispatcher (services/agent/dispatcher.go)

    Start, the goroutine it leaves behind, and Stop, which cancels and then
    waits for the goroutine.  The goroutine's [select] may take results for as
    long as it likes after the cancellation; a fair scheduler ends it, and Stop
    returns.  Stop on a dispatcher that was never started waits for ever on a
    nil channel. *)

From S2P Require Import Prelude Fairness GoTime Reports Supervisor AgentPipeline.

(** The goroutine: before Start, in its loop, after closing [d.done]. *)
Inductive loop_position := NotStarted | Looping | Closed.

(** A call of Stop; [OnNil] waits on the channel of a dispatcher that was not
    started. *)
Inductive stop_position := NotCalled | Waiting | OnNil | Returned.

#[export] Instance loop_position_eq_dec : EqDecision loop_position.
Proof. solve_decision. Defined.
#[export] Instance stop_position_eq_dec : EqDecision stop_position.
Proof. solve_decision. Defined.

(** [dl_parent]: the context given to Start is cancelled; [dl_cancelled]:
    [d.cancel] was called. *)
Record dispatcher_life := {
  dl_dispatcher : Dispatcher;
  dl_stream : ProbeDataStream ProbeResult;
  dl_parent : bool;
  dl_cancelled : bool;
  dl_loop : loop_position;
  dl_stop : stop_position;
  dl_out : list published;
}.

Definition NewDispatcher (d : Dispatcher) (stream : ProbeDataStream ProbeResult) : dispatcher_life :=
  {| dl_dispatcher := d; dl_stream := stream; dl_parent := false; dl_cancelled := false;
     dl_loop := NotStarted; dl_stop := NotCalled; dl_out := [] |}.

Definition set_loop (l : loop_position) (s : dispatcher_life) : dispatcher_life :=
  {| dl_dispatcher := dl_dispatcher s; dl_stream := dl_stream s; dl_parent := dl_parent s;
     dl_cancelled := dl_cancelled s; dl_loop := l; dl_stop := dl_stop s; dl_out := dl_out s |}.

Definition set_stop (p : stop_position) (cancelled : bool) (s : dispatcher_life) : dispatcher_life :=
  {| dl_dispatcher := dl_dispatcher s; dl_stream := dl_stream s; dl_parent := dl_parent s;
     dl_cancelled := cancelled; dl_loop := dl_loop s; dl_stop := p; dl_out := dl_out s |}.

Definition set_stream (st : ProbeDataStream ProbeResult) (out : list published) (s : dispatcher_life)
    : dispatcher_life :=
  {| dl_dispatcher := dl_dispatcher s; dl_stream := st; dl_parent := dl_parent s;
     dl_cancelled := dl_cancelled s; dl_loop := dl_loop s; dl_stop := dl_stop s; dl_out := out |}.

Definition cancel_parent (s : dispatcher_life) : dispatcher_life :=
  {| dl_dispatcher := dl_dispatcher s; dl_stream := dl_stream s; dl_parent := true;
     dl_cancelled := dl_cancelled s; dl_loop := dl_loop s; dl_stop := dl_stop s; dl_out := dl_out s |}.

(** ** Operations *)

(** Start, called once as Run does. *)
Definition Dispatcher_Start (s : dispatcher_life) : option dispatcher_life :=
  if decide (dl_loop s = NotStarted) then Some (set_loop Looping s) else None.

(** The branch of [ctx.Done()]. *)
Definition loop_done (s : dispatcher_life) : option dispatcher_life :=
  if decide (dl_loop s = Looping) then
    if dl_parent s || dl_cancelled s then Some (set_loop Closed s) else None
  else None.

(** The branch of the stream. *)
Definition loop_take (now : time) (s : dispatcher_life) : option dispatcher_life :=
  if decide (dl_loop s = Looping) then
    match dispatcher_turn (dl_dispatcher s) now (dl_stream s) with
    | (st, Some p) => Some (set_stream st (dl_out s ++ [p]) s)
    | (_, None) => None
    end
  else None.

(** Stop up to its wait: [d.cancel] and [d.done] are nil before Start. *)
Definition Dispatcher_Stop (s : dispatcher_life) : option dispatcher_life :=
  if decide (dl_stop s = NotCalled) then
    Some (if decide (dl_loop s = NotStarted) then set_stop OnNil (dl_cancelled s) s else set_stop Waiting true s)
  else None.

(** The receive from [d.done]. *)
Definition stop_returns (s : dispatcher_life) : option dispatcher_life :=
  if decide (dl_stop s = Waiting) then
    if decide (dl_loop s = Closed) then Some (set_stop Returned (dl_cancelled s) s) else None
  else None.

Inductive life_event :=
| Starts
| ParentCancelled
| ResultArrives (pick_done : bool) (data : ProbeResult)
| LoopTakes (now : time)
| LoopDone
| StopCalled
| StopReturns.

(** A result that finds the buffer full crashes the process, which ends the
    run. *)
Definition life_step (e : life_event) (s : dispatcher_life) : option dispatcher_life :=
  match e with
  | Starts => Dispatcher_Start s
  | ParentCancelled => Some (cancel_parent s)
  | ResultArrives pick_done data =>
      match Insert (dl_parent s) pick_done data (dl_stream s) with
      | (st, ROk _) => Some (set_stream st (dl_out s) s)
      | _ => None
      end
  | LoopTakes now => loop_take now s
  | LoopDone => loop_done s
  | StopCalled => Dispatcher_Stop s
  | StopReturns => stop_returns s
  end.

(** ** Stop returns *)

Definition is_loop_done (e : life_event) : bool := match e with LoopDone => true | _ => false end.
Definition is_stop_returns (e : life_event) : bool := match e with StopReturns => true | _ => false end.

(** A call of Stop that cancelled the loop: one turn of the goroutine and one of
    the caller are left. *)
Definition stopping (r : nat) (s : dispatcher_life) : Prop :=
  dl_stop s = Waiting ∧ dl_cancelled s = true ∧ dl_loop s = match r with O => Closed | S _ => Looping end ∧ (r ≤ 1)%nat.

Definition helps (r : nat) : life_event → bool := match r with O => is_stop_returns | S _ => is_loop_done end.

Ltac life_cases H :=
  unfold life_step, Dispatcher_Start, loop_done, loop_take, Dispatcher_Stop, stop_returns in H;
  repeat (case_decide || case_match); simplify_eq/=.

Lemma stopping_step r e s s' :
  stopping r s → life_step e s = Some s' →
  dl_stop s' = Returned ∨ ∃ r', stopping r' s' ∧ (r' ≤ r)%nat ∧ (helps r e = true → (r' < r)%nat).
Proof.
  intros (Hs & Hc & Hl & Hr) Hst. assert (r = 0 ∨ r = 1)%nat as [-> | ->] by lia.
  all: destruct e; life_cases Hst; auto; right.
  all: try congruence; unfold stopping; simpl.
  all: first [exists 0%nat; split; [by repeat split; auto|]; lia | exists 1%nat; split; [by repeat split|]; lia].
Qed.

(** Stop returns: in a run that treats the goroutine's branch on the
    cancellation and the waiting caller fairly, a call of Stop on a dispatcher
    that was started returns, whatever results arrive and are taken meanwhile. *)
Theorem dispatcher_stops (x : execution life_step) n :
  fair _ is_loop_done x → fair _ is_stop_returns x →
  dl_stop (ex_state _ x n) = Waiting → dl_cancelled (ex_state _ x n) = true → dl_loop (ex_state _ x n) ≠ NotStarted →
  ∃ m, (n ≤ m)%nat ∧ dl_stop (ex_state _ x m) = Returned.
Proof.
  intros Hd Hr Hs Hc Hl.
  assert (∃ r, stopping r (ex_state _ x n)) as [r HP].
  { unfold stopping. destruct (dl_loop (ex_state _ x n)); [done|exists 1%nat|exists 0%nat]; by auto. }
  apply (fair_rank life_step helps stopping (λ s, dl_stop s = Returned) x) with (r := r); [by intros []| |..|done].
  - intros k q Hq. pose proof (ex_step _ x k) as Hx. destruct (ex_event _ x k) as [e|].
    + destruct (stopping_step q e _ _ Hq Hx) as [?|(r' & Hr' & Hle & Hlt)]; [by left|right].
      exists r'. split; [done|]. split; [done|]. by intros e' [= <-].
    + right. exists q. by rewrite Hx.
  - intros k q (Hs' & Hc' & Hl' & _). destruct q as [|q].
    + exists StopReturns. split; [done|]. simpl. unfold stop_returns. rewrite Hs', Hl', !decide_True by done. eauto.
    + exists LoopDone. split; [done|]. simpl. unfold loop_done. rewrite Hl', decide_True by done.
      rewrite Hc', orb_true_r. eauto.
Qed.

(** Calling Stop after Start puts the call where it returns from. *)
Lemma Dispatcher_Stop_waits s :
  dl_loop s ≠ NotStarted → dl_stop s = NotCalled →
  ∃ s', Dispatcher_Stop s = Some s' ∧ dl_stop s' = Waiting ∧ dl_cancelled s' = true ∧ dl_loop s' = dl_loop s.
Proof.
  intros Hl Hs. unfold Dispatcher_Stop. rewrite decide_True, decide_False by done. by eexists.
Qed.

Lemma on_nil_step e s s' : dl_stop s = OnNil → life_step e s = Some s' → dl_stop s' = OnNil.
Proof. intros Hn Hst. destruct e; life_cases Hst; congruence. Qed.

(** Without Start the call never returns, even if Start is called afterwards. *)
Theorem unstarted_stop_blocks (x : execution life_step) n m :
  dl_stop (ex_state _ x n) = OnNil → (n ≤ m)%nat → dl_stop (ex_state _ x m) = OnNil.
Proof.
  intros Hn Hm. induction Hm as [|m Hm IH]; [done|]. pose proof (ex_step _ x m) as Hx.
  destruct (ex_event _ x m) as [e|]; [by eapply on_nil_step|by rewrite Hx].
Qed.

(** ** A run *)

Definition example_life : dispatcher_life := NewDispatcher {| di_SerialID := "agent-1"; di_getAgentConfig := "1" |} (NewProbeDataStream 100).

Definition stop_script : list life_event := [Starts; StopCalled; LoopDone; StopReturns].

Lemma stop_script_ok : script_ok life_step stop_script example_life None.
Proof. by split. Qed.

Definition stop_run : execution life_step := script_run _ _ _ _ stop_script_ok.

Example stop_run_returns : ∃ m, (2 ≤ m)%nat ∧ dl_stop (ex_state _ stop_run m) = Returned.
Proof.
  apply (dispatcher_stops stop_run 2); [| |reflexivity|reflexivity|discriminate].
  all: apply script_fair; left; intros e He; by destruct e.
Qed.
