(* ===== verification/Processors.v ===== *)
(** * The stamp and ping processors (services/stamp-processor, services/ping-processor)

    A processor decodes reports, summarises the probes, publishes a measurement
    event for Argus, and hands rows to a flusher that writes them in batches,
    one transaction per batch, acknowledging the messages of a batch together.
    The two processors share their flusher; their tables are parameters of the
    model of it. *)

From S2P Require Import Prelude Float64 Float64Round GoTime Json ArgusTypes ArgusDb ArgusWorker.
From S2P Require Import Reports.
From stdpp Require Import sorting.

Local Open Scope Z_scope.
Local Open Scope go_scope.

(** ** Statistics (computeStats, percentile) *)

Record LatencyStats := { ls_Mean : duration; ls_P50 : duration; ls_P95 : duration; ls_StdDev : duration }.

(** [s[i]]: an index outside the slice panics. *)
Definition index (l : list Z) (i : Z) : res Z :=
  if Z.ltb i 0 then RPanic "index out of range"
  else match l !! Z.to_nat i with Some x => ROk x | None => RPanic "index out of range" end.

(** Float operations are not fused, as on amd64. *)
Definition percentile (sorted : list duration) (p : float64) : res duration :=
  let len := Z.of_nat (length sorted) in
  if Z.eqb len 0 then ROk 0
  else if Z.eqb len 1 then index sorted 0
  else
    let rank := fmul p (f64 (len - 1)) in
    let lo := f64_to_int64 rank in
    let hi := int64 (lo + 1) in
    if Z.leb len hi then index sorted (len - 1)
    else
      let frac := fsub rank (f64 lo) in
      let? a := index sorted lo in
      let? b := index sorted hi in
      ROk (f64_to_int64 (fadd (fmul (f64 a) (fsub (f64 1) frac)) (fmul (f64 b) frac))).

Definition computeStats (values : list duration) : res LatencyStats :=
  match values with
  | [] => ROk {| ls_Mean := 0; ls_P50 := 0; ls_P95 := 0; ls_StdDev := 0 |}
  | _ =>
      let sorted := merge_sort Z.le values in
      let sum := fold_left (λ s v, int64 (s + v)) sorted 0 in
      let mean := Z.quot sum (Z.of_nat (length sorted)) in
      let? p50 := percentile sorted (fconst 50 100) in
      let? p95 := percentile sorted (fconst 95 100) in
      ROk {| ls_Mean := mean; ls_P50 := p50; ls_P95 := p95; ls_StdDev := 0 |}
  end.

(** ** Rows *)

Record StampMeasurementRow := {
  smr_Timestamp : time; smr_SerialID : string; smr_AgentConfigID : PgUUID; smr_Target : string;
  smr_Port : Z; smr_Sent : Z; smr_Received : Z; smr_Loss : float64; smr_RttP95Ns : Z;
  smr_BwdP95Ns : Z; smr_FwdP95Ns : Z }.

(** Nullable columns are options; the measurement id is filled in by flush. *)
Record StampProbeRow := {
  spr_Tx : time; spr_IsLost : bool; spr_Rx : option time; spr_Rtt : option Z;
  spr_ForwardDelay : option Z; spr_BackwardDelay : option Z }.

Record PingMeasurementRow := {
  pmr_Timestamp : time; pmr_SerialID : string; pmr_AgentConfigID : PgUUID; pmr_Target : string;
  pmr_Sent : Z; pmr_Received : Z; pmr_Loss : float64; pmr_RttMinNs : Z; pmr_RttAvgNs : Z;
  pmr_RttMaxNs : Z; pmr_RttP50Ns : Z; pmr_RttP95Ns : Z; pmr_RttStddevNs : Z }.

Record PingProbeRow := {
  ppr_Tx : time; ppr_Rx : option time; ppr_IsLost : bool; ppr_Seq : option Z; ppr_Rtt : option Z }.

Section Build.
Context `{UuidLib}.

(** [processor_shared.UUID] of the agent configuration id: on an error the
    pointer is nil, the error is only logged, and the row dereferences it. *)
Definition parse_config_id (s : string) : res PgUUID :=
  match uuid_Parse s with
  | Some u => ROk (pg_some u)
  | None => RPanic "nil pointer dereference"
  end.

Definition received_probes (d : StampData) : list StampProbeData :=
  List.filter (λ p, negb (pd_IsLost p)) (sd_Probes d).

Definition stamp_probe_row (p : StampProbeData) : StampProbeRow :=
  let valid {A} (x : A) := if pd_IsLost p then None else Some x in
  {| spr_Tx := pd_Tx p; spr_IsLost := pd_IsLost p; spr_Rx := valid (pd_Rx p); spr_Rtt := valid (pd_Rtt p);
     spr_ForwardDelay := valid (pd_ForwardDelay p); spr_BackwardDelay := valid (pd_BackwardDelay p) |}.

Definition buildStamp (serialId agentConfigId : string) (d : StampData)
    : res (StampMeasurementRow * list StampProbeRow * StampMetrics) :=
  let got := received_probes d in
  let? rtt := computeStats (pd_Rtt <$> got) in
  let? fwd := computeStats (pd_ForwardDelay <$> got) in
  let? bwd := computeStats (pd_BackwardDelay <$> got) in
  let? cid := parse_config_id agentConfigId in
  ROk ({| smr_Timestamp := sd_Timestamp d; smr_SerialID := serialId; smr_AgentConfigID := cid;
          smr_Target := sd_Target d; smr_Port := int32 (sd_Port d); smr_Sent := int32 (sd_Sent d);
          smr_Received := int32 (sd_Received d); smr_Loss := sd_Loss d; smr_RttP95Ns := ls_P95 rtt;
          smr_BwdP95Ns := ls_P95 bwd; smr_FwdP95Ns := ls_P95 fwd |},
       stamp_probe_row <$> sd_Probes d,
       {| sm_RttP95Ns := ls_P95 rtt; sm_FwdP95Ns := ls_P95 fwd; sm_BwdP95Ns := ls_P95 bwd;
          sm_Sent := int64 (sd_Sent d); sm_Received := int64 (sd_Received d) |}).

Definition msToDuration (ms : float64) : duration := f64_to_int64 (fmul ms (f64 Millisecond)).

Definition ping_probe_row (r : PingResponse) : PingProbeRow :=
  {| ppr_Tx := timeUnix (pr_TxSec r) (int64 (pr_TxUsec r * 1000));
     ppr_Rx := Some (timeUnix (pr_RxSec r) (int64 (pr_RxUsec r * 1000)));
     ppr_IsLost := false; ppr_Seq := Some (int32 (pr_Seq r)); ppr_Rtt := Some (msToDuration (pr_Rtt r)) |}.

Definition lost_ping_row (timestamp : time) : PingProbeRow :=
  {| ppr_Tx := timestamp; ppr_Rx := None; ppr_IsLost := true; ppr_Seq := None; ppr_Rtt := None |}.

Definition buildPing (serialId agentConfigId : string) (timestamp : time) (d : PingDataPayload)
    : res (PingMeasurementRow * list PingProbeRow * PingMetrics) :=
  let? stats := computeStats ((λ r, msToDuration (pr_Rtt r)) <$> pdp_Responses d) in
  let sent := int32 (pdp_PingSent d) in
  let received := int32 (pdp_Replies d) in
  let loss := if Z.ltb 0 sent then fsub (f64 1) (fdiv (f64 received) (f64 sent)) else fzero in
  let? cid := parse_config_id agentConfigId in
  let lostCount := int32 (sent - received) in
  ROk ({| pmr_Timestamp := timestamp; pmr_SerialID := serialId; pmr_AgentConfigID := cid;
          pmr_Target := pdp_Dst d; pmr_Sent := sent; pmr_Received := received; pmr_Loss := loss;
          pmr_RttMinNs := msToDuration (pdp_Min d); pmr_RttAvgNs := msToDuration (pdp_Avg d);
          pmr_RttMaxNs := msToDuration (pdp_Max d); pmr_RttP50Ns := ls_P50 stats;
          pmr_RttP95Ns := ls_P95 stats; pmr_RttStddevNs := msToDuration (pdp_Stddev d) |},
       (ping_probe_row <$> pdp_Responses d) ++ replicate (Z.to_nat lostCount) (lost_ping_row timestamp),
       {| pm_RttP95Ns := ls_P95 stats; pm_Sent := sent; pm_Received := received |}).

(** ** Events for Argus (publishMeasurement) *)

Definition stamp_event (serialId target : string) (port : Z) (timestamp : time) (m : StampMetrics)
    : MeasurementEvent :=
  {| me_Type := ProbeTypeStamp; me_SerialID := serialId; me_Target := target; me_Port := port;
     me_Src := ""; me_Timestamp := timestamp; me_Metrics := RawDoc (stamp_to_json m) |}.

Definition ping_event_of (serialId target : string) (timestamp : time) (m : PingMetrics)
    : MeasurementEvent :=
  {| me_Type := ProbeTypePing; me_SerialID := serialId; me_Target := target; me_Port := 0;
     me_Src := ""; me_Timestamp := timestamp; me_Metrics := RawDoc (ping_to_json m) |}.

(** The subject and the document of a publication; [None] when the event cannot
    be encoded. *)
Definition publication (kind serialId : string) (e : MeasurementEvent) : option (string * json) :=
  j ← event_to_json e; Some ("cepheus.measurement." +:+ kind +:+ "." +:+ serialId, j).

(** ** Reports *)

(** What happens to a message of a consumer: refused, published and queued for
    the flusher, or published and left unsettled by a shutdown that came while
    the queue was full. *)
Inductive consumed (M P : Type) :=
| Naked
| Left (pub : string * json)
| Queued (pub : string * json) (measurement : M) (probes : list P).
Arguments Naked {M P}.
Arguments Left {M P} pub.
Arguments Queued {M P} pub measurement probes.

(** [json.Marshal] of a raw message. *)
Definition remarshal (r : raw) : option raw :=
  match r with RawEmpty => Some (RawDoc JNull) | RawBad => None | RawDoc j => Some (RawDoc j) end.

(** [msg] is the message's octets, [published] what publishing (after its
    retries) returns, [room] whether the queue takes the rows before the context
    is done. *)
Definition consume_stamp (msg : raw) (published : res unit)
    (room : bool) : res (consumed StampMeasurementRow StampProbeRow) :=
  match unmarshal report_from_json report_zero msg with
  | None => ROk Naked
  | Some payload =>
      if negb (String.eqb (prr_ProbeType (rpl_Payload payload)) ProbeTypeStamp) then ROk Naked
      else match marshaledMap ← remarshal (prr_Data (rpl_Payload payload));
                 unmarshal stamp_data_from_json stamp_data_zero marshaledMap with
      | None => ROk Naked
      | Some d =>
          let? built := buildStamp (rpl_SerialID payload) (rpl_AgentConfigId payload) d in
          let '(measurement, probes, metrics) := built in
          match publication "stamp" (rpl_SerialID payload)
                  (stamp_event (rpl_SerialID payload) (sd_Target d) (int32 (sd_Port d))
                     (sd_Timestamp d) metrics) with
          | None => ROk Naked
          | Some pub =>
              match published with
              | ROk _ => ROk (if room then Queued pub measurement probes else Left pub)
              | _ => ROk Naked
              end
          end
      end
  end.

Definition consume_ping (msg : raw) (published : res unit)
    (room : bool) : res (consumed PingMeasurementRow PingProbeRow) :=
  match unmarshal report_from_json report_zero msg with
  | None => ROk Naked
  | Some payload =>
      if negb (String.eqb (prr_ProbeType (rpl_Payload payload)) ProbeTypePing) then ROk Naked
      else match unmarshal ping_data_from_json ping_data_zero (prr_Data (rpl_Payload payload)) with
      | None => ROk Naked
      | Some d =>
          let ts := prr_Timestamp (rpl_Payload payload) in
          let? built := buildPing (rpl_SerialID payload) (rpl_AgentConfigId payload) ts d in
          let '(measurement, probes, metrics) := built in
          match publication "ping" (rpl_SerialID payload)
                  (ping_event_of (rpl_SerialID payload) (pdp_Dst d) ts metrics) with
          | None => ROk Naked
          | Some pub =>
              match published with
              | ROk _ => ROk (if room then Queued pub measurement probes else Left pub)
              | _ => ROk Naked
              end
          end
      end
  end.

End Build.

Arguments Naked {M P}.
Arguments Left {M P} pub.
Arguments Queued {M P} pub measurement probes.

(** ** The flusher *)

Section Flush.
Context {M P : Type}.

Definition flushSize : nat := 50.

(** A message with its rows. *)
Record pending := { pe_msg : nat; pe_measurement : M; pe_probes : list P }.

(** The two tables, the probes with their measurement's id. *)
Record tables := { tb_measurements : list (nat * M); tb_probes : list (nat * P) }.

Inductive settled := Acked (msg : nat) | Nacked (msg : nat).

(** The database, which of the coming statements it answers with an error, the
    next id, and what the messages were told.  An error has any cause: the
    connection, or a constraint such as the foreign key from agent_config_id to
    agent_config, whose table is not part of the state.  So a row whose
    configuration is gone is one whose insert is a fault. *)
Record store := {
  st_tables : tables;
  st_faults : list bool;
  st_next : nat;
  st_settled : list settled;
}.

Definition st_call {A} (f : store → store * res A) : go store A := fun s =>
  let s' := {| st_tables := st_tables s; st_faults := tl (st_faults s); st_next := st_next s;
               st_settled := st_settled s |} in
  match st_faults s with true :: _ => (s', RErr "database unavailable") | _ => f s' end.

Definition set_tables (s : store) (t : tables) : store :=
  {| st_tables := t; st_faults := st_faults s; st_next := st_next s; st_settled := st_settled s |}.

(** The row as it is handed to the driver; the TIMESTAMPTZ columns keep its
    instants to the microsecond. *)
Definition InsertMeasurement (m : M) : go store nat :=
  st_call (fun s =>
    ({| st_tables := {| tb_measurements := tb_measurements (st_tables s) ++ [(st_next s, m)];
                        tb_probes := tb_probes (st_tables s) |};
        st_faults := st_faults s; st_next := S (st_next s); st_settled := st_settled s |},
     ROk (st_next s))).

(** COPY of the probes of one measurement. *)
Definition InsertProbes (id : nat) (l : list P) : go store unit :=
  st_call (fun s =>
    (set_tables s {| tb_measurements := tb_measurements (st_tables s);
                     tb_probes := tb_probes (st_tables s) ++ ((λ p, (id, p)) <$> l) |}, ROk tt)).

Definition settle (l : list settled) : go store unit :=
  go_modify (fun s => {| st_tables := st_tables s; st_faults := st_faults s; st_next := st_next s;
                         st_settled := st_settled s ++ l |}).

Definition nakAll (batch : list pending) : go store unit := settle (Nacked ∘ pe_msg <$> batch).

(** One round of the loop of flush. *)
Definition flush_one (p : pending) : go store unit :=
  let* id := InsertMeasurement (pe_measurement p) in
  match pe_probes p with
  | [] => go_ret tt
  | _ => InsertProbes id (pe_probes p)
  end.

(** The statements of the transaction, the commit last. *)
Definition flush_body (batch : list pending) : go store unit :=
  go_each flush_one batch ;;;
  st_call (fun s => (s, ROk tt)).

(** The deferred Rollback restores the tables unless the commit went through. *)
Definition flush (batch : list pending) : go store unit :=
  match batch with
  | [] => go_ret tt
  | _ =>
      let* begun := go_try (st_call (fun s => (s, ROk (st_tables s)))) in
      match begun with
      | inl _ => nakAll batch
      | inr tx =>
          let* r := go_try (flush_body batch) in
          match r with
          | inl _ => go_modify (λ s, set_tables s tx) ;;; nakAll batch
          | inr _ => settle (Acked ∘ pe_msg <$> batch)
          end
      end
  end.

(** *** runFlusher *)

Inductive flusher_event := Received (p : pending) | Tick | Cancelled.

(** The batch being collected and the batches handed to flush; [None] once the
    loop has returned. *)
Definition flusher_step (st : option (list pending) * list (list pending)) (e : flusher_event)
    : option (list pending) * list (list pending) :=
  match st with
  | (None, out) => (None, out)
  | (Some batch, out) =>
      match e with
      | Received p =>
          let batch' := batch ++ [p] in
          if Nat.leb flushSize (length batch') then (Some [], out ++ [batch']) else (Some batch', out)
      | Tick => (Some [], out ++ [batch])
      | Cancelled => (None, out)
      end
  end.

Definition runFlusher (events : list flusher_event) : option (list pending) * list (list pending) :=
  foldl flusher_step (Some [], []) events.

Definition received (events : list flusher_event) : list pending :=
  omap (λ e, match e with Received p => Some p | _ => None end) events.

(** ** Lemmas *)

(** The rows a batch adds from id [n] on: each measurement under the next id,
    its probes under that id. *)
Fixpoint batch_rows (n : nat) (batch : list pending) : list (nat * M) * list (nat * P) :=
  match batch with
  | [] => ([], [])
  | p :: batch' =>
      let '(ms, ps) := batch_rows (S n) batch' in
      ((n, pe_measurement p) :: ms, ((λ q, (n, q)) <$> pe_probes p) ++ ps)
  end.

Definition add_rows (t : tables) (rows : list (nat * M) * list (nat * P)) : tables :=
  {| tb_measurements := tb_measurements t ++ fst rows; tb_probes := tb_probes t ++ snd rows |}.

(** What the statements of a batch do: they settle no message, fail only by a
    fault of the database, and add [rows] when they all succeed. *)
Definition adds {A} (c : go store A) (s : store) (n : nat) (rows : list (nat * M) * list (nat * P)) : Prop :=
  let '(s', r) := c s in
  st_settled s' = st_settled s ∧ st_faults s' ⊆ st_faults s ∧
  match r with
  | ROk _ => st_next s' = (st_next s + n)%nat ∧ st_tables s' = add_rows (st_tables s) rows
  | RErr _ => true ∈ st_faults s
  | RPanic _ => False
  end.

Lemma add_rows_nil t : add_rows t ([], []) = t.
Proof. unfold add_rows. simpl. rewrite !app_nil_r. by destruct t. Qed.

Lemma flush_one_spec p s : adds (flush_one p) s 1 (batch_rows (st_next s) [p]).
Proof.
  unfold adds, flush_one, go_bind, InsertMeasurement, st_call.
  destruct (st_faults s) as [|[] l]; simpl; [|set_solver|];
    destruct (pe_probes p) as [|q ps]; unfold add_rows; simpl;
    rewrite ?app_nil_r, ?Nat.add_1_r; try set_solver; unfold InsertProbes, st_call; simpl;
    repeat case_match; simplify_eq/=; rewrite ?app_nil_r, ?Nat.add_1_r; set_solver.
Qed.

Lemma batch_rows_cons n p batch t :
  add_rows (add_rows t (batch_rows n [p])) (batch_rows (S n) batch) = add_rows t (batch_rows n (p :: batch)).
Proof.
  unfold add_rows. simpl. destruct (batch_rows (S n) batch) as [ms ps]. simpl.
  by rewrite app_nil_r, <- !app_assoc.
Qed.

Lemma flush_loop_spec batch s :
  adds (go_each flush_one batch) s (length batch) (batch_rows (st_next s) batch).
Proof.
  revert s. induction batch as [|p batch IH]; intros s.
  { split; [done|]. split; [done|]. simpl. by rewrite add_rows_nil, Nat.add_0_r. }
  pose proof (flush_one_spec p s) as H. unfold adds in *. cbn [go_each]. unfold go_bind.
  destruct (flush_one p s) as [s1 [[]|e|e]]; destruct H as (H1 & H2 & H3); [|done..].
  specialize (IH s1). destruct (go_each flush_one batch s1) as [s2 r2].
  destruct IH as (I1 & I2 & I3). split; [congruence|]. split; [set_solver|].
  destruct r2 as [[]|e|e]; [|set_solver..]. destruct H3 as [H4 H5], I3 as [I4 I5].
  rewrite I4, I5, H4, H5, Nat.add_1_r. split; [simpl; lia|]. apply batch_rows_cons.
Qed.

Lemma flush_body_spec batch s :
  adds (flush_body batch) s (length batch) (batch_rows (st_next s) batch).
Proof.
  pose proof (flush_loop_spec batch s) as H. unfold adds, flush_body, go_bind in *.
  destruct (go_each flush_one batch s) as [s1 [[]|e|e]]; destruct H as (H1 & H2 & H3); [|done..].
  unfold st_call. destruct (st_faults s1) as [|[] l]; simpl; [done| |];
    (split; [done|]; split; set_solver).
Qed.

(** flush always returns; it commits the batch under the next identifiers and
    acknowledges it, or leaves the tables and negatively acknowledges it. *)
Lemma flush_spec (batch : list pending) (s : store) :
  let '(s', r) := flush batch s in
  r = ROk tt ∧
  ((st_tables s' = add_rows (st_tables s) (batch_rows (st_next s) batch) ∧
    st_next s' = (st_next s + length batch)%nat ∧
    st_settled s' = st_settled s ++ (Acked ∘ pe_msg <$> batch)) ∨
   (st_tables s' = st_tables s ∧ true ∈ st_faults s ∧
    st_settled s' = st_settled s ++ (Nacked ∘ pe_msg <$> batch))).
Proof.
  destruct batch as [|p0 batch0]; [|set (batch := p0 :: batch0)].
  { simpl. split; [done|]. left. by rewrite add_rows_nil, app_nil_r, Nat.add_0_r. }
  assert (∀ r : go store unit, match batch with [] => go_ret tt | _ => r end = r) as Hne by done.
  unfold flush. rewrite Hne. clear Hne. clearbody batch. unfold go_bind at 1, go_try at 1, st_call at 1.
  destruct (st_faults s) as [|[] fs] eqn:Ef; simpl.
  2: { split; [done|]. right. split; [done|]. split; [set_solver|done]. }
  all: pose proof (flush_body_spec batch {| st_tables := st_tables s; st_faults := tl (st_faults s);
      st_next := st_next s; st_settled := st_settled s |}) as H;
    rewrite Ef in H; simpl in H; unfold adds in H; unfold go_bind at 1, go_try;
    destruct (flush_body batch _) as [s1 [[]|e|e]]; destruct H as (H1 & H2 & H3); simpl in *; [| |done].
  all: unfold nakAll, settle, go_modify, go_bind; simpl; rewrite H1; split; [done|].
  all: first [left; by destruct H3 | right; split; [done|]; set_solver].
Qed.

(** Identifiers are never taken back, also by a batch that is rolled back. *)
Lemma flush_next batch s : (st_next s ≤ st_next (fst (flush batch s)))%nat.
Proof.
  assert (∀ n A (f : store → store * res A),
    (∀ s, n ≤ st_next s → n ≤ st_next (fst (f s)))%nat → go_inv (λ s, n ≤ st_next s)%nat (st_call f)) as Hc.
  { intros n A f Hf s0 Hs. unfold st_call. repeat case_match; try apply Hf; done. }
  enough (go_inv (λ s', st_next s ≤ st_next s')%nat (flush batch)) as H by (by apply H).
  unfold flush. destruct batch as [|p b]; [apply go_inv_ret|]. generalize (p :: b) as l. intros l.
  apply go_inv_bind; [apply go_inv_try, Hc; done|]. intros [e|tx]; [by apply go_inv_modify|].
  apply go_inv_bind.
  - apply go_inv_try, go_inv_bind; [|intros _; by apply Hc]. apply go_inv_each. intros q _.
    apply go_inv_bind; [apply Hc; simpl; lia|]. intros id. destruct (pe_probes q); [apply go_inv_ret|].
    by apply Hc.
  - intros [e|[]]; [apply go_inv_bind; [by apply go_inv_modify|]; intros _|]; by apply go_inv_modify.
Qed.

(** ** Theorems *)

(** A batch is settled as one: flush always returns; either the tables gain
    exactly the rows of the batch, every probe under the id its measurement was
    given, and every message is acknowledged, or a statement failed, the tables
    are as before and every message is negatively acknowledged.  A message is
    thus acknowledged exactly when its rows were committed. *)
Theorem flush_atomic (batch : list pending) (s : store) :
  let '(s', r) := flush batch s in
  r = ROk tt ∧
  ((st_tables s' = add_rows (st_tables s) (batch_rows (st_next s) batch) ∧
    st_settled s' = st_settled s ++ (Acked ∘ pe_msg <$> batch)) ∨
   (st_tables s' = st_tables s ∧ true ∈ st_faults s ∧
    st_settled s' = st_settled s ++ (Nacked ∘ pe_msg <$> batch))).
Proof. pose proof (flush_spec batch s). destruct (flush batch s). intuition. Qed.

Lemma runFlusher_snoc events e : runFlusher (events ++ [e]) = flusher_step (runFlusher events) e.
Proof. unfold runFlusher. by rewrite foldl_snoc. Qed.

Lemma received_snoc events e :
  received (events ++ [e]) = received events ++ match e with Received p => [p] | _ => [] end.
Proof. unfold received. rewrite omap_app. by destruct e. Qed.

(** Whatever the channel, the ticker and the context do, the batches handed
    to flush hold at most flushSize rows each and, followed by the batch being
    collected, are exactly the rows received, in order.  Once the context is
    cancelled nothing more is flushed: what was being collected then is dropped,
    neither written nor negatively acknowledged. *)
Theorem runFlusher_batches (events : list flusher_event) :
  let '(cur, out) := runFlusher events in
  Forall (λ b, length b ≤ flushSize)%nat out ∧
  match cur with
  | Some batch => concat out ++ batch = received events ∧ (length batch < flushSize)%nat
  | None => ∃ before after batch, events = before ++ Cancelled :: after ∧
      runFlusher before = (Some batch, out) ∧ concat out ++ batch = received before
  end.
Proof.
  induction events as [|e events IH] using rev_ind.
  { split; [constructor|]. split; [done|]. unfold flushSize; simpl; lia. }
  rewrite runFlusher_snoc. destruct (runFlusher events) as [[batch|] out] eqn:E; unfold flusher_step.
  2: { destruct IH as [IH (b & a & bt & -> & H)]. split; [done|].
       exists b, (a ++ [e]), bt. by rewrite <- app_assoc. }
  destruct IH as [IH [Hc Hl]]. rewrite received_snoc. destruct e as [p| |]; cbv zeta.
  - destruct (Nat.leb_spec flushSize (length (batch ++ [p]))) as [Hle|Hlt].
    + split; [apply Forall_app; split; [done|]; apply Forall_singleton; rewrite length_app; simpl; lia|].
      rewrite concat_app. simpl. rewrite !app_nil_r, app_assoc, Hc. split; [done|]. unfold flushSize; lia.
    + split; [done|]. by rewrite app_assoc, Hc.
  - split; [apply Forall_app; split; [done|]; apply Forall_singleton; lia|].
    rewrite concat_app. simpl. rewrite !app_nil_r. split; [done|]. unfold flushSize; lia.
  - split; [done|]. exists events, [], batch. by rewrite E.
Qed.

End Flush.

Arguments pending : clear implicits.
Arguments store : clear implicits.
Arguments tables : clear implicits.
Arguments flusher_event : clear implicits.
