(* ===== verification/ProcessorsProps.v ===== *)
(** * From a report to Argus

    The statistics never index out of range, and a report that a processor
    accepts reaches the inbox of its series in Argus with the metrics of the row
    that is written to the database. *)

From S2P Require Import Prelude Float64 Float64Round GoTime Json ArgusTypes ArgusDb ArgusWorker ArgusWorkerProps.
From S2P Require Import PolicyEngineProps Reports AgentConfig Supervisor AgentPipeline Processors.
From stdpp Require Import sorting.
From Stdlib Require Import SpecFloat.

Local Open Scope Z_scope.
Local Open Scope go_scope.

(** ** Statistics *)

(** Slices have fewer than 2^53 elements. *)
Definition slice_len_ok {A} (l : list A) : Prop := Z.of_nat (length l) ≤ 2 ^ 53.

Lemma f64_to_int64_ok f : int64_ok (f64_to_int64 f).
Proof.
  unfold f64_to_int64, in_int64, int64_ok. case_match eqn:E; [|lia].
  apply andb_true_iff in E as [_ E]. apply andb_true_iff in E as [E1 E2]. lia.
Qed.

Lemma index_ok l i : Forall int64_ok l → 0 ≤ i < Z.of_nat (length l) → ∃ x, index l i = ROk x ∧ int64_ok x.
Proof.
  intros Hl Hi. unfold index. destruct (Z.ltb_spec i 0); [lia|].
  destruct (lookup_lt_is_Some_2 l (Z.to_nat i)) as [x Hx]; [lia|]. rewrite Hx.
  exists x. split; [done|]. by eapply Forall_lookup_1.
Qed.

(** A factor [p] for which ranks lie inside the slice. *)
Definition fraction (p : float64) : Prop :=
  ∃ mp ep, p = S754_finite false mp ep ∧ 2 ^ 52 ≤ Zpos mp ∧ ep ≤ 0 ∧ Zpos mp ≤ 2 ^ (- ep).

Lemma fraction_50 : fraction (fconst 50 100).
Proof. eexists _, _. split; [vm_compute; reflexivity|]. vm_compute. intuition discriminate. Qed.

Lemma fraction_95 : fraction (fconst 95 100).
Proof. eexists _, _. split; [vm_compute; reflexivity|]. vm_compute. intuition discriminate. Qed.

Lemma percentile_ok l p :
  fraction p → slice_len_ok l → Forall int64_ok l → ∃ x, percentile l p = ROk x ∧ int64_ok x.
Proof.
  intros (mp & ep & -> & H1 & H2 & H3) Hlen Hl. unfold slice_len_ok in Hlen.
  unfold percentile. set (n := Z.of_nat (length l)) in *.
  destruct (Z.eqb_spec n 0); [exists 0; split; [done|unfold int64_ok; lia]|].
  destruct (Z.eqb_spec n 1); [apply index_ok; [done|lia]|].
  pose proof (rank_range mp ep (n - 1) H1 H2 H3 ltac:(lia)) as Hr. set (lo := f64_to_int64 _) in *.
  rewrite int64_id by lia. destruct (Z.leb_spec n (lo + 1)); [apply index_ok; [done|lia]|].
  destruct (index_ok l lo Hl ltac:(lia)) as (a & -> & _).
  destruct (index_ok l (lo + 1) Hl ltac:(lia)) as (b & -> & _).
  eexists. split; [reflexivity|]. apply f64_to_int64_ok.
Qed.

(** The statistics of a slice of durations: no index is out of range. *)
Lemma computeStats_ok values :
  slice_len_ok values → Forall int64_ok values →
  ∃ st, computeStats values = ROk st ∧ int64_ok (ls_P95 st) ∧
    percentile (merge_sort Z.le values) (fconst 50 100) = ROk (ls_P50 st) ∧
    percentile (merge_sort Z.le values) (fconst 95 100) = ROk (ls_P95 st).
Proof.
  intros Hlen Hv. destruct values as [|v values0]; [|set (values := v :: values0) in *].
  { eexists. split; [reflexivity|]. simpl. unfold int64_ok. split; [lia|done]. }
  assert (∀ r : res LatencyStats, match values with [] => ROk {| ls_Mean := 0; ls_P50 := 0; ls_P95 := 0;
    ls_StdDev := 0 |} | _ => r end = r) as Hne by done.
  unfold computeStats. rewrite Hne. clearbody values. clear Hne.
  pose proof (merge_sort_Permutation Z.le values) as Hp. set (sorted := merge_sort Z.le values) in *.
  assert (slice_len_ok sorted) by (unfold slice_len_ok; by rewrite Hp).
  assert (Forall int64_ok sorted) by (by rewrite Hp).
  destruct (percentile_ok sorted _ fraction_50) as (p50 & E1 & _); [done..|].
  destruct (percentile_ok sorted _ fraction_95) as (p95 & E2 & Hok); [done..|].
  rewrite E1, E2. cbn [res_bind]. eexists. split; [reflexivity|]. done.
Qed.

(** ** Metrics round trip *)

Lemma int64_check z :
  int64_ok z → Z.leb (-9223372036854775808) z && Z.leb z 9223372036854775807 = true.
Proof. intros [? ?]. apply andb_true_iff. by rewrite !Z.leb_le. Qed.

Lemma stamp_metrics_roundtrip e m :
  me_Type e = ProbeTypeStamp → me_Metrics e = RawDoc (stamp_to_json m) →
  int64_ok (sm_RttP95Ns m) → int64_ok (sm_FwdP95Ns m) → int64_ok (sm_BwdP95Ns m) →
  int64_ok (sm_Sent m) → int64_ok (sm_Received m) →
  decodeMetrics e = Some (RowStamp m).
Proof.
  intros Ht Hm H1 H2 H3 H4 H5. unfold decodeMetrics. rewrite Ht, Hm. simpl String.eqb. cbn match.
  unfold unmarshal, dec_struct, stamp_to_json. simpl. unfold stamp_set_field. simpl.
  repeat (rewrite int64_check by done; simpl). by destruct m.
Qed.

Lemma ping_metrics_roundtrip e m :
  me_Type e = ProbeTypePing → me_Metrics e = RawDoc (ping_to_json m) →
  int64_ok (pm_RttP95Ns m) → int64_ok (pm_Sent m) → int64_ok (pm_Received m) →
  decodeMetrics e = Some (RowPing m).
Proof.
  intros Ht Hm H1 H2 H3. unfold decodeMetrics. rewrite Ht, Hm. simpl String.eqb. cbn match.
  unfold unmarshal, dec_struct, ping_to_json. simpl. unfold ping_set_field. simpl.
  repeat (rewrite int64_check by done; simpl). by destruct m.
Qed.

(** An event whose metrics decode, published and dispatched to an inbox that is
    not full. *)
Lemma dispatch_event e s r d t routes msg :
  me_Metrics e = RawDoc d → -2147483648 ≤ me_Port e ≤ 2147483647 →
  enc_time (me_Timestamp e) = Some t →
  seriesFromEvent e = Some s → decodeMetrics e = Some r →
  (length (default [] (routes !! s)) < inboxCapacity)%nat →
  ∃ j, event_to_json e = Some j ∧
    dispatch routes msg (RawDoc j) =
      (<[s := default [] (routes !! s) ++
          [{| it_sample := {| rs_TS := me_Timestamp e; rs_Row := r |}; it_msg := msg |}]]> routes,
       Enqueued s (bool_decide (routes !! s = None))).
Proof.
  intros Hm Hp Ht Hs Hr Hlen. destruct (event_to_json e) as [j|] eqn:Hj.
  2: { unfold event_to_json in Hj. by rewrite Ht, Hm in Hj. }
  exists j. split; [done|]. unfold dispatch. rewrite (event_roundtrip e d j Hm Hp Hj), Hs, Hr.
  apply Nat.ltb_lt in Hlen. by rewrite Hlen.
Qed.

(** ** Whatever was decoded, the numbers of an event are 64-bit *)

Definition probe_bounded (p : StampProbeData) : Prop :=
  int64_ok (pd_Rtt p) ∧ int64_ok (pd_ForwardDelay p) ∧ int64_ok (pd_BackwardDelay p).

Lemma stamp_probe_keeps : dec_keeps probe_bounded (dec_struct stamp_probe_set).
Proof.
  apply dec_struct_keeps. intros [tx lost rx rtt fwd bwd] k j a' (H1 & H2 & H3). unfold stamp_probe_set.
  repeat (case_match; [intros (v & Hv & [= <-])%bind_Some; unfold probe_bounded; simpl in *; eauto 6 using dec_int64_keeps|]).
  by intros [= <-].
Qed.

Lemma stamp_data_bounded d v :
  unmarshal stamp_data_from_json stamp_data_zero d = Some v → Forall probe_bounded (sd_Probes v).
Proof.
  assert (dec_keeps (λ d, Forall probe_bounded (sd_Probes d)) stamp_data_from_json) as Hk.
  { apply dec_struct_keeps. intros [target port sent received loss probes ts] k j a' Ha. unfold stamp_data_set.
    repeat (case_match; [intros (x & Hx & [= <-])%bind_Some; simpl in *; try done|]); [|by intros [= <-]].
    eapply (dec_list_keeps probe_bounded); [apply stamp_probe_keeps| |exact Ha|exact Hx].
    unfold probe_bounded, int64_ok; simpl; lia. }
  destruct d as [| |j]; simpl; try done. by apply Hk.
Qed.

Lemma percentile_int64 l p x : Forall int64_ok l → percentile l p = ROk x → int64_ok x.
Proof.
  assert (∀ i x, Forall int64_ok l → index l i = ROk x → int64_ok x) as Hi.
  { intros i y Hl. unfold index. case_match; [done|]. case_match eqn:E; [|done]. intros [= <-].
    by eapply Forall_lookup_1. }
  intros Hl. unfold percentile. case_match; [intros [= <-]; unfold int64_ok; lia|].
  case_match; [by apply Hi|]. case_match; [by apply Hi|].
  destruct (index l _) as [a|e|e]; simpl; [|done..]. destruct (index l _) as [b|e|e]; simpl; [|done..].
  intros [= <-]. apply f64_to_int64_ok.
Qed.

Lemma computeStats_int64 values st : Forall int64_ok values → computeStats values = ROk st → int64_ok (ls_P95 st).
Proof.
  intros Hv. destruct values as [|v values]; [intros [= <-]; simpl; unfold int64_ok; lia|].
  unfold computeStats. set (sorted := merge_sort _ _).
  assert (Forall int64_ok sorted) as Hs by (unfold sorted; by rewrite merge_sort_Permutation).
  destruct (percentile sorted (fconst 50 100)) as [p50|e|e]; simpl; [|done..].
  destruct (percentile sorted (fconst 95 100)) as [p95|e|e] eqn:E; simpl; [|done..].
  intros [= <-]. by eapply percentile_int64.
Qed.

Section Pipeline.
Context `{UuidLib}.

Definition p95_of (values : list duration) (p95 : Z) : Prop :=
  percentile (merge_sort Z.le values) (fconst 95 100) = ROk p95.

Lemma received_stats d f :
  slice_len_ok (sd_Probes d) → (∀ p, p ∈ sd_Probes d → int64_ok (f p)) →
  ∃ st, computeStats (f <$> received_probes d) = ROk st ∧ int64_ok (ls_P95 st) ∧
    p95_of (f <$> received_probes d) (ls_P95 st).
Proof.
  intros Hlen Hf. destruct (computeStats_ok (f <$> received_probes d)) as (st & H1 & H2 & _ & H3).
  - unfold slice_len_ok in *. rewrite length_fmap. unfold received_probes.
    pose proof (List.filter_length_le (λ p, negb (pd_IsLost p)) (sd_Probes d)). lia.
  - apply Forall_fmap, Forall_forall. intros p Hp. apply Hf.
    apply list_elem_of_In in Hp. apply List.filter_In in Hp as [Hp _]. by apply list_elem_of_In.
  - eauto.
Qed.

(** The row of a batch: its fields, the counts as the 32 bits of the column, and
    the percentiles over the probes that were not lost. *)
Record stamp_row_of (serial : string) (u : uuid) (d : StampData) (row : StampMeasurementRow) : Prop := {
  sr_when : smr_Timestamp row = sd_Timestamp d;
  sr_serial : smr_SerialID row = serial;
  sr_config : smr_AgentConfigID row = pg_some u;
  sr_target : smr_Target row = sd_Target d ∧ smr_Port row = int32 (sd_Port d);
  sr_counts : smr_Sent row = int32 (sd_Sent d) ∧ smr_Received row = int32 (sd_Received d);
  sr_loss : smr_Loss row = sd_Loss d;
  sr_rtt : p95_of (pd_Rtt <$> received_probes d) (smr_RttP95Ns row);
  sr_fwd : p95_of (pd_ForwardDelay <$> received_probes d) (smr_FwdP95Ns row);
  sr_bwd : p95_of (pd_BackwardDelay <$> received_probes d) (smr_BwdP95Ns row);
}.

Lemma buildStamp_ok serial cid d u :
  stamp_data_ok d → slice_len_ok (sd_Probes d) → uuid_Parse cid = Some u →
  ∃ row metrics, buildStamp serial cid d = ROk (row, stamp_probe_row <$> sd_Probes d, metrics) ∧
    stamp_row_of serial u d row ∧
    metrics = {| sm_RttP95Ns := smr_RttP95Ns row; sm_FwdP95Ns := smr_FwdP95Ns row;
                 sm_BwdP95Ns := smr_BwdP95Ns row; sm_Sent := sd_Sent d; sm_Received := sd_Received d |} ∧
    int64_ok (smr_RttP95Ns row) ∧ int64_ok (smr_FwdP95Ns row) ∧ int64_ok (smr_BwdP95Ns row).
Proof.
  intros Hd Hl Hu. pose proof Hd as (_ & Hs & Hr & Hp). rewrite Forall_forall in Hp.
  destruct (received_stats d pd_Rtt) as (rtt & E1 & O1 & P1); [done|by intros; apply Hp|].
  destruct (received_stats d pd_ForwardDelay) as (fwd & E2 & O2 & P2); [done|by intros; apply Hp|].
  destruct (received_stats d pd_BackwardDelay) as (bwd & E3 & O3 & P3); [done|by intros; apply Hp|].
  unfold buildStamp, parse_config_id. rewrite E1, E2, E3, Hu. cbn [res_bind].
  eexists _, _. split; [reflexivity|]. split; [by split|]. simpl. unfold int64_ok in Hs, Hr.
  rewrite !int64_id by lia. done.
Qed.

Lemma int32_range z : -2147483648 ≤ int32 z ≤ 2147483647.
Proof. pose proof (wrapS_range 32 z ltac:(lia)) as Hw. unfold inS in Hw. simpl in Hw. unfold int32. lia. Qed.

Lemma stamp_data_times d j : stamp_data_to_json d = Some j → ∃ t, enc_time (sd_Timestamp d) = Some t.
Proof.
  unfold stamp_data_to_json. destruct (enc_float (sd_Loss d)); [|done]. cbn [mbind option_bind].
  destruct (mapM stamp_probe_to_json (sd_Probes d)); [|done]. cbn [mbind option_bind].
  destruct (enc_time (sd_Timestamp d)); [eauto|done].
Qed.

(** C16. From the agent to Argus: the report the dispatcher publishes for the
    data of a STAMP batch, under a valid configuration id, is always accepted by
    the processor (no statistic indexes out of range), which queues one row per
    probe and the measurement row of the batch: its timestamp, serial, target,
    port and loss, its counts cut to 32 bits, and the percentiles of the three
    delays over the probes that were not lost.  What the processor publishes in
    turn lands in the Argus inbox of the series (serial, target, port), when
    that has room, with the batch's timestamp, the same percentiles and the
    counts uncut, which are those of the row when they fit 32 bits. *)
Theorem stamp_pipeline D now r d j0 u routes msg :
  prr_ProbeType r = ProbeTypeStamp → stamp_data_to_json d = Some j0 → prr_Data r = RawDoc j0 →
  enc_time (prr_Timestamp r) ≠ None → enc_time now ≠ None →
  uuid_Parse (di_getAgentConfig D) = Some u → stamp_data_ok d → slice_len_ok (sd_Probes d) →
  let s := mkSeries SeriesTypeStamp (di_SerialID D) (sd_Target d) (int32 (sd_Port d)) "" in
  (length (default [] (routes !! s)) < inboxCapacity)%nat →
  ∃ report row j,
    dispatch_result D now r = Published ("cepheus.probe.stamp." +:+ di_SerialID D) report ∧
    consume_stamp (RawDoc report) (ROk tt) true =
      ROk (Queued ("cepheus.measurement.stamp." +:+ di_SerialID D, j) row
             (stamp_probe_row <$> sd_Probes d)) ∧
    stamp_row_of (di_SerialID D) u d row ∧
    (-2147483648 ≤ sd_Sent d ≤ 2147483647 → smr_Sent row = sd_Sent d) ∧
    (-2147483648 ≤ sd_Received d ≤ 2147483647 → smr_Received row = sd_Received d) ∧
    dispatch routes msg (RawDoc j) =
      (<[s := default [] (routes !! s) ++
          [{| it_sample := {| rs_TS := sd_Timestamp d;
                rs_Row := RowStamp {| sm_RttP95Ns := smr_RttP95Ns row; sm_FwdP95Ns := smr_FwdP95Ns row;
                            sm_BwdP95Ns := smr_BwdP95Ns row; sm_Sent := sd_Sent d;
                            sm_Received := sd_Received d |} |}; it_msg := msg |}]]> routes,
       Enqueued s (bool_decide (routes !! s = None))).
Proof.
  intros Hty Hj0 Hdata Ht Hnow Hu Hd Hl s Hlen.
  destruct (dispatch_result_roundtrip D now r j0) as (report & Hrep & Hdec); [by rewrite Hty|done..|].
  rewrite Hty in Hrep. exists report.
  destruct (buildStamp_ok (di_SerialID D) (di_getAgentConfig D) d u Hd Hl Hu)
    as (row & metrics & Hb & Hrow & -> & O1 & O2 & O3).
  set (m := {| sm_RttP95Ns := _ |}) in *.
  set (e := stamp_event (di_SerialID D) (sd_Target d) (int32 (sd_Port d)) (sd_Timestamp d) m).
  pose proof Hd as (_ & Hs & Hr & _). destruct (stamp_data_times _ _ Hj0) as (t & Hts).
  destruct (dispatch_event e s (RowStamp m) (stamp_to_json m) t routes msg) as (j & Hj & Hdis);
    [done|apply int32_range|done|done|by apply stamp_metrics_roundtrip|done|].
  exists row, j. split; [done|]. split; [|split; [done|]].
  2: { destruct (sr_counts _ _ _ _ Hrow) as [-> ->]. split; [intros; apply int32_id; lia|]. split; [intros; apply int32_id; lia|done]. }
  unfold consume_stamp. rewrite Hdec. cbn [rpl_Payload rpl_SerialID rpl_AgentConfigId].
  rewrite Hty, Hdata. simpl negb. cbn [remarshal mbind option_bind].
  rewrite (stamp_data_roundtrip d j0 Hd Hj0), Hb. cbn [res_bind].
  unfold publication. fold e. by rewrite Hj.
Qed.

Lemma lost_rows l ts n :
  length (List.filter ppr_IsLost ((ping_probe_row <$> l) ++ replicate n (lost_ping_row ts))) = n.
Proof. induction l as [|r l IH]; simpl; [|exact IH]. induction n; simpl; auto. Qed.

(** A ping report with a valid configuration id is always accepted: one row
    per response and one lost row per missing reply, as many rows as probes were
    sent when scamper's counts agree with its responses, and the published event
    lands in the Argus inbox of the series (serial, destination) with the p95 of
    the row and the counts sent and received. *)
Theorem ping_pipeline D now r d j0 u t routes msg :
  prr_ProbeType r = ProbeTypePing → prr_Data r = RawDoc j0 →
  unmarshal ping_data_from_json ping_data_zero (RawDoc j0) = Some d →
  enc_time (prr_Timestamp r) = Some t → enc_time now ≠ None →
  uuid_Parse (di_getAgentConfig D) = Some u → slice_len_ok (pdp_Responses d) →
  Z.of_nat (length (pdp_Responses d)) = pdp_Replies d → pdp_Replies d ≤ pdp_PingSent d < 2147483648 →
  let s := mkSeries SeriesTypePing (di_SerialID D) (pdp_Dst d) 0 "" in
  (length (default [] (routes !! s)) < inboxCapacity)%nat →
  ∃ report row probes j,
    dispatch_result D now r = Published ("cepheus.probe.ping." +:+ di_SerialID D) report ∧
    consume_ping (RawDoc report) (ROk tt) true =
      ROk (Queued ("cepheus.measurement.ping." +:+ di_SerialID D, j) row probes) ∧
    Z.of_nat (length probes) = pdp_PingSent d ∧
    Z.of_nat (length (List.filter ppr_IsLost probes)) = pdp_PingSent d - pdp_Replies d ∧
    p95_of ((λ r, msToDuration (pr_Rtt r)) <$> pdp_Responses d) (pmr_RttP95Ns row) ∧
    dispatch routes msg (RawDoc j) =
      (<[s := default [] (routes !! s) ++
          [{| it_sample := {| rs_TS := prr_Timestamp r;
                rs_Row := RowPing {| pm_RttP95Ns := pmr_RttP95Ns row; pm_Sent := pdp_PingSent d;
                            pm_Received := pdp_Replies d |} |}; it_msg := msg |}]]> routes,
       Enqueued s (bool_decide (routes !! s = None))).
Proof.
  intros Hty Hdata Hdoc Ht Hnow Hu Hl Hn Hc s Hlen.
  destruct (dispatch_result_roundtrip D now r j0) as (report & Hrep & Hdec);
    [by rewrite Hty|done|by rewrite Ht|done|]. rewrite Hty in Hrep. exists report.
  destruct (computeStats_ok ((λ r, msToDuration (pr_Rtt r)) <$> pdp_Responses d)) as (st & Hst & Ho & _ & Hp).
  { unfold slice_len_ok in *. by rewrite length_fmap. }
  { apply Forall_fmap, Forall_forall. intros x _. apply f64_to_int64_ok. }
  set (m := {| pm_RttP95Ns := ls_P95 st; pm_Sent := pdp_PingSent d; pm_Received := pdp_Replies d |}).
  set (e := ping_event_of (di_SerialID D) (pdp_Dst d) (prr_Timestamp r) m).
  destruct (dispatch_event e s (RowPing m) (ping_to_json m) t routes msg) as (j & Hj & Hdis);
    [done|simpl; lia|done|done|apply ping_metrics_roundtrip; try done; unfold int64_ok; simpl; lia|done|].
  unfold consume_ping, buildPing, parse_config_id. rewrite Hdec.
  cbn [rpl_Payload rpl_SerialID rpl_AgentConfigId].
  rewrite Hty, Hdata, Hdoc, Hst, Hu. simpl negb. cbn [res_bind].
  rewrite (int32_id (pdp_PingSent d)), (int32_id (pdp_Replies d)) by lia. fold m.
  unfold publication. fold e. rewrite Hj. eexists _, _, j. split; [done|]. split; [reflexivity|].
  rewrite (int32_id (pdp_PingSent d - pdp_Replies d)) by lia. split; [|split; [|done]].
  - rewrite length_app, length_fmap, length_replicate. lia.
  - rewrite lost_rows. lia.
Qed.

(** A report whose configuration id does not parse stops the processor. *)
Lemma bad_config_id_panics serial cid d :
  stamp_data_ok d → slice_len_ok (sd_Probes d) → uuid_Parse cid = None →
  buildStamp serial cid d = RPanic "nil pointer dereference".
Proof.
  intros Hd Hl Hu. pose proof Hd as (_ & _ & _ & Hp). rewrite Forall_forall in Hp.
  destruct (received_stats d pd_Rtt) as (rtt & E1 & _); [done|by intros; apply Hp|].
  destruct (received_stats d pd_ForwardDelay) as (fwd & E2 & _); [done|by intros; apply Hp|].
  destruct (received_stats d pd_BackwardDelay) as (bwd & E3 & _); [done|by intros; apply Hp|].
  unfold buildStamp, parse_config_id. by rewrite E1, E2, E3, Hu.
Qed.

End Pipeline.

(** ** Witnesses *)

#[local] Existing Instance BinaryUuid.

Definition example_dispatcher : Dispatcher := {| di_SerialID := "agent-1"; di_getAgentConfig := "1" |}.

Definition example_result (ty : string) (doc : json) : ProbeResult :=
  {| prr_TaskID := "1"; prr_ProbeType := ty; prr_Kind := ty; prr_Timestamp := at_sec 0;
     prr_Data := RawDoc doc |}.

Definition example_stamp_data : StampData :=
  {| sd_Target := "192.0.2.1"; sd_Port := 862; sd_Sent := 2; sd_Received := 1; sd_Loss := fconst 1 2;
     sd_Probes := [{| pd_Tx := at_sec 0; pd_IsLost := false; pd_Rx := at_sec 0; pd_Rtt := 3000000;
                      pd_ForwardDelay := 1000000; pd_BackwardDelay := 2000000 |};
                   {| pd_Tx := at_sec 0; pd_IsLost := true; pd_Rx := zeroTime; pd_Rtt := 0;
                      pd_ForwardDelay := 0; pd_BackwardDelay := 0 |}];
     sd_Timestamp := at_sec 0 |}.

Definition example_stamp_doc : json := default JNull (stamp_data_to_json example_stamp_data).

Lemma stamp_pipeline_witness :
  ∃ report row j, consume_stamp (RawDoc report) (ROk tt) true =
    ROk (Queued ("cepheus.measurement.stamp." +:+ "agent-1", j) row
           (stamp_probe_row <$> sd_Probes example_stamp_data)).
Proof.
  destruct (stamp_pipeline example_dispatcher (at_sec 1) (example_result ProbeTypeStamp example_stamp_doc)
    example_stamp_data example_stamp_doc 1%N ∅ 0%nat) as (report & row & j & _ & H & _).
  - reflexivity.
  - vm_compute. reflexivity.
  - reflexivity.
  - vm_compute. discriminate.
  - vm_compute. discriminate.
  - vm_compute. reflexivity.
  - unfold stamp_data_ok, int64_ok. simpl. repeat split; try lia. repeat constructor; simpl; lia.
  - unfold slice_len_ok. simpl. lia.
  - vm_compute. lia.
  - eauto.
Defined.

(** scamper's report of three pings and one answer. *)
Definition example_ping_doc : json :=
  JObj [("type", JStr "ping"); ("dst", JStr "192.0.2.1"); ("ping_sent", enc_int 3);
        ("start", JObj [("sec", enc_int 1); ("usec", enc_int 0)]);
        ("responses", JArr [JObj [("from", JStr "192.0.2.1"); ("seq", enc_int 0);
           ("tx", JObj [("sec", enc_int 1); ("usec", enc_int 0)]);
           ("rx", JObj [("sec", enc_int 1); ("usec", enc_int 12000)]); ("rtt", JNum (Some 12) (f64 12))]]);
        ("no_responses", JArr [JNull; JNull]);
        ("statistics", JObj [("replies", enc_int 1); ("loss", JNum (Some 66) (f64 66))])].

Definition example_ping_data : PingDataPayload :=
  default ping_data_zero (unmarshal ping_data_from_json ping_data_zero (RawDoc example_ping_doc)).

Lemma ping_pipeline_witness :
  ∃ report row probes j, consume_ping (RawDoc report) (ROk tt) true =
    ROk (Queued ("cepheus.measurement.ping." +:+ "agent-1", j) row probes) ∧ length probes = 3%nat.
Proof.
  destruct (ping_pipeline example_dispatcher (at_sec 1) (example_result ProbeTypePing example_ping_doc)
    example_ping_data example_ping_doc 1%N (JTime (at_sec 0)) ∅ 0%nat)
    as (report & row & probes & j & _ & H & Hl & _).
  - reflexivity.
  - reflexivity.
  - vm_compute. reflexivity.
  - vm_compute. reflexivity.
  - vm_compute. discriminate.
  - vm_compute. reflexivity.
  - unfold slice_len_ok. vm_compute. discriminate.
  - vm_compute. reflexivity.
  - vm_compute. split; [discriminate|reflexivity].
  - vm_compute. lia.
  - exists report, row, probes, j. split; [exact H|].
    assert (pdp_PingSent example_ping_data = 3) as E by (vm_compute; reflexivity).
    rewrite E in Hl. lia.
Defined.
