(* ===== verification/ProcessorRun.v ===== *)
(** * Running a processor (Start of services/stamp-processor and ping-processor)

    A running processor is two goroutines over a channel: the consumer fetches
    reports, publishes their events and sends their rows to the channel; the
    flusher collects rows and commits them.  Here they are one transition
    system: each event is one atomic turn of one goroutine, a delivery is
    numbered by its position in the log of what was fetched, and every choice
    of the scheduler, of [select], of NATS and of the database is in the event. *)

From S2P Require Import Prelude Float64 Float64Round GoTime Json ArgusTypes ArgusDb ArgusWorker.
From S2P Require Import PolicyEngineProps Reports Supervisor AgentPipeline Processors ProcessorsProps.

Local Open Scope go_scope.

(** ** What a processor does with a report

    The two processors differ in how they read a report, build its rows and
    name its event; the run loop is the same code. *)

Class ReportProcessor (M P : Type) := {
  rp_consume : raw → res unit → bool → res (consumed M P);
  (* with room in the channel a message is not left *)
  rp_room : ∀ d published pub, rp_consume d published true ≠ ROk (Left pub);
  (* rows are only sent after their event was published *)
  rp_published : ∀ d published room pub m ps,
    rp_consume d published room = ROk (Queued pub m ps) → published = ROk tt;
  (* errors are handled by refusing the message *)
  rp_total : ∀ d published room e, rp_consume d published room ≠ RErr e;
}.

(** Permutations of concatenated and mapped lists. *)
Ltac perm := rewrite ?app_nil_r, ?fmap_app; simpl; rewrite ?app_nil_r, ?fmap_app; solve_Permutation.

Section Run.
Context {M P : Type} `{RP : ReportProcessor M P}.

Definition pendingBuffer : nat := 256.
Definition fetchBatch : nat := 10.

(** The consumer: walking over the messages of a fetch (an empty walk is the
    head of the loop), blocked in the select that sends rows, or returned. *)
Inductive consumer :=
| Handling (msgs : list (nat * raw))
| Sending (p : pending M P) (rest : list (nat * raw))
| ConsumerReturned.

(** [pr_log] is everything fetched, a delivery being known by its position;
    [pr_left] is what a goroutine had in hand when it returned. *)
Record processor := {
  pr_done : bool;
  pr_log : list raw;
  pr_consumer : consumer;
  pr_pending : list (pending M P);
  pr_batch : option (list (pending M P));
  pr_store : store M P;
  pr_published : list (string * json);
  pr_left : list nat;
  pr_crashed : option string;
}.

Inductive event :=
| Cancel
| Fetch (msgs : list raw)
| FetchFailed
| ConsumerExit
| Message (published : res unit)
| Send
| SendCancelled
| FlushReceive (faults : list bool)
| FlushTick (faults : list bool)
| FlusherExit.

Definition start (t : tables M P) (next : nat) : processor :=
  {| pr_done := false; pr_log := []; pr_consumer := Handling []; pr_pending := []; pr_batch := Some [];
     pr_store := {| st_tables := t; st_faults := []; st_next := next; st_settled := [] |};
     pr_published := []; pr_left := []; pr_crashed := None |}.

Definition set_consumer (c : consumer) (s : processor) : processor :=
  {| pr_done := pr_done s; pr_log := pr_log s; pr_consumer := c; pr_pending := pr_pending s;
     pr_batch := pr_batch s; pr_store := pr_store s; pr_published := pr_published s;
     pr_left := pr_left s; pr_crashed := pr_crashed s |}.

Definition set_flusher (q : list (pending M P)) (b : option (list (pending M P))) (st : store M P)
    (s : processor) : processor :=
  {| pr_done := pr_done s; pr_log := pr_log s; pr_consumer := pr_consumer s; pr_pending := q;
     pr_batch := b; pr_store := st; pr_published := pr_published s;
     pr_left := pr_left s; pr_crashed := pr_crashed s |}.

Definition leave (ids : list nat) (s : processor) : processor :=
  {| pr_done := pr_done s; pr_log := pr_log s; pr_consumer := pr_consumer s; pr_pending := pr_pending s;
     pr_batch := pr_batch s; pr_store := pr_store s; pr_published := pr_published s;
     pr_left := pr_left s ++ ids; pr_crashed := pr_crashed s |}.

(** The database as the next flush finds it. *)
Definition with_faults (faults : list bool) (st : store M P) : store M P :=
  {| st_tables := st_tables st; st_faults := faults; st_next := st_next st; st_settled := st_settled st |}.

Definition nak (id : nat) (st : store M P) : store M P := fst (settle [Nacked id] st).

(** [consumer.Fetch(10, ...)] and the numbering of what it returned. *)
Definition fetch (msgs : list raw) (s : processor) : processor :=
  {| pr_done := pr_done s; pr_log := pr_log s ++ msgs;
     pr_consumer := Handling (imap (λ i d, ((length (pr_log s) + i)%nat, d)) msgs);
     pr_pending := pr_pending s; pr_batch := pr_batch s; pr_store := pr_store s;
     pr_published := pr_published s; pr_left := pr_left s; pr_crashed := pr_crashed s |}.

(** The body of the loop over the messages, up to the send. *)
Definition handle (id : nat) (d : raw) (rest : list (nat * raw)) (published : res unit) (s : processor)
    : option processor :=
  match rp_consume d published true with
  | RPanic e =>
      Some {| pr_done := pr_done s; pr_log := pr_log s; pr_consumer := pr_consumer s;
              pr_pending := pr_pending s; pr_batch := pr_batch s; pr_store := pr_store s;
              pr_published := pr_published s; pr_left := pr_left s; pr_crashed := Some e |}
  | ROk Naked =>
      Some (set_consumer (Handling rest) (set_flusher (pr_pending s) (pr_batch s) (nak id (pr_store s)) s))
  | ROk (Queued pub m ps) =>
      Some {| pr_done := pr_done s; pr_log := pr_log s;
              pr_consumer := Sending {| pe_msg := id; pe_measurement := m; pe_probes := ps |} rest;
              pr_pending := pr_pending s; pr_batch := pr_batch s; pr_store := pr_store s;
              pr_published := pr_published s ++ [pub]; pr_left := pr_left s; pr_crashed := pr_crashed s |}
  | ROk (Left _) | RErr _ => None
  end.

(** The rows in the flusher's hand after one more, or after a tick. *)
Definition flusher_turn (q batch : list (pending M P)) (now : bool) (faults : list bool) (s : processor)
    : processor :=
  if now || Nat.leb flushSize (length batch)
  then set_flusher q (Some []) (fst (flush batch (with_faults faults (pr_store s)))) s
  else set_flusher q (Some batch) (pr_store s) s.

(** One turn; [None] when the goroutine cannot take it.  A panic of a goroutine
    ends the process. *)
Definition step (e : event) (s : processor) : option processor :=
  match pr_crashed s with
  | Some _ => None
  | None =>
  match e, pr_consumer s, pr_batch s with
  | Cancel, _, _ =>
      if pr_done s then None
      else Some {| pr_done := true; pr_log := pr_log s; pr_consumer := pr_consumer s;
                   pr_pending := pr_pending s; pr_batch := pr_batch s; pr_store := pr_store s;
                   pr_published := pr_published s; pr_left := pr_left s; pr_crashed := None |}
  | Fetch msgs, Handling [], _ =>
      if pr_done s || Nat.ltb fetchBatch (length msgs) then None else Some (fetch msgs s)
  | FetchFailed, Handling [], _ => if pr_done s then None else Some s
  | ConsumerExit, Handling [], _ => if pr_done s then Some (set_consumer ConsumerReturned s) else None
  | Message published, Handling ((id, d) :: rest), _ => handle id d rest published s
  | Send, Sending p rest, _ =>
      if Nat.ltb (length (pr_pending s)) pendingBuffer
      then Some (set_consumer (Handling rest) (set_flusher (pr_pending s ++ [p]) (pr_batch s) (pr_store s) s))
      else None
  | SendCancelled, Sending p rest, _ =>
      if pr_done s then Some (leave (pe_msg p :: rest.*1) (set_consumer ConsumerReturned s)) else None
  | FlushReceive faults, _, Some batch =>
      match pr_pending s with
      | [] => None
      | p :: q => Some (flusher_turn q (batch ++ [p]) false faults s)
      end
  | FlushTick faults, _, Some batch => Some (flusher_turn (pr_pending s) batch true faults s)
  | FlusherExit, _, Some batch =>
      if pr_done s then Some (leave (pe_msg <$> batch) (set_flusher (pr_pending s) None (pr_store s) s)) else None
  | _, _, _ => None
  end
  end.

Fixpoint run (es : list event) (s : processor) : option processor :=
  match es with
  | [] => Some s
  | e :: es' => s' ← step e s; run es' s'
  end.

(** ** The invariant *)

Definition settled_id (x : settled) : nat := match x with Acked n | Nacked n => n end.

Definition acked (l : list settled) : list nat :=
  omap (λ x, match x with Acked n => Some n | Nacked _ => None end) l.

Definition consumer_msgs (c : consumer) : list (nat * raw) :=
  match c with Handling l => l | Sending _ rest => rest | ConsumerReturned => [] end.

(** Rows the processor holds in memory. *)
Definition sending (c : consumer) : list (pending M P) :=
  match c with Sending p _ => [p] | _ => [] end.

Definition held (s : processor) : list (pending M P) :=
  sending (pr_consumer s) ++ pr_pending s ++ default [] (pr_batch s).

(** The rows of committed deliveries, each with the id of its measurement. *)
Definition rows_of (l : list (nat * pending M P)) : list (nat * M) * list (nat * P) :=
  ((λ x, (x.1, pe_measurement x.2)) <$> l, l ≫= λ x, (λ q, (x.1, q)) <$> pe_probes x.2).

(** The rows of [p] are what the processor makes of the delivery [p] came from,
    and its event was published. *)
Definition built (log : list raw) (pubs : list (string * json)) (p : pending M P) : Prop :=
  ∃ d pub, log !! pe_msg p = Some d ∧ pub ∈ pubs ∧
    rp_consume d (ROk tt) true = ROk (Queued pub (pe_measurement p) (pe_probes p)).

(** The tables are those at the start and the rows of [committed], in order,
    under distinct identifiers drawn since. *)
Record stored (t0 : tables M P) (n0 : nat) (committed : list (nat * pending M P)) (st : store M P) : Prop := {
  sd_tables : st_tables st = add_rows t0 (rows_of committed);
  sd_acked : acked (st_settled st) = pe_msg ∘ snd <$> committed;
  sd_ids : NoDup committed.*1;
  sd_range : Forall (λ i, n0 ≤ i < st_next st)%nat committed.*1;
}.

Record processor_ok (t0 : tables M P) (n0 : nat) (s : processor) : Prop := {
  ok_once : seq 0 (length (pr_log s)) ≡ₚ
    (consumer_msgs (pr_consumer s)).*1 ++ (pe_msg <$> held s) ++ pr_left s ++
    (settled_id <$> st_settled (pr_store s));
  ok_room : (length (pr_pending s) ≤ pendingBuffer)%nat ∧
    (length (default [] (pr_batch s)) < flushSize)%nat;
  ok_next : (n0 ≤ st_next (pr_store s))%nat;
  ok_data : Forall (λ x, pr_log s !! x.1 = Some x.2) (consumer_msgs (pr_consumer s));
  ok_built : Forall (built (pr_log s) (pr_published s)) (held s);
  ok_stored : ∃ committed, stored t0 n0 committed (pr_store s) ∧
    Forall (built (pr_log s) (pr_published s)) committed.*2;
  ok_left : pr_done s = false →
    pr_left s = [] ∧ pr_consumer s ≠ ConsumerReturned ∧ pr_batch s ≠ None;
}.

Lemma batch_rows_zip n batch : batch_rows n batch = rows_of (zip (seq n (length batch)) batch).
Proof.
  revert n. induction batch as [|p batch IH]; intros n; [done|]. simpl. rewrite IH. done.
Qed.

Lemma rows_of_app l l' : rows_of (l ++ l') = ((rows_of l).1 ++ (rows_of l').1, (rows_of l).2 ++ (rows_of l').2).
Proof. unfold rows_of. simpl. by rewrite fmap_app, bind_app. Qed.

Lemma acked_app l l' : acked (l ++ l') = acked l ++ acked l'.
Proof. apply omap_app. Qed.

Lemma acked_Acked (l : list (pending M P)) : acked (Acked ∘ pe_msg <$> l) = pe_msg <$> l.
Proof. induction l as [|p l IH]; [done|]. unfold acked in *. csimpl. by f_equal. Qed.

Lemma acked_Nacked (l : list (pending M P)) : acked (Nacked ∘ pe_msg <$> l) = [].
Proof. by induction l. Qed.

Lemma built_mono log log' pubs pubs' p :
  log `prefix_of` log' → pubs ⊆ pubs' → built log pubs p → built log' pubs' p.
Proof.
  intros Hl Hp (d & pub & H1 & H2 & H3). exists d, pub.
  split; [by eapply prefix_lookup_Some|]. split; [by apply Hp|done].
Qed.

Lemma Forall_built log log' pubs pubs' l :
  log `prefix_of` log' → pubs ⊆ pubs' → Forall (built log pubs) l → Forall (built log' pubs') l.
Proof. intros Hl Hp H. eapply Forall_impl; [exact H|]. intros p. by apply built_mono. Qed.

(** What a flush does to the tables, the identifiers and the settlements. *)
Lemma flush_stored t0 n0 committed batch faults st :
  (n0 ≤ st_next st)%nat → stored t0 n0 committed st →
  let st' := fst (flush batch (with_faults faults st)) in
  (n0 ≤ st_next st')%nat ∧
  settled_id <$> st_settled st' = (settled_id <$> st_settled st) ++ (pe_msg <$> batch) ∧
  ∃ more, more ⊆ batch ∧ (true ∉ faults → more = batch) ∧
    ∃ ids, length ids = length more ∧ stored t0 n0 (committed ++ zip ids more) st'.
Proof.
  intros Hn [H1 H2 H3 H4] st'.
  pose proof (flush_spec batch (with_faults faults st)) as Hf.
  pose proof (flush_next batch (with_faults faults st)) as Hnx. fold st' in Hnx. simpl in Hnx.
  subst st'. destruct (flush batch (with_faults faults st)) as [st' r]. simpl in *.
  destruct Hf as [_ [(E1 & E2 & E3)|(E1 & E2 & E3)]].
  - split; [lia|]. rewrite E3, fmap_app, <- list_fmap_compose. split; [done|].
    exists batch. split; [done|]. split; [done|]. exists (seq (st_next st) (length batch)).
    rewrite length_seq. split; [done|].
    assert ((zip (seq (st_next st) (length batch)) batch).*1 = seq (st_next st) (length batch)) as Hz1
      by (apply fst_zip; by rewrite length_seq).
    assert ((zip (seq (st_next st) (length batch)) batch).*2 = batch) as Hz2
      by (apply snd_zip; by rewrite length_seq).
    split.
    + rewrite E1, H1, batch_rows_zip. unfold add_rows. rewrite rows_of_app.
      cbn [fst snd tb_measurements tb_probes]. by rewrite <- !app_assoc.
    + rewrite E3, acked_app, acked_Acked, H2, fmap_app. f_equal.
      rewrite (list_fmap_compose snd pe_msg), Hz2. done.
    + rewrite fmap_app, Hz1. apply NoDup_app. split; [done|]. split; [|apply NoDup_seq].
      intros i Hi Hs%elem_of_seq. rewrite Forall_forall in H4. specialize (H4 i Hi). lia.
    + rewrite fmap_app, Hz1, E2. apply Forall_app. split.
      * eapply Forall_impl; [exact H4|]. simpl. lia.
      * apply Forall_forall. intros i Hs%elem_of_seq. lia.
  - split; [lia|]. rewrite E3, fmap_app, <- list_fmap_compose. split; [done|].
    exists []. split; [set_solver|]. split; [done|]. exists []. split; [done|].
    rewrite app_nil_r. split; [by rewrite E1|by rewrite E3, acked_app, acked_Nacked, app_nil_r|done|].
    eapply Forall_impl; [exact H4|]. simpl. lia.
Qed.

Lemma processor_start_ok t0 n0 : processor_ok t0 n0 (start t0 n0).
Proof.
  split; try done; [split; unfold pendingBuffer, flushSize; simpl; lia|].
  exists []. split; [|done]. split; simpl; [symmetry; apply add_rows_nil|done|constructor|constructor].
Qed.

(** *** Each turn preserves it *)

(** [ok_left] after a turn. *)
Ltac left_ok :=
  match goal with
  | |- _ = false → _ =>
      let Hd := fresh in intros Hd; simpl in Hd;
      first [congruence | match goal with H : _ = false → _ |- _ => destruct (H Hd) as (? & ? & ?); by repeat split end]
  end.

Lemma fetched_ids n (msgs : list raw) : (imap (λ i d, ((n + i)%nat, d)) msgs).*1 = seq n (length msgs).
Proof. rewrite fmap_imap, <- (list_fmap_id (seq _ _)). apply (imap_seq msgs id). Qed.

Lemma fetch_ok t0 n0 msgs s :
  pr_consumer s = Handling [] → processor_ok t0 n0 s → processor_ok t0 n0 (fetch msgs s).
Proof.
  intros Hc [H1 H2 H3 H4 H5 (cm & H6 & H7) H8]. unfold held in *. rewrite Hc in *.
  split; unfold held; simpl in *; try done; try left_ok.
  - rewrite fetched_ids, length_app, seq_app, H1. simpl. solve_Permutation.
  - apply Forall_forall. intros [i d] (j & y & [= -> ->] & Hy)%elem_of_lookup_imap.
    rewrite lookup_app_r by (simpl; lia). simpl. by replace (_ + j - _)%nat with j by lia.
  - eapply Forall_built; [..|exact H5]; [by apply prefix_app_r|done].
  - exists cm. split; [done|]. eapply Forall_built; [..|exact H7]; [by apply prefix_app_r|done].
Qed.

Lemma stored_nak t0 n0 cm id st : stored t0 n0 cm st → stored t0 n0 cm (nak id st).
Proof.
  intros [H1 H2 H3 H4]. split; simpl; try done. by rewrite acked_app, app_nil_r.
Qed.

Lemma handle_ok t0 n0 id d rest published s s' :
  pr_consumer s = Handling ((id, d) :: rest) → handle id d rest published s = Some s' →
  processor_ok t0 n0 s → processor_ok t0 n0 s'.
Proof.
  intros Hc Hh [H1 H2 H3 H4 H5 (cm & H6 & H7) H8]. unfold held, handle in *. rewrite Hc in *.
  destruct (rp_consume d published true) as [[|pub|pub m ps]|e|e] eqn:E; simplify_eq/=.
  - split; unfold held; simpl in *; try done; try left_ok.
    + rewrite H1. perm.
    + by apply Forall_cons in H4 as [_ H4].
    + exists cm. split; [by apply stored_nak|done].
  - pose proof (rp_published _ _ _ _ _ _ E) as ->. apply Forall_cons in H4 as [Hd H4].
    split; unfold held; simpl in *; try done; try left_ok.
    + rewrite H1. perm.
    + constructor; [|eapply Forall_built; [..|exact H5]; [done|set_solver]].
      exists d, pub. split; [done|]. split; [set_solver|done].
    + exists cm. split; [done|]. eapply Forall_built; [..|exact H7]; [done|set_solver].
  - split; unfold held; simpl in *; rewrite ?Hc; try done; try left_ok. by exists cm.
Qed.

(** The flusher's turn, [batch] being what it holds after receiving. *)
Lemma flusher_turn_ok t0 n0 q batch now faults s :
  length batch ≤ flushSize → length q ≤ pendingBuffer →
  pr_pending s ++ default [] (pr_batch s) ≡ₚ q ++ batch →
  processor_ok t0 n0 s → processor_ok t0 n0 (flusher_turn q batch now faults s).
Proof.
  intros Hlen Hq Hp [H1 [H2 _] H3 H4 H5 (cm & H6 & H7) H8].
  assert (held s ≡ₚ sending (pr_consumer s) ++ q ++ batch) as Hh by (unfold held; by rewrite Hp).
  rewrite Hh in H1, H5. rewrite !Forall_app in H5. destruct H5 as (B1 & B2 & B3).
  unfold flusher_turn. destruct (now || Nat.leb flushSize (length batch)) eqn:En.
  - destruct (flush_stored t0 n0 cm batch faults (pr_store s) H3 H6) as (F1 & F2 & more & F3 & _ & ids & F4 & F5).
    split; unfold held; simpl; try done; try left_ok.
    + rewrite F2, H1. perm.
    + split; [done|]. unfold flushSize. lia.
    + rewrite app_nil_r. by apply Forall_app.
    + exists (cm ++ zip ids more). split; [done|].
      rewrite fmap_app, snd_zip by (by rewrite F4). apply Forall_app. split; [done|].
      rewrite Forall_forall in B3 |- *. intros p Hin. by apply B3, F3.
  - apply orb_false_iff in En as [_ En%Nat.leb_gt].
    split; unfold held; simpl; try done; try left_ok.
    + by rewrite !Forall_app.
    + by exists cm.
Qed.

Lemma step_ok t0 n0 e s s' : step e s = Some s' → processor_ok t0 n0 s → processor_ok t0 n0 s'.
Proof.
  intros Hs Hok. pose proof Hok as [H1 [H2 H2'] H3 H4 H5 H6 H8]. unfold step in Hs.
  destruct (pr_crashed s) as [?|]; [done|].
  destruct e as [|msgs| | |published| | |faults|faults|].
  - destruct (pr_done s) eqn:Ed; [done|]. simplify_eq/=. split; try done; left_ok.
  - destruct (pr_consumer s) as [[|??]|p rest|] eqn:Ec; try done.
    destruct (pr_done s || _); [done|]. simplify_eq/=. by apply fetch_ok.
  - destruct (pr_consumer s) as [[|??]|p rest|] eqn:Ec; try done.
    destruct (pr_done s) eqn:Ed; [done|]. by simplify_eq/=.
  - destruct (pr_consumer s) as [[|??]|p rest|] eqn:Ec; try done.
    destruct (pr_done s) eqn:Ed; [|done]. simplify_eq/=. unfold held in *. rewrite Ec in *. split; try done; left_ok.
  - destruct (pr_consumer s) as [[|[id d] rest]|p rest|] eqn:Ec; try done. by eapply handle_ok.
  - destruct (pr_consumer s) as [l|p rest|] eqn:Ec; try done.
    destruct (Nat.ltb_spec (length (pr_pending s)) pendingBuffer); [|done]. simplify_eq/=.
    unfold held in *. rewrite Ec in *. simpl in *. apply Forall_cons in H5 as [B1 B2].
    split; unfold held; simpl; try done; try left_ok.
    + rewrite H1. perm.
    + rewrite length_app. simpl. split; [lia|done].
    + rewrite <- app_assoc. rewrite !Forall_app in *. simpl. rewrite Forall_cons. naive_solver.
  - destruct (pr_consumer s) as [l|p rest|] eqn:Ec; try done.
    destruct (pr_done s) eqn:Ed; [|done]. simplify_eq/=.
    unfold held in *. rewrite Ec in *. simpl in *. apply Forall_cons in H5 as [B1 B2].
    split; unfold held; simpl; try done; try left_ok. rewrite H1. perm.
  - destruct (pr_batch s) as [batch|] eqn:Eb; [|by destruct (pr_consumer s) as [[|[]]| |]].
    assert ((match pr_pending s with [] => None | p :: q => Some (flusher_turn q (batch ++ [p]) false faults s) end)
      = Some s') as Hs' by (by destruct (pr_consumer s) as [[|[]]| |]).
    destruct (pr_pending s) as [|p q] eqn:Eq; [done|]. simplify_eq/=. apply flusher_turn_ok; [..|done].
    + rewrite length_app. simpl in *. lia.
    + simpl in *. lia.
    + rewrite Eq, Eb. simpl. solve_Permutation.
  - destruct (pr_batch s) as [batch|] eqn:Eb; [|by destruct (pr_consumer s) as [[|[]]| |]].
    assert (flusher_turn (pr_pending s) batch true faults s = s') as <-
      by (destruct (pr_consumer s) as [[|[]]| |]; by simplify_eq).
    apply flusher_turn_ok; [simpl in *; lia|done|by rewrite Eb|done].
  - destruct (pr_batch s) as [batch|] eqn:Eb; [|by destruct (pr_consumer s) as [[|[]]| |]].
    destruct (pr_done s) eqn:Ed; [|by destruct (pr_consumer s) as [[|[]]| |]].
    assert (leave (pe_msg <$> batch) (set_flusher (pr_pending s) None (pr_store s) s) = s') as <-
      by (destruct (pr_consumer s) as [[|[]]| |]; by simplify_eq).
    unfold held in *. rewrite Eb in *. simpl in *. rewrite !Forall_app in H5.
    split; unfold held; simpl; try done; try left_ok.
    + rewrite H1. perm.
    + split; [done|]. unfold flushSize. lia.
    + rewrite app_nil_r, Forall_app. naive_solver.
Qed.

Lemma run_ok t0 n0 es s s' : run es s = Some s' → processor_ok t0 n0 s → processor_ok t0 n0 s'.
Proof.
  revert s. induction es as [|e es IH]; intros s; simpl; [by intros [= <-]|].
  intros (s1 & Hs & Hr)%bind_Some Hok. eapply IH; [done|]. by eapply step_ok.
Qed.

Lemma run_app es es' s : run (es ++ es') s = s' ← run es s; run es' s'.
Proof. revert s. induction es as [|e es IH]; intros s; simpl; [done|]. destruct (step e s); simpl; auto. Qed.

(** *** Shutdown *)

Definition is_tick (e : event) : bool := match e with FlushTick _ => true | _ => false end.

Definition consumer_work (c : consumer) : nat :=
  match c with
  | Handling l => 2 * length l + 1
  | Sending _ rest => 2 * length rest + 2
  | ConsumerReturned => 0
  end.

(** The turns that are left to a cancelled processor, ticks apart. *)
Definition work (s : processor) : nat :=
  match pr_crashed s with
  | Some _ => 0
  | None => 2 * consumer_work (pr_consumer s) + length (pr_pending s) + match pr_batch s with Some _ => 1 | None => 0 end
  end.

Lemma flusher_turn_keeps q batch now faults s :
  let s' := flusher_turn q batch now faults s in
  pr_done s' = pr_done s ∧ pr_crashed s' = pr_crashed s ∧ pr_consumer s' = pr_consumer s ∧
  pr_pending s' = q ∧ is_Some (pr_batch s') ∧ pr_log s' = pr_log s ∧ pr_left s' = pr_left s.
Proof. unfold flusher_turn. destruct (now || _); simpl; naive_solver. Qed.

Lemma step_work e s s' :
  pr_done s = true → step e s = Some s' →
  pr_done s' = true ∧ (work s' + (if is_tick e then 0 else 1) ≤ work s)%nat.
Proof.
  intros Hd Hs. unfold step in Hs. destruct (pr_crashed s) as [?|] eqn:Ecr; [done|].
  assert (work s = 2 * consumer_work (pr_consumer s) + length (pr_pending s) +
    match pr_batch s with Some _ => 1 | None => 0 end)%nat as Ew by (unfold work; by rewrite Ecr).
  rewrite Ew. unfold handle in Hs. rewrite Hd in Hs.
  destruct e, (pr_consumer s) as [[|[id d] rest]|p rest|] eqn:Ec, (pr_batch s) as [batch|] eqn:Eb;
    simplify_eq/=; repeat (case_match; simplify_eq/=); unfold work; simpl;
    repeat match goal with
    | |- context [flusher_turn ?q ?b ?n ?f s] =>
        destruct (flusher_turn_keeps q b n f s) as (-> & -> & -> & -> & [? ->] & _)
    end; rewrite ?Hd, ?Ecr, ?Ec, ?Eb, ?length_app; simpl; (split; [done|lia]).
Qed.

(** Until both goroutines have returned, one of them has a turn to take. *)
Lemma cancelled_enabled s :
  pr_done s = true → pr_crashed s = None →
  (pr_consumer s = ConsumerReturned ∧ pr_batch s = None) ∨ ∃ e, is_tick e = false ∧ is_Some (step e s).
Proof.
  intros Hd Hcr. destruct (pr_consumer s) as [[|[id d] rest]|p rest|] eqn:Ec.
  - right. exists ConsumerExit. split; [done|]. unfold step. rewrite Hcr, Ec, Hd. eauto.
  - right. exists (Message (RErr "")). split; [done|]. unfold step, handle. rewrite Hcr, Ec.
    destruct (rp_consume d (RErr "") true) as [[|pub|pub m ps]|e|e] eqn:E; [eauto| |eauto| |eauto].
    + by destruct (rp_room _ _ _ E).
    + by destruct (rp_total _ _ _ _ E).
  - right. exists SendCancelled. split; [done|]. unfold step. rewrite Hcr, Ec, Hd. eauto.
  - destruct (pr_batch s) as [batch|] eqn:Eb; [right|by left].
    exists FlusherExit. split; [done|]. unfold step. rewrite Hcr, Eb, Hd. eauto.
Qed.

(** *** Draining *)

(** A receive and a tick of the flusher on a healthy database. *)
Lemma flush_healthy batch st : 
  st_settled (fst (flush batch (with_faults [] st))) = st_settled st ++ (Acked ∘ pe_msg <$> batch).
Proof.
  pose proof (flush_spec batch (with_faults [] st)) as H.
  destruct (flush batch (with_faults [] st)) as [st' r]. simpl in *.
  destruct H as [_ [(_ & _ & ->)|(_ & H & _)]]; [done|]. set_solver.
Qed.

Lemma step_receive f s batch p q :
  pr_crashed s = None → pr_batch s = Some batch → pr_pending s = p :: q →
  step (FlushReceive f) s = Some (flusher_turn q (batch ++ [p]) false f s).
Proof. intros Hc Hb Hq. unfold step. rewrite Hc, Hb, Hq. by destruct (pr_consumer s) as [[|[]]| |]. Qed.

Lemma step_tick f s batch :
  pr_crashed s = None → pr_batch s = Some batch →
  step (FlushTick f) s = Some (flusher_turn (pr_pending s) batch true f s).
Proof. intros Hc Hb. unfold step. rewrite Hc, Hb. by destruct (pr_consumer s) as [[|[]]| |]. Qed.

(** What a turn of the flusher holds and has acknowledged afterwards, on a
    healthy database. *)
Lemma flusher_turn_healthy q batch now s :
  ∃ rest, pr_batch (flusher_turn q batch now [] s) = Some rest ∧ (now = true → rest = []) ∧
    st_settled (pr_store (flusher_turn q batch now [] s)) ++ (Acked ∘ pe_msg <$> rest) =
    st_settled (pr_store s) ++ (Acked ∘ pe_msg <$> batch).
Proof.
  unfold flusher_turn. destruct (now || _) eqn:E; simpl.
  - exists []. rewrite flush_healthy, app_nil_r. done.
  - exists batch. by destruct now.
Qed.

Lemma drain_flusher s batch :
  pr_crashed s = None → pr_batch s = Some batch →
  ∃ s', run (replicate (length (pr_pending s)) (FlushReceive []) ++ [FlushTick []]) s = Some s' ∧
    pr_pending s' = [] ∧ pr_batch s' = Some [] ∧ pr_consumer s' = pr_consumer s ∧
    pr_log s' = pr_log s ∧ pr_done s' = pr_done s ∧ pr_crashed s' = None ∧ pr_left s' = pr_left s ∧
    st_settled (pr_store s') = st_settled (pr_store s) ++ (Acked ∘ pe_msg <$> batch ++ pr_pending s).
Proof.
  remember (pr_pending s) as q eqn:Eq. revert s batch Eq.
  induction q as [|p q IH]; intros s batch Eq Hcr Eb; cbn [replicate length app run].
  - rewrite (step_tick [] s batch Hcr Eb), app_nil_r. simpl. eexists. split; [done|].
    destruct (flusher_turn_keeps (pr_pending s) batch true [] s) as (-> & -> & -> & -> & _ & -> & ->).
    destruct (flusher_turn_healthy (pr_pending s) batch true s) as (rest & -> & Hr & <-).
    rewrite (Hr eq_refl), app_nil_r. by repeat split.
  - rewrite (step_receive [] s batch p q Hcr Eb) by done. simpl.
    destruct (flusher_turn_keeps q (batch ++ [p]) false [] s) as (F1 & F2 & F3 & F4 & _ & F5 & F6).
    destruct (flusher_turn_healthy q (batch ++ [p]) false s) as (rest & G1 & _ & G2).
    destruct (IH (flusher_turn q (batch ++ [p]) false [] s) rest) as
      (s' & H1 & H2 & H3 & H4 & H5 & H6 & H7 & H8 & H9); [by rewrite F4|by rewrite F2|done|].
    exists s'. rewrite H4, H5, H6, H8, H9, F1, F3, F5, F6. do 8 (split; [done|]).
    rewrite fmap_app, app_assoc, G2, <- app_assoc, <- fmap_app, <- app_assoc. done.
Qed.

(** No report crashes the processor. *)
Definition no_panic (log : list raw) : Prop :=
  Forall (λ d, ∀ e, rp_consume d (ROk tt) true ≠ RPanic e) log.

(** Nothing is in flight. *)
Definition idle (s : processor) : Prop :=
  pr_consumer s = Handling [] ∧ pr_pending s = [] ∧ pr_batch s = Some [].

(** The next turns of a live consumer, the channel being emptied before a send. *)
Lemma consumer_turn t0 n0 s :
  processor_ok t0 n0 s → pr_crashed s = None → pr_done s = false → no_panic (pr_log s) →
  pr_consumer s ≠ Handling [] →
  ∃ es s', run es s = Some s' ∧ pr_log s' = pr_log s ∧ pr_crashed s' = None ∧ pr_done s' = false ∧
    (consumer_work (pr_consumer s') < consumer_work (pr_consumer s))%nat.
Proof.
  intros Hok Hcr Hd Hnp Hne. destruct (ok_left _ _ _ Hok Hd) as (_ & Hr & Hb).
  destruct (pr_consumer s) as [[|[id d] rest]|p rest|] eqn:Ec; [done| | |done].
  - exists [Message (ROk tt)]. cbn [run]. unfold step. rewrite Hcr, Ec. unfold handle.
    pose proof (ok_data _ _ _ Hok) as Hl. rewrite Ec in Hl. apply Forall_cons in Hl as [Hl _].
    pose proof (proj1 (Forall_lookup _ _) Hnp _ _ Hl) as Hp. simpl in Hp.
    destruct (rp_consume d (ROk tt) true) as [[|pub|pub m ps]|e|e] eqn:E.
    + eexists. split; [done|]. simpl. do 3 (split; [done|]). lia.
    + by destruct (rp_room _ _ _ E).
    + eexists. split; [done|]. simpl. do 3 (split; [done|]). lia.
    + by destruct (rp_total _ _ _ _ E).
    + by destruct (Hp e).
  - destruct (pr_batch s) as [batch|] eqn:Eb; [|done].
    destruct (drain_flusher s batch Hcr Eb) as (s1 & R & Q & B & C & L & D & K & _).
    eexists (_ ++ [Send]), _. rewrite run_app, R. simpl. unfold step. rewrite K, C, Ec, Q. simpl.
    split; [done|]. simpl. rewrite K, D, L. do 3 (split; [done|]). lia.
Qed.

Lemma drain_all t0 n0 s :
  processor_ok t0 n0 s → pr_crashed s = None → pr_done s = false → no_panic (pr_log s) →
  ∃ es s', run es s = Some s' ∧ idle s' ∧ pr_log s' = pr_log s ∧ pr_done s' = false.
Proof.
  remember (consumer_work (pr_consumer s)) as n eqn:En. revert s En.
  induction (lt_wf n) as [n _ IH]. intros s -> Hok Hcr Hd Hnp.
  assert (pr_consumer s = Handling [] ∨ pr_consumer s ≠ Handling []) as [Ec|Ec]
    by (destruct (pr_consumer s) as [[|]| |]; naive_solver).
  - destruct (ok_left _ _ _ Hok Hd) as (_ & _ & Hb). destruct (pr_batch s) as [batch|] eqn:Eb; [|done].
    destruct (drain_flusher s batch Hcr Eb) as (s1 & R & Q & B & C & L & D & _).
    eexists _, s1. split; [exact R|]. rewrite D. split; [|done]. unfold idle. by rewrite C, Ec.
  - destruct (consumer_turn _ _ _ Hok Hcr Hd Hnp Ec) as (es & s1 & R & L & K & D & Hw).
    destruct (IH _ Hw s1 eq_refl) as (es' & s' & R' & I & L' & D'); [by eapply run_ok|done..|by rewrite L|].
    exists (es ++ es'), s'. rewrite run_app, R. simpl. split; [done|]. split; [done|]. by rewrite L'.
Qed.

(** ** Theorems *)

(** C8. In every state a processor can reach, whatever NATS, the database, the
    scheduler and a shutdown do: each report delivered to it is in exactly one
    place (with the consumer, in the channel, in the batch, abandoned at
    shutdown, or settled), so no report is settled twice; the channel and the
    batch stay within their bounds; and the tables are those at the start and
    the rows of exactly the acknowledged reports, in order and under distinct
    identifiers, each row being what the processor computes from its report,
    whose event was published first. *)
Theorem processor_accounts t0 n0 es s :
  run es (start t0 n0) = Some s →
  seq 0 (length (pr_log s)) ≡ₚ
    (consumer_msgs (pr_consumer s)).*1 ++ (pe_msg <$> held s) ++ pr_left s ++
    (settled_id <$> st_settled (pr_store s)) ∧
  (length (pr_pending s) ≤ pendingBuffer)%nat ∧ (length (default [] (pr_batch s)) < flushSize)%nat ∧
  ∃ committed, st_tables (pr_store s) = add_rows t0 (rows_of committed) ∧
    acked (st_settled (pr_store s)) = pe_msg ∘ snd <$> committed ∧ NoDup committed.*1 ∧
    Forall (built (pr_log s) (pr_published s)) committed.*2.
Proof.
  intros Hr. destruct (run_ok t0 n0 _ _ _ Hr (processor_start_ok t0 n0)) as [H1 [H2 H3] _ _ _ (cm & [] & H4) _].
  do 3 (split; [done|]). by exists cm.
Qed.

(** C22. Once the context is cancelled a processor shuts down: of the turns other
    than ticks of the flusher, whose number is not bounded, it takes at most
    [work s] more, and while it has not crashed and its goroutines have not both
    returned, a turn other than a tick can be taken. *)
Theorem shutdown_terminates es s s' :
  pr_done s = true → run es s = Some s' →
  (length (List.filter (negb ∘ is_tick) es) + work s' ≤ work s)%nat ∧
  (pr_crashed s' = None →
    (pr_consumer s' = ConsumerReturned ∧ pr_batch s' = None) ∨
    ∃ e, is_tick e = false ∧ is_Some (step e s')).
Proof.
  intros Hd Hr. assert (pr_done s' = true ∧ (length (List.filter (negb ∘ is_tick) es) + work s' ≤ work s)%nat)
    as [Hd' Hw].
  { revert s Hd Hr. induction es as [|e es IH]; intros s Hd; simpl; [by intros [= <-]|].
    intros (s1 & Hs & Hr)%bind_Some. destruct (step_work e s s1 Hd Hs) as [Hd1 Hw1].
    destruct (IH s1 Hd1 Hr) as [? ?]. split; [done|]. destruct (is_tick e); simpl; lia. }
  split; [done|]. by apply cancelled_enabled.
Qed.

(** While it runs, a processor can always settle everything it was handed:
    from every reachable state that has not been cancelled, if no report
    crashes it, there is a run that fetches nothing more after which nothing is
    in flight and every delivered report has been settled exactly once. *)
Theorem processor_settles t0 n0 es s :
  run es (start t0 n0) = Some s → pr_done s = false → pr_crashed s = None → no_panic (pr_log s) →
  ∃ es' s', run es' s = Some s' ∧ pr_log s' = pr_log s ∧ idle s' ∧
    settled_id <$> st_settled (pr_store s') ≡ₚ seq 0 (length (pr_log s)).
Proof.
  intros Hr Hd Hcr Hnp. pose proof (run_ok t0 n0 _ _ _ Hr (processor_start_ok t0 n0)) as Hok.
  destruct (drain_all _ _ _ Hok Hcr Hd Hnp) as (es' & s' & R & I & L & D).
  exists es', s'. do 3 (split; [done|]). pose proof (run_ok t0 n0 _ _ _ R Hok) as Hok'.
  destruct (ok_left _ _ _ Hok' D) as (Hl & _). pose proof (ok_once _ _ _ Hok') as Ho.
  destruct I as (I1 & I2 & I3). unfold held in Ho. rewrite I1, I2, I3, Hl, L in Ho. by rewrite Ho.
Qed.

End Run.

(** ** The two processors *)

Definition no_err {A} (r : res A) : Prop := ∀ e, r ≠ RErr e.

Lemma no_err_bind {A B} (r : res A) (f : A → res B) : no_err r → (∀ a, no_err (f a)) → no_err (res_bind r f).
Proof. intros Hr Hf e. destruct r as [a|e'|e']; simpl; [apply Hf|by destruct (Hr e')|done]. Qed.

Lemma no_err_ok {A} (a : A) : no_err (ROk a).
Proof. by intros e. Qed.

Lemma no_err_panic {A} e : no_err (RPanic (A:=A) e).
Proof. by intros e'. Qed.

Lemma no_err_index l i : no_err (index l i).
Proof. intros e. unfold index. by repeat case_match. Qed.

#[local] Hint Resolve no_err_ok no_err_panic no_err_index : core.

Lemma no_err_percentile l p : no_err (percentile l p).
Proof.
  unfold percentile. cbv zeta. repeat case_match; auto.
  apply no_err_bind; [auto|intros a]. apply no_err_bind; auto.
Qed.

Lemma no_err_stats l : no_err (computeStats l).
Proof.
  unfold computeStats. destruct l; [auto|]. cbv zeta.
  apply no_err_bind; [apply no_err_percentile|intros a]. apply no_err_bind; [apply no_err_percentile|auto].
Qed.

#[local] Hint Resolve no_err_stats : core.

Section Instances.
Context `{UuidLib}.

Lemma no_err_config_id s : no_err (parse_config_id s).
Proof. unfold parse_config_id. case_match; auto. Qed.

#[local] Hint Resolve no_err_config_id : core.

Lemma no_err_buildStamp serial cid d : no_err (buildStamp serial cid d).
Proof. unfold buildStamp. repeat (apply no_err_bind; [by auto|intros ?]). auto. Qed.

Lemma no_err_buildPing serial cid t d : no_err (buildPing serial cid t d).
Proof. unfold buildPing. repeat (apply no_err_bind; [by auto|intros ?]). auto. Qed.

(** The outcomes of the two readers, from the outcome of the build. *)
Ltac outcomes :=
  repeat case_match; simplify_eq/=;
  first [done | match goal with |- context [res_bind ?b _] => destruct b as [[[] ]|?|?] eqn:? end; simpl;
    repeat case_match; simplify_eq/=; done].

#[export] Program Instance stamp_processor : ReportProcessor StampMeasurementRow StampProbeRow :=
  {| rp_consume := consume_stamp |}.
Next Obligation. intros d pb pub. unfold consume_stamp. outcomes. Qed.
Next Obligation.
  intros d pb room pub m ps. unfold consume_stamp.
  repeat case_match; simplify_eq/=; try done;
    destruct (buildStamp _ _ _) as [[[] ]|?|?]; simpl; repeat case_match; intros; simplify_eq/=;
    by match goal with u : unit |- _ => destruct u end.
Qed.
Next Obligation.
  intros d pb room e. unfold consume_stamp. repeat case_match; try done;
    (apply no_err_bind; [apply no_err_buildStamp|]; intros [[] ?]; repeat case_match; auto).
Qed.

#[export] Program Instance ping_processor : ReportProcessor PingMeasurementRow PingProbeRow :=
  {| rp_consume := consume_ping |}.
Next Obligation. intros d pb pub. unfold consume_ping. outcomes. Qed.
Next Obligation.
  intros d pb room pub m ps. unfold consume_ping.
  repeat case_match; simplify_eq/=; try done;
    destruct (buildPing _ _ _ _) as [[[] ]|?|?]; simpl; repeat case_match; intros; simplify_eq/=;
    by match goal with u : unit |- _ => destruct u end.
Qed.
Next Obligation.
  intros d pb room e. unfold consume_ping. repeat case_match; try done;
    (apply no_err_bind; [apply no_err_buildPing|]; intros [[] ?]; repeat case_match; auto).
Qed.

End Instances.

(** ** The ping processor

    services/ping-processor repeats the code of the stamp processor over its own
    rows: its operations are those of [Processors] and of this file at the
    types of a ping. *)

Module PingProcessor.

Definition pendingPing : Type := pending PingMeasurementRow PingProbeRow.

Definition ping_store : Type := store PingMeasurementRow PingProbeRow.

Definition InsertPingMeasurement : PingMeasurementRow → go ping_store nat := InsertMeasurement.

Definition InsertPingProbes : nat → list PingProbeRow → go ping_store unit := InsertProbes.

Definition ping_percentile : list duration → float64 → res duration := percentile.

Definition ping_computeStats : list duration → res LatencyStats := computeStats.

Definition ping_publishMeasurement (serialId target : string) (timestamp : time) (metrics : PingMetrics)
    : option (string * json) :=
  publication "ping" serialId (ping_event_of serialId target timestamp metrics).

Definition ping_nakAll : list pendingPing → go ping_store unit := nakAll.

Definition ping_flush : list pendingPing → go ping_store unit := flush.

Definition ping_runFlusher : list (flusher_event PingMeasurementRow PingProbeRow) →
    option (list pendingPing) * list (list pendingPing) := runFlusher.

Definition ping_turn `{UuidLib} : event → processor → option processor := step (RP:=ping_processor).

(** A ping report whose rows reach the flusher was published under the ping
    subject of its serial. *)
Lemma queued_published `{UuidLib} d pb room pub m ps :
  consume_ping d pb room = ROk (Queued pub m ps) →
  ∃ serial target ts metrics, ping_publishMeasurement serial target ts metrics = Some pub ∧
    pmr_SerialID m = serial ∧ pmr_Target m = target ∧ pmr_Timestamp m = ts ∧
    pm_RttP95Ns metrics = pmr_RttP95Ns m ∧ pm_Sent metrics = pmr_Sent m ∧ pm_Received metrics = pmr_Received m.
Proof.
  unfold consume_ping, buildPing. destruct (unmarshal _ _ d) as [payload|]; [|done]. case_match; [done|].
  destruct (unmarshal _ _ (prr_Data _)) as [pd|]; [|done].
  destruct (computeStats _) as [st|e|e]; simpl; [|done..].
  destruct (parse_config_id _) as [cid|e|e]; simpl; [|done..].
  destruct (publication _ _ _) as [pub'|] eqn:E; [|done]. destruct pb; [|done..]. destruct room; [|done].
  intros [= <- <- <-]. eexists _, _, _, _. split; [exact E|]. done.
Qed.

End PingProcessor.

(** ** Witnesses: the ping processor takes a report and a broken message *)

#[local] Existing Instance BinaryUuid.

Definition example_ping_report : raw :=
  match dispatch_result example_dispatcher (at_sec 1) (example_result ProbeTypePing example_ping_doc) with
  | Published _ j => RawDoc j
  | Skipped => RawBad
  end.

Definition no_tables : tables PingMeasurementRow PingProbeRow := {| tb_measurements := []; tb_probes := [] |}.

Definition example_run : list event :=
  [Fetch [example_ping_report; RawBad]; Message (ROk tt); Send; Message (ROk tt); FlushReceive []; FlushTick []].

Definition after (es : list event) : processor :=
  default (start no_tables 0) (run (RP:=ping_processor) es (start no_tables 0)).

Lemma processor_accounts_witness :
  ∃ committed, st_tables (pr_store (after example_run)) = add_rows no_tables (rows_of committed) ∧
    [0%nat] = pe_msg ∘ snd <$> committed.
Proof.
  assert (run (RP:=ping_processor) example_run (start no_tables 0) = Some (after example_run)) as E
    by (vm_compute; reflexivity).
  destruct (processor_accounts no_tables 0 _ _ E) as (_ & _ & _ & cm & H1 & H2 & _).
  exists cm. split; [exact H1|]. rewrite <- H2. vm_compute. reflexivity.
Defined.

Lemma shutdown_terminates_witness :
  (2 + work (after (example_run ++ [Cancel; ConsumerExit; FlusherExit])) ≤ work (after (example_run ++ [Cancel])))%nat.
Proof.
  assert (run (RP:=ping_processor) [ConsumerExit; FlusherExit] (after (example_run ++ [Cancel])) =
    Some (after (example_run ++ [Cancel; ConsumerExit; FlusherExit]))) as E by (vm_compute; reflexivity).
  assert (pr_done (after (example_run ++ [Cancel])) = true) as Hd by (vm_compute; reflexivity).
  exact (proj1 (shutdown_terminates [ConsumerExit; FlusherExit] _ _ Hd E)).
Defined.

Lemma processor_settles_witness :
  ∃ es' s', run (RP:=ping_processor) es' (after [Fetch [example_ping_report]]) = Some s' ∧ idle s' ∧
    settled_id <$> st_settled (pr_store s') ≡ₚ [0%nat].
Proof.
  assert (run (RP:=ping_processor) [Fetch [example_ping_report]] (start no_tables 0) =
    Some (after [Fetch [example_ping_report]])) as E by (vm_compute; reflexivity).
  assert (length (pr_log (after [Fetch [example_ping_report]])) = 1%nat) as El by (vm_compute; reflexivity).
  destruct (processor_settles no_tables 0 _ _ E) as (es' & s' & R & _ & I & P);
    [vm_compute; reflexivity|vm_compute; reflexivity| |].
  - assert (pr_log (after [Fetch [example_ping_report]]) = [example_ping_report]) as -> by (vm_compute; reflexivity).
    constructor; [|constructor]. intros e. vm_compute. discriminate.
  - exists es', s'. split; [exact R|]. split; [exact I|]. rewrite El in P. exact P.
Defined.
