(* ===== verification/ProcessorSpec.v ===== *)
(** * What a processor promises: a ledger of deliveries

    Seen from NATS and the database, a processor of ping or stamp reports is a
    ledger: deliveries are open until they are committed, refused or, at
    shutdown, abandoned.  The goroutines, the channel and the batch are not
    part of it.  [ledger_step] is that specification, and the machine of
    [ProcessorRun] refines it: every turn of a goroutine is one step of the
    ledger or leaves the ledger as it is. *)

From S2P Require Import Prelude Json ArgusTypes ArgusDb PolicyEngineProps Supervisor AgentPipeline Processors ProcessorsProps ProcessorRun Fairness.

Local Open Scope go_scope.

Section Spec.
Context {M P : Type} `{RP : ReportProcessor M P}.

(** ** The specification *)

(** [lg_open] holds the deliveries that nothing was said about yet; [lg_next]
    is the next id the measurements table gives out. *)
Record ledger := {
  lg_log : list raw;
  lg_open : gset nat;
  lg_events : list (string * json);
  lg_acked : list nat;
  lg_refused : list nat;
  lg_tables : tables M P;
  lg_next : nat;
  lg_stopped : bool;
  lg_crashed : bool;
}.

Definition ledger_start (t : tables M P) (next : nat) : ledger :=
  {| lg_log := []; lg_open := ∅; lg_events := []; lg_acked := []; lg_refused := [];
     lg_tables := t; lg_next := next; lg_stopped := false; lg_crashed := false |}.

(** What the processor makes of a delivery when its event can be published. *)
Definition outcome (log : list raw) (id : nat) (r : res (consumed M P)) : Prop :=
  ∃ d, log !! id = Some d ∧ rp_consume d (ROk tt) true = r.

(** The same ledger with other deliveries open, events, settlements and rows. *)
Definition change (open : gset nat) (events : list (string * json)) (acked refused : list nat)
    (t : tables M P) (next : nat) (l : ledger) : ledger :=
  {| lg_log := lg_log l; lg_open := open; lg_events := events; lg_acked := acked; lg_refused := refused;
     lg_tables := t; lg_next := next; lg_stopped := lg_stopped l; lg_crashed := lg_crashed l |}.

(** Open deliveries, each once. *)
Definition takes (ids : list nat) (l : ledger) : Prop := NoDup ids ∧ list_to_set ids ⊆ lg_open l.

(** One step.  [fault] says that the environment failed in it: the publish or a
    statement of the database returned an error. *)
Inductive ledger_step (fault : bool) (l : ledger) : ledger → Prop :=
| Delivers msgs :
    lg_stopped l = false → (length msgs ≤ fetchBatch)%nat →
    ledger_step fault l
      {| lg_log := lg_log l ++ msgs;
         lg_open := lg_open l ∪ set_seq (length (lg_log l)) (length msgs);
         lg_events := lg_events l; lg_acked := lg_acked l; lg_refused := lg_refused l;
         lg_tables := lg_tables l; lg_next := lg_next l; lg_stopped := false; lg_crashed := lg_crashed l |}
| Publishes id pub m ps :
    id ∈ lg_open l → outcome (lg_log l) id (ROk (Queued pub m ps)) →
    ledger_step fault l
      (change (lg_open l) (lg_events l ++ [pub]) (lg_acked l) (lg_refused l) (lg_tables l) (lg_next l) l)
| Commits batch :
    takes (pe_msg <$> batch) l → Forall (built (lg_log l) (lg_events l)) batch →
    ledger_step fault l
      (change (lg_open l ∖ list_to_set (pe_msg <$> batch)) (lg_events l)
         (lg_acked l ++ (pe_msg <$> batch)) (lg_refused l)
         (add_rows (lg_tables l) (batch_rows (lg_next l) batch)) (lg_next l + length batch) l)
| Refuses ids next :
    takes ids l → (lg_next l ≤ next)%nat →
    fault = true ∨ Forall (λ id, outcome (lg_log l) id (ROk Naked)) ids →
    ledger_step fault l
      (change (lg_open l ∖ list_to_set ids) (lg_events l) (lg_acked l) (lg_refused l ++ ids)
         (lg_tables l) next l)
| Stops :
    lg_stopped l = false →
    ledger_step fault l
      {| lg_log := lg_log l; lg_open := lg_open l; lg_events := lg_events l; lg_acked := lg_acked l;
         lg_refused := lg_refused l; lg_tables := lg_tables l; lg_next := lg_next l;
         lg_stopped := true; lg_crashed := lg_crashed l |}
| Abandons ids :
    lg_stopped l = true → takes ids l →
    ledger_step fault l
      (change (lg_open l ∖ list_to_set ids) (lg_events l) (lg_acked l) (lg_refused l)
         (lg_tables l) (lg_next l) l)
| Crashes id d published e :
    id ∈ lg_open l → lg_log l !! id = Some d → rp_consume d published true = RPanic e →
    ledger_step fault l
      {| lg_log := lg_log l; lg_open := lg_open l; lg_events := lg_events l; lg_acked := lg_acked l;
         lg_refused := lg_refused l; lg_tables := lg_tables l; lg_next := lg_next l;
         lg_stopped := lg_stopped l; lg_crashed := true |}.

(** A run: at each turn one step of a ledger that has not crashed, or none. *)
Inductive ledger_run : list bool → ledger → ledger → Prop :=
| ledger_nil l : ledger_run [] l l
| ledger_cons f fs l l' l'' :
    lg_crashed l = false → ledger_step f l l' ∨ l' = l → ledger_run fs l' l'' →
    ledger_run (f :: fs) l l''.

(** ** The ledger of a running processor *)

Definition refused (l : list settled) : list nat :=
  omap (λ x, match x with Nacked n => Some n | Acked _ => None end) l.

(** The deliveries the goroutines have in hand. *)
Definition in_hand (s : processor (M:=M) (P:=P)) : list nat :=
  (consumer_msgs (pr_consumer s)).*1 ++ (pe_msg <$> held s).

Definition ledger_of (s : processor (M:=M) (P:=P)) : ledger :=
  {| lg_log := pr_log s; lg_open := list_to_set (in_hand s); lg_events := pr_published s;
     lg_acked := acked (st_settled (pr_store s)); lg_refused := refused (st_settled (pr_store s));
     lg_tables := st_tables (pr_store s); lg_next := st_next (pr_store s);
     lg_stopped := pr_done s; lg_crashed := bool_decide (is_Some (pr_crashed s)) |}.

(** The turns in which the environment fails. *)
Definition faulty (e : event) : bool :=
  match e with
  | Message (ROk _) => false
  | Message _ => true
  | FlushReceive faults | FlushTick faults => bool_decide (true ∈ faults)
  | _ => false
  end.

(** ** Refinement *)

Lemma refused_app l l' : refused (l ++ l') = refused l ++ refused l'.
Proof. apply omap_app. Qed.

Lemma refused_Acked (l : list (pending M P)) : refused (Acked ∘ pe_msg <$> l) = [].
Proof. by induction l. Qed.

Lemma refused_Nacked (l : list (pending M P)) : refused (Nacked ∘ pe_msg <$> l) = pe_msg <$> l.
Proof. induction l as [|p l IH]; [done|]. unfold refused in *. csimpl. by f_equal. Qed.

Lemma in_hand_once t0 n0 s : processor_ok t0 n0 s → NoDup (in_hand s).
Proof.
  intros Hok. pose proof (NoDup_seq 0 (length (pr_log s))) as H. rewrite (ok_once _ _ _ Hok), app_assoc in H.
  by apply NoDup_app in H as (H & _ & _).
Qed.

(** Deliveries that leave the goroutines' hands are open, and closed after. *)
Lemma hands_over t0 n0 s s' ids :
  processor_ok t0 n0 s → in_hand s ≡ₚ ids ++ in_hand s' →
  takes ids (ledger_of s) ∧
  list_to_set (C:=gset nat) (in_hand s') = list_to_set (in_hand s) ∖ list_to_set ids.
Proof.
  intros Hok Hp. pose proof (in_hand_once _ _ _ Hok) as Hnd. rewrite Hp in Hnd.
  apply NoDup_app in Hnd as (H1 & H2 & _). unfold takes. simpl. rewrite Hp, list_to_set_app_L.
  split; [split; [done|set_solver]|]. apply leibniz_equiv. set_solver.
Qed.

Lemma same_hands s s' :
  in_hand s' ≡ₚ in_hand s → list_to_set (C:=gset nat) (in_hand s') = list_to_set (in_hand s).
Proof. intros H. apply leibniz_equiv. by rewrite H. Qed.

Lemma ledger_eq l l' :
  lg_log l = lg_log l' → lg_open l = lg_open l' → lg_events l = lg_events l' → lg_acked l = lg_acked l' →
  lg_refused l = lg_refused l' → lg_tables l = lg_tables l' → lg_next l = lg_next l' →
  lg_stopped l = lg_stopped l' → lg_crashed l = lg_crashed l' → l = l'.
Proof. destruct l, l'. simpl. by intros -> -> -> -> -> -> -> -> ->. Qed.

(** [simulates f s s']: a turn from [s] to [s'] is a step of the ledger or none. *)
Definition simulates (f : bool) (s s' : processor) : Prop :=
  ledger_step f (ledger_of s) (ledger_of s') ∨ ledger_of s' = ledger_of s.

(** A step of the ledger, up to the fields of the ledger it leads to. *)
Lemma by_step f l l' s' : ledger_step f l l' → ledger_of s' = l' → ledger_step f l (ledger_of s').
Proof. by intros H ->. Qed.

(** Turns that move rows between the goroutines' hands are not seen. *)
Lemma unseen f s s' :
  pr_log s' = pr_log s → pr_published s' = pr_published s → pr_store s' = pr_store s →
  pr_done s' = pr_done s → pr_crashed s' = pr_crashed s → in_hand s' ≡ₚ in_hand s → simulates f s s'.
Proof. intros H1 H2 H3 H4 H5 H6. right. apply ledger_eq; simpl; try congruence; [by apply same_hands|by rewrite H5]. Qed.

Lemma fetch_simulates f msgs s :
  pr_done s = false → (length msgs ≤ fetchBatch)%nat → pr_consumer s = Handling [] →
  simulates f s (fetch msgs s).
Proof.
  intros Hd Hm Hc. left. eapply by_step; [by apply (Delivers f (ledger_of s) msgs)|].
  apply ledger_eq; simpl; try done. unfold in_hand, held. simpl. rewrite Hc, fetched_ids. simpl.
  apply leibniz_equiv. intros i.
  rewrite elem_of_list_to_set, elem_of_app, elem_of_union, elem_of_list_to_set, elem_of_set_seq, elem_of_seq. tauto.
Qed.

(** The delivery the consumer is at is open, and its data is in the log. *)
Lemma at_delivery t0 n0 id d rest s :
  pr_consumer s = Handling ((id, d) :: rest) → processor_ok t0 n0 s →
  id ∈ lg_open (ledger_of s) ∧ pr_log s !! id = Some d.
Proof.
  intros Hc Hok. pose proof (ok_data _ _ _ Hok) as H. rewrite Hc in H.
  split; [|by apply Forall_cons in H as [? _]]. simpl. unfold in_hand. rewrite Hc. simpl. set_solver.
Qed.

Lemma handle_simulates t0 n0 id d rest published s s' :
  pr_consumer s = Handling ((id, d) :: rest) → handle id d rest published s = Some s' →
  processor_ok t0 n0 s → simulates (faulty (Message published)) s s'.
Proof.
  intros Hc Hh Hok. destruct (at_delivery _ _ _ _ _ _ Hc Hok) as [Hin Hd]. left. unfold handle in Hh.
  destruct (rp_consume d published true) as [[|pub|pub m ps]|e|e] eqn:E; simplify_eq/=.
  - edestruct (hands_over t0 n0 s (set_consumer (Handling rest) (set_flusher (pr_pending s) (pr_batch s)
      (nak id (pr_store s)) s)) [id] Hok) as [Ht Ho].
    { unfold in_hand, held. rewrite Hc. simpl. done. }
    eapply by_step; [apply (Refuses _ _ [id] (st_next (pr_store s))); [exact Ht|done|]|].
    + destruct published as [[]|?|?]; [right|by left..]. constructor; [|done]. by exists d.
    + apply ledger_eq; simpl; try done; [by rewrite acked_app, app_nil_r|by rewrite refused_app].
  - pose proof (rp_published _ _ _ _ _ _ E) as ->.
    eapply by_step; [apply (Publishes _ _ id pub m ps); [exact Hin|by exists d]|].
    apply ledger_eq; simpl; try done. apply same_hands. unfold in_hand, held. rewrite Hc. simpl.
    by rewrite <- Permutation_middle.
  - eapply by_step; [by apply (Crashes _ _ id d published e)|].
    by apply ledger_eq.
Qed.

Lemma flusher_turn_simulates t0 n0 q batch now faults s :
  pr_pending s ++ default [] (pr_batch s) ≡ₚ q ++ batch →
  processor_ok t0 n0 s → simulates (bool_decide (true ∈ faults)) s (flusher_turn q batch now faults s).
Proof.
  intros Hp Hok.
  assert (held s ≡ₚ sending (pr_consumer s) ++ q ++ batch) as Hh by (unfold held; by rewrite Hp).
  unfold flusher_turn. destruct (now || Nat.leb flushSize (length batch)).
  2:{ apply unseen; try done. unfold in_hand. rewrite Hh. unfold held. simpl. done. }
  assert (∀ st, in_hand s ≡ₚ (pe_msg <$> batch) ++ in_hand (set_flusher q (Some []) st s)) as Hi.
  { intros st. unfold in_hand at 1. rewrite Hh. unfold in_hand, held. simpl. perm. }
  pose proof (flush_spec batch (with_faults faults (pr_store s))) as Hf.
  pose proof (flush_next batch (with_faults faults (pr_store s))) as Hn.
  destruct (flush batch (with_faults faults (pr_store s))) as [st r]. simpl in *.
  destruct (hands_over t0 n0 s _ _ Hok (Hi st)) as [Ht Ho]. left.
  destruct Hf as [_ [(E1 & E2 & E3)|(E1 & E2 & E3)]].
  - eapply by_step; [apply (Commits _ _ batch); [exact Ht|]|].
    + pose proof (ok_built _ _ _ Hok) as Hb. rewrite Hh, !Forall_app in Hb. simpl. tauto.
    + apply ledger_eq; simpl; try done; rewrite E3;
        [by rewrite acked_app, acked_Acked|by rewrite refused_app, refused_Acked, app_nil_r].
  - eapply by_step; [apply (Refuses _ _ (pe_msg <$> batch) (st_next st)); [exact Ht|done|]|].
    + left. by apply bool_decide_eq_true.
    + apply ledger_eq; simpl; try done; rewrite E3;
        [by rewrite acked_app, acked_Nacked, app_nil_r|by rewrite refused_app, refused_Nacked].
Qed.

(** A goroutine that returns at shutdown abandons what it has in hand. *)
Lemma leave_simulates t0 n0 f ids s s' :
  pr_done s = true → in_hand s ≡ₚ ids ++ in_hand s' →
  pr_log s' = pr_log s → pr_published s' = pr_published s → pr_store s' = pr_store s →
  pr_done s' = pr_done s → pr_crashed s' = pr_crashed s →
  processor_ok t0 n0 s → simulates f s (leave ids s').
Proof.
  intros Hd Hp H1 H2 H3 H4 H5 Hok. destruct (hands_over _ _ _ _ _ Hok Hp) as [Ht Ho]. left.
  eapply by_step; [by apply (Abandons f (ledger_of s) ids)|].
  apply ledger_eq; simpl; try congruence; try done. by rewrite H5.
Qed.

Lemma step_simulates t0 n0 e s s' :
  step e s = Some s' → processor_ok t0 n0 s → simulates (faulty e) s s'.
Proof.
  intros Hs Hok. unfold step in Hs. destruct (pr_crashed s) as [?|] eqn:Ecr; [done|].
  destruct e as [|msgs| | |published| | |faults|faults|].
  - destruct (pr_done s) eqn:Ed; [done|]. simplify_eq/=. left.
    eapply by_step; [by apply Stops|]. apply ledger_eq; simpl; try done. by rewrite Ecr.
  - destruct (pr_consumer s) as [[|??]|p rest|] eqn:Ec; try done.
    destruct (pr_done s) eqn:Ed; [done|]. destruct (Nat.ltb_spec fetchBatch (length msgs)); [done|].
    simplify_eq/=. by apply fetch_simulates.
  - destruct (pr_consumer s) as [[|??]|p rest|] eqn:Ec; try done.
    destruct (pr_done s); [done|]. simplify_eq/=. by right.
  - destruct (pr_consumer s) as [[|??]|p rest|] eqn:Ec; try done.
    destruct (pr_done s); [|done]. simplify_eq/=. apply unseen; try done. unfold in_hand, held. by rewrite Ec.
  - destruct (pr_consumer s) as [[|[id d] rest]|p rest|] eqn:Ec; try done. by eapply handle_simulates.
  - destruct (pr_consumer s) as [l|p rest|] eqn:Ec; try done.
    destruct (_ <? _)%nat; [|done]. simplify_eq/=. apply unseen; try done.
    unfold in_hand, held. rewrite Ec. simpl. perm.
  - destruct (pr_consumer s) as [l|p rest|] eqn:Ec; try done.
    destruct (pr_done s) eqn:Ed; [|done]. simplify_eq/=. eapply leave_simulates; try done.
    unfold in_hand, held. rewrite Ec. simpl. perm.
  - destruct (pr_batch s) as [batch|] eqn:Eb; [|by destruct (pr_consumer s) as [[|[]]| |]].
    destruct (pr_pending s) as [|p q] eqn:Eq; [by destruct (pr_consumer s) as [[|[]]| |]|].
    assert (flusher_turn q (batch ++ [p]) false faults s = s') as <-
      by (destruct (pr_consumer s) as [[|[]]| |]; by simplify_eq).
    eapply flusher_turn_simulates; [|done]. rewrite Eq, Eb. simpl. solve_Permutation.
  - destruct (pr_batch s) as [batch|] eqn:Eb; [|by destruct (pr_consumer s) as [[|[]]| |]].
    assert (flusher_turn (pr_pending s) batch true faults s = s') as <-
      by (destruct (pr_consumer s) as [[|[]]| |]; by simplify_eq).
    eapply flusher_turn_simulates; [|done]. by rewrite Eb.
  - destruct (pr_batch s) as [batch|] eqn:Eb; [|by destruct (pr_consumer s) as [[|[]]| |]].
    destruct (pr_done s) eqn:Ed; [|by destruct (pr_consumer s) as [[|[]]| |]].
    assert (leave (pe_msg <$> batch) (set_flusher (pr_pending s) None (pr_store s) s) = s') as <-
      by (destruct (pr_consumer s) as [[|[]]| |]; by simplify_eq).
    eapply leave_simulates; try done. unfold in_hand, held. rewrite Eb. simpl. perm.
Qed.

(** ** What the ledger guarantees *)

(** Every delivery is open, or was given exactly one answer. *)
Definition ledger_ok (l : ledger) : Prop :=
  NoDup (lg_acked l ++ lg_refused l) ∧
  (∀ id, id ∈ lg_acked l ++ lg_refused l → id ∉ lg_open l ∧ (id < length (lg_log l))%nat) ∧
  (∀ id, id ∈ lg_open l → (id < length (lg_log l))%nat).

Lemma ledger_ok_settles l events acked refused t next ids :
  acked ++ refused ≡ₚ (lg_acked l ++ lg_refused l) ++ ids → takes ids l → ledger_ok l →
  ledger_ok (change (lg_open l ∖ list_to_set ids) events acked refused t next l).
Proof.
  intros Hp [Ht1 Ht2] (H1 & H2 & H3). unfold ledger_ok. simpl. rewrite Hp. split; [|split].
  - apply NoDup_app. split; [done|]. split; [|done]. intros id Hid Hin. destruct (H2 id Hid) as [H _]. set_solver.
  - intros id. rewrite Hp, elem_of_app. intros [Hid|Hid]; [destruct (H2 id Hid); set_solver|].
    split; [set_solver|]. apply H3. set_solver.
  - intros id Hid. apply H3. set_solver.
Qed.

Lemma ledger_step_ok f l l' : ledger_step f l l' → ledger_ok l → ledger_ok l'.
Proof.
  intros Hs Hok. pose proof Hok as (H1 & H2 & H3). destruct Hs; try done.
  - split; [done|]. simpl. rewrite length_app. split.
    + intros id Hid. destruct (H2 id Hid). split; [|lia]. rewrite elem_of_union, elem_of_set_seq. naive_solver lia.
    + intros id. rewrite elem_of_union, elem_of_set_seq. intros [Hid%H3|Hid]; lia.
  - apply ledger_ok_settles; [solve_Permutation|done..].
  - apply ledger_ok_settles; [solve_Permutation|done..].
  - split; [done|]. split; intros id Hid; simpl in *.
    + destruct (H2 id Hid). split; [set_solver|done].
    + apply H3. set_solver.
Qed.

Lemma ledger_run_ok fs l l' : ledger_run fs l l' → ledger_ok l → ledger_ok l'.
Proof.
  induction 1 as [|f fs l l1 l2 _ [Hs| ->] _ IH]; [done| |done]. intros Hok. by eapply IH, ledger_step_ok.
Qed.

(** *** Why a delivery was refused *)

Lemma outcome_mono log log' id r : log `prefix_of` log' → outcome log id r → outcome log' id r.
Proof. intros Hl (d & Hd & Hr). exists d. split; [by eapply prefix_lookup_Some|done]. Qed.

Lemma ledger_log_grows f l l' : ledger_step f l l' → lg_log l `prefix_of` lg_log l'.
Proof. destruct 1; simpl; [by apply prefix_app_r|done..]. Qed.

Lemma ledger_refuses f l l' id :
  ledger_step f l l' → id ∈ lg_refused l' →
  id ∈ lg_refused l ∨ f = true ∨ outcome (lg_log l) id (ROk Naked).
Proof.
  destruct 1 as [| | |ids next _ _ Hwhy| | |]; simpl; try (by left). intros [?|Hin]%elem_of_app; [by left|right].
  destruct Hwhy as [->|Hall]; [by left|right]. by apply (proj1 (Forall_forall _ _) Hall).
Qed.

(** On a run of the processor, a refused delivery cannot be read, or the
    environment failed before. *)
Lemma refused_cause t0 n0 (x : execution (step (RP:=RP))) m id :
  ex_state _ x 0 = start t0 n0 → id ∈ lg_refused (ledger_of (ex_state _ x m)) →
  outcome (pr_log (ex_state _ x m)) id (ROk Naked) ∨
  ∃ m' e, (m' < m)%nat ∧ ex_event _ x m' = Some e ∧ faulty e = true.
Proof.
  intros H0. assert (∀ m, processor_ok t0 n0 (ex_state _ x m)) as Hok.
  { apply execution_inv; [intros e s s'; apply step_ok|]. rewrite H0. apply processor_start_ok. }
  assert (∀ m, (outcome (pr_log (ex_state _ x m)) id (ROk Naked) ∨
      ∃ m' e, (m' < m)%nat ∧ ex_event _ x m' = Some e ∧ faulty e = true) →
    lg_log (ledger_of (ex_state _ x m)) `prefix_of` lg_log (ledger_of (ex_state _ x (S m))) →
    outcome (pr_log (ex_state _ x (S m))) id (ROk Naked) ∨
    ∃ m' e, (m' < S m)%nat ∧ ex_event _ x m' = Some e ∧ faulty e = true) as Hkeep.
  { intros k [Ho|(m' & e & Hm & ?)] Hl; [left; by eapply outcome_mono|right]. exists m', e. split; [lia|done]. }
  induction m as [|m IH]; [rewrite H0; by intros ?%elem_of_nil|]. intros Hin.
  pose proof (ex_step _ x m) as Hx. destruct (ex_event _ x m) as [e|] eqn:Ee.
  2:{ rewrite Hx in Hin. apply Hkeep; [by apply IH|by rewrite Hx]. }
  destruct (step_simulates _ _ _ _ _ Hx (Hok m)) as [Hs|Hs].
  2:{ rewrite Hs in Hin. apply Hkeep; [by apply IH|by rewrite Hs]. }
  pose proof (ledger_log_grows _ _ _ Hs) as Hl.
  destruct (ledger_refuses _ _ _ _ Hs Hin) as [?|[Hf|Ho]]; [apply Hkeep; [by apply IH|done]| |].
  - right. exists m, e. split; [lia|done].
  - apply Hkeep; [by left|done].
Qed.

(** ** Theorems *)

(** C9. A processor refines the ledger: the ledger of every state it reaches comes
    of a run of the specification from the empty ledger, with one step or none
    for each turn of a goroutine, marked as a fault exactly when the environment
    failed in that turn.  The rows of a batch appear in one step with the
    acknowledgement of its deliveries and after their events; a delivery is
    refused only when it cannot be read or the environment failed; deliveries
    are abandoned only after the shutdown began; and on every ledger so reached
    no delivery has two answers, nor one while it is still open. *)
Theorem processor_refines t0 n0 es s :
  run es (start t0 n0) = Some s →
  ledger_run (faulty <$> es) (ledger_start t0 n0) (ledger_of s) ∧ ledger_ok (ledger_of s).
Proof.
  intros Hr. enough (ledger_run (faulty <$> es) (ledger_start t0 n0) (ledger_of s)) as H.
  { split; [done|]. eapply ledger_run_ok; [exact H|]. split; [constructor|]. set_solver. }
  change (ledger_start t0 n0) with (ledger_of (start t0 n0)).
  generalize (processor_start_ok t0 n0). revert Hr. generalize (start t0 n0). intros s0. revert s0.
  induction es as [|e es IH]; intros s0; simpl; [intros [= <-]; constructor|].
  intros (s1 & Hs & Hr)%bind_Some Hok. econstructor; [|by eapply step_simulates|].
  - simpl. apply bool_decide_eq_false. unfold step in Hs. destruct (pr_crashed s0); [done|by intros []].
  - eapply IH; [done|]. by eapply step_ok.
Qed.

End Spec.

(** ** Witness: a report and a broken message, on a failing and a healthy database *)

#[local] Existing Instance BinaryUuid.

Definition example_faults : list event :=
  [Fetch [example_ping_report; RawBad; example_ping_report]; Message (ROk tt); Send; Message (ROk tt);
   FlushReceive []; FlushTick [false; true]; Message (ROk tt); Send; FlushReceive []; FlushTick []; Cancel].

Lemma processor_refines_witness :
  ledger_run (RP:=ping_processor) [false; false; false; false; false; true; false; false; false; false; false]
    (ledger_start no_tables 0) (ledger_of (after example_faults)) ∧
  lg_acked (ledger_of (after example_faults)) = [2%nat] ∧
  lg_refused (ledger_of (after example_faults)) = [1%nat; 0%nat].
Proof.
  assert (run (RP:=ping_processor) example_faults (start no_tables 0) = Some (after example_faults)) as E
    by (vm_compute; reflexivity).
  split; [exact (proj1 (processor_refines no_tables 0 _ _ E))|]. vm_compute. split; reflexivity.
Defined.
