(* ===== verification/ProcessorLive.v ===== *)
(** * Fair processors settle what they are handed

    [ProcessorRun] shows what a processor can do; here a fair scheduler makes it
    happen.  Fairness is asked of four classes of turns: handling the next
    message, sending a row to the channel when there is room, receiving one from
    it, and the flusher's tick.  On every such run of a processor that is not
    cancelled and does not crash, every delivered report is settled, however
    many more are fetched meanwhile and whatever statements fail; and a
    cancelled processor stops. *)

From S2P Require Import Prelude Float64 Float64Round GoTime Json ArgusTypes ArgusDb ArgusWorker.
From S2P Require Import PolicyEngineProps Reports Supervisor AgentPipeline Processors ProcessorsProps ProcessorRun Fairness.

Section Live.
Context {M P : Type} `{RP : ReportProcessor M P}.
Abbreviation processor := (processor (M:=M) (P:=P)).

Definition is_message (e : event) : bool := match e with Message _ => true | _ => false end.
Definition is_send (e : event) : bool := match e with Send => true | _ => false end.
Definition is_receive (e : event) : bool := match e with FlushReceive _ => true | _ => false end.

(** ** Where a delivery is *)

Definition settled_delivery (k : nat) (s : processor) : Prop :=
  k ∈ (settled_id <$> st_settled (pr_store s)).

Definition full (s : processor) : nat := if Nat.ltb (length (pr_pending s)) pendingBuffer then 0 else 1.

(** The number bounds the turns until delivery [k] is settled: four for each
    message the consumer handles before it, one for a full channel, one for each
    row before it in the channel. *)
Inductive located (k : nat) (s : processor) : nat → Prop :=
| loc_waiting l i d : pr_consumer s = Handling l → l !! i = Some (k, d) → located k s (1000 + 4 * (i + 1))
| loc_behind p rest i d : pr_consumer s = Sending p rest → rest !! i = Some (k, d) →
    located k s (1000 + 4 * (i + 1) + 2 + full s)
| loc_sending p rest : pr_consumer s = Sending p rest → pe_msg p = k → located k s (1002 + full s)
| loc_queued j p : pr_pending s !! j = Some p → pe_msg p = k → located k s (1 + j)
| loc_batch p batch : pr_batch s = Some batch → p ∈ batch → pe_msg p = k → located k s 0.

(** The turns that bring a delivery of this rank closer. *)
Definition helpful (r : nat) : event → bool :=
  if Nat.eqb r 0 then is_tick
  else if Nat.ltb r 1000 then is_receive
  else match r mod 4 with 0 => is_message | 2 => is_send | _ => is_receive end.

Definition live (s : processor) : Prop := pr_done s = false ∧ pr_crashed s = None.

Lemma helpful_waiting i : helpful (1000 + 4 * (i + 1)) = is_message.
Proof.
  unfold helpful. destruct (Nat.eqb_spec (1000 + 4 * (i + 1)) 0); [lia|].
  destruct (Nat.ltb_spec (1000 + 4 * (i + 1)) 1000); [lia|].
  replace (1000 + 4 * (i + 1)) with (0 + (250 + (i + 1)) * 4) by lia. by rewrite Nat.Div0.mod_add.
Qed.

Lemma helpful_sending n s : helpful (1000 + 4 * n + 2 + full s) = if Nat.eqb (full s) 0 then is_send else is_receive.
Proof.
  unfold helpful. destruct (Nat.eqb_spec (1000 + 4 * n + 2 + full s) 0); [lia|].
  destruct (Nat.ltb_spec (1000 + 4 * n + 2 + full s) 1000); [lia|].
  replace (1000 + 4 * n + 2 + full s) with ((2 + full s) + (250 + n) * 4) by lia.
  rewrite Nat.Div0.mod_add. unfold full. by destruct (Nat.ltb _ _).
Qed.

Lemma helpful_sending0 s : helpful (1002 + full s) = if Nat.eqb (full s) 0 then is_send else is_receive.
Proof. exact (helpful_sending 0 s). Qed.

Lemma helpful_queued j : j < 999 → helpful (1 + j) = is_receive.
Proof.
  intros Hj. unfold helpful. destruct (Nat.eqb_spec (1 + j) 0); [lia|]. by destruct (Nat.ltb_spec (1 + j) 1000); [|lia].
Qed.

(** Every delivery of a live processor is settled or somewhere on its way. *)
Lemma delivery_located t0 n0 s k :
  processor_ok t0 n0 s → live s → k < length (pr_log s) → settled_delivery k s ∨ ∃ r, located k s r.
Proof.
  intros Hok [Hd _] Hk. destruct (ok_left _ _ _ Hok Hd) as (Hl & Hr & Hb).
  assert (k ∈ seq 0 (length (pr_log s))) as Hin by (apply elem_of_seq; lia).
  rewrite (ok_once _ _ _ Hok), Hl in Hin. unfold held in Hin. rewrite !fmap_app in Hin.
  repeat (apply elem_of_app in Hin as [Hin|Hin]).
  - right. apply list_elem_of_fmap in Hin as ([k' d] & -> & Hin). apply list_elem_of_lookup in Hin as (i & Hi).
    destruct (pr_consumer s) as [l|p rest|] eqn:Ec; simpl in Hi; [| |done].
    + eexists. by eapply loc_waiting.
    + eexists. by eapply loc_behind.
  - right. destruct (pr_consumer s) as [l|p rest|] eqn:Ec; simpl in Hin; try (by apply not_elem_of_nil in Hin).
    apply list_elem_of_singleton in Hin as ->. eexists. by eapply loc_sending.
  - right. apply list_elem_of_fmap in Hin as (p & -> & Hin). apply list_elem_of_lookup in Hin as (j & Hj).
    eexists. by eapply loc_queued.
  - right. apply list_elem_of_fmap in Hin as (p & -> & Hin). destruct (pr_batch s) as [batch|] eqn:Eb; [|done].
    exists 0. by eapply loc_batch.
  - by apply not_elem_of_nil in Hin.
  - by left.
Qed.

(** ** Turns of the flusher *)

Lemma flush_settles (batch : list (pending M P)) st :
  settled_id <$> st_settled (fst (flush batch st)) = (settled_id <$> st_settled st) ++ (pe_msg <$> batch).
Proof.
  pose proof (flush_spec batch st) as Hf. destruct (flush batch st) as [st' r]. simpl.
  destruct Hf as [_ [(_ & _ & ->)|(_ & _ & ->)]]; by rewrite fmap_app, <- list_fmap_compose.
Qed.

Lemma flusher_turn_cases q batch now faults (s : processor) :
  let s' := flusher_turn q batch now faults s in
  (∀ k, settled_delivery k s → settled_delivery k s') ∧
  ((pr_batch s' = Some [] ∧ ∀ p, p ∈ batch → settled_delivery (pe_msg p) s') ∨
   (now = false ∧ pr_batch s' = Some batch)).
Proof.
  unfold flusher_turn, settled_delivery. destruct (now || _) eqn:E; simpl.
  - rewrite flush_settles. simpl. split; [intros k Hk; apply elem_of_app; by left|]. left. split; [done|].
    intros p Hp. apply elem_of_app. right. apply list_elem_of_fmap. eauto.
  - split; [done|]. right. by destruct now.
Qed.
(** Closer, and strictly so by a helpful turn. *)
Definition closer (e : event) (k r : nat) (s' : processor) : Prop :=
  settled_delivery k s' ∨ ∃ r', located k s' r' ∧ r' ≤ r ∧ (helpful r e = true → r' < r).

(** A turn that moves nothing brings nothing closer, unless it frees the channel. *)
Lemma closer_same e k r r' s' : located k s' r' → r' ≤ r → (r' = r → helpful r e = false) → closer e k r s'.
Proof.
  intros Hl Hle Heq. right. exists r'. split; [done|]. split; [done|]. intros Hh.
  destruct (decide (r' = r)) as [->|]; [|lia]. by rewrite Heq in Hh.
Qed.

Lemma full_receive (s s' : processor) p q :
  pr_pending s = p :: q → pr_pending s' = q → length (pr_pending s) ≤ pendingBuffer → full s' = 0.
Proof.
  intros Hp Hq Hb. unfold full. rewrite Hq. rewrite Hp in Hb. simpl in Hb.
  destruct (Nat.ltb_spec (length q) pendingBuffer); [done|lia].
Qed.

Lemma receive_closer k s r p q batch faults :
  pr_pending s = p :: q → pr_batch s = Some batch → length (pr_pending s) ≤ pendingBuffer → located k s r →
  closer (FlushReceive faults) k r (flusher_turn q (batch ++ [p]) false faults s).
Proof.
  intros Hp Hb Hlen Hl. set (s' := flusher_turn _ _ _ _ _).
  destruct (flusher_turn_keeps q (batch ++ [p]) false faults s) as (_ & _ & Hc & Hq & _). fold s' in Hc, Hq.
  destruct (flusher_turn_cases q (batch ++ [p]) false faults s) as [_ Hcase]. fold s' in Hcase.
  pose proof (full_receive s s' p q Hp Hq Hlen) as Hf.
  assert (∀ x, x ∈ batch ++ [p] → settled_delivery (pe_msg x) s' ∨ located (pe_msg x) s' 0) as Hbatch.
  { intros x Hx. destruct Hcase as [[_ Hall]|[_ Hsame]]; [left; by apply Hall|right]. by eapply loc_batch. }
  destruct Hl as [l i d Ec Hi|x rest i d Ec Hi|x rest Ec Hx|j x Hj Hx|x b Eb Hx Hk].
  - eapply closer_same; [eapply loc_waiting; [by rewrite Hc|done]|done|]. by rewrite helpful_waiting.
  - eapply closer_same; [eapply loc_behind; [by rewrite Hc|done]|rewrite Hf; lia|].
    rewrite helpful_sending, Hf. intros Heq. assert (full s = 0) as -> by lia. done.
  - eapply closer_same; [eapply loc_sending; [by rewrite Hc|done]|rewrite Hf; lia|].
    rewrite Hf. intros Heq. assert (full s = 0) as Hs by lia. rewrite helpful_sending0, Hs. done.
  - rewrite Hp in Hj. destruct j as [|j]; simpl in Hj.
    + simplify_eq. destruct (Hbatch x) as [?|Hl]; [set_solver|by left|]. right. exists 0. split; [done|]. lia.
    + right. exists (1 + j). split; [eapply loc_queued; [by rewrite Hq|done]|]. lia.
  - simplify_eq. destruct (Hbatch x) as [?|Hl]; [set_solver|by left|]. by eapply closer_same.
Qed.

Lemma tick_closer k s r batch faults :
  pr_batch s = Some batch → length (pr_pending s) ≤ pendingBuffer → located k s r →
  closer (FlushTick faults) k r (flusher_turn (pr_pending s) batch true faults s).
Proof.
  intros Hb Hlen Hl. set (s' := flusher_turn _ _ _ _ _).
  destruct (flusher_turn_keeps (pr_pending s) batch true faults s) as (_ & _ & Hc & Hq & _). fold s' in Hc, Hq.
  destruct (flusher_turn_cases (pr_pending s) batch true faults s) as [_ [[_ Hall]|[? _]]]; [|done].
  assert (full s' = full s) as Hf by (unfold full; by rewrite Hq).
  destruct Hl as [l i d Ec Hi|x rest i d Ec Hi|x rest Ec Hx|j x Hj Hx|x b Eb Hx Hk].
  - eapply closer_same; [eapply loc_waiting; [by rewrite Hc|done]|done|]. by rewrite helpful_waiting.
  - rewrite <- Hf. eapply closer_same; [eapply loc_behind; [by rewrite Hc|done]|done|].
    rewrite helpful_sending. by destruct (Nat.eqb _ _).
  - rewrite <- Hf. eapply closer_same; [eapply loc_sending; [by rewrite Hc|done]|done|].
    intros _. rewrite helpful_sending0. by destruct (Nat.eqb _ _).
  - eapply closer_same; [eapply loc_queued; [by rewrite Hq|done]|done|].
    apply lookup_lt_Some in Hj. unfold pendingBuffer in Hlen. rewrite helpful_queued by lia. done.
  - simplify_eq. left. by apply Hall.
Qed.

(** ** Turns of the consumer *)

(** What the consumer does not touch stays where it is. *)
Lemma untouched e k s s' r :
  pr_batch s' = pr_batch s → pr_pending s `prefix_of` pr_pending s' → length (pr_pending s) ≤ pendingBuffer →
  is_receive e = false → is_tick e = false →
  (∃ j p, r = 1 + j ∧ pr_pending s !! j = Some p ∧ pe_msg p = k) ∨
  (∃ p batch, r = 0 ∧ pr_batch s = Some batch ∧ p ∈ batch ∧ pe_msg p = k) → closer e k r s'.
Proof.
  intros Hb Hp Hlen Hr Ht [(j & p & -> & Hj & Hk)|(p & batch & -> & Eb & Hin & Hk)].
  - eapply closer_same; [eapply loc_queued; [by eapply prefix_lookup_Some|done]|done|].
    apply lookup_lt_Some in Hj. unfold pendingBuffer in Hlen. by rewrite helpful_queued by lia.
  - eapply closer_same; [eapply loc_batch; [by rewrite Hb|done..]|done|]. done.
Qed.

Lemma message_closer k s r id d rest r0 s' :
  pr_consumer s = Handling ((id, d) :: rest) → handle id d rest r0 s = Some s' → pr_crashed s' = None →
  length (pr_pending s) ≤ pendingBuffer → located k s r → closer (Message r0) k r s'.
Proof.
  intros Ec Hh Hcr Hlen Hl. unfold handle in Hh.
  assert (full s ≤ 1) as Hf by (unfold full; destruct (Nat.ltb _ _); lia).
  destruct (rp_consume d r0 true) as [[|pub|pub m ps]|e|e] eqn:E; simplify_eq/=.
  - destruct Hl as [l i d' Ec' Hi|x rest' i d' Ec' Hi|x rest' Ec' Hx|j x Hj Hx|x b Eb Hx Hk]; try congruence.
    + rewrite Ec in Ec'. simplify_eq. destruct i as [|i]; simplify_eq/=.
      * left. unfold settled_delivery. simpl. rewrite fmap_app. set_solver.
      * right. exists (1000 + 4 * (i + 1)). split; [by eapply loc_waiting|]. lia.
    + eapply (untouched _ k s); [done|done|done|done|done|left; eauto].
    + eapply (untouched _ k s); [done|done|done|done|done|right; eauto 10].
  - set (s' := Build_processor _ _ _ _ _ _ _ _ _). assert (full s' = full s) as Hf' by done.
    destruct Hl as [l i d' Ec' Hi|x rest' i d' Ec' Hi|x rest' Ec' Hx|j x Hj Hx|x b Eb Hx Hk]; try congruence.
    + rewrite Ec in Ec'. simplify_eq. destruct i as [|i]; simplify_eq/=.
      * right. exists (1002 + full s'). split; [by eapply loc_sending|]. lia.
      * right. exists (1000 + 4 * (i + 1) + 2 + full s'). split; [by eapply loc_behind|]. lia.
    + eapply (untouched _ k s); [done|done|done|done|done|left; eauto].
    + eapply (untouched _ k s); [done|done|done|done|done|right; eauto 10].
Qed.

Lemma send_closer k s r p rest :
  pr_consumer s = Sending p rest → length (pr_pending s) < pendingBuffer → located k s r →
  closer Send k r (set_consumer (Handling rest) (set_flusher (pr_pending s ++ [p]) (pr_batch s) (pr_store s) s)).
Proof.
  intros Ec Hlen Hl. set (s' := set_consumer _ _).
  destruct Hl as [l i d' Ec' Hi|x rest' i d' Ec' Hi|x rest' Ec' Hx|j x Hj Hx|x b Eb Hx Hk]; try congruence.
  - rewrite Ec in Ec'. simplify_eq. right. exists (1000 + 4 * (i + 1)). split; [by eapply loc_waiting|]. lia.
  - rewrite Ec in Ec'. simplify_eq. right. exists (1 + length (pr_pending s)). unfold pendingBuffer in Hlen. split; [|lia].
    eapply loc_queued; [|done]. simpl. by rewrite list_lookup_middle.
  - eapply (untouched _ k s); [done|simpl; by apply prefix_app_r|lia|done|done|left; eauto].
  - eapply (untouched _ k s); [done|simpl; by apply prefix_app_r|lia|done|done|right; eauto 10].
Qed.

Lemma step_closer t0 n0 e k s s' r :
  processor_ok t0 n0 s → step e s = Some s' → live s' → located k s r → closer e k r s'.
Proof.
  intros Hok Hs [Hd' Hcr'] Hl. destruct (ok_room _ _ _ Hok) as [Hlen _].
  unfold step in Hs. destruct (pr_crashed s) as [?|] eqn:Ecr; [done|].
  destruct e as [|msgs| | |published| | |faults|faults|].
  - destruct (pr_done s); by simplify_eq/=.
  - destruct (pr_consumer s) as [[|??]|p rest|] eqn:Ec; try done. destruct (pr_done s || _); simplify_eq/=.
    destruct Hl as [l i d Ec' Hi|x rest' i d Ec' Hi|x rest' Ec' Hx|j x Hj Hx|x b Eb Hx Hk]; try congruence.
    + rewrite Ec in Ec'. by simplify_eq.
    + eapply (untouched _ k s); [done|done|done|done|done|left; eauto].
    + eapply (untouched _ k s); [done|done|done|done|done|right; eauto 10].
  - destruct (pr_consumer s) as [[|??]|p rest|] eqn:Ec; try done. destruct (pr_done s); simplify_eq/=.
    destruct Hl as [l i d Ec' Hi|x rest' i d Ec' Hi|x rest' Ec' Hx|j x Hj Hx|x b Eb Hx Hk]; try congruence.
    + rewrite Ec in Ec'. by simplify_eq.
    + eapply (untouched _ k s'); [done|done|done|done|done|left; eauto].
    + eapply (untouched _ k s'); [done|done|done|done|done|right; eauto 10].
  - destruct (pr_consumer s) as [[|??]|p rest|] eqn:Ec; try done. destruct (pr_done s) eqn:Ed; simplify_eq/=. congruence.
  - destruct (pr_consumer s) as [[|[id d] rest]|p rest|] eqn:Ec; try done. by eapply message_closer.
  - destruct (pr_consumer s) as [l|p rest|] eqn:Ec; try done.
    destruct (Nat.ltb_spec (length (pr_pending s)) pendingBuffer); simplify_eq/=. by eapply send_closer.
  - destruct (pr_consumer s) as [l|p rest|] eqn:Ec; try done. destruct (pr_done s) eqn:Ed; simplify_eq/=. congruence.
  - destruct (pr_batch s) as [batch|] eqn:Eb; [|by destruct (pr_consumer s) as [[|[]]| |]].
    assert ((match pr_pending s with [] => None | p :: q => Some (flusher_turn q (batch ++ [p]) false faults s) end)
      = Some s') as Hs' by (by destruct (pr_consumer s) as [[|[]]| |]).
    destruct (pr_pending s) as [|p q] eqn:Eq; [done|]. simplify_eq/=. apply receive_closer; [done|done| |done].
    by rewrite Eq.
  - destruct (pr_batch s) as [batch|] eqn:Eb; [|by destruct (pr_consumer s) as [[|[]]| |]].
    assert (flusher_turn (pr_pending s) batch true faults s = s') as <-
      by (destruct (pr_consumer s) as [[|[]]| |]; by simplify_eq).
    by apply tick_closer.
  - destruct (pr_batch s) as [batch|] eqn:Eb; [|by destruct (pr_consumer s) as [[|[]]| |]].
    destruct (pr_done s) eqn:Ed; [|by destruct (pr_consumer s) as [[|[]]| |]].
    assert (leave (pe_msg <$> batch) (set_flusher (pr_pending s) None (pr_store s) s) = s') as <-
      by (destruct (pr_consumer s) as [[|[]]| |]; by simplify_eq).
    simpl in Hd'. congruence.
Qed.

(** In a live processor a helpful turn is always possible. *)
Lemma helpful_enabled t0 n0 k s r :
  processor_ok t0 n0 s → live s → located k s r → ∃ e, helpful r e = true ∧ is_Some (step e s).
Proof.
  intros Hok [Hd Hcr] Hl. destruct (ok_left _ _ _ Hok Hd) as (_ & _ & Hb).
  destruct (ok_room _ _ _ Hok) as [Hlen _]. destruct (pr_batch s) as [batch|] eqn:Eb; [|done].
  assert (∀ p q, pr_pending s = p :: q → is_Some (step (FlushReceive []) s)) as Hrec.
  { intros p q Hp. rewrite (step_receive [] s batch p q) by done. eauto. }
  assert (∀ n p rest, pr_consumer s = Sending p rest →
    ∃ e, helpful (1000 + 4 * n + 2 + full s) e = true ∧ is_Some (step e s)) as Hsend.
  { intros n p rest Ec. rewrite helpful_sending. unfold full.
    destruct (Nat.ltb_spec (length (pr_pending s)) pendingBuffer) as [Hlt|Hge]; simpl.
    - exists Send. split; [done|]. unfold step. rewrite Hcr, Ec.
      destruct (Nat.ltb_spec (length (pr_pending s)) pendingBuffer); [eauto|lia].
    - exists (FlushReceive []). split; [done|]. destruct (pr_pending s) as [|p' q] eqn:Eq; [|by eapply Hrec].
      unfold pendingBuffer in Hge. simpl in Hge. lia. }
  destruct Hl as [l i d Ec Hi|x rest i d Ec Hi|x rest Ec Hx|j x Hj Hx|x b Eb' Hx Hk].
  - rewrite helpful_waiting. destruct l as [|[id d'] rest]; [done|]. exists (Message (RErr "")). split; [done|].
    unfold step, handle. rewrite Hcr, Ec.
    destruct (rp_consume d' (RErr "") true) as [[|pub|pub m ps]|e|e] eqn:E; [eauto| |eauto| |eauto].
    + by destruct (rp_room _ _ _ E).
    + by destruct (rp_total _ _ _ _ E).
  - by eapply (Hsend (i + 1)).
  - by eapply (Hsend 0).
  - apply lookup_lt_Some in Hj as Hjl. unfold pendingBuffer in Hlen. rewrite helpful_queued by lia.
    exists (FlushReceive []). split; [done|]. destruct (pr_pending s) as [|p' q] eqn:Eq; [done|by eapply Hrec].
  - exists (FlushTick []). split; [done|]. rewrite (step_tick [] s batch) by done. eauto.
Qed.

(** ** Theorems *)

(** A scheduler that is fair to both goroutines. *)
Definition fair_processor (x : execution (step (RP:=RP))) : Prop :=
  fair _ is_message x ∧ fair _ is_send x ∧ fair _ is_receive x ∧ fair _ is_tick x.

Lemma fair_helpful x r : fair_processor x → fair _ (helpful r) x.
Proof.
  intros (H1 & H2 & H3 & H4). unfold helpful. destruct (Nat.eqb r 0); [done|]. destruct (Nat.ltb r 1000); [done|].
  by destruct (r mod 4) as [|[|[|?]]].
Qed.

Lemma delivered_settles t0 n0 (x : execution (step (RP:=RP))) n k :
  ex_state _ x 0 = start t0 n0 → fair_processor x → (∀ m, live (ex_state _ x m)) →
  k < length (pr_log (ex_state _ x n)) → ∃ m, n ≤ m ∧ settled_delivery k (ex_state _ x m).
Proof.
  intros H0 Hf Hlive Hk.
  assert (∀ m, processor_ok t0 n0 (ex_state _ x m)) as Hok.
  { apply execution_inv; [intros e s s'; apply step_ok|]. rewrite H0. apply processor_start_ok. }
  destruct (delivery_located _ _ _ k (Hok n) (Hlive n) Hk) as [Hs|[r Hr]]; [by exists n|].
  apply (fair_rank _ helpful (λ r s, located k s r) _ x (λ r, fair_helpful x r Hf)) with (r := r); [..|done].
  - intros m r' Hl. pose proof (ex_step _ x m) as Hs. destruct (ex_event _ x m) as [e|].
    + destruct (step_closer _ _ _ _ _ _ _ (Hok m) Hs (Hlive _) Hl) as [?|(r'' & H1 & H2 & H3)]; [by left|right].
      exists r''. split; [done|]. split; [done|]. by intros e' [= <-].
    + rewrite Hs. right. exists r'. done.
  - intros m r' Hl. by eapply helpful_enabled.
Qed.

(** C12. A fair processor settles everything.  On every infinite run from the
    start that is never cancelled and never crashes, under a scheduler that is
    weakly fair to handling, sending, receiving and ticking, every report
    delivered to the processor is acknowledged or refused at some later
    instant, however many more reports are fetched and whatever publications
    and statements fail in the meantime. *)
Theorem deliveries_settle t0 n0 (x : execution (step (RP:=RP))) n k :
  ex_state _ x 0 = start t0 n0 → fair_processor x → (∀ m, live (ex_state _ x m)) →
  k < length (pr_log (ex_state _ x n)) → ∃ m, n ≤ m ∧ settled_delivery k (ex_state _ x m).
Proof. apply delivered_settles. Qed.

(** A cancelled processor stops: on every run that is fair to the turns other
    than ticks, once the context is cancelled both goroutines return, or a
    report crashes the process. *)
Theorem cancelled_stops (x : execution (step (RP:=RP))) n :
  fair _ (negb ∘ is_tick) x → pr_done (ex_state _ x n) = true →
  ∃ m, n ≤ m ∧ (is_Some (pr_crashed (ex_state _ x m)) ∨
    pr_consumer (ex_state _ x m) = ConsumerReturned ∧ pr_batch (ex_state _ x m) = None).
Proof.
  intros Hf Hd.
  set (Q (s : processor) := is_Some (pr_crashed s) ∨ pr_consumer s = ConsumerReturned ∧ pr_batch s = None).
  assert (∀ s : processor, Q s ∨ pr_crashed s = None ∧ ¬ (pr_consumer s = ConsumerReturned ∧ pr_batch s = None)) as Hdec.
  { intros s. unfold Q. destruct (pr_crashed s); [left; left; eauto|].
    destruct (pr_consumer s), (pr_batch s); try (right; split; [done|]; by intros []). left. by right. }
  set (R r (s : processor) := pr_done s = true ∧ work s = r ∧ pr_crashed s = None ∧
    ¬ (pr_consumer s = ConsumerReturned ∧ pr_batch s = None)).
  destruct (Hdec (ex_state _ x n)) as [HQ|[Hcr Hret]]; [by exists n|].
  apply (fair_rank _ (λ _, negb ∘ is_tick) R Q x (λ _, Hf)) with (r := work (ex_state _ x n)); [..|by repeat split].
  - intros m r (Hdm & Hw & Hcm & Hrm). pose proof (ex_step _ x m) as Hs. destruct (ex_event _ x m) as [e|].
    + destruct (step_work _ _ _ Hdm Hs) as [Hd' Hw'].
      destruct (Hdec (ex_state _ x (S m))) as [?|[Hn1 Hn2]]; [by left|right]. eexists. split; [by repeat split|].
      split; [lia|]. intros e' [= <-] Ht. simpl in Ht. destruct (is_tick e); [done|lia].
    + right. rewrite Hs. by exists r.
  - intros m r (Hdm & _ & Hcm & Hrm). destruct (cancelled_enabled _ Hdm Hcm) as [?|(e & He & Hs)]; [done|].
    exists e. simpl. by rewrite He.
Qed.

End Live.

(** ** Witnesses: a report is handled and stored, then the flusher ticks forever *)

#[local] Existing Instance BinaryUuid.

Definition ticking : list event := [Fetch [example_ping_report]; Message (ROk tt); Send; FlushReceive []; FlushTick []].

Lemma ticking_ok : script_ok (step (RP:=ping_processor)) ticking (start no_tables 0) (Some (FlushTick [])).
Proof. split; [vm_compute; reflexivity|]. intros e [= <-]. vm_compute. reflexivity. Qed.

Definition ticking_run : execution (step (RP:=ping_processor)) := script_run _ _ _ _ ticking_ok.

Lemma ticking_fair : fair_processor ticking_run.
Proof.
  split_and!; apply script_fair; [left..|right; by eexists].
  all: intros e He; destruct e; try discriminate He; vm_compute; reflexivity.
Qed.

Lemma deliveries_settle_witness : ∃ m, 1 ≤ m ∧ settled_delivery 0 (ex_state _ ticking_run m).
Proof.
  apply (deliveries_settle no_tables 0 ticking_run 1 0); [reflexivity|apply ticking_fair| |vm_compute; lia].
  apply script_always. intros n Hn. simpl in Hn.
  do 6 (destruct n as [|n]; [split; vm_compute; reflexivity|]). lia.
Defined.
