(* ===== verification/JetStream.v ===== *)
(** * Streams and consumers: how the services are wired through NATS

    The set-up half of Start of the three processors and of Argus, and of
    Agent.Run: connections, then streams and consumers, with an early return at
    each error.  JetStream is the classes [Broker], for what is configured, and
    [Messages], for what is stored and offered to consumers; subject matching is
    the class [Subjects].  They state what their documentation promises, but
    for the ageing of messages, which is left out. *)

From S2P Require Import Prelude GoTime Json ArgusWorker Reports Supervisor AgentPipeline Processors Environment.
From Stdlib Require Import Ascii.

Local Open Scope go_scope.

(** ** Interfaces

    The descriptions of streams are left out. *)

Record StreamConfig := { stc_Name : string; stc_Subjects : list string; stc_MaxAge : duration }.

Inductive AckPolicy := AckExplicitPolicy.
Inductive DeliverPolicy := DeliverNewPolicy | DeliverAllPolicy.

Record ConsumerConfig := {
  cc_Name : string; cc_Durable : string; cc_FilterSubject : string;
  cc_AckPolicy : AckPolicy; cc_DeliverPolicy : DeliverPolicy }.

Class Broker (B : Type) := {
  CreateOrUpdateStream : StreamConfig → go B unit;
  CreateOrUpdateConsumer : string → ConsumerConfig → go B unit;
  stream_of : B → string → option StreamConfig;
  consumer_of : B → string → string → option ConsumerConfig;
  (* a created stream has its configuration, the rest stays; an error changes nothing *)
  CreateOrUpdateStream_spec : ∀ cfg b,
    let '(b', r) := CreateOrUpdateStream cfg b in
    (∀ e, r ≠ RPanic e) ∧ consumer_of b' = consumer_of b ∧
    (∀ n, n ≠ stc_Name cfg → stream_of b' n = stream_of b n) ∧
    stream_of b' (stc_Name cfg) = if is_ok r then Some cfg else stream_of b (stc_Name cfg);
  CreateOrUpdateConsumer_spec : ∀ s cfg b,
    let '(b', r) := CreateOrUpdateConsumer s cfg b in
    (∀ e, r ≠ RPanic e) ∧ stream_of b' = stream_of b ∧
    (∀ s' n, (s', n) ≠ (s, cc_Name cfg) → consumer_of b' s' n = consumer_of b s' n) ∧
    consumer_of b' s (cc_Name cfg) = if is_ok r then Some cfg else consumer_of b s (cc_Name cfg);
}.

(** One token of a subject. *)
Definition special (c : ascii) : bool :=
  (Ascii.eqb c "." || Ascii.eqb c "*" || Ascii.eqb c ">" || Ascii.eqb c " ")%char.

Fixpoint no_special (s : string) : bool :=
  match s with EmptyString => true | String c s' => negb (special c) && no_special s' end.

Definition token (s : string) : Prop := s ≠ "" ∧ no_special s = true.

Class Subjects := {
  matches : string → string → bool;
  matches_tail : ∀ p ts, ts ≠ [] → Forall token ts →
    matches (p +:+ ".>") (p +:+ "." +:+ String.concat "." ts) = true;
  matches_one : ∀ p t, token t → matches (p +:+ ".*") (p +:+ "." +:+ t) = true;
}.

(** [stored b s]: the messages of stream [s] in order; [first_offered b s n]: the
    position in it at which consumer [n] begins; [expire]: the server forgets a
    consumer nobody has used for a while. *)
Class Messages (B : Type) `{Broker B} `{Subjects} := {
  Publish : string → json → go B unit;
  expire : string → string → B → B;
  stored : B → string → list (string * json);
  first_offered : B → string → string → nat;
  (* a publication that is acknowledged is in the streams of its subject; one that is not may be *)
  Publish_spec : ∀ subject doc b,
    let '(b', r) := Publish subject doc b in
    (∀ e, r ≠ RPanic e) ∧ stream_of b' = stream_of b ∧ consumer_of b' = consumer_of b ∧
    (∀ s n, first_offered b' s n = first_offered b s n) ∧
    ∀ s, (stored b' s = stored b s ∨ stored b' s = stored b s ++ [(subject, doc)]) ∧
      ∀ sc, is_ok r = true → stream_of b s = Some sc →
        existsb (λ p, matches p subject) (stc_Subjects sc) = true → stored b' s = stored b s ++ [(subject, doc)];
  CreateOrUpdateStream_stored : ∀ cfg b,
    let b' := fst (CreateOrUpdateStream cfg b) in
    (∀ s, stored b' s = stored b s) ∧ ∀ s n, first_offered b' s n = first_offered b s n;
  (* a new consumer begins as its policy says, an existing one stays where it is *)
  CreateOrUpdateConsumer_stored : ∀ s cfg b,
    let '(b', r) := CreateOrUpdateConsumer s cfg b in
    (∀ s', stored b' s' = stored b s') ∧
    (∀ s' n, (s', n) ≠ (s, cc_Name cfg) → first_offered b' s' n = first_offered b s' n) ∧
    (is_ok r = true → (first_offered b' s (cc_Name cfg) ≤ length (stored b s))%nat) ∧
    (is_ok r = true → consumer_of b s (cc_Name cfg) = None → first_offered b' s (cc_Name cfg) =
      match cc_DeliverPolicy cfg with DeliverNewPolicy => length (stored b s) | DeliverAllPolicy => O end) ∧
    ((is_ok r = false ∨ consumer_of b s (cc_Name cfg) ≠ None) →
      (first_offered b s (cc_Name cfg) ≤ length (stored b s))%nat →
      first_offered b' s (cc_Name cfg) = first_offered b s (cc_Name cfg));
  expire_spec : ∀ s n b,
    stream_of (expire s n b) = stream_of b ∧ (∀ s', stored (expire s n b) s' = stored b s') ∧
    ∀ s' n', (s', n') ≠ (s, n) → consumer_of (expire s n b) s' n' = consumer_of b s' n' ∧
      first_offered (expire s n b) s' n' = first_offered b s' n';
}.

Section Setup.
Context {B : Type} `{Broker B}.

(** An external call whose outcome is given. *)
Definition outcome (r : res unit) : go B unit := fun b => (b, r).

(** ** The streams *)

Definition PROBE_STAMP : StreamConfig :=
  {| stc_Name := "PROBE_STAMP"; stc_Subjects := ["cepheus.probe.stamp.>"]; stc_MaxAge := 0 |}.
Definition PROBE_TRACE : StreamConfig :=
  {| stc_Name := "PROBE_TRACE"; stc_Subjects := ["cepheus.probe.trace.>"]; stc_MaxAge := 0 |}.
Definition PROBE_PING : StreamConfig :=
  {| stc_Name := "PROBE_PING"; stc_Subjects := ["cepheus.probe.ping.>"]; stc_MaxAge := 0 |}.
Definition MEASUREMENTS : StreamConfig :=
  {| stc_Name := "MEASUREMENTS"; stc_Subjects := ["cepheus.measurement.>"];
     stc_MaxAge := (24 * 3600 * Second)%Z |}.

(** ** The processors *)

(** Outcomes of connecting: the pool of database connections, NATS, and the
    JetStream context. *)
Record connects := { co_pool : res unit; co_nats : res unit; co_js : res unit }.

Definition probe_consumer (name filter : string) : ConsumerConfig :=
  {| cc_Name := name; cc_Durable := ""; cc_FilterSubject := filter; cc_AckPolicy := AckExplicitPolicy;
     cc_DeliverPolicy := DeliverNewPolicy |}.

Definition stamp_setup (c : connects) (cfg : ProcessorConfig) : go B unit :=
  outcome (co_pool c) ;;;
  outcome (co_nats c) ;;;
  outcome (co_js c) ;;;
  CreateOrUpdateStream PROBE_STAMP ;;;
  CreateOrUpdateStream MEASUREMENTS ;;;
  CreateOrUpdateConsumer "PROBE_STAMP" (probe_consumer "probe-stamp-processor" (pc_NatsListenSubject cfg)).

Definition ping_setup (c : connects) (cfg : ProcessorConfig) : go B unit :=
  outcome (co_pool c) ;;;
  outcome (co_nats c) ;;;
  outcome (co_js c) ;;;
  CreateOrUpdateStream PROBE_PING ;;;
  CreateOrUpdateStream MEASUREMENTS ;;;
  CreateOrUpdateConsumer "PROBE_PING" (probe_consumer "probe-ping-processor" (pc_NatsListenSubject cfg)).

Definition trace_setup (c : connects) (cfg : ProcessorConfig) : go B unit :=
  outcome (co_pool c) ;;;
  outcome (co_nats c) ;;;
  outcome (co_js c) ;;;
  CreateOrUpdateStream PROBE_TRACE ;;;
  CreateOrUpdateStream MEASUREMENTS ;;;
  CreateOrUpdateConsumer "PROBE_TRACE" (probe_consumer "probe-trace-processor" (pc_NatsListenSubject cfg)).

(** ** Argus *)

Definition argus_consumer : ConsumerConfig :=
  {| cc_Name := "argus"; cc_Durable := "argus"; cc_FilterSubject := "cepheus.measurement.>";
     cc_AckPolicy := AckExplicitPolicy; cc_DeliverPolicy := DeliverAllPolicy |}.

(** [swept] is the outcome of the policy engine's Start, which sweeps once,
    before NATS is contacted. *)
Definition argus_setup (c : connects) (swept : res unit) : go B unit :=
  outcome (co_pool c) ;;;
  outcome swept ;;;
  outcome (co_nats c) ;;;
  outcome (co_js c) ;;;
  CreateOrUpdateStream MEASUREMENTS ;;;
  CreateOrUpdateConsumer "MEASUREMENTS" argus_consumer.

(** ** The agent *)

(** The error of the first stream is overwritten by that of the second, which
    is only logged: the value is what is logged. *)
Definition agent_streams : go B (option string) :=
  let* _ := go_try (CreateOrUpdateStream PROBE_STAMP) in
  let* second := go_try (CreateOrUpdateStream PROBE_TRACE) in
  go_ret (match second with inl e => Some e | inr _ => None end).

Definition agent_setup (nats js : res unit) : go B (option string) :=
  outcome nats ;;;
  outcome js ;;;
  agent_streams.

(** ** Services *)

Inductive service :=
| StartStamp (c : connects) (cfg : ProcessorConfig)
| StartPing (c : connects) (cfg : ProcessorConfig)
| StartTrace (c : connects) (cfg : ProcessorConfig)
| StartArgus (c : connects) (swept : res unit)
| StartAgent (nats js : res unit).

Definition start_service (s : service) (b : B) : B * res unit :=
  match s with
  | StartStamp c cfg => stamp_setup c cfg b
  | StartPing c cfg => ping_setup c cfg b
  | StartTrace c cfg => trace_setup c cfg b
  | StartArgus c swept => argus_setup c swept b
  | StartAgent nats js =>
      match agent_setup nats js b with
      | (b', ROk _) => (b', ROk tt)
      | (b', RErr e) => (b', RErr e)
      | (b', RPanic e) => (b', RPanic e)
      end
  end.

(** ** Lemmas *)

(** The deployment listens where docker-compose.yaml says. *)
Definition configured (s : service) : Prop :=
  match s with
  | StartStamp _ cfg => pc_NatsListenSubject cfg = "cepheus.probe.stamp.*"
  | StartPing _ cfg => pc_NatsListenSubject cfg = "cepheus.probe.ping.*"
  | StartTrace _ cfg => pc_NatsListenSubject cfg = "cepheus.probe.trace.*"
  | _ => True
  end.

Definition streams : list StreamConfig := [PROBE_STAMP; PROBE_TRACE; PROBE_PING; MEASUREMENTS].

Definition consumers : list (string * ConsumerConfig) :=
  [("PROBE_STAMP", probe_consumer "probe-stamp-processor" "cepheus.probe.stamp.*");
   ("PROBE_PING", probe_consumer "probe-ping-processor" "cepheus.probe.ping.*");
   ("PROBE_TRACE", probe_consumer "probe-trace-processor" "cepheus.probe.trace.*");
   ("MEASUREMENTS", argus_consumer)].

(** A stream, or a consumer, is in place. *)
Definition has_stream (cfg : StreamConfig) (b : B) : Prop := stream_of b (stc_Name cfg) = Some cfg.
Definition has_consumer (sc : string * ConsumerConfig) (b : B) : Prop :=
  consumer_of b (fst sc) (cc_Name (snd sc)) = Some (snd sc).

Lemma streams_named c1 c2 : c1 ∈ streams → c2 ∈ streams → stc_Name c1 = stc_Name c2 → c1 = c2.
Proof. unfold streams. set_solver. Qed.

Lemma consumers_named sc1 sc2 :
  sc1 ∈ consumers → sc2 ∈ consumers → cc_Name (snd sc1) = cc_Name (snd sc2) → sc1 = sc2.
Proof. unfold consumers. set_solver. Qed.

Lemma create_keeps cfg cfg' :
  cfg ∈ streams → cfg' ∈ streams → go_inv (has_stream cfg) (CreateOrUpdateStream cfg').
Proof.
  intros Hc Hc' b Hb. pose proof (CreateOrUpdateStream_spec cfg' b) as Hs. unfold has_stream in *.
  destruct (CreateOrUpdateStream cfg' b) as [b' r]. destruct Hs as (_ & _ & Ho & Hn). simpl.
  destruct (decide (stc_Name cfg = stc_Name cfg')) as [E|Hne]; [|by rewrite Ho].
  pose proof (streams_named _ _ Hc Hc' E) as <-. rewrite Hn. by destruct (is_ok r).
Qed.

Lemma consume_keeps sc sc' :
  sc ∈ consumers → sc' ∈ consumers → go_inv (has_consumer sc) (CreateOrUpdateConsumer (fst sc') (snd sc')).
Proof.
  intros Hc Hc' b Hb. pose proof (CreateOrUpdateConsumer_spec (fst sc') (snd sc') b) as Hs. unfold has_consumer in *.
  destruct (CreateOrUpdateConsumer (fst sc') (snd sc') b) as [b' r]. destruct Hs as (_ & _ & Ho & Hn). simpl.
  destruct (decide (cc_Name (snd sc) = cc_Name (snd sc'))) as [E|Hne].
  - pose proof (consumers_named _ _ Hc Hc' E) as <-. rewrite Hn. by destruct (is_ok r).
  - rewrite Ho; [done|]. congruence.
Qed.

Lemma create_keeps_consumer sc cfg : go_inv (has_consumer sc) (CreateOrUpdateStream cfg).
Proof.
  intros b Hb. pose proof (CreateOrUpdateStream_spec cfg b) as Hs. unfold has_consumer in *.
  destruct (CreateOrUpdateStream cfg b) as [b' r]. destruct Hs as (_ & Hc & _). simpl. by rewrite Hc.
Qed.

Lemma consume_keeps_stream cfg s c : go_inv (has_stream cfg) (CreateOrUpdateConsumer s c).
Proof.
  intros b Hb. pose proof (CreateOrUpdateConsumer_spec s c b) as Hs. unfold has_stream in *.
  destruct (CreateOrUpdateConsumer s c b) as [b' r]. destruct Hs as (_ & Hc & _). simpl. by rewrite Hc.
Qed.

Lemma outcome_keeps (I : B → Prop) r : go_inv I (outcome r).
Proof. by intros b Hb. Qed.

(** A start leaves what is in place in place. *)
Lemma start_keeps s (I : B → Prop) :
  configured s →
  (∀ cfg, cfg ∈ streams → go_inv I (CreateOrUpdateStream cfg)) →
  (∀ sc, sc ∈ consumers → go_inv I (CreateOrUpdateConsumer (fst sc) (snd sc))) →
  ∀ b, I b → I (fst (start_service s b)).
Proof.
  intros Hcfg Hs Hc b Hb.
  destruct s as [c cfg|c cfg|c cfg|c swept|nats js]; simpl in *.
  - revert b Hb. change (go_inv I (stamp_setup c cfg)). unfold stamp_setup. rewrite Hcfg.
    repeat (apply go_inv_bind; [apply outcome_keeps || (apply Hs; set_solver)|intros _]).
    apply (Hc ("PROBE_STAMP", _)). set_solver.
  - revert b Hb. change (go_inv I (ping_setup c cfg)). unfold ping_setup. rewrite Hcfg.
    repeat (apply go_inv_bind; [apply outcome_keeps || (apply Hs; set_solver)|intros _]).
    apply (Hc ("PROBE_PING", _)). set_solver.
  - revert b Hb. change (go_inv I (trace_setup c cfg)). unfold trace_setup. rewrite Hcfg.
    repeat (apply go_inv_bind; [apply outcome_keeps || (apply Hs; set_solver)|intros _]).
    apply (Hc ("PROBE_TRACE", _)). set_solver.
  - revert b Hb. change (go_inv I (argus_setup c swept)). unfold argus_setup.
    repeat (apply go_inv_bind; [apply outcome_keeps || (apply Hs; set_solver)|intros _]).
    apply (Hc ("MEASUREMENTS", _)). set_solver.
  - assert (go_inv I (agent_setup nats js)) as Ha.
    { unfold agent_setup, agent_streams.
      repeat (apply go_inv_bind; [apply outcome_keeps || (apply go_inv_try, Hs; set_solver)|intros ?]).
      apply go_inv_ret. }
    specialize (Ha b Hb). by destruct (agent_setup nats js b) as [b' [?|?|?]].
Qed.

(** What a start that returned without error has put in place. *)
Definition in_place (s : service) (b : B) : Prop :=
  match s with
  | StartStamp _ _ => has_stream PROBE_STAMP b ∧ has_stream MEASUREMENTS b ∧
      has_consumer ("PROBE_STAMP", probe_consumer "probe-stamp-processor" "cepheus.probe.stamp.*") b
  | StartPing _ _ => has_stream PROBE_PING b ∧ has_stream MEASUREMENTS b ∧
      has_consumer ("PROBE_PING", probe_consumer "probe-ping-processor" "cepheus.probe.ping.*") b
  | StartTrace _ _ => has_stream PROBE_TRACE b ∧ has_stream MEASUREMENTS b ∧
      has_consumer ("PROBE_TRACE", probe_consumer "probe-trace-processor" "cepheus.probe.trace.*") b
  | StartArgus _ _ => has_stream MEASUREMENTS b ∧ has_consumer ("MEASUREMENTS", argus_consumer) b
  | StartAgent _ _ => True
  end.

Lemma create_establishes cfg b b' :
  CreateOrUpdateStream cfg b = (b', ROk tt) → has_stream cfg b'.
Proof.
  intros E. pose proof (CreateOrUpdateStream_spec cfg b) as Hs. rewrite E in Hs.
  by destruct Hs as (_ & _ & _ & Hn).
Qed.

Lemma consume_establishes s c b b' :
  CreateOrUpdateConsumer s c b = (b', ROk tt) → has_consumer (s, c) b'.
Proof.
  intros E. pose proof (CreateOrUpdateConsumer_spec s c b) as Hs. rewrite E in Hs.
  by destruct Hs as (_ & _ & _ & Hn).
Qed.

(** Later steps of a set-up keep what earlier ones established. *)
Lemma setup_establishes cfg sc b b' :
  cfg ∈ streams →
  (CreateOrUpdateStream cfg ;;; CreateOrUpdateStream MEASUREMENTS ;;;
   CreateOrUpdateConsumer (fst sc) (snd sc)) b = (b', ROk tt) →
  has_stream cfg b' ∧ has_stream MEASUREMENTS b' ∧ has_consumer sc b'.
Proof.
  intros Hc (b1 & [] & E1 & (b2 & [] & E2 & E3)%go_bind_inv)%go_bind_inv.
  assert (MEASUREMENTS ∈ streams) as Hm by set_solver.
  pose proof (create_keeps cfg MEASUREMENTS Hc Hm b1 (create_establishes _ _ _ E1)) as K2. rewrite E2 in K2.
  pose proof (consume_keeps_stream cfg (fst sc) (snd sc) b2 K2) as K3.
  pose proof (consume_keeps_stream MEASUREMENTS (fst sc) (snd sc) b2 (create_establishes _ _ _ E2)) as K4.
  rewrite E3 in K3, K4. split; [done|]. split; [done|]. destruct sc. by eapply consume_establishes.
Qed.

Lemma outcome_bind r (k : go B unit) b b' : (outcome r ;;; k) b = (b', ROk tt) → k b = (b', ROk tt).
Proof. unfold go_bind, outcome. by destruct r. Qed.

Lemma start_establishes s b b' :
  configured s → start_service s b = (b', ROk tt) → in_place s b'.
Proof.
  destruct s as [c cfg|c cfg|c cfg|c swept|nats js]; simpl; [..|done]; intros Hcfg;
    unfold stamp_setup, ping_setup, trace_setup, argus_setup; rewrite ?Hcfg; intros E;
    repeat apply outcome_bind in E.
  - apply (setup_establishes PROBE_STAMP ("PROBE_STAMP", _)) in E; [done|set_solver].
  - apply (setup_establishes PROBE_PING ("PROBE_PING", _)) in E; [done|set_solver].
  - apply (setup_establishes PROBE_TRACE ("PROBE_TRACE", _)) in E; [done|set_solver].
  - apply go_bind_inv in E as (b1 & [] & E1 & E2).
    pose proof (consume_keeps_stream MEASUREMENTS "MEASUREMENTS" argus_consumer b1 (create_establishes _ _ _ E1)) as K.
    rewrite E2 in K. split; [done|]. by eapply consume_establishes.
Qed.

(** ** A deployment: services that start, publish and expire *)

Context `{Subjects} `{!Messages B}.

(** What happens at the broker.  Only consumers that are not durable expire. *)
Inductive action :=
| Starts (s : service)
| Publishes (subject : string) (doc : json)
| Expires (stream name : string).

Definition act (a : action) (b : B) : B :=
  match a with
  | Starts s => fst (start_service s b)
  | Publishes subject doc => fst (Publish subject doc b)
  | Expires stream name =>
      match consumer_of b stream name with
      | Some cc => if String.eqb (cc_Durable cc) "" then expire stream name b else b
      | None => b
      end
  end.

Definition deploy (l : list action) (b : B) : B := foldl (λ b a, act a b) b l.

(** The consumer a service reads from. *)
Definition consumer_for (s : service) : option (string * ConsumerConfig) :=
  match s with
  | StartStamp _ _ => Some ("PROBE_STAMP", probe_consumer "probe-stamp-processor" "cepheus.probe.stamp.*")
  | StartPing _ _ => Some ("PROBE_PING", probe_consumer "probe-ping-processor" "cepheus.probe.ping.*")
  | StartTrace _ _ => Some ("PROBE_TRACE", probe_consumer "probe-trace-processor" "cepheus.probe.trace.*")
  | StartArgus _ _ => Some ("MEASUREMENTS", argus_consumer)
  | StartAgent _ _ => None
  end.

(** The services that start listen where docker-compose.yaml says, and the
    consumer [sc] does not expire. *)
Definition keeps (sc : string * ConsumerConfig) (a : action) : Prop :=
  match a with
  | Starts s => configured s
  | Publishes _ _ => True
  | Expires stream name => (stream, name) = (fst sc, cc_Name (snd sc)) → cc_Durable (snd sc) ≠ ""
  end.

(** The message at position [k] of a stream is among those the consumer is
    offered. *)
Definition offered (b : B) (stream name : string) (k : nat) : Prop :=
  ∃ cc subject doc, consumer_of b stream name = Some cc ∧ (first_offered b stream name ≤ k)%nat ∧
    stored b stream !! k = Some (subject, doc) ∧ matches (cc_FilterSubject cc) subject = true.

(** What publications of an agent, or of a processor, are for a service. *)
Definition meant_for (s : service) (serial subject : string) : Prop :=
  match s with
  | StartStamp _ _ => subject = subject_of ProbeTypeStamp serial
  | StartPing _ _ => subject = subject_of ProbeTypePing serial
  | StartTrace _ _ => subject = subject_of ProbeTypeTrace serial
  | StartArgus _ _ => ∃ kind e pub, token kind ∧ publication kind serial e = Some pub ∧ subject = fst pub
  | StartAgent _ _ => False
  end.

(** The consumer [sc] is in place and begins at [n]; its stream begins with [l]. *)
Record placed (sc : string * ConsumerConfig) (n : nat) (l : list (string * json)) (b : B) : Prop := {
  pl_consumer : has_consumer sc b;
  pl_first : first_offered b (fst sc) (cc_Name (snd sc)) = n;
  pl_bound : (n ≤ length l)%nat;
  pl_stored : l `prefix_of` stored b (fst sc);
}.

Lemma create_placed sc n l cfg : go_inv (placed sc n l) (CreateOrUpdateStream cfg).
Proof.
  intros b [H1 H2 H3 H4]. destruct (CreateOrUpdateStream_stored cfg b) as [E1 E2].
  split; [by apply create_keeps_consumer|by rewrite E2|done|by rewrite E1].
Qed.

Lemma consume_placed sc n l sc' :
  sc ∈ consumers → sc' ∈ consumers → go_inv (placed sc n l) (CreateOrUpdateConsumer (fst sc') (snd sc')).
Proof.
  intros Hc Hc' b [H1 H2 H3 H4]. pose proof (consume_keeps sc sc' Hc Hc' b H1) as K.
  pose proof (CreateOrUpdateConsumer_stored (fst sc') (snd sc') b) as Hs. unfold has_consumer in *.
  destruct (CreateOrUpdateConsumer (fst sc') (snd sc') b) as [b' r]. simpl in *. destruct Hs as (E1 & E2 & _ & _ & E3).
  split; [done| |done|by rewrite E1].
  destruct (decide (cc_Name (snd sc) = cc_Name (snd sc'))) as [E|Hne]; [|rewrite E2; [done|congruence]].
  pose proof (consumers_named _ _ Hc Hc' E) as <-. rewrite E3; [done|right; congruence|].
  apply prefix_length in H4. lia.
Qed.

Lemma act_placed sc n l a b :
  sc ∈ consumers → keeps sc a → placed sc n l b → placed sc n l (act a b).
Proof.
  intros Hc Hk Hp. destruct a as [s|subject doc|stream name]; simpl in *.
  - revert b Hp. apply start_keeps; [done|intros; apply create_placed|intros; by apply consume_placed].
  - destruct Hp as [H1 H2 H3 H4]. pose proof (Publish_spec subject doc b) as Hs.
    destruct (Publish subject doc b) as [b' r]. destruct Hs as (_ & _ & E2 & E3 & E4). simpl.
    split; [unfold has_consumer; by rewrite E2|by rewrite E3|done|].
    destruct (E4 (fst sc)) as [[-> | ->] _]; [done|]. by apply prefix_app_r.
  - destruct (consumer_of b stream name) as [cc|] eqn:Ec; [|done].
    destruct (String.eqb_spec (cc_Durable cc) "") as [Ed|]; [|done].
    destruct (expire_spec stream name b) as (_ & E2 & E3). destruct Hp as [H1 H2 H3 H4].
    assert ((fst sc, cc_Name (snd sc)) ≠ (stream, name)) as Hne.
    { intros E. unfold has_consumer in H1. injection E as E5 E6. rewrite E5, E6, Ec in H1. injection H1 as ->.
      exact (Hk ltac:(by rewrite E5, E6) Ed). }
    destruct (E3 _ _ Hne) as [E5 E6]. split; [unfold has_consumer; by rewrite E5|by rewrite E6|done|by rewrite E2].
Qed.

Lemma act_stream cfg sc a b : cfg ∈ streams → keeps sc a → has_stream cfg b → has_stream cfg (act a b).
Proof.
  intros Hc Hk Hs. destruct a as [s|subject doc|stream name]; simpl in *.
  - revert b Hs. apply start_keeps; [done| |intros; apply consume_keeps_stream].
    intros cfg' Hc'. by apply create_keeps.
  - pose proof (Publish_spec subject doc b) as Hp. unfold has_stream in *.
    destruct (Publish subject doc b) as [b' r]. destruct Hp as (_ & E & _). simpl. by rewrite E.
  - repeat case_match; try done. unfold has_stream. by rewrite (proj1 (expire_spec stream name b)).
Qed.

Lemma deploy_placed sc n l acts b :
  sc ∈ consumers → Forall (keeps sc) acts → placed sc n l b → placed sc n l (deploy acts b).
Proof. intros Hc Hk. revert b. induction Hk as [|a acts Ha _ IH]; intros b Hb; [done|]. by apply IH, act_placed. Qed.

Lemma deploy_stream cfg sc acts b :
  cfg ∈ streams → Forall (keeps sc) acts → has_stream cfg b → has_stream cfg (deploy acts b).
Proof. intros Hc Hk. revert b. induction Hk as [|a acts Ha _ IH]; intros b Hb; [done|]. by eapply IH, act_stream. Qed.

(** Where a consumer begins once it is set up on a broker like [b]. *)
Definition begins (sc : string * ConsumerConfig) (b b' : B) : Prop :=
  let n := first_offered b' (fst sc) (cc_Name (snd sc)) in
  (∀ s, stored b' s = stored b s) ∧ (n ≤ length (stored b (fst sc)))%nat ∧
  (consumer_of b (fst sc) (cc_Name (snd sc)) = None →
    n = match cc_DeliverPolicy (snd sc) with DeliverNewPolicy => length (stored b (fst sc)) | DeliverAllPolicy => O end).

Lemma consume_begins sc b b' :
  CreateOrUpdateConsumer (fst sc) (snd sc) b = (b', ROk tt) → begins sc b b'.
Proof.
  intros E. pose proof (CreateOrUpdateConsumer_stored (fst sc) (snd sc) b) as Hs. rewrite E in Hs.
  destruct Hs as (H1 & _ & H2 & H3 & _). split; [done|]. split; [by apply H2|by apply H3].
Qed.

Lemma create_begins sc cfg b b1 b' r :
  CreateOrUpdateStream cfg b = (b1, r) → begins sc b1 b' → begins sc b b'.
Proof.
  intros E (H1 & H2 & H3). destruct (CreateOrUpdateStream_stored cfg b) as [E1 _].
  pose proof (CreateOrUpdateStream_spec cfg b) as Hs. rewrite E in Hs, E1. destruct Hs as (_ & E2 & _).
  simpl in E1. unfold begins. rewrite E1 in *. rewrite E2 in H3. split; [|done].
  intros s. by rewrite H1.
Qed.

Lemma setup_begins cfg sc b b' :
  (CreateOrUpdateStream cfg ;;; CreateOrUpdateStream MEASUREMENTS ;;;
   CreateOrUpdateConsumer (fst sc) (snd sc)) b = (b', ROk tt) → begins sc b b'.
Proof.
  intros (b1 & [] & E1 & (b2 & [] & E2 & E3)%go_bind_inv)%go_bind_inv.
  by eapply create_begins, create_begins, consume_begins.
Qed.

Lemma start_begins s sc b b' :
  configured s → consumer_for s = Some sc → start_service s b = (b', ROk tt) → begins sc b b'.
Proof.
  destruct s as [c cfg|c cfg|c cfg|c swept|nats js]; simpl; [..|done]; intros Hcfg [= <-];
    unfold stamp_setup, ping_setup, trace_setup, argus_setup; rewrite ?Hcfg; intros E;
    repeat apply outcome_bind in E.
  1-3: by apply (setup_begins _ (_, _)) in E.
  apply go_bind_inv in E as (b1 & [] & E1 & E2). eapply create_begins; [exact E1|].
  by apply (consume_begins (_, _)) in E2.
Qed.

(** A publication meant for a service is stored in its stream, and passes the
    filter of its consumer. *)
Lemma meant_routed s serial subject b :
  token serial → meant_for s serial subject → in_place s b →
  ∃ sc cfg, consumer_for s = Some sc ∧ cfg ∈ streams ∧ stc_Name cfg = fst sc ∧ has_stream cfg b ∧
    has_consumer sc b ∧ sc ∈ consumers ∧
    existsb (λ p, matches p subject) (stc_Subjects cfg) = true ∧ matches (cc_FilterSubject (snd sc)) subject = true.
Proof.
  intros Ht Hm Hp.
  assert (∀ p, matches (p +:+ ".>") (p +:+ "." +:+ serial) = true) as M1
    by (intros p; apply (matches_tail p [serial]); [done|by constructor]).
  destruct s as [c cfg|c cfg|c cfg|c swept|nats js]; simpl in Hm, Hp; [subst subject..| |done].
  - destruct Hp as (H1 & _ & H3). eexists _, PROBE_STAMP. do 2 (split; [done || set_solver|]). do 3 (split; [done|]).
    split; [set_solver|]. split; [apply orb_true_iff; left; exact (M1 "cepheus.probe.stamp")|by apply (matches_one "cepheus.probe.stamp")].
  - destruct Hp as (H1 & _ & H3). eexists _, PROBE_PING. do 2 (split; [done || set_solver|]). do 3 (split; [done|]).
    split; [set_solver|]. split; [apply orb_true_iff; left; exact (M1 "cepheus.probe.ping")|by apply (matches_one "cepheus.probe.ping")].
  - destruct Hp as (H1 & _ & H3). eexists _, PROBE_TRACE. do 2 (split; [done || set_solver|]). do 3 (split; [done|]).
    split; [set_solver|]. split; [apply orb_true_iff; left; exact (M1 "cepheus.probe.trace")|by apply (matches_one "cepheus.probe.trace")].
  - destruct Hm as (kind & e & pub & Hk & (j & _ & [= <-])%bind_Some & ->). destruct Hp as [H1 H2].
    assert (matches "cepheus.measurement.>" ("cepheus.measurement." +:+ kind +:+ "." +:+ serial) = true) as Hm
      by (apply (matches_tail "cepheus.measurement" [kind; serial]); [done|by rewrite !Forall_cons]).
    eexists _, MEASUREMENTS. do 2 (split; [done || set_solver|]). do 3 (split; [done|]).
    split; [set_solver|]. simpl. by rewrite Hm.
Qed.


(** An agent's own set-up never touches the stream of ping reports. *)
Lemma agent_leaves_ping nats js b :
  stream_of (fst (agent_setup nats js b)) "PROBE_PING" = stream_of b "PROBE_PING".
Proof.
  assert (∀ n cfg, n ≠ stc_Name cfg → ∀ b, stream_of (fst (go_try (CreateOrUpdateStream cfg) b)) n = stream_of b n) as Hn.
  { intros n cfg Hn b0. pose proof (CreateOrUpdateStream_spec cfg b0) as Hs. unfold go_try.
    destruct (CreateOrUpdateStream cfg b0) as [b' [?|?|?]]; destruct Hs as (_ & _ & Ho & _); by apply Ho. }
  unfold agent_setup, agent_streams, go_bind, outcome.
  destruct nats; [|done..]. destruct js; [|done..].
  pose proof (Hn "PROBE_PING" PROBE_STAMP ltac:(done) b) as E1.
  destruct (go_try (CreateOrUpdateStream PROBE_STAMP) b) as [b1 [?|?|?]]; simpl in *; [|done..].
  pose proof (Hn "PROBE_PING" PROBE_TRACE ltac:(done) b1) as E2.
  destruct (go_try (CreateOrUpdateStream PROBE_TRACE) b1) as [b2 [?|?|?]]; simpl in *; congruence.
Qed.

End Setup.

(** ** Witnesses: a broker that keeps maps, and subjects as lists of tokens *)

Record map_broker := {
  mb_streams : gmap string StreamConfig;
  mb_consumers : gmap (string * string) ConsumerConfig;
  mb_stored : string → list (string * json);
  mb_first : gmap (string * string) nat;
  mb_faults : list bool;
}.

Definition mb_set_faults (fs : list bool) (b : map_broker) : map_broker :=
  {| mb_streams := mb_streams b; mb_consumers := mb_consumers b; mb_stored := mb_stored b; mb_first := mb_first b;
     mb_faults := fs |}.

Definition mb_create (cfg : StreamConfig) : go map_broker unit := fun b =>
  match mb_faults b with
  | true :: fs => (mb_set_faults fs b, RErr "timeout")
  | fs =>
      ({| mb_streams := <[stc_Name cfg := cfg]> (mb_streams b); mb_consumers := mb_consumers b;
          mb_stored := mb_stored b; mb_first := mb_first b; mb_faults := tl fs |}, ROk tt)
  end.

(** Where a consumer begins, [0] when it is not known. *)
Definition mb_offered (b : map_broker) (s n : string) : nat := default O (mb_first b !! (s, n)).

Definition mb_begin (s : string) (cfg : ConsumerConfig) (b : map_broker) : nat :=
  match mb_consumers b !! (s, cc_Name cfg), cc_DeliverPolicy cfg with
  | None, DeliverNewPolicy => length (mb_stored b s)
  | None, DeliverAllPolicy => O
  | Some _, _ => Nat.min (mb_offered b s (cc_Name cfg)) (length (mb_stored b s))
  end.

Definition mb_consume (s : string) (cfg : ConsumerConfig) : go map_broker unit := fun b =>
  match mb_faults b, mb_streams b !! s with
  | true :: fs, _ => (mb_set_faults fs b, RErr "timeout")
  | fs, None => (mb_set_faults (tl fs) b, RErr "stream not found")
  | fs, Some _ =>
      ({| mb_streams := mb_streams b; mb_consumers := <[(s, cc_Name cfg) := cfg]> (mb_consumers b);
          mb_stored := mb_stored b; mb_first := <[(s, cc_Name cfg) := mb_begin s cfg b]> (mb_first b);
          mb_faults := tl fs |}, ROk tt)
  end.

#[export] Program Instance MapBroker : Broker map_broker := {|
  CreateOrUpdateStream := mb_create;
  CreateOrUpdateConsumer := mb_consume;
  stream_of := λ b n, mb_streams b !! n;
  consumer_of := λ b s n, mb_consumers b !! (s, n);
|}.
Next Obligation.
  intros cfg b. unfold mb_create. destruct (mb_faults b) as [|[] fs]; simpl;
    (do 2 (split; [done|])); (split; [intros; by rewrite ?lookup_insert_ne|]); by rewrite ?lookup_insert_eq.
Qed.
Next Obligation.
  intros s cfg b. unfold mb_consume. destruct (mb_faults b) as [|[] fs], (mb_streams b !! s); simpl;
    (do 2 (split; [done|])); (split; [intros; rewrite ?lookup_insert_ne; congruence|]);
    by rewrite ?lookup_insert_eq.
Qed.

(** A publication goes into the streams of its subject. *)
Definition mb_captures `{Subjects} (b : map_broker) (s subject : string) : bool :=
  match mb_streams b !! s with Some sc => existsb (λ p, matches p subject) (stc_Subjects sc) | None => false end.

Definition mb_publish `{Subjects} (subject : string) (doc : json) : go map_broker unit := fun b =>
  match mb_faults b with
  | true :: fs => (mb_set_faults fs b, RErr "timeout")
  | fs =>
      ({| mb_streams := mb_streams b; mb_consumers := mb_consumers b;
          mb_stored := λ s, mb_stored b s ++ if mb_captures b s subject then [(subject, doc)] else [];
          mb_first := mb_first b; mb_faults := tl fs |}, ROk tt)
  end.

Definition mb_expire (s n : string) (b : map_broker) : map_broker :=
  {| mb_streams := mb_streams b; mb_consumers := delete (s, n) (mb_consumers b); mb_stored := mb_stored b;
     mb_first := mb_first b; mb_faults := mb_faults b |}.

#[export] Program Instance MapMessages `{Subjects} : Messages map_broker := {|
  Publish := mb_publish;
  expire := mb_expire;
  stored := mb_stored;
  first_offered := mb_offered;
|}.
Next Obligation.
  intros ? subject doc b. unfold mb_publish. destruct (mb_faults b) as [|[] fs]; simpl;
    do 4 (split; [done|]); intros s; unfold mb_captures.
  2: split; [by left|done].
  all: destruct (mb_streams b !! s) as [sc|]; [|rewrite app_nil_r; split; [by left|done]].
  all: destruct (existsb _ _) eqn:E; [split; [by right|done]|rewrite app_nil_r; split; [by left|]].
  all: intros ? _ [= <-]; by rewrite E.
Qed.
Next Obligation. intros ? cfg b. simpl. unfold mb_create. destruct (mb_faults b) as [|[] fs]; simpl; split; done. Qed.
Next Obligation.
  intros ? s cfg b. unfold mb_consume, mb_offered.
  assert (mb_begin s cfg b ≤ length (mb_stored b s))%nat as Hle by (unfold mb_begin; repeat case_match; lia).
  assert (mb_consumers b !! (s, cc_Name cfg) ≠ None → (mb_offered b s (cc_Name cfg) ≤ length (mb_stored b s))%nat →
    mb_begin s cfg b = mb_offered b s (cc_Name cfg)) as Hb.
  { intros Hne Hb. unfold mb_begin in *. destruct (mb_consumers b !! (s, cc_Name cfg)); [lia|done]. }
  assert (mb_consumers b !! (s, cc_Name cfg) = None → mb_begin s cfg b =
    match cc_DeliverPolicy cfg with DeliverNewPolicy => length (mb_stored b s) | DeliverAllPolicy => O end) as Hn
    by (intros E; unfold mb_begin; by rewrite E).
  simpl. unfold mb_consume. destruct (mb_faults b) as [|[] fs], (mb_streams b !! s); simpl;
    try (do 4 (split; [done|]); done).
  all: split; [done|]; split; [intros; by rewrite lookup_insert_ne by congruence|].
  all: rewrite lookup_insert_eq; simpl; split; [done|]; split; [done|]; intros [?|?] ?; [done|by apply Hb].
Qed.
Next Obligation.
  intros ? s n b. split; [done|]. split; [done|]. intros s' n' Hne. simpl. by rewrite lookup_delete_ne by congruence.
Qed.

Fixpoint tokens (s : string) : list string :=
  match s with
  | EmptyString => [""]
  | String c s' =>
      match tokens s' with
      | [] => []
      | t :: ts => if Ascii.eqb c "."%char then "" :: t :: ts else String c t :: ts
      end
  end.

Fixpoint match_tokens (p s : list string) : bool :=
  match p, s with
  | [], [] => true
  | x :: p', y :: s' => String.eqb x ">" || ((String.eqb x "*" || String.eqb x y) && match_tokens p' s')
  | _, _ => false
  end.

Lemma tokens_nonempty s : tokens s ≠ [].
Proof. induction s as [|c s IH]; simpl; [done|]. destruct (tokens s); [done|]. by destruct (Ascii.eqb _ _). Qed.

Lemma tokens_app p t : tokens (p +:+ "." +:+ t) = tokens p ++ tokens t.
Proof.
  induction p as [|c p IH]; simpl.
  - change ("" +:+ t) with t. pose proof (tokens_nonempty t). by destruct (tokens t).
  - rewrite IH. pose proof (tokens_nonempty p). destruct (tokens p); [done|]. simpl.
    by destruct (Ascii.eqb _ _).
Qed.

Lemma tokens_token t : no_special t = true → tokens t = [t].
Proof.
  induction t as [|c t IH]; simpl; [done|]. intros [Hc Ht]%andb_true_iff. rewrite (IH Ht).
  unfold special in Hc. revert Hc. by destruct (Ascii.eqb c ".").
Qed.

Lemma tokens_concat ts : ts ≠ [] → Forall token ts → tokens (String.concat "." ts) = ts.
Proof.
  intros Hne Hts. induction Hts as [|t ts [_ Ht] Hts IH]; [done|]. destruct ts as [|t' ts]; [by apply tokens_token|].
  change (String.concat "." (t :: t' :: ts)) with (t +:+ "." +:+ String.concat "." (t' :: ts)).
  by rewrite tokens_app, IH, tokens_token.
Qed.

Lemma match_prefix l p s : match_tokens p s = true → match_tokens (l ++ p) (l ++ s) = true.
Proof. intros Hm. induction l as [|x l IH]; simpl; [done|]. by rewrite IH, String.eqb_refl, !orb_true_r. Qed.

#[export] Program Instance TokenSubjects : Subjects := {| matches := λ p s, match_tokens (tokens p) (tokens s) |}.
Next Obligation.
  intros p ts Hne Hts. change (p +:+ ".>") with (p +:+ "." +:+ ">").
  cbv beta. rewrite !tokens_app, (tokens_concat ts Hne Hts).
  apply match_prefix. by destruct ts.
Qed.
Next Obligation.
  intros p t [Hne Ht]. change (p +:+ ".*") with (p +:+ "." +:+ "*").
  cbv beta. rewrite !tokens_app, (tokens_token t Ht).
  by apply match_prefix.
Qed.

Definition connected : connects := {| co_pool := ROk tt; co_nats := ROk tt; co_js := ROk tt |}.

Definition compose_config (subject : string) : ProcessorConfig :=
  {| pc_OtelSink := "stdout"; pc_OtelEndpoint := "otel:4318"; pc_NatsListenSubject := subject;
     pc_NatsConnectURL := "nats:4222"; pc_DatabaseURL := "postgres" |}.

(** The broker once an agent is up and has published a report and a first start
    of the stamp processor has met an error. *)
Definition example_report : json := JObj [].

Definition empty_broker : map_broker :=
  {| mb_streams := ∅; mb_consumers := ∅; mb_stored := λ _, []; mb_first := ∅;
     mb_faults := [false; false; false; true] |}.

Definition early_broker : map_broker :=
  deploy [Starts (StartAgent (ROk tt) (ROk tt)); Publishes "cepheus.probe.stamp.agent-1" example_report;
          Starts (StartStamp connected (compose_config "cepheus.probe.stamp.*"))] empty_broker.

Definition the_stamp : service := StartStamp connected (compose_config "cepheus.probe.stamp.*").

