(* ===== verification/AgentRun.v ===== *)
(** * The agent's run loop (services/agent/agent.go)

    NewAgent, pulling the configuration with retries, the set-up of Run, and the
    running agent as a transition system: ticks that pull and reconcile, the
    turns and the end of the tasks' goroutines, the dispatcher, and the
    shutdown.  github.com/avast/retry-go is
    the class [RetryLib]; what the control plane answers is in the state. *)

From S2P Require Import Prelude Float64 GoTime Json ArgusWorker Reports AgentConfig Supervisor Scamper.
From S2P Require Import ScamperProcess AgentPipeline Environment JetStream.
Import Scamper.Scamper.

Local Open Scope Z_scope.
Local Open Scope go_scope.

(** ** Retries *)

(** What running [f] up to [n] times may come to: the first success ends it, an
    error is followed by another attempt unless there is none left or the
    context, when [cancelled], has ended. *)
Inductive retried {S A} (cancelled : bool) (f : go S A) : nat → S → S → res A → Prop :=
| retried_ok n s s' a : f s = (s', ROk a) → retried cancelled f (Datatypes.S n) s s' (ROk a)
| retried_panic n s s' e : f s = (s', RPanic e) → retried cancelled f (Datatypes.S n) s s' (RPanic e)
| retried_again n s s1 e s' r :
    f s = (s1, RErr e) → retried cancelled f (Datatypes.S n) s1 s' r →
    retried cancelled f (Datatypes.S (Datatypes.S n)) s s' r
| retried_last s s' e e' : f s = (s', RErr e) → retried cancelled f 1 s s' (RErr e')
| retried_stopped n s e : cancelled = true → retried cancelled f n s s (RErr e).

Class RetryLib := {
  retry_Do : ∀ {S A : Type}, bool → nat → go S A → go S A;
  retry_Do_spec : ∀ {S A : Type} cancelled n (f : go S A) s,
    retried cancelled f (Datatypes.S n) s (fst (retry_Do cancelled (Datatypes.S n) f s))
      (snd (retry_Do cancelled (Datatypes.S n) f s));
}.

Section Agent.
Context `{ProtoTime} `{RetryLib}.

(** ** The agent *)

(** What comes of a request: no answer, or what the control plane read. *)
Inductive reply :=
| Unreachable
| Served (queried : res (list (res ConfigRow))) (iterated : res unit).

(** [ag_replies] are the coming answers, [ag_requests] counts the requests. *)
Record Agent := {
  ag_SerialId : string;
  ag_generation : Z;
  ag_controlPlane : ControlPlaneConfig;
  ag_scamperBinPath : string;
  ag_config : option AgentConfig;
  ag_lastPulled : option time;
  ag_replies : list reply;
  ag_requests : nat;
}.

Definition NewAgent (cfg : AgentInitConfig) (replies : list reply) : Agent :=
  {| ag_SerialId := ai_SerialId cfg; ag_generation := 0; ag_controlPlane := ai_ControlPlaneConfig cfg;
     ag_scamperBinPath := ai_ScamperBinPath cfg; ag_config := None; ag_lastPulled := None;
     ag_replies := replies; ag_requests := 0 |}.

(** One request: [pullConfiguration] against the next answer. *)
Definition reply_config (serial : string) (r : reply) : res AgentConfig :=
  match r with
  | Unreachable => RErr "unavailable"
  | Served queried iterated => pullConfiguration serial queried iterated
  end.

Definition request : go Agent AgentConfig := fun a =>
  ({| ag_SerialId := ag_SerialId a; ag_generation := ag_generation a; ag_controlPlane := ag_controlPlane a;
      ag_scamperBinPath := ag_scamperBinPath a; ag_config := ag_config a; ag_lastPulled := ag_lastPulled a;
      ag_replies := tl (ag_replies a); ag_requests := S (ag_requests a) |},
   reply_config (ag_SerialId a) (default Unreachable (head (ag_replies a)))).

Definition set_config (cfg : AgentConfig) (a : Agent) : Agent :=
  {| ag_SerialId := ag_SerialId a; ag_generation := ag_generation a; ag_controlPlane := ag_controlPlane a;
     ag_scamperBinPath := ag_scamperBinPath a; ag_config := Some cfg; ag_lastPulled := ag_lastPulled a;
     ag_replies := ag_replies a; ag_requests := ag_requests a |}.

Definition set_lastPulled (now : time) (a : Agent) : Agent :=
  {| ag_SerialId := ag_SerialId a; ag_generation := ag_generation a; ag_controlPlane := ag_controlPlane a;
     ag_scamperBinPath := ag_scamperBinPath a; ag_config := ag_config a; ag_lastPulled := Some now;
     ag_replies := ag_replies a; ag_requests := ag_requests a |}.

Definition set_replies (l : list reply) (a : Agent) : Agent :=
  {| ag_SerialId := ag_SerialId a; ag_generation := ag_generation a; ag_controlPlane := ag_controlPlane a;
     ag_scamperBinPath := ag_scamperBinPath a; ag_config := ag_config a; ag_lastPulled := ag_lastPulled a;
     ag_replies := l; ag_requests := ag_requests a |}.

Definition attempts : nat := 3.

Definition pullAgentConfiguration (cancelled : bool) : go Agent unit :=
  let* agentConfig := retry_Do cancelled attempts request in
  let* a := go_get in
  if Z.eqb (ag_generation a) 0 then go_modify (set_config agentConfig) else go_ret tt.

(** ** The set-up of Run *)

Section Run.
Context {B : Type} `{Broker B} (order : gmap string Task → list (string * Task)).

Record world := {
  w_agent : Agent;
  w_broker : B;
  w_dispatching : bool;
  w_scamper : option scamper;
  w_supervisor : option Supervisor;
}.

Definition on_agent {A} (c : go Agent A) : go world A := fun w =>
  let '(a, r) := c (w_agent w) in
  ({| w_agent := a; w_broker := w_broker w; w_dispatching := w_dispatching w; w_scamper := w_scamper w;
      w_supervisor := w_supervisor w |}, r).

Definition on_broker {A} (c : go B A) : go world A := fun w =>
  let '(b, r) := c (w_broker w) in
  ({| w_agent := w_agent w; w_broker := b; w_dispatching := w_dispatching w; w_scamper := w_scamper w;
      w_supervisor := w_supervisor w |}, r).

Definition set_dispatching (d : bool) (w : world) : world :=
  {| w_agent := w_agent w; w_broker := w_broker w; w_dispatching := d; w_scamper := w_scamper w;
     w_supervisor := w_supervisor w |}.

Definition set_scamper (s : scamper) (w : world) : world :=
  {| w_agent := w_agent w; w_broker := w_broker w; w_dispatching := w_dispatching w; w_scamper := Some s;
     w_supervisor := w_supervisor w |}.

Definition set_supervisor (s : Supervisor) (w : world) : world :=
  {| w_agent := w_agent w; w_broker := w_broker w; w_dispatching := w_dispatching w;
     w_scamper := w_scamper w; w_supervisor := Some s |}.

(** A deferred call when the rest returns an error. *)
Definition defer_err {S A} (cleanup : S → S) (c : go S A) : go S A := fun s =>
  match c s with (s', RErr e) => (cleanup s', RErr e) | x => x end.

(** Everything up to the wait for the context.  [starting] is the start of the
    scamper process.  The configuration is pulled again on a ticker, and
    [time.NewTicker] panics when its interval is not positive. *)
Definition Run_setup (cancelled : bool) (nats js : res unit) (starting : go scamper unit) : go world unit :=
  on_agent (pullAgentConfiguration cancelled) ;;;
  let* _ := on_broker (agent_setup nats js) in
  go_modify (set_dispatching true) ;;;
  defer_err (set_dispatching false) (
    let* w := go_get in
    match ag_config (w_agent w) with
    | None => go_panic "nil pointer dereference"
    | Some cfg =>
        match NewClient (agentScamperConfig (ag_scamperBinPath (w_agent w)) (uint32 (ac_ScamperPPS cfg))) with
        | RErr e => go_err e
        | RPanic e => go_panic e
        | ROk client =>
            let '(s, started) := starting (unstarted client) in
            go_modify (set_scamper s) ;;;
            match started with
            | RErr e => go_err e
            | RPanic e => go_panic e
            | ROk _ =>
                go_modify (set_supervisor (SetDesiredTasks order (ac_Tasks cfg) NewSupervisor)) ;;;
                if Z.leb (int64 (cp_ConfigPullIntervalSeconds (ag_controlPlane (w_agent w)) * Second)) 0
                then go_panic "non-positive interval for NewTicker" else go_ret tt
            end
        end
    end).

(** Run: the set-up, the wait for the context, the end of the scamper client
    and the deferred stop of the dispatcher.  An error of [Stop] is logged. *)
Definition Run (cancelled : bool) (nats js : res unit) (starting : go scamper unit) : go world unit :=
  Run_setup cancelled nats js starting ;;;
  let* w := go_get in
  match w_scamper w with
  | None => go_panic "nil pointer dereference"
  | Some s =>
      let '(s', stopped) := Stop s in
      go_modify (set_scamper s') ;;;
      match stopped with
      | RPanic e => go_panic e
      | _ => go_modify (set_dispatching false)
      end
  end.

End Run.

(** ** The running agent *)

(** [ar_accepted] are the results the buffer took, [ar_published] what the
    dispatcher took from it and what it made of it. *)
Record agent_run := {
  ar_agent : Agent;
  ar_supervisor : Supervisor;
  ar_stream : ProbeDataStream ProbeResult;
  ar_accepted : list ProbeResult;
  ar_published : list (ProbeResult * published);
  ar_done : bool;
  ar_crashed : option string;
}.

Definition streamSize : nat := 100.

Definition run_start (a : Agent) (sup : Supervisor) : agent_run :=
  {| ar_agent := a; ar_supervisor := sup; ar_stream := NewProbeDataStream streamSize; ar_accepted := [];
     ar_published := []; ar_done := false; ar_crashed := None |}.

Inductive agent_event :=
| PullTick (replies : list reply) (cancelled : bool) (now : time)
| TaskRuns (id : string) (result : res ProbeResult) (pick_done : bool)
| TaskReturns (id : string)
| Dispatches (now : time)
| Shutdown.

(** The executors of Run, whose result in a turn is given. *)
#[local] Instance given_result : Executor (res ProbeResult) := λ r _ _, r.

Definition executors (r : res ProbeResult) : gmap string (res ProbeResult) :=
  {[ TaskTypeStampSender := r; TaskTypeStampReflector := r; TaskTypeTrace := r; TaskTypePing := r ]}.

Definition the_dispatcher (a : Agent) : Dispatcher :=
  {| di_SerialID := ag_SerialId a; di_getAgentConfig := match ag_config a with Some c => ac_ID c | None => "" end |}.

Definition crash (e : string) (s : agent_run) : agent_run :=
  {| ar_agent := ar_agent s; ar_supervisor := ar_supervisor s; ar_stream := ar_stream s;
     ar_accepted := ar_accepted s; ar_published := ar_published s; ar_done := ar_done s; ar_crashed := Some e |}.

(** The body of the ticker loop. *)
Definition pull_tick (order : gmap string Task → list (string * Task)) (replies : list reply) (cancelled : bool)
    (now : time) (s : agent_run) : agent_run :=
  match pullAgentConfiguration cancelled (set_replies replies (ar_agent s)) with
  | (_, RPanic e) => crash e s
  | (a, RErr _) =>
      {| ar_agent := a; ar_supervisor := ar_supervisor s; ar_stream := ar_stream s;
         ar_accepted := ar_accepted s; ar_published := ar_published s; ar_done := ar_done s;
         ar_crashed := None |}
  | (a, ROk _) =>
      match ag_config a with
      | None => crash "nil pointer dereference" s
      | Some cfg =>
          {| ar_agent := set_lastPulled now a;
             ar_supervisor := SetDesiredTasks order (ac_Tasks cfg) (ar_supervisor s);
             ar_stream := ar_stream s; ar_accepted := ar_accepted s; ar_published := ar_published s;
             ar_done := ar_done s; ar_crashed := None |}
      end
  end.

(** A run of a task's executor. *)
Definition task_runs (rt : RunningTask) (result : res ProbeResult) (pick_done : bool) (s : agent_run)
    : agent_run :=
  match runOnce (executors result) (rt_Spec rt) (ar_done s) pick_done (ar_stream s) with
  | (_, RPanic e) => crash e s
  | (st, _) =>
      {| ar_agent := ar_agent s; ar_supervisor := ar_supervisor s; ar_stream := st;
         ar_accepted := ar_accepted s ++ drop (length (ps_buf (ar_stream s))) (ps_buf st);
         ar_published := ar_published s; ar_done := ar_done s; ar_crashed := None |}
  end.

Definition crash_unless (e : string) (s : agent_run) : agent_run :=
  match ar_crashed s with Some _ => s | None => crash e s end.

(** The goroutine of [rt] is gone, its handle stays. *)
Definition returned (rt : RunningTask) (s : agent_run) : agent_run :=
  {| ar_agent := ar_agent s; ar_supervisor := loop_returns rt (ar_supervisor s); ar_stream := ar_stream s;
     ar_accepted := ar_accepted s; ar_published := ar_published s; ar_done := ar_done s;
     ar_crashed := ar_crashed s |}.

(** A turn of the goroutine of [rt], as its loop has it: one run and the end for
    a task that is not scheduled, a run at a time for one that is; computing the
    jitter and making the ticker may panic, which ends the agent.  The random
    number does not matter ([startTaskLoop_rand]). *)
Definition task_turn (rt : RunningTask) (result : res ProbeResult) (pick_done : bool) (s : agent_run)
    : option agent_run :=
  match startTaskLoop 0 (rt_Spec rt) with
  | LoopRefused _ => None
  | LoopOnce => Some (returned rt (task_runs rt result pick_done s))
  | LoopPanics O => Some (crash "invalid argument to Int63n" s)
  | LoopPanics (S _) =>
      Some (crash_unless "non-positive interval for NewTicker" (task_runs rt result pick_done s))
  | LoopPeriodic _ _ => Some (task_runs rt result pick_done s)
  end.

(** When the goroutine of a task returns without a run: the loop refuses the
    task, or its select takes the end of the context. *)
Definition may_return (spec : Task) (done : bool) : bool :=
  match startTaskLoop 0 spec with
  | LoopRefused _ => true
  | LoopOnce | LoopPanics O => false
  | LoopPanics (S _) | LoopPeriodic _ _ => done
  end.

(** The handle of a task whose goroutine is alive. *)
Definition live_task (id : string) (s : agent_run) : option RunningTask :=
  rt ← running (ar_supervisor s) !! id;
  if decide (rt_id rt ∈ live (ar_supervisor s)) then Some rt else None.

Definition dispatches (now : time) (s : agent_run) : option agent_run :=
  match ps_buf (ar_stream s), dispatcher_turn (the_dispatcher (ar_agent s)) now (ar_stream s) with
  | data :: _, (st, Some p) =>
      Some {| ar_agent := ar_agent s; ar_supervisor := ar_supervisor s; ar_stream := st;
              ar_accepted := ar_accepted s; ar_published := ar_published s ++ [(data, p)];
              ar_done := ar_done s; ar_crashed := None |}
  | _, _ => None
  end.

Definition agent_step (order : gmap string Task → list (string * Task)) (e : agent_event) (s : agent_run)
    : option agent_run :=
  match ar_crashed s with
  | Some _ => None
  | None =>
      match e with
      | PullTick replies cancelled now => Some (pull_tick order replies cancelled now s)
      | TaskRuns id result pick_done =>
          rt ← live_task id s; task_turn rt result pick_done s
      | TaskReturns id =>
          rt ← live_task id s; if may_return (rt_Spec rt) (ar_done s) then Some (returned rt s) else None
      | Dispatches now => dispatches now s
      | Shutdown =>
          if ar_done s then None
          else Some {| ar_agent := ar_agent s; ar_supervisor := ar_supervisor s; ar_stream := ar_stream s;
                       ar_accepted := ar_accepted s; ar_published := ar_published s; ar_done := true;
                       ar_crashed := None |}
      end
  end.

Fixpoint agent_steps (order : gmap string Task → list (string * Task)) (es : list agent_event) (s : agent_run)
    : option agent_run :=
  match es with
  | [] => Some s
  | e :: es' => s' ← agent_step order e s; agent_steps order es' s'
  end.

(** ** Pulling: lemmas *)

(** Equal but for the requests made. *)
Definition same_agent (a a' : Agent) : Prop :=
  ag_SerialId a' = ag_SerialId a ∧ ag_generation a' = ag_generation a ∧
  ag_controlPlane a' = ag_controlPlane a ∧ ag_scamperBinPath a' = ag_scamperBinPath a ∧
  ag_config a' = ag_config a ∧ ag_lastPulled a' = ag_lastPulled a.

#[local] Instance same_agent_trans : Transitive same_agent.
Proof. unfold same_agent. intros a b c. intuition congruence. Qed.

(** The answer to the [k]-th request from now. *)
Definition answer (a : Agent) (k : nat) : res AgentConfig :=
  reply_config (ag_SerialId a) (default Unreachable (ag_replies a !! k)).

(** The first answer that is not an error is number [k]. *)
Definition first_answer (a : Agent) (k : nat) (r : res AgentConfig) : Prop :=
  answer a k = r ∧ ∀ j, (j < k)%nat → ∃ e, answer a j = RErr e.

Lemma request_spec a :
  same_agent a (fst (request a)) ∧ ag_requests (fst (request a)) = S (ag_requests a) ∧
  snd (request a) = answer a 0 ∧ ∀ k, answer (fst (request a)) k = answer a (S k).
Proof. unfold answer. simpl. destruct (ag_replies a); by repeat split. Qed.

Lemma first_answer_S a k r e :
  answer a 0 = RErr e → first_answer (fst (request a)) k r → first_answer a (S k) r.
Proof.
  intros He [H1 H2]. destruct (request_spec a) as (_ & _ & _ & Ha). split; [by rewrite <- Ha|].
  intros [|j] Hj; [eauto|]. rewrite <- Ha. apply H2. lia.
Qed.

Lemma first_answer_pred a k r :
  first_answer a (S k) r → (∃ e, answer a 0 = RErr e) ∧ first_answer (fst (request a)) k r.
Proof.
  intros [H1 H2]. destruct (request_spec a) as (_ & _ & _ & Ha). split; [apply H2; lia|].
  split; [by rewrite Ha|]. intros j Hj. rewrite Ha. apply H2. lia.
Qed.

(** Retrying makes at most [n] requests, changes nothing else, and a success is
    the first answer that is no error. *)
Lemma retried_spec cancelled n a a' r :
  retried cancelled request n a a' r →
  same_agent a a' ∧ (ag_requests a' ≤ ag_requests a + n)%nat ∧
  match r with
  | ROk cfg => ∃ k, (k < n)%nat ∧ first_answer a k (ROk cfg)
  | RErr _ => cancelled = true ∨ ∀ k, (k < n)%nat → ∃ e, answer a k = RErr e
  | RPanic e => ∃ k, (k < n)%nat ∧ first_answer a k (RPanic e)
  end.
Proof.
  induction 1 as [n a a' cfg E|n a a' e E|n a a1 e a' r E Hr IH|a a' e e' E|n a e Hc].
  1, 2, 3, 4: destruct (request_spec a) as (Hs & Hn & Ha & Hk); rewrite E in Hs, Hn, Ha, Hk; simpl in *.
  - split; [done|]. split; [lia|]. exists 0%nat. split; [lia|]. split; [done|lia].
  - split; [done|]. split; [lia|]. exists 0%nat. split; [lia|]. split; [done|lia].
  - destruct IH as (IH1 & IH2 & IH3). split; [by etrans|]. split; [lia|].
    assert (a1 = fst (request a)) as E1 by (by rewrite E).
    destruct r as [cfg|e2|e2].
    + destruct IH3 as (k & Hkn & Hf). exists (S k). split; [lia|]. eapply first_answer_S; [done|by rewrite <- E1].
    + destruct IH3 as [?|IH3]; [by left|right]. intros [|k] Hkn; [eauto|].
      rewrite <- Hk. apply IH3. lia.
    + destruct IH3 as (k & Hkn & Hf). exists (S k). split; [lia|]. eapply first_answer_S; [done|by rewrite <- E1].
  - split; [done|]. split; [lia|]. right. intros k Hkn. assert (k = 0%nat) as -> by lia. eauto.
  - split; [by repeat split|]. split; [lia|]. by left.
Qed.

Lemma first_answer_inj a k k' r r' :
  first_answer a k r → first_answer a k' r' → (∀ e, r ≠ RErr e) → (∀ e, r' ≠ RErr e) → r = r'.
Proof.
  intros [H1 H2] [H1' H2'] Hr Hr'. destruct (Nat.lt_total k k') as [Hlt|[->|Hlt]]; [|congruence|].
  - destruct (H2' k Hlt) as [e He]. by destruct (Hr e); congruence.
  - destruct (H2 k' Hlt) as [e He]. by destruct (Hr' e); congruence.
Qed.


(** What a pull does, for an agent whose generation is 0 as in NewAgent. *)
Lemma pull_spec cancelled a :
  ag_generation a = 0 →
  ∃ a1, same_agent a a1 ∧ (ag_requests a1 ≤ ag_requests a + attempts)%nat ∧
  let '(a', r) := pullAgentConfiguration cancelled a in
  match r with
  | ROk _ => ∃ k cfg, (k < attempts)%nat ∧ first_answer a k (ROk cfg) ∧ a' = set_config cfg a1
  | RErr _ => a' = a1 ∧ (cancelled = true ∨ ∀ k, (k < attempts)%nat → ∃ e, answer a k = RErr e)
  | RPanic e => a' = a1 ∧ ∃ k, (k < attempts)%nat ∧ first_answer a k (RPanic e)
  end.
Proof.
  intros Hg. unfold pullAgentConfiguration, go_bind.
  pose proof (retry_Do_spec cancelled 2 request a) as Hr. fold attempts in Hr.
  destruct (retry_Do cancelled attempts request a) as [a1 r]. simpl in Hr.
  apply retried_spec in Hr as (Hs & Hn & Hr). exists a1. split; [done|]. split; [done|].
  destruct r as [cfg|e|e]; [|done..]. unfold go_get.
  pose proof Hs as (_ & -> & _). rewrite Hg. simpl. destruct Hr as (k & Hk & Hf). eauto 6.
Qed.

(** ** The running agent: invariant *)

Section Invariant.
Context (order : gmap string Task → list (string * Task)).
Context (Horder : ∀ m, order m ≡ₚ map_to_list m).

(** The supervisor holds the tasks of the configuration [cfg]: those ids, at
    those generations, and goroutines of no others. *)
Definition runs_tasks (cfg : AgentConfig) (sup : Supervisor) : Prop :=
  sup_ok sup ∧ desired sup = task_map (ac_Tasks cfg) ∧
  dom (running sup) = list_to_set (t_TaskID <$> ac_Tasks cfg) ∧
  ∀ id t rt, task_map (ac_Tasks cfg) !! id = Some t → running sup !! id = Some rt →
    t_Generation (rt_Spec rt) = t_Generation t.

(** A report as the dispatcher makes it for the agent with this serial. *)
Definition reported (serial : string) (x : ProbeResult * published) : Prop :=
  ∃ id now, snd x = dispatch_result {| di_SerialID := serial; di_getAgentConfig := id |} now (fst x).

(** A task without a goroutine is one that does not go on: it was refused, or it
    was not scheduled and has run. *)
Definition ended (spec : Task) : Prop :=
  (∃ why, startTaskLoop 0 spec = LoopRefused why) ∨ startTaskLoop 0 spec = LoopOnce.

Definition scheduled_alive (s : agent_run) : Prop :=
  ∀ id rt, running (ar_supervisor s) !! id = Some rt →
    rt_id rt ∈ live (ar_supervisor s) ∨ ar_done s = true ∨ ended (rt_Spec rt).

Record agent_ok (serial : string) (s : agent_run) : Prop := {
  ak_serial : ag_SerialId (ar_agent s) = serial;
  ak_generation : ag_generation (ar_agent s) = 0;
  ak_tasks : ∃ cfg, ag_config (ar_agent s) = Some cfg ∧ runs_tasks cfg (ar_supervisor s);
  ak_bound : (length (ps_buf (ar_stream s)) ≤ ps_cap (ar_stream s))%nat ∧ ps_cap (ar_stream s) = streamSize;
  ak_fifo : ar_accepted s = (ar_published s).*1 ++ ps_buf (ar_stream s);
  ak_reported : Forall (reported serial) (ar_published s);
  ak_alive : scheduled_alive s;
}.

Lemma SetDesiredTasks_runs cfg sup :
  sup_ok sup → runs_tasks cfg (SetDesiredTasks order (ac_Tasks cfg) sup).
Proof.
  intros Hok. destruct (SetDesiredTasks_spec order Horder (ac_Tasks cfg) sup Hok) as (Hok' & Hd & Hall).
  split; [done|]. split; [done|]. split.
  - rewrite <- task_map_dom. apply set_eq. intros id. rewrite !elem_of_dom. specialize (Hall id).
    destruct (task_map (ac_Tasks cfg) !! id).
    + destruct Hall as ([rt alive] & [-> _]%task_at_Some & _). split; eauto.
    + apply task_at_None in Hall as ->. split; by intros [].
  - intros id t rt Ht Hrt. specialize (Hall id). rewrite Ht in Hall.
    destruct Hall as ([rt' alive] & [Hrt' _]%task_at_Some & Hc). simplify_eq.
    by apply converged_generation in Hc.
Qed.

(** Reconciling with the configuration that rows were pulled as. *)
Lemma follow_rows serial rows cfg sup :
  pullConfiguration serial (ROk (ROk <$> rows)) (ROk tt) = ROk cfg →
  NoDup (tc_task_id <$> columns_of rows) → sup_ok sup →
  let sup' := SetDesiredTasks order (ac_Tasks cfg) sup in
  dom (running sup') = list_to_set (tc_task_id <$> columns_of rows) ∧
  Forall (λ col, ∃ rt, running sup' !! tc_task_id col = Some rt ∧
    t_Generation (rt_Spec rt) = int32 (default 0 (tc_generation col)) ∧
    ∀ rt0, running sup !! tc_task_id col = Some rt0 →
      t_Generation (rt_Spec rt0) = int32 (default 0 (tc_generation col)) → rt = rt0) (columns_of rows).
Proof.
  intros Hp%pull_tasks Hnd Hok sup'.
  assert (t_TaskID <$> ac_Tasks cfg = tc_task_id <$> columns_of rows) as Hids.
  { clear -Hp. induction Hp as [|c t cs ts [E _ _ _ _ _] _ IH]; [done|]. csimpl. by rewrite E, IH. }
  destruct (SetDesiredTasks_runs cfg sup Hok) as (_ & _ & Hdom & _). fold sup' in Hdom.
  split; [by rewrite Hdom, Hids|].
  destruct (SetDesiredTasks_spec order Horder (ac_Tasks cfg) sup Hok) as (_ & _ & Hall). fold sup' in Hall.
  apply Forall_forall. intros col Hcol. apply list_elem_of_lookup in Hcol as (i & Hi).
  destruct (Forall2_lookup_l _ _ _ _ _ Hp Hi) as (t & Ht & [E1 _ _ E2 _ _]).
  assert (task_map (ac_Tasks cfg) !! tc_task_id col = Some t) as Hm.
  { rewrite <- E1. apply task_map_lookup; [by rewrite Hids|by eapply list_elem_of_lookup_2]. }
  specialize (Hall (tc_task_id col)). rewrite Hm in Hall.
  destruct Hall as ([rt alive] & [Hrt _]%task_at_Some & Hc).
  exists rt. split; [done|]. pose proof (converged_generation _ _ _ Hc) as Hg. simpl in Hg. split; [congruence|].
  intros rt0 Hrt0 Hg0. unfold converged, task_at in Hc. rewrite Hrt0 in Hc. simpl in Hc.
  destruct (Z.eqb_spec (t_Generation (rt_Spec rt0)) (t_Generation t)); congruence.
Qed.

(** Reconciliation leaves no scheduled task without a goroutine. *)
Lemma reconciled_alive tasks s s' :
  sup_ok (ar_supervisor s) → scheduled_alive s →
  ar_supervisor s' = SetDesiredTasks order tasks (ar_supervisor s) → ar_done s' = ar_done s →
  scheduled_alive s'.
Proof.
  intros Hok Hal E Ed id rt. rewrite E, Ed. intros Hrt.
  destruct (decide (rt_id rt ∈ live (SetDesiredTasks order tasks (ar_supervisor s)))) as [?|Hno]; [by left|right].
  assert (task_at (ar_supervisor s) id = Some (rt, false)) as [Hrt0 Hd]%task_at_Some.
  { eapply SetDesiredTasks_idle; [exact Horder|done|]. apply task_at_Some.
    split; [done|]. by rewrite bool_decide_false. }
  destruct (Hal id rt Hrt0) as [Hin|?]; [|done]. by rewrite bool_decide_true in Hd.
Qed.

Lemma pull_tick_ok serial replies cancelled now s :
  agent_ok serial s → agent_ok serial (pull_tick order replies cancelled now s).
Proof.
  intros [H1 H2 (cfg & H3 & H4) H5 H6 H7 H8]. unfold pull_tick.
  destruct (pull_spec cancelled (set_replies replies (ar_agent s)) H2) as (a1 & Hs & _ & Hr).
  destruct Hs as (S1 & S2 & _ & _ & S5 & _). simpl in *.
  destruct (pullAgentConfiguration cancelled _) as [a' [[]|e|e]].
  - destruct Hr as (k & cfg' & _ & _ & ->). simpl. split; simpl; try congruence; try done.
    + exists cfg'. split; [done|]. apply SetDesiredTasks_runs, H4.
    + by eapply (reconciled_alive (ac_Tasks cfg') s); [apply H4|..].
  - destruct Hr as [-> _]. split; simpl; try congruence; try done. exists cfg. split; [congruence|done].
  - split; simpl; try done. eauto.
Qed.

Lemma task_runs_ok serial rt result pick_done s :
  agent_ok serial s → agent_ok serial (task_runs rt result pick_done s).
Proof.
  intros [H1 H2 H3 [H5 H5'] H6 H7 H8]. unfold task_runs.
  pose proof (runOnce_spec (executors result) (rt_Spec rt) (ar_done s) pick_done (ar_stream s) H5) as Hr.
  assert (ps_cap (fst (runOnce (executors result) (rt_Spec rt) (ar_done s) pick_done (ar_stream s))) =
    ps_cap (ar_stream s)) as Hcap.
  { unfold runOnce, go_bind, Insert. repeat case_match; simplify_eq/=; done. }
  destruct (runOnce _ _ _ _ _) as [st r]. simpl in *. destruct Hr as [Hb Hr].
  destruct r as [[]|e|e]; split; simpl; try done; try (split; [done|congruence]);
    (destruct Hr as [->|(? & p & _ & _ & ->)]; [by rewrite drop_all, app_nil_r|]);
    rewrite drop_app_length, H6, <- app_assoc; done.
Qed.

Lemma agent_crash_ok serial e s : agent_ok serial s → agent_ok serial (crash e s).
Proof. by intros []. Qed.

Lemma agent_crash_unless_ok serial e s : agent_ok serial s → agent_ok serial (crash_unless e s).
Proof. intros Hok. unfold crash_unless. destruct (ar_crashed s); [done|]. by apply agent_crash_ok. Qed.

Lemma live_task_Some id s rt :
  live_task id s = Some rt ↔ running (ar_supervisor s) !! id = Some rt ∧ rt_id rt ∈ live (ar_supervisor s).
Proof.
  unfold live_task. destruct (running (ar_supervisor s) !! id) as [rt'|]; simpl; [case_decide|]; naive_solver.
Qed.

(** A goroutine that returns is that of an ended task, or the context is over. *)
Lemma returned_ok serial id rt s :
  running (ar_supervisor s) !! id = Some rt → ar_done s = true ∨ ended (rt_Spec rt) →
  agent_ok serial s → agent_ok serial (returned rt s).
Proof.
  intros Hrt Hend [H1 H2 (cfg & H3 & [Hok H4]) H5 H6 H7 H8]. split; try done.
  - exists cfg. split; [done|]. split; [by apply loop_returns_ok|done].
  - intros id' rt' Hrt'. simpl in *. destruct (decide (rt_id rt' = rt_id rt)) as [E|Hne].
    + assert (id' = id) as -> by (by eapply (so_inj _ Hok)). simplify_eq. by right.
    + destruct (H8 id' rt' Hrt') as [?|?]; [left; set_solver|by right].
Qed.

Lemma task_runs_supervisor rt result pick_done s :
  ar_supervisor (task_runs rt result pick_done s) = ar_supervisor s ∧
  ar_done (task_runs rt result pick_done s) = ar_done s.
Proof. unfold task_runs. by destruct (runOnce _ _ _ _ _) as [st [[]|e|e]]. Qed.

Lemma task_turn_ok serial id rt result pick_done s s' :
  running (ar_supervisor s) !! id = Some rt → task_turn rt result pick_done s = Some s' →
  agent_ok serial s → agent_ok serial s'.
Proof.
  intros Hrt Ht Hok. pose proof (task_runs_ok serial rt result pick_done s Hok) as Hok1.
  destruct (task_runs_supervisor rt result pick_done s) as [Es _].
  unfold task_turn in Ht. destruct (startTaskLoop 0 (rt_Spec rt)) as [why| |[|n]|first period] eqn:El;
    simplify_eq; [|by apply agent_crash_ok|by apply agent_crash_unless_ok|done].
  eapply returned_ok; [by rewrite Es|right; by right|done].
Qed.

(** A turn publishes nothing and takes back nothing that was accepted. *)
Lemma task_turn_frame rt result pick_done s s' :
  task_turn rt result pick_done s = Some s' →
  ar_published s' = ar_published s ∧ ar_accepted s `prefix_of` ar_accepted s'.
Proof.
  assert (ar_published (task_runs rt result pick_done s) = ar_published s ∧
    ar_accepted s `prefix_of` ar_accepted (task_runs rt result pick_done s)) as Ht.
  { unfold task_runs. destruct (runOnce _ _ _ _ _) as [st [[]|e|e]]; simpl; split; try done; by apply prefix_app_r. }
  unfold task_turn, crash_unless. repeat case_match; intros; simplify_eq; done.
Qed.

Lemma may_return_cases spec dn : may_return spec dn = true → dn = true ∨ ended spec.
Proof.
  unfold may_return, ended. destruct (startTaskLoop 0 spec) as [why| |[|n]|]; eauto; done.
Qed.

Lemma dispatches_ok serial now s s' :
  dispatches now s = Some s' → agent_ok serial s → agent_ok serial s'.
Proof.
  intros Hd [H1 H2 H3 [H5 H5'] H6 H7 H8]. unfold dispatches, dispatcher_turn in Hd.
  destruct (ps_buf (ar_stream s)) as [|data l] eqn:El; simplify_eq/=.
  split; simpl; try done.
  - split; [simpl in *; lia|done].
  - rewrite H6, fmap_app, <- app_assoc. done.
  - apply Forall_app. split; [done|]. apply Forall_singleton. unfold reported, the_dispatcher. simpl. eauto.
Qed.

Lemma agent_step_ok serial e s s' : agent_step order e s = Some s' → agent_ok serial s → agent_ok serial s'.
Proof.
  intros Hs Hok. unfold agent_step in Hs. destruct (ar_crashed s); [done|].
  destruct e as [replies cancelled now|id result pick_done|id|now|].
  - simplify_eq. by apply pull_tick_ok.
  - apply bind_Some in Hs as (rt & [Hrt _]%live_task_Some & Hs). by eapply task_turn_ok.
  - apply bind_Some in Hs as (rt & [Hrt _]%live_task_Some & Hs).
    destruct (may_return _ _) eqn:Em; simplify_eq.
    eapply returned_ok; [done|by apply may_return_cases|done].
  - by eapply dispatches_ok.
  - destruct (ar_done s); simplify_eq. destruct Hok as [? ? ? ? ? ? _]; split; try done.
    intros id rt _. right. by left.
Qed.

Lemma agent_steps_ok serial es s s' :
  agent_steps order es s = Some s' → agent_ok serial s → agent_ok serial s'.
Proof.
  revert s. induction es as [|e es IH]; intros s; simpl; [by intros [= <-]|].
  intros (s1 & Hs & Hr)%bind_Some Hok. eapply IH; [done|]. by eapply agent_step_ok.
Qed.

(** ** The set-up of Run: lemmas *)

Section RunFacts.
Context {B : Type} `{Broker B}.

Lemma agent_streams_total (b : B) : ∃ b' logged, agent_streams b = (b', ROk logged).
Proof.
  unfold agent_streams, go_bind, go_try, go_ret.
  pose proof (CreateOrUpdateStream_spec PROBE_STAMP b) as P1.
  destruct (CreateOrUpdateStream PROBE_STAMP b) as [b1 [?|?|e]]; [| |by destruct (proj1 P1 e)];
    pose proof (CreateOrUpdateStream_spec PROBE_TRACE b1) as P2;
    (destruct (CreateOrUpdateStream PROBE_TRACE b1) as [b2 [?|?|e]]; [| |by destruct (proj1 P2 e)]); eauto.
Qed.

Definition fresh_world (cfg : AgentInitConfig) (replies : list reply) (b : B) : world (B:=B) :=
  {| w_agent := NewAgent cfg replies; w_broker := b; w_dispatching := false; w_scamper := None;
     w_supervisor := None |}.

(** How the set-up ends. *)
Definition setup_outcome (replies : list reply) (cfg : AgentInitConfig) (w : world (B:=B)) (r : res unit) : Prop :=
  let a0 := NewAgent cfg replies in
  (ag_requests (w_agent w) ≤ attempts)%nat ∧
  match r with
  | ROk _ => w_dispatching w = true ∧
      (∃ s, w_scamper w = Some s ∧ sp_process s = Running ∧ sp_reading s = true ∧ sp_conn s = true ∧
         sp_stopped s = false) ∧
      ∃ k acfg sup, (k < attempts)%nat ∧ first_answer a0 k (ROk acfg) ∧
        same_agent (set_config acfg a0) (w_agent w) ∧ w_supervisor w = Some sup ∧ runs_tasks acfg sup ∧
        (∀ id rt, running sup !! id = Some rt → rt_id rt ∈ live sup) ∧
        0 < int64 (cp_ConfigPullIntervalSeconds (ai_ControlPlaneConfig cfg) * Second)
  | RErr _ => w_dispatching w = false ∧ w_supervisor w = None
  | RPanic _ => True
  end.

(** The tasks first set all have their goroutines. *)
Lemma first_tasks_live tasks id rt :
  let sup := SetDesiredTasks order tasks NewSupervisor in
  running sup !! id = Some rt → rt_id rt ∈ live sup.
Proof.
  intros sup Hrt. destruct (decide (rt_id rt ∈ live sup)) as [?|Hno]; [done|].
  assert (task_at NewSupervisor id = Some (rt, false)) as [[=] _]%task_at_Some.
  eapply SetDesiredTasks_idle; [exact Horder|apply NewSupervisor_ok|]. apply task_at_Some.
  split; [exact Hrt|]. by rewrite bool_decide_false.
Qed.

(** How Agent.Run starts, whatever the network does: it makes at most three
    requests; it returns an error only with the dispatcher stopped and no task
    started; and when it gets to its loop, the dispatcher and scamper with its
    reader run, and the supervisor runs exactly the tasks of the first
    configuration the control plane answered with. *)
Lemma Run_setup_spec cancelled nats js executed ctx_done exists_ dialled written acked cfg replies b :
  let '(w, r) := Run_setup order cancelled nats js (Start executed ctx_done exists_ dialled written acked)
                   (fresh_world cfg replies b) in
  setup_outcome replies cfg w r.
Proof.
  destruct (pull_spec cancelled (NewAgent cfg replies) eq_refl) as (a1 & Hs & Hn & Hr).
  unfold Run_setup, go_bind at 1, on_agent at 1. simpl.
  destruct (pullAgentConfiguration cancelled (NewAgent cfg replies)) as [a2 [[]|e|e]];
    [|destruct Hr as [-> _]; split; [done|by split]|destruct Hr as [-> _]; by split].
  destruct Hr as (k & acfg & Hk & Hf & ->). unfold go_bind at 1, on_broker at 1. simpl.
  unfold agent_setup at 1, go_bind at 1, outcome at 1.
  destruct nats as [[]|e|e]; [|by split..]. unfold go_bind at 1, outcome at 1.
  destruct js as [[]|e|e]; [|by split..].
  destruct (agent_streams_total b) as (b' & logged & ->).
  unfold defer_err, go_bind, go_modify, go_get, set_dispatching. simpl.
  destruct (NewClient _) as [client|e|e] eqn:Ec; [|by split..].
  pose proof (Start_spec executed ctx_done exists_ dialled written acked client) as HS. cbv zeta in HS.
  destruct (Start executed ctx_done exists_ dialled written acked _) as [sc [[]|e|e]]; [|by split..].
  destruct HS as (_ & HS & _). destruct (HS eq_refl) as (HS1 & HS2 & HS3 & HS4 & _). simpl.
  destruct Hs as (S1 & S2 & S3 & S4 & S5 & S6).
  destruct (Z.leb_spec (int64 (cp_ConfigPullIntervalSeconds (ag_controlPlane a1) * Second)) 0) as [Hi|Hi];
    [by split|]. split; [done|]. split; [done|]. split; [by exists sc|].
  exists k, acfg, (SetDesiredTasks order (ac_Tasks acfg) NewSupervisor).
  split; [done|]. split; [done|]. split; [by repeat split|]. split; [done|].
  split; [apply SetDesiredTasks_runs, NewSupervisor_ok|]. rewrite S3 in Hi. split; [|exact Hi].
  by apply first_tasks_live.
Qed.

(** Run returns with the dispatcher stopped, and without an error once it got to
    its loop. *)
Lemma Run_returns cancelled nats js executed ctx_done exists_ dialled written acked cfg replies b :
  let starting := Start executed ctx_done exists_ dialled written acked in
  let '(w, r) := Run order cancelled nats js starting (fresh_world cfg replies b) in
  (∀ e, r ≠ RPanic e) → w_dispatching w = false ∧
  (r = ROk tt ↔ snd (Run_setup order cancelled nats js starting (fresh_world cfg replies b)) = ROk tt).
Proof.
  intros starting.
  pose proof (Run_setup_spec cancelled nats js executed ctx_done exists_ dialled written acked cfg replies b) as Ho.
  unfold Run, go_bind at 1. fold starting in Ho.
  destruct (Run_setup order cancelled nats js starting (fresh_world cfg replies b)) as [w [[]|e|e]]; simpl.
  - destruct Ho as (_ & _ & (s & Hs & _ & _ & Hc & Hst) & _). unfold go_bind, go_get. rewrite Hs.
    destruct (Stop_once s Hc Hst) as (s' & -> & _). done.
  - destruct Ho as [_ [-> _]]. done.
  - intros Hp. by destruct (Hp e).
Qed.

Lemma run_start_ok acfg cfg replies a sup :
  same_agent (set_config acfg (NewAgent cfg replies)) a → runs_tasks acfg sup →
  (∀ id rt, running sup !! id = Some rt → rt_id rt ∈ live sup) →
  agent_ok (ai_SerialId cfg) (run_start a sup).
Proof.
  intros (S1 & S2 & _ & _ & S5 & _) Hr Hl. split; simpl in *; try done; [by exists acfg|by split; [unfold streamSize; lia|]|].
  intros id rt Hrt. left. by eapply Hl.
Qed.

(** ** Theorems *)


End RunFacts.

(** C21. The control plane is followed: when the first of up to three answers
    that is no error delivers the rows of the device, with distinct task ids,
    the tick ends with exactly the tasks of those rows running, each at the
    generation of its row; a task whose generation has not changed keeps its
    handle and goroutine.  When all three answers are errors nothing changes. *)
Theorem agent_follows_control_plane serial s replies now :
  agent_ok serial s → ar_crashed s = None →
  ∃ s', agent_step order (PullTick replies false now) s = Some s' ∧
  (∀ k rows cfg, (k < attempts)%nat → replies !! k = Some (Served (ROk (ROk <$> rows)) (ROk tt)) →
    pullConfiguration serial (ROk (ROk <$> rows)) (ROk tt) = ROk cfg →
    (∀ j, (j < k)%nat → ∃ e, reply_config serial (default Unreachable (replies !! j)) = RErr e) →
    NoDup (tc_task_id <$> columns_of rows) →
    dom (running (ar_supervisor s')) = list_to_set (tc_task_id <$> columns_of rows) ∧
    Forall (λ col, ∃ rt, running (ar_supervisor s') !! tc_task_id col = Some rt ∧
      t_Generation (rt_Spec rt) = int32 (default 0 (tc_generation col)) ∧
      ∀ rt0, running (ar_supervisor s) !! tc_task_id col = Some rt0 →
        t_Generation (rt_Spec rt0) = int32 (default 0 (tc_generation col)) → rt = rt0) (columns_of rows)) ∧
  ((∀ k, (k < attempts)%nat → ∃ e, reply_config serial (default Unreachable (replies !! k)) = RErr e) →
    ar_supervisor s' = ar_supervisor s ∧ ag_config (ar_agent s') = ag_config (ar_agent s)).
Proof.
  intros [H1 H2 (cfg0 & H3 & H4) _ _ _ _] Hcr. unfold agent_step. rewrite Hcr. eexists. split; [done|].
  unfold pull_tick.
  destruct (pull_spec false (set_replies replies (ar_agent s)) H2) as (a1 & Hs & _ & Hr).
  assert (∀ k, answer (set_replies replies (ar_agent s)) k =
    reply_config serial (default Unreachable (replies !! k))) as Ha by (intros k; unfold answer; simpl; by rewrite H1).
  destruct (pullAgentConfiguration false _) as [a' r]. split.
  - intros k rows cfg Hk Hrep Hp Hj Hnd.
    assert (first_answer (set_replies replies (ar_agent s)) k (ROk cfg)) as Hf.
    { split; [rewrite Ha, Hrep; done|]. intros j Hlt. rewrite Ha. by apply Hj. }
    destruct r as [[]|e|e].
    + destruct Hr as (k' & cfg' & _ & Hf' & ->). simpl.
      pose proof (first_answer_inj _ _ _ _ _ Hf Hf' ltac:(done) ltac:(done)) as [= <-].
      exact (follow_rows serial rows cfg (ar_supervisor s) Hp Hnd (proj1 H4)).
    + destruct Hr as (_ & [?|Hr]); [done|]. destruct (Hr k Hk) as [e' He]. destruct Hf as [Hf _]. congruence.
    + destruct Hr as (_ & k' & _ & Hf').
      by pose proof (first_answer_inj _ _ _ _ _ Hf Hf' ltac:(done) ltac:(done)).
  - intros Hall. destruct Hs as (_ & _ & _ & _ & S5 & _). destruct r as [[]|e|e].
    + destruct Hr as (k & cfg' & Hk & [Hf _] & _). destruct (Hall k Hk) as [e He]. rewrite Ha in Hf. congruence.
    + destruct Hr as [-> _]. simpl. split; [done|]. by rewrite S5.
    + destruct Hr as (_ & k & Hk & [Hf _]). destruct (Hall k Hk) as [e' He]. rewrite Ha in Hf. congruence.
Qed.

End Invariant.

End Agent.

(** ** Witnesses *)

(** Attempts in a row. *)
Fixpoint simple_retry {S A} (n : nat) (f : go S A) : go S A := fun s =>
  match n with
  | O => (s, RErr "no attempts")
  | Datatypes.S n' =>
      match f s, n' with
      | (s', RErr e), Datatypes.S _ => simple_retry n' f s'
      | x, _ => x
      end
  end.

#[export] Program Instance SimpleRetry : RetryLib := {| retry_Do := λ S A _ n f, simple_retry n f |}.
Next Obligation.
  intros S A cancelled n f. induction n as [|n IH]; intros s.
  - simpl. destruct (f s) as [s' [a|e|e]] eqn:E; simpl; [by eapply retried_ok|by eapply retried_last|by eapply retried_panic].
  - change (simple_retry (Datatypes.S (Datatypes.S n)) f s) with
      (match f s with (s', RErr e) => simple_retry (Datatypes.S n) f s' | x => x end).
    destruct (f s) as [s' [a|e|e]] eqn:E; [by eapply retried_ok| |by eapply retried_panic].
    eapply retried_again; [done|]. apply IH.
Qed.

Definition example_init : AgentInitConfig :=
  {| ai_SerialId := "agent-1";
     ai_ControlPlaneConfig := {| cp_URL := "http://control:8080"; cp_ConfigPullIntervalSeconds := 30;
                                 cp_Sink := "stdout"; cp_OTelCollectorURL := "" |};
     ai_ScamperBinPath := "/usr/bin/scamper" |}.

Definition rows_served : reply := Served (ROk (ROk <$> one_row)) (ROk tt).

Definition example_setup : world (B:=map_broker) * res unit :=
  Run_setup map_to_list false (ROk tt) (ROk tt)
    (Start (ROk tt) (λ _, false) (λ i, Nat.eqb i 3) (ROk tt) (ROk tt) true)
    (fresh_world example_init [Unreachable; rows_served] empty_broker).

Definition example_supervisor : Supervisor := default NewSupervisor (w_supervisor (fst example_setup)).

Definition example_agent : agent_run := run_start (w_agent (fst example_setup)) example_supervisor.

Definition ping_result : ProbeResult :=
  {| prr_TaskID := "t1"; prr_ProbeType := ProbeTypePing; prr_Kind := "ping"; prr_Timestamp := 0;
     prr_Data := RawDoc JNull |}.

(** A result, a pull that fails three times, and a report. *)
Definition example_events : list agent_event :=
  [TaskRuns "t1" (ROk ping_result) false; PullTick [] false 5; TaskRuns "t1" (ROk ping_result) false;
   Dispatches 6].


Lemma agent_follows_control_plane_witness :
  ∃ s', agent_step map_to_list (PullTick [Unreachable; rows_served] false 9) example_agent = Some s' ∧
    dom (running (ar_supervisor s')) = {["t1"]}.
Proof.
  assert (agent_ok "agent-1" example_agent) as Hok.
  { assert (setup_outcome [Unreachable; rows_served] example_init (fst example_setup) (snd example_setup)) as Ho.
    { unfold example_setup.
      pose proof (Run_setup_spec map_to_list (λ m, Permutation_refl _) false (ROk tt) (ROk tt) (ROk tt)
        (λ _, false) (λ i, Nat.eqb i 3) (ROk tt) (ROk tt) true example_init [Unreachable; rows_served]
        empty_broker) as Ho.
      by destruct (Run_setup _ _ _ _ _ _). }
    assert (snd example_setup = ROk tt) as Eok by (vm_compute; reflexivity).
    rewrite Eok in Ho.
    destruct Ho as (_ & _ & _ & k & acfg & sup & _ & _ & Hs & Hsup & Hr & Hl & _).
    unfold example_agent, example_supervisor. rewrite Hsup. exact (run_start_ok _ _ _ _ _ Hs Hr Hl). }
  destruct (agent_follows_control_plane map_to_list (λ m, Permutation_refl _) "agent-1" example_agent
    [Unreachable; rows_served] 9 Hok ltac:(vm_compute; reflexivity)) as (s' & E & Hrows & _).
  exists s'. split; [exact E|].
  destruct (pullConfiguration "agent-1" (ROk (ROk <$> one_row)) (ROk tt)) as [cfg|e|e] eqn:Ep;
    [|vm_compute in Ep; discriminate..].
  destruct (Hrows 1%nat one_row cfg) as [Hdom _].
  - unfold attempts. lia.
  - reflexivity.
  - exact Ep.
  - intros j Hj. assert (j = 0%nat) as -> by lia. exists "unavailable". reflexivity.
  - apply NoDup_singleton.
  - rewrite Hdom. reflexivity.
Defined.
