(* ===== verification/System.v ===== *)
(** * The system: agents, a processor and Argus over NATS

    The running components composed: any number of agent processes, the probe
    stream they publish to, a processor that consumes it and publishes
    measurement events, and Argus that consumes those.  JetStream delivers at
    least once: a fetch may return any message of its stream, any number of
    times; a publication that was acknowledged is in the stream, one that was
    not may be, and a retry may store it again.  Each process may stop at any
    point and be started again on what its database holds.  The composite state
    projects to the states of the components, and each step is a step of one of
    them together with what it does to the streams. *)

From S2P Require Import Prelude Float64 Float64Round GoTime Json ArgusTypes LeakyBucket Detectors.
From S2P Require Import ArgusDb PolicyEngine PolicyEngineFacts PolicyEngineProps ArgusWorker ArgusWorkerProps.
From S2P Require Import ArgusRun Provenance Reports AgentConfig Supervisor Scamper ScamperProcess AgentPipeline.
From S2P Require Import Processors ProcessorsProps ProcessorRun Environment JetStream AgentRun.
Import PolicyEngine.PolicyEngine.

Local Open Scope go_scope.

(** ** What an event says about its report *)

(** The report as the processor decodes it: absent data is a JSON null. *)
Definition on_the_wire (r : ReportPayload) : ReportPayload :=
  let p := rpl_Payload r in
  {| rpl_Payload := {| prr_TaskID := prr_TaskID p; prr_ProbeType := prr_ProbeType p; prr_Kind := prr_Kind p;
       prr_Timestamp := prr_Timestamp p;
       prr_Data := match prr_Data p with RawEmpty => RawDoc JNull | d => d end |};
     rpl_SerialID := rpl_SerialID r; rpl_SentTimestamp := rpl_SentTimestamp r;
     rpl_AgentConfigId := rpl_AgentConfigId r |}.

Lemma report_on_the_wire r j :
  report_to_json r = Some j → unmarshal report_from_json report_zero (RawDoc j) = Some (on_the_wire r).
Proof.
  intros Hj. destruct r as [[id ty kind ts d] s t c].
  destruct d as [| |d].
  - eapply (report_roundtrip (on_the_wire _) j JNull); [done|exact Hj].
  - unfold report_to_json, probe_result_to_json in Hj. simpl in Hj. by destruct (enc_time ts).
  - by eapply (report_roundtrip (on_the_wire _) j d).
Qed.

(** The columns of a measurement row that its event and its findings share. *)
Class MeasurementRow (M : Type) := {
  row_serial : M → string;
  row_target : M → string;
  row_time : M → time;
}.

(** What a processor promises to the consumers of its events. *)
Class ReportEvents {M P} `{MeasurementRow M} (RP : ReportProcessor M P) : Prop :=
  report_event d pub m ps :
    rp_consume d (ROk tt) true = ROk (Queued pub m ps) →
    ∃ payload e, unmarshal report_from_json report_zero d = Some payload ∧
      unmarshal event_from_json event_zero (RawDoc (snd pub)) = Some e ∧
      rpl_SerialID payload = row_serial m ∧ me_SerialID e = row_serial m ∧
      me_Target e = row_target m ∧ me_Timestamp e = row_time m ∧
      is_Some (seriesFromEvent e) ∧ is_Some (decodeMetrics e).

#[export] Instance stamp_row : MeasurementRow StampMeasurementRow :=
  {| row_serial := smr_SerialID; row_target := smr_Target; row_time := smr_Timestamp |}.
#[export] Instance ping_row_key : MeasurementRow PingMeasurementRow :=
  {| row_serial := pmr_SerialID; row_target := pmr_Target; row_time := pmr_Timestamp |}.

Lemma publication_event kind serial e pub d :
  publication kind serial e = Some pub → me_Metrics e = RawDoc d → (-2147483648 ≤ me_Port e ≤ 2147483647)%Z →
  unmarshal event_from_json event_zero (RawDoc (snd pub)) = Some e.
Proof.
  unfold publication. destruct (event_to_json e) as [j|] eqn:E; [|done]. intros [= <-] Hm Hp.
  by eapply event_roundtrip.
Qed.

Lemma int64_bounded z : int64_ok (int64 z).
Proof. unfold int64_ok. pose proof (int64_range z). lia. Qed.

Lemma int32_bounded z : int64_ok (int32 z).
Proof. unfold int64_ok. pose proof (int32_range z). lia. Qed.

#[export] Instance stamp_events `{UuidLib} : ReportEvents stamp_processor.
Proof.
  intros d pub m ps. simpl. unfold consume_stamp, buildStamp.
  destruct (unmarshal _ _ d) as [payload|]; [|done]. case_match; [done|].
  destruct (remarshal _ ≫= _) as [sd|] eqn:Esd; [|done].
  apply bind_Some in Esd as (mm & _ & Hb%stamp_data_bounded).
  assert (∀ f st, (∀ p, probe_bounded p → int64_ok (f p)) → computeStats (f <$> received_probes sd) = ROk st →
    int64_ok (ls_P95 st)) as Hst.
  { intros f st Hf. apply computeStats_int64, Forall_fmap, Forall_forall. intros p Hp. apply Hf.
    rewrite Forall_forall in Hb. apply Hb. by apply list_elem_of_In, filter_In, proj1, list_elem_of_In in Hp. }
  destruct (computeStats _) as [s1|e|e] eqn:E1; simpl; [|done..]. apply Hst in E1; [|by intros ? (? & ? & ?)].
  destruct (computeStats _) as [s2|e|e] eqn:E2; simpl; [|done..]. apply Hst in E2; [|by intros ? (? & ? & ?)].
  destruct (computeStats _) as [s3|e|e] eqn:E3; simpl; [|done..]. apply Hst in E3; [|by intros ? (? & ? & ?)].
  destruct (parse_config_id _) as [cid|e|e]; simpl; [|done..].
  destruct (publication _ _ _) as [pub'|] eqn:E; [|done]. intros [= <- <- <-].
  eexists payload, _. split; [done|]. split; [eapply publication_event; [exact E|done|apply int32_range]|].
  do 4 (split; [done|]). split; [done|]. by erewrite stamp_metrics_roundtrip by (done || apply int64_bounded).
Qed.

#[export] Instance ping_events `{UuidLib} : ReportEvents ping_processor.
Proof.
  intros d pub m ps. simpl. unfold consume_ping, buildPing.
  destruct (unmarshal _ _ d) as [payload|]; [|done]. case_match; [done|].
  destruct (unmarshal _ _ (prr_Data _)) as [pd|]; [|done].
  destruct (computeStats _) as [s1|e|e] eqn:E1; simpl; [|done..].
  apply computeStats_int64 in E1; [|apply Forall_fmap, Forall_forall; intros; apply f64_to_int64_ok].
  destruct (parse_config_id _) as [cid|e|e]; simpl; [|done..].
  destruct (publication _ _ _) as [pub'|] eqn:E; [|done]. intros [= <- <- <-].
  eexists payload, _. split; [done|]. split; [eapply publication_event; [exact E|done|simpl; lia]|].
  do 4 (split; [done|]). split; [done|].
  by erewrite ping_metrics_roundtrip by (done || apply int32_bounded).
Qed.

(** ** The composite *)

Section System.
Context `{PT : ProtoTime} `{RL : RetryLib} `{UL : UuidLib}.
Context {M P : Type} `{MR : MeasurementRow M} {RP : ReportProcessor M P} `{RE : !ReportEvents RP}.
Context {B : Type} `{BR : Broker B}.
Context (order : gmap string Task → list (string * Task)) (Horder : ∀ m, order m ≡ₚ map_to_list m).
Context (cfg : PolicyEngineConfig) (registry : gmap string (list Extractor)) (detectors : gmap string Detector).
Context `{TD : !TimelyDetectors detectors}.
(** The processor's filter on subjects. *)
Context (filter : string → bool).

(** [sy_reports] and [sy_events] are the two streams; [sy_deliveries] are the
    stream sequence numbers of what the processor has fetched, [sy_acked] those
    its earlier lives acknowledged; [sy_known] is what earlier lives of Argus
    fetched. *)
Record system := {
  sy_agents : list agent_run;
  sy_reports : list (string * json);
  sy_processor : processor (M:=M) (P:=P);
  sy_deliveries : list nat;
  sy_acked : list nat;
  sy_events : list (string * json);
  sy_argus : argus;
  sy_known : list raw;
}.

Definition no_tables : tables M P := {| tb_measurements := []; tb_probes := [] |}.

Definition system_start (e : env) : system :=
  {| sy_agents := []; sy_reports := []; sy_processor := start no_tables 0; sy_deliveries := []; sy_acked := [];
     sy_events := []; sy_argus := argus_start (started e); sy_known := [] |}.

(** What an agent's step publishes, each report stored as many times as given. *)
Fixpoint publish (l : list (ProbeResult * published)) (copies : list nat) : list (string * json) :=
  match l with
  | [] => []
  | (_, Published subject doc) :: l' => replicate (default O (head copies)) (subject, doc) ++ publish l' (tl copies)
  | (_, Skipped) :: l' => publish l' (tl copies)
  end.

(** The event the processor is about to publish. *)
Definition attempted (p : processor (M:=M) (P:=P)) : option (string * json) :=
  match pr_consumer p with
  | Handling ((_, d) :: _) => match rp_consume d (ROk tt) true with ROk (Queued pub _ _) => Some pub | _ => None end
  | _ => None
  end.

Definition plain (e : event) : bool := match e with Fetch _ | Message _ => false | _ => true end.

Definition is_fetch (e : argus_event) : bool := match e with RouterFetch _ => true | _ => false end.

(** A message of the measurement stream. *)
Definition event_msg (evs : list (string * json)) (d : raw) : Prop :=
  ∃ pub, pub ∈ evs ∧ d = RawDoc (snd pub).

(** The sequence numbers the processor has acknowledged in this life. *)
Definition acked_now (s : system) : list nat :=
  omap (λ k, sy_deliveries s !! k) (acked (st_settled (pr_store (sy_processor s)))).

Inductive system_step : system → system → Prop :=
| sys_agent_start ags reps p dl ak evs a kn cancelled nats js executed ctx_done exists_ dialled written answered
    init replies (b : B) w sup :
    Run_setup order cancelled nats js (Start executed ctx_done exists_ dialled written answered)
      (fresh_world init replies b) = (w, ROk tt) →
    w_supervisor w = Some sup →
    system_step (Build_system ags reps p dl ak evs a kn)
      (Build_system (ags ++ [run_start (w_agent w) sup]) reps p dl ak evs a kn)
| sys_agent ags reps p dl ak evs a kn i e ag ag' copies :
    ags !! i = Some ag → agent_step order e ag = Some ag' →
    system_step (Build_system ags reps p dl ak evs a kn)
      (Build_system (<[i := ag']> ags)
         (reps ++ publish (drop (length (ar_published ag)) (ar_published ag')) copies) p dl ak evs a kn)
| sys_fetch ags reps p dl ak evs a kn seqs docs p' :
    Forall2 (λ n d, ∃ subject doc, reps !! n = Some (subject, doc) ∧ filter subject = true ∧ d = RawDoc doc) seqs docs →
    step (Fetch docs) p = Some p' →
    system_step (Build_system ags reps p dl ak evs a kn) (Build_system ags reps p' (dl ++ seqs) ak evs a kn)
| sys_message ags reps p dl ak evs a kn r p' n :
    step (Message r) p = Some p' → (r = ROk tt → 0 < n)%nat →
    system_step (Build_system ags reps p dl ak evs a kn)
      (Build_system ags reps p' dl ak
         (evs ++ match attempted p with Some pub => replicate n pub | None => [] end) a kn)
| sys_processor ags reps p dl ak evs a kn e p' :
    plain e = true → step e p = Some p' →
    system_step (Build_system ags reps p dl ak evs a kn) (Build_system ags reps p' dl ak evs a kn)
| sys_processor_restart s :
    system_step s
      {| sy_agents := sy_agents s; sy_reports := sy_reports s;
         sy_processor := start (st_tables (pr_store (sy_processor s))) (st_next (pr_store (sy_processor s)));
         sy_deliveries := []; sy_acked := sy_acked s ++ acked_now s; sy_events := sy_events s;
         sy_argus := sy_argus s; sy_known := sy_known s |}
| sys_argus_fetch ags reps p dl ak evs a kn docs a' :
    Forall (event_msg evs) docs →
    argus_step cfg registry detectors (RouterFetch docs) a = Some a' →
    system_step (Build_system ags reps p dl ak evs a kn) (Build_system ags reps p dl ak evs a' kn)
| sys_argus ags reps p dl ak evs a kn e a' :
    is_fetch e = false → argus_step cfg registry detectors e a = Some a' →
    system_step (Build_system ags reps p dl ak evs a kn) (Build_system ags reps p dl ak evs a' kn)
| sys_argus_restart ags reps p dl ak evs a kn ord now w r :
    PolicyEngine_Start cfg ord now (started (en_env (au_engine a))) = (w, r) →
    system_step (Build_system ags reps p dl ak evs a kn)
      (Build_system ags reps p dl ak evs
         (match r with ROk _ => argus_start w | RErr e | RPanic e => argus_crash e (argus_start w) end)
         (kn ++ au_log a)).

(** ** The invariant *)

Definition consumes (doc : json) (pub : string * json) (m : M) (ps : list P) : Prop :=
  rp_consume (RawDoc doc) (ROk tt) true = ROk (Queued pub m ps).

(** Some agent made this report of a result of its executors. *)
Definition agent_made (ags : list agent_run) (r : string * json) : Prop :=
  ∃ ag data, ag ∈ ags ∧ (data, Published (fst r) (snd r)) ∈ ar_published ag.

(** The rows of a report are in the tables, its event in the stream. *)
Definition report_stored (evs : list (string * json)) (t : tables M P) (doc : json) : Prop :=
  ∃ id pub m ps, consumes doc pub m ps ∧ pub ∈ evs ∧ (id, m) ∈ tb_measurements t ∧
    ∀ q, q ∈ ps → (id, q) ∈ tb_probes t.

(** Every row is one of a report of the stream. *)
Definition rows_reported (reps evs : list (string * json)) (t : tables M P) : Prop :=
  (∀ id m, (id, m) ∈ tb_measurements t →
    ∃ r pub ps, r ∈ reps ∧ consumes (snd r) pub m ps ∧ pub ∈ evs) ∧
  (∀ id q, (id, q) ∈ tb_probes t →
    ∃ r pub m ps, r ∈ reps ∧ consumes (snd r) pub m ps ∧ q ∈ ps ∧ (id, m) ∈ tb_measurements t).

(** Delivery of the message with this sequence number. *)
Definition delivers (reps : list (string * json)) (n : nat) (d : raw) : Prop :=
  ∃ r, reps !! n = Some r ∧ d = RawDoc (snd r).

(** The report with this sequence number is stored. *)
Definition seq_stored (reps evs : list (string * json)) (t : tables M P) (n : nat) : Prop :=
  ∃ r, reps !! n = Some r ∧ report_stored evs t (snd r).

Record system_ok (s : system) : Prop := {
  so_agents : Forall (λ ag, agent_ok (ag_SerialId (ar_agent ag)) ag) (sy_agents s);
  so_reports : Forall (agent_made (sy_agents s)) (sy_reports s);
  so_processor : ∃ t0 n0, processor_ok t0 n0 (sy_processor s) ∧
    rows_reported (sy_reports s) (sy_events s) t0 ∧
    Forall (seq_stored (sy_reports s) (sy_events s) t0) (sy_acked s);
  so_deliveries : Forall2 (delivers (sy_reports s)) (sy_deliveries s) (pr_log (sy_processor s));
  so_published : pr_published (sy_processor s) ⊆ sy_events s;
  so_events : Forall (λ pub, ∃ r m ps, r ∈ sy_reports s ∧ consumes (snd r) pub m ps) (sy_events s);
  so_argus : argus_ok (sy_argus s) ∧ argus_sourced detectors (sy_known s) (sy_argus s);
  so_fetched : Forall (event_msg (sy_events s)) (sy_known s ++ au_log (sy_argus s));
}.

Lemma rows_reported_mono reps reps' evs evs' t :
  reps ⊆ reps' → evs ⊆ evs' → rows_reported reps evs t → rows_reported reps' evs' t.
Proof. intros Hr He [H1 H2]. split; [|naive_solver]. intros id m Hm. destruct (H1 id m Hm) as (r & ? & ? & ? & ? & ?). eauto 10. Qed.

Lemma report_stored_mono evs evs' t doc : evs ⊆ evs' → report_stored evs t doc → report_stored evs' t doc.
Proof. intros He (id & pub & m & ps & ? & ? & ?). exists id, pub, m, ps. auto. Qed.

Lemma add_rows_measurements (t0 : tables M P) (cm : list (nat * pending M P)) (id : nat) (m : M) :
  (id, m) ∈ tb_measurements (add_rows t0 (rows_of cm)) ↔
  (id, m) ∈ tb_measurements t0 ∨ ∃ p, (id, p) ∈ cm ∧ m = pe_measurement p.
Proof.
  unfold add_rows, rows_of. simpl. rewrite elem_of_app, list_elem_of_fmap. f_equiv. split.
  - intros ([i p] & [= -> ->] & Hin). eauto.
  - intros (p & Hin & ->). by exists (id, p).
Qed.

Lemma add_rows_probes (t0 : tables M P) (cm : list (nat * pending M P)) (id : nat) (q : P) :
  (id, q) ∈ tb_probes (add_rows t0 (rows_of cm)) ↔
  (id, q) ∈ tb_probes t0 ∨ ∃ p, (id, p) ∈ cm ∧ q ∈ pe_probes p.
Proof.
  unfold add_rows, rows_of. simpl. rewrite elem_of_app, list_elem_of_bind. f_equiv. split.
  - intros ([i p] & Hin & Hp). apply list_elem_of_fmap in Hin as (y & [= -> ->] & Hin). eauto.
  - intros (p & Hin & Hq). exists (id, p). split; [apply list_elem_of_fmap; eauto|done].
Qed.

(** What the deliveries of the processor say about a pending row. *)
Lemma built_report reps evs dl (p : processor (M:=M) (P:=P)) pe :
  Forall2 (delivers reps) dl (pr_log p) →
  pr_published p ⊆ evs → built (pr_log p) (pr_published p) pe →
  ∃ n r pub, dl !! pe_msg pe = Some n ∧ reps !! n = Some r ∧ pub ∈ evs ∧
    consumes (snd r) pub (pe_measurement pe) (pe_probes pe).
Proof.
  intros Hdl Hp (d & pub & Hd & Hpub & Hc).
  destruct (Forall2_lookup_r _ _ _ _ _ Hdl Hd) as (n & Hn & r & Hr & ->). exists n, r, pub. auto.
Qed.

(** The tables of a running processor and what it has acknowledged. *)
Lemma processor_rows reps evs dl (p : processor (M:=M) (P:=P)) t0 n0 ak :
  processor_ok t0 n0 p → rows_reported reps evs t0 →
  Forall (seq_stored reps evs t0) ak →
  Forall2 (delivers reps) dl (pr_log p) →
  pr_published p ⊆ evs →
  rows_reported reps evs (st_tables (pr_store p)) ∧
  Forall (seq_stored reps evs (st_tables (pr_store p)))
    (ak ++ omap (λ k, dl !! k) (acked (st_settled (pr_store p)))).
Proof.
  intros Hok [R1 R2] Hak Hdl Hpub. destruct (ok_stored _ _ _ Hok) as (cm & [S1 S2 S3 S4] & Hb).
  assert (∀ id pe, (id, pe) ∈ cm → ∃ n r pub, dl !! pe_msg pe = Some n ∧ reps !! n = Some r ∧ pub ∈ evs ∧
    consumes (snd r) pub (pe_measurement pe) (pe_probes pe)) as Hcm.
  { intros id pe Hin. eapply built_report; [done|done|]. rewrite Forall_forall in Hb. apply Hb.
    apply list_elem_of_fmap. by exists (id, pe). }
  rewrite S1, S2. split; [split|].
  - intros id m [Hm|(pe & Hin & ->)]%add_rows_measurements; [by eapply R1|].
    destruct (Hcm id pe Hin) as (n & r & pub & _ & Hr & ? & ?). exists r, pub, (pe_probes pe).
    split; [by eapply list_elem_of_lookup_2|done].
  - intros id q [Hq|(pe & Hin & Hq)]%add_rows_probes.
    + destruct (R2 id q Hq) as (r & pub & m & ps & ? & ? & ? & ?). exists r, pub, m, ps.
      rewrite add_rows_measurements. eauto 10.
    + destruct (Hcm id pe Hin) as (n & r & pub & _ & Hr & ? & ?). exists r, pub, (pe_measurement pe), (pe_probes pe).
      rewrite add_rows_measurements. split; [by eapply list_elem_of_lookup_2|]. eauto 10.
  - apply Forall_app. split.
    + eapply Forall_impl; [exact Hak|]. intros n (r & Hr & id & pub & m & ps & Hc & He & Hm & Hq).
      exists r. split; [done|]. exists id, pub, m, ps. do 2 (split; [done|]).
      split; [apply add_rows_measurements; by left|]. intros q Hin. apply add_rows_probes. left. auto.
    + apply Forall_forall. intros n (k & Hk & Hn)%list_elem_of_omap.
      apply list_elem_of_fmap in Hk as ([id pe] & -> & Hin). simpl in Hn.
      destruct (Hcm id pe Hin) as (n' & r & pub & Hn' & Hr & He & Hc). simplify_eq.
      exists r. split; [done|]. exists id, pub, (pe_measurement pe), (pe_probes pe). do 2 (split; [done|]).
      split; [apply add_rows_measurements; eauto|]. intros q Hq. apply add_rows_probes. eauto.
Qed.
(** ** What one step does to the logs *)

Lemma step_log e (p p' : processor (M:=M) (P:=P)) :
  step e p = Some p' → pr_log p' = pr_log p ++ match e with Fetch msgs => msgs | _ => [] end.
Proof.
  unfold step, handle, flusher_turn. intros Hs. destruct (pr_crashed p); [done|].
  destruct e; repeat case_match; simplify_eq/=; by rewrite ?app_nil_r.
Qed.

Lemma step_published e (p p' : processor (M:=M) (P:=P)) :
  step e p = Some p' →
  pr_published p' = pr_published p ∨
  e = Message (ROk tt) ∧ ∃ pub, attempted p = Some pub ∧ pr_published p' = pr_published p ++ [pub].
Proof.
  intros Hs. unfold step in Hs. destruct (pr_crashed p); [done|].
  destruct e as [|msgs| | |published| | |faults|faults|].
  5: { destruct (pr_consumer p) as [[|[id d] rest]|q rest|] eqn:Ec; try done. unfold handle in Hs.
       destruct (rp_consume d published true) as [[|pub|pub m ps]|e|e] eqn:E; simplify_eq/=; [by left| |by left].
       right. pose proof (rp_published _ _ _ _ _ _ E) as ->. split; [done|]. exists pub.
       unfold attempted. by rewrite Ec, E. }
  all: left; unfold flusher_turn in Hs; repeat case_match; by simplify_eq/=.
Qed.

(** The event about to be published is that of a delivered report. *)
Lemma attempted_report reps dl (p : processor (M:=M) (P:=P)) t0 n0 pub :
  processor_ok t0 n0 p → Forall2 (delivers reps) dl (pr_log p) → attempted p = Some pub →
  ∃ r m ps, r ∈ reps ∧ consumes (snd r) pub m ps.
Proof.
  intros Hok Hdl Ha. pose proof (ok_data _ _ _ Hok) as Hd. unfold attempted in Ha.
  destruct (pr_consumer p) as [[|[id d] rest]|q rest|]; try done. simpl in Hd.
  apply Forall_cons in Hd as [Hd _]. simpl in Hd.
  destruct (rp_consume d (ROk tt) true) as [[|pub'|pub' m ps]|e|e] eqn:E; simplify_eq.
  destruct (Forall2_lookup_r _ _ _ _ _ Hdl Hd) as (n & Hn & r & Hr & ->).
  exists r, m, ps. split; [by eapply list_elem_of_lookup_2|exact E].
Qed.

Lemma agent_step_published e ag ag' :
  agent_step order e ag = Some ag' → ar_published ag `prefix_of` ar_published ag'.
Proof.
  unfold agent_step. intros Hs. destruct (ar_crashed ag); [done|].
  destruct e as [replies cancelled now|id result pick_done|id|now|].
  - simplify_eq. unfold pull_tick. repeat case_match; done.
  - apply bind_Some in Hs as (rt & _ & Hs). by apply task_turn_frame in Hs as [-> _].
  - apply bind_Some in Hs as (rt & _ & Hs). by case_match; simplify_eq.
  - unfold dispatches in Hs. repeat case_match; simplify_eq/=. by apply prefix_app_r.
  - destruct (ar_done ag); by simplify_eq.
Qed.

Lemma publish_elem l copies r : r ∈ publish l copies → ∃ data, (data, Published (fst r) (snd r)) ∈ l.
Proof.
  revert copies. induction l as [|[data [|subject doc]] l IH]; intros copies Hr; simpl in Hr.
  - by apply not_elem_of_nil in Hr.
  - destruct (IH _ Hr) as (d & Hd). exists d. by right.
  - apply elem_of_app in Hr as [->%elem_of_replicate_inv|Hr]; [exists data; by left|].
    destruct (IH _ Hr) as (d & Hd). exists d. by right.
Qed.

Lemma agent_made_app ags ags' r : agent_made ags r → agent_made (ags ++ ags') r.
Proof. intros (ag & data & Hin & Hp). exists ag, data. split; [|done]. apply elem_of_app. by left. Qed.

Lemma agent_made_insert ags i ag ag' r :
  ags !! i = Some ag → ar_published ag `prefix_of` ar_published ag' →
  agent_made ags r → agent_made (<[i := ag']> ags) r.
Proof.
  intros Hi [k Hk] (ag0 & data & Hin & Hp). apply list_elem_of_lookup in Hin as (j & Hj).
  destruct (decide (j = i)) as [->|Hne].
  - simplify_eq. exists ag', data. split; [|rewrite Hk; apply elem_of_app; by left].
    apply (list_elem_of_lookup_2 _ i). apply list_lookup_insert_eq. by eapply lookup_lt_Some.
  - exists ag0, data. split; [|done]. apply (list_elem_of_lookup_2 _ j).
    by rewrite list_lookup_insert_ne.
Qed.

(** ** Every step preserves the invariant *)

(** More messages in the streams change nothing about the earlier ones. *)
Lemma seq_stored_mono reps reps' evs evs' t n :
  reps `prefix_of` reps' → evs ⊆ evs' → seq_stored reps evs t n → seq_stored reps' evs' t n.
Proof.
  intros Hr He (r & Hn & Hs). exists r. split; [by eapply prefix_lookup_Some|]. by eapply report_stored_mono.
Qed.

Lemma prefix_subseteq {A} (l l' : list A) : l `prefix_of` l' → l ⊆ l'.
Proof. intros [k ->]. set_solver. Qed.

(** The parts of the invariant that grow with the streams. *)
Lemma streams_grow s reps' evs' :
  sy_reports s `prefix_of` reps' → sy_events s ⊆ evs' → system_ok s →
  (∃ t0 n0, processor_ok t0 n0 (sy_processor s) ∧ rows_reported reps' evs' t0 ∧
    Forall (seq_stored reps' evs' t0) (sy_acked s)) ∧
  Forall2 (delivers reps') (sy_deliveries s) (pr_log (sy_processor s)) ∧
  Forall (λ pub, ∃ r m ps, r ∈ reps' ∧ consumes (snd r) pub m ps) (sy_events s) ∧
  Forall (event_msg evs') (sy_known s ++ au_log (sy_argus s)).
Proof.
  intros Hr He [_ _ (t0 & n0 & S1 & S2 & S3) S4 _ S6 _ S8]. pose proof (prefix_subseteq _ _ Hr) as Hr'.
  split; [|split; [|split]].
  - exists t0, n0. split; [done|]. split; [by eapply rows_reported_mono|].
    eapply Forall_impl; [exact S3|]. intros n. by apply seq_stored_mono.
  - eapply Forall2_impl; [exact S4|]. intros n d (r & Hn & ->). exists r.
    split; [by eapply prefix_lookup_Some|done].
  - eapply Forall_impl; [exact S6|]. intros pub (r & m & ps & Hin & Hc). exists r, m, ps. auto.
  - eapply Forall_impl; [exact S8|]. intros d (pub & Hin & ->). exists pub. auto.
Qed.

Lemma system_start_ok e : e_db e = empty_db → system_ok (system_start e).
Proof.
  intros He. split; simpl; try done.
  - exists no_tables, 0%nat. split; [apply processor_start_ok|]. split; [|done]. split; intros ? ? Hin; set_solver.
  - split.
    + apply argus_start_ok. unfold engine_inv, started, en_db. simpl. rewrite He. by split.
    + split; [|done]. unfold all_findings, started, en_db. simpl. rewrite He. apply map_Forall_empty.
Qed.

Lemma agent_start_ok ags reps p dl ak evs a kn serial ag :
  agent_ok serial ag → system_ok (Build_system ags reps p dl ak evs a kn) →
  system_ok (Build_system (ags ++ [ag]) reps p dl ak evs a kn).
Proof.
  intros Hag [S1 S2 S3 S4 S5 S6 S7 S8]. split; simpl in *; try done.
  - apply Forall_app. split; [done|]. apply Forall_singleton. by rewrite (ak_serial _ _ Hag).
  - eapply Forall_impl; [exact S2|]. intros r. apply agent_made_app.
Qed.

Lemma agent_turn_ok ags reps p dl ak evs a kn i e ag ag' copies :
  ags !! i = Some ag → agent_step order e ag = Some ag' →
  system_ok (Build_system ags reps p dl ak evs a kn) →
  system_ok (Build_system (<[i := ag']> ags)
    (reps ++ publish (drop (length (ar_published ag)) (ar_published ag')) copies) p dl ak evs a kn).
Proof.
  intros Hi Hst Hok. pose proof (agent_step_published _ _ _ Hst) as Hp.
  set (more := publish _ _).
  destruct (streams_grow (Build_system ags reps p dl ak evs a kn) (reps ++ more) evs) as (G1 & G2 & G3 & G4);
    [by apply prefix_app_r|done|exact Hok|].
  destruct Hok as [S1 S2 S3 S4 S5 S6 S7 S8]. simpl in *. split; simpl; try done.
  - apply Forall_insert; [done|]. pose proof (proj1 (Forall_lookup _ _) S1 _ _ Hi) as Hag. simpl in Hag.
    pose proof (agent_step_ok order Horder _ _ _ _ Hst Hag) as Hag'. by rewrite (ak_serial _ _ Hag').
  - apply Forall_app. split.
    + eapply Forall_impl; [exact S2|]. intros r. by eapply agent_made_insert.
    + apply Forall_forall. intros r (data & Hd)%publish_elem. exists ag', data. split.
      * apply (list_elem_of_lookup_2 _ i). apply list_lookup_insert_eq. by eapply lookup_lt_Some.
      * apply list_elem_of_lookup in Hd as (j & Hj). rewrite lookup_drop in Hj. by eapply list_elem_of_lookup_2.
Qed.

(** A turn of the processor, with the deliveries and the events it goes with. *)
Lemma processor_turn_ok ags reps p dl ak evs a kn e p' seqs more :
  step e p = Some p' →
  Forall2 (delivers reps) seqs (match e with Fetch msgs => msgs | _ => [] end) →
  (∀ pub, attempted p = Some pub → e = Message (ROk tt) → pub ∈ more) →
  (∀ pub, pub ∈ more → attempted p = Some pub) →
  system_ok (Build_system ags reps p dl ak evs a kn) →
  system_ok (Build_system ags reps p' (dl ++ seqs) ak (evs ++ more) a kn).
Proof.
  intros Hst Hsq Hmore Hatt Hok.
  destruct (streams_grow (Build_system ags reps p dl ak evs a kn) reps (evs ++ more)) as (G1 & G2 & G3 & G4);
    [done|simpl; set_solver|exact Hok|].
  destruct Hok as [S1 S2 S3 S4 S5 S6 S7 S8]. simpl in *. split; simpl; try done.
  - destruct G1 as (t0 & n0 & P1 & P2 & P3). exists t0, n0. split; [by eapply step_ok|done].
  - rewrite (step_log _ _ _ Hst). by apply Forall2_app.
  - destruct (step_published _ _ _ Hst) as [->|(-> & pub & Ha & ->)]; [set_solver|].
    pose proof (Hmore pub Ha eq_refl). set_solver.
  - apply Forall_app. split; [done|]. apply Forall_forall. intros pub Hin.
    destruct S3 as (t0 & n0 & P1 & _). by eapply attempted_report, Hatt.
Qed.

Lemma argus_turn_ok ags reps p dl ak evs a kn e a' :
  argus_step cfg registry detectors e a = Some a' →
  Forall (event_msg evs) (match e with RouterFetch msgs => msgs | _ => [] end) →
  system_ok (Build_system ags reps p dl ak evs a kn) → system_ok (Build_system ags reps p dl ak evs a' kn).
Proof.
  intros Hst Hev [S1 S2 S3 S4 S5 S6 [S7 S7'] S8]. simpl in *. split; simpl; try done.
  - split; [by eapply argus_step_ok|]. by eapply argus_step_sourced.
  - assert (au_log a' = au_log a ++ match e with RouterFetch msgs => msgs | _ => [] end) as ->.
    { clear -Hst. unfold argus_step in Hst. destruct (au_crashed a); [done|].
      destruct e; repeat case_match; simplify_eq/=; rewrite ?app_nil_r; try done;
        unfold router_dispatch, router_drop, worker_plan, worker_turn, sweep_tick in *;
        repeat case_match; by simplify_eq/=. }
    rewrite app_assoc. by apply Forall_app.
Qed.

Lemma argus_restart_ok ags reps p dl ak evs a kn ord now w r :
  PolicyEngine_Start cfg ord now (started (en_env (au_engine a))) = (w, r) →
  system_ok (Build_system ags reps p dl ak evs a kn) →
  system_ok (Build_system ags reps p dl ak evs
    (match r with ROk _ => argus_start w | RErr e | RPanic e => argus_crash e (argus_start w) end) (kn ++ au_log a)).
Proof.
  intros Hst [S1 S2 S3 S4 S5 S6 [S7 [F1 F2]] S8]. simpl in *.
  assert (engine_inv w) as Hi.
  { pose proof (Sweep_inv cfg ord now (started (en_env (au_engine a)))) as HS. unfold PolicyEngine_Start in Hst.
    rewrite Hst in HS. apply HS. destruct (ao_engine _ S7) as [_ ?]. by split. }
  assert (all_findings (sourced ((kn ++ au_log a) ++ [])) w) as Hf.
  { rewrite app_nil_r. pose proof (all_Sweep cfg _ ord now (started (en_env (au_engine a))) F1) as HS.
    unfold PolicyEngine_Start in Hst. by rewrite Hst in HS. }
  pose proof (argus_start_ok w Hi) as Hok.
  assert (argus_sourced detectors (kn ++ au_log a) (argus_start w)) as Hs by (by split).
  split; simpl; try done.
  - destruct r as [[]|e|e]; [done|..]; (split; [by apply crash_ok|by destruct Hs; split]).
  - assert (au_log (match r with ROk _ => argus_start w | RErr e | RPanic e => argus_crash e (argus_start w) end) = [])
      as -> by (by destruct r). by rewrite app_nil_r.
Qed.

Lemma processor_restart_ok s :
  system_ok s → system_ok
    {| sy_agents := sy_agents s; sy_reports := sy_reports s;
       sy_processor := start (st_tables (pr_store (sy_processor s))) (st_next (pr_store (sy_processor s)));
       sy_deliveries := []; sy_acked := sy_acked s ++ acked_now s; sy_events := sy_events s;
       sy_argus := sy_argus s; sy_known := sy_known s |}.
Proof.
  intros [S1 S2 (t0 & n0 & P1 & P2 & P3) S4 S5 S6 S7 S8].
  destruct (processor_rows _ _ _ _ _ _ _ P1 P2 P3 S4 S5) as [R1 R2].
  split; simpl; try done; [|set_solver]. eexists _, _. split; [apply processor_start_ok|]. by split.
Qed.

Lemma system_step_ok s s' : system_step s s' → system_ok s → system_ok s'.
Proof.
  destruct 1 as [ags reps p dl ak evs a kn cancelled nats js executed ctx_done exists_ dialled written answered init replies b w sup
      Hrun Hsup|ags reps p dl ak evs a kn i e ag ag' copies Hi Hst
    |ags reps p dl ak evs a kn seqs docs p' Hsq Hst|ags reps p dl ak evs a kn r p' n Hst Hn
    |ags reps p dl ak evs a kn e p' He Hst|s|ags reps p dl ak evs a kn docs a' Hd Hst
    |ags reps p dl ak evs a kn e a' He Hst|ags reps p dl ak evs a kn ord now w r Hst].
  - pose proof (Run_setup_spec order Horder cancelled nats js executed ctx_done exists_ dialled written answered
      init replies b) as Ho. rewrite Hrun in Ho.
    destruct Ho as (_ & _ & _ & k & acfg & sup' & _ & _ & Hs & Hsup' & Hr & Hl & _).
    assert (sup' = sup) as -> by congruence. by eapply agent_start_ok, run_start_ok.
  - by eapply agent_turn_ok.
  - intros Hok. rewrite <- (app_nil_r evs). eapply processor_turn_ok; [exact Hst| |done|set_solver|done].
    eapply Forall2_impl; [exact Hsq|]. intros m d (subject & doc & Hm & _ & ->). by exists (subject, doc).
  - intros Hok. rewrite <- (app_nil_r dl). eapply processor_turn_ok; [exact Hst|by constructor|..|done].
    + intros pub -> [= ->]. apply elem_of_replicate. split; [done|]. specialize (Hn eq_refl). lia.
    + intros pub. destruct (attempted p) as [pub'|]; [|set_solver]. by intros ->%elem_of_replicate_inv.
  - intros Hok. rewrite <- (app_nil_r dl), <- (app_nil_r evs).
    eapply processor_turn_ok; [exact Hst|by destruct e|by intros pub _ ->|set_solver|done].
  - apply processor_restart_ok.
  - by eapply argus_turn_ok.
  - intros Hok. eapply argus_turn_ok; [exact Hst|by destruct e|done].
  - by eapply argus_restart_ok.
Qed.

Lemma system_reachable_ok e s :
  e_db e = empty_db → rtc system_step (system_start e) s → system_ok s.
Proof.
  intros He Hr. pose proof (system_start_ok e He) as Hok. revert Hok.
  induction Hr as [|s1 s2 s3 Hst _ IH]; [done|]. eauto using system_step_ok.
Qed.

(** ** Theorems *)

(** The report [r] is one that an agent with this serial made of a result of
    its executors. *)
Definition made_by (ags : list agent_run) (serial : string) (r : string * json) : Prop :=
  ∃ ag data id now, ag ∈ ags ∧ ag_SerialId (ar_agent ag) = serial ∧ data ∈ ar_accepted ag ∧
    dispatch_result {| di_SerialID := serial; di_getAgentConfig := id |} now data = Published (fst r) (snd r).

Lemma report_serial ags r pub m ps :
  Forall (λ ag, agent_ok (ag_SerialId (ar_agent ag)) ag) ags → agent_made ags r →
  consumes (snd r) pub m ps → made_by ags (row_serial m) r.
Proof.
  intros Hags (ag & data & Hin & Hp) Hc. rewrite Forall_forall in Hags. pose proof (Hags ag Hin) as Hag.
  destruct (report_event _ _ _ _ Hc) as (payload & e & Hu & _ & Hs & _).
  pose proof (proj1 (Forall_forall _ _) (ak_reported _ _ Hag) _ Hp) as (id & now & Hd). simpl in Hd.
  exists ag, data, id, now. split; [done|].
  assert (ag_SerialId (ar_agent ag) = row_serial m) as Hser.
  { unfold dispatch_result in Hd. destruct (String.eqb _ _); [done|].
    destruct (report_to_json _) as [j|] eqn:Ej; [|done]. injection Hd as _ Hj. rewrite <- Hj in Ej.
    apply report_on_the_wire in Ej. rewrite Hu in Ej. injection Ej as ->. exact Hs. }
  split; [done|]. rewrite <- Hser. split; [|done]. rewrite (ak_fifo _ _ Hag). apply elem_of_app. left.
  apply list_elem_of_fmap. by exists (data, Published (fst r) (snd r)).
Qed.

(** What was acknowledged, now or earlier, is stored. *)
Lemma acked_stored s n :
  system_ok s → n ∈ sy_acked s ++ acked_now s →
  seq_stored (sy_reports s) (sy_events s) (st_tables (pr_store (sy_processor s))) n.
Proof.
  intros [S1 S2 (t0 & n0 & P1 & P2 & P3) S4 S5 _ _ _] Hn.
  destruct (processor_rows _ _ _ _ _ _ _ P1 P2 P3 S4 S5) as [_ R]. rewrite Forall_forall in R. by apply R.
Qed.

(** C2. End to end.  In every state the system reaches, with any number of
    agents, lost or repeated publications and deliveries, failing statements
    and restarts of every process: a measurement row, and every probe row of
    it, is what the processor computes from a report that the agent with the
    row's serial made of a result of its executors, and the row's event was
    published; a report the processor has acknowledged, in this life or an
    earlier one, has its rows stored and its event in the stream; and a finding
    in Argus's database is about a measurement computed from such a report: its
    serial and target are the measurement's and its instant is the
    measurement's at the resolution of the table. *)
Theorem system_traces e s :
  e_db e = empty_db → rtc system_step (system_start e) s →
  let t := st_tables (pr_store (sy_processor s)) in
  (∀ id m, (id, m) ∈ tb_measurements t → ∃ r pub ps, r ∈ sy_reports s ∧ consumes (snd r) pub m ps ∧
     pub ∈ sy_events s ∧ made_by (sy_agents s) (row_serial m) r) ∧
  (∀ id q, (id, q) ∈ tb_probes t → ∃ r pub m ps, r ∈ sy_reports s ∧ consumes (snd r) pub m ps ∧ q ∈ ps ∧
     (id, m) ∈ tb_measurements t) ∧
  (∀ n, n ∈ sy_acked s ++ acked_now s → seq_stored (sy_reports s) (sy_events s) t n) ∧
  ∀ i f, findings (en_db (au_engine (sy_argus s))) !! i = Some f →
    ∃ r pub m ps, r ∈ sy_reports s ∧ consumes (snd r) pub m ps ∧ made_by (sy_agents s) (row_serial m) r ∧
      fi_serial_id f = row_serial m ∧ fi_target f = row_target m ∧ fi_ts f = timestamptz (row_time m).
Proof.
  intros He Hr t. destruct (system_reachable_ok e s He Hr) as [S1 S2 (t0 & n0 & P1 & P2 & P3) S4 S5 S6 [_ [F _]] S8].
  destruct (processor_rows _ _ _ _ _ _ _ P1 P2 P3 S4 S5) as [[R1 R2] R3]. rewrite Forall_forall in S2.
  split; [|split; [done|split; [by apply Forall_forall|]]].
  - intros id m Hm. destruct (R1 id m Hm) as (r & pub & ps & Hin & Hc & Hp). exists r, pub, ps.
    split; [done|]. split; [done|]. split; [done|]. eapply report_serial; [done|by apply S2|done].
  - intros i f Hf. destruct (F i f Hf) as (d & ev & se & Hd & Hu & Hse & E1 & E2 & _ & E4).
    rewrite Forall_forall in S8. destruct (S8 d Hd) as (pub & Hpub & ->).
    rewrite Forall_forall in S6. destruct (S6 pub Hpub) as (r & m & ps & Hin & Hc).
    exists r, pub, m, ps. split; [done|]. split; [done|].
    split; [eapply report_serial; [done|by apply S2|done]|].
    destruct (report_event _ _ _ _ Hc) as (payload & e' & _ & He' & _ & K1 & K2 & K3 & _).
    assert (e' = ev) as -> by congruence.
    assert (s_SerialId se = me_SerialID ev ∧ s_Target se = me_Target ev) as [Z1 Z2].
    { clear -Hse. unfold seriesFromEvent in Hse. repeat case_match; by simplify_eq/=. }
    split; [congruence|]. split; [congruence|]. by rewrite E4, K3.
Qed.

End System.

(** ** Witness: a ping report stored twice in the stream and delivered three times *)

#[local] Existing Instance BinaryUuid.
#[local] Existing Instance BetaBinomial.ExampleMath.

Definition system_row : ConfigRow :=
  {| cr_id := "1"; cr_generation := 1; cr_report_endpoint := "nats"; cr_report_batch := 10;
     cr_report_interval := 5; cr_report_timeout := 5; cr_updated_at := 0; cr_task := Some ping_columns |}.

Definition system_world : world (B:=map_broker) * res unit :=
  Run_setup map_to_list false (ROk tt) (ROk tt)
    (Start (ROk tt) (λ _, false) (λ i, Nat.eqb i 3) (ROk tt) (ROk tt) true)
    (fresh_world example_init [Served (ROk [ROk system_row]) (ROk tt)] empty_broker).

Definition new_agent : agent_run :=
  run_start (w_agent (fst system_world)) (default NewSupervisor (w_supervisor (fst system_world))).

Definition tried (e : agent_event) (ag : agent_run) : agent_run := default ag (agent_step map_to_list e ag).

Definition probed : agent_run :=
  tried (TaskRuns "t1" (ROk (example_result ProbeTypePing example_ping_doc)) false) new_agent.
Definition dispatched : agent_run := tried (Dispatches (at_sec 1)) probed.

Definition sent : list (string * json) :=
  publish (drop (length (ar_published probed)) (ar_published dispatched)) [2%nat].

Definition sent_docs (l : list nat) : list raw := omap (λ n, RawDoc ∘ snd <$> sent !! n) l.

Definition turn (e : event) (p : processor (M:=PingMeasurementRow) (P:=PingProbeRow)) : processor :=
  default p (step e p).

Definition got : processor := turn (Fetch (sent_docs [0; 1; 0]%nat)) (start no_tables 0).
Definition handled : processor := turn (Message (ROk tt)) got.
Definition queued_row : processor := turn Send handled.
Definition flushed : processor := turn (FlushTick []) (turn (FlushReceive []) queued_row).

Definition end_state : system :=
  Build_system [dispatched] sent flushed [0; 1; 0]%nat []
    (match attempted got with Some pub => replicate 1 pub | None => [] end) (argus_start (started env0)) [].

Abbreviation ping_step :=
  (system_step (RP:=ping_processor) (B:=map_broker) map_to_list defaultPolicy CreateDefaultRegistry argus_detectors
     (matches "cepheus.probe.ping.*")).

Definition one_agent : system (M:=PingMeasurementRow) (P:=PingProbeRow) :=
  Build_system [new_agent] [] (start no_tables 0) [] [] [] (argus_start (started env0)) [].

Lemma one_agent_started : ping_step (system_start env0) one_agent.
Proof.
  apply (sys_agent_start map_to_list defaultPolicy CreateDefaultRegistry argus_detectors _ [] [] _ _ _ _ _ _ false
      (ROk tt) (ROk tt) (ROk tt) (λ _, false) (λ i, Nat.eqb i 3) (ROk tt) (ROk tt) true example_init
      [Served (ROk [ROk system_row]) (ROk tt)] empty_broker (fst system_world)); vm_compute; reflexivity.
Qed.

Lemma end_state_reached : rtc ping_step (system_start env0) end_state.
Proof.
  eapply rtc_l; [apply one_agent_started|].
  eapply (rtc_l _ _ (Build_system [probed] [] (start no_tables 0) [] [] [] (argus_start (started env0)) [])).
  { apply (sys_agent map_to_list defaultPolicy CreateDefaultRegistry argus_detectors _ [new_agent] [] _ _ _ _ _ _
      0%nat (TaskRuns "t1" (ROk (example_result ProbeTypePing example_ping_doc)) false) new_agent probed []);
      vm_compute; reflexivity. }
  eapply (rtc_l _ _ (Build_system [dispatched] sent (start no_tables 0) [] [] [] (argus_start (started env0)) [])).
  { apply (sys_agent map_to_list defaultPolicy CreateDefaultRegistry argus_detectors _ [probed] [] _ _ _ _ _ _
      0%nat (Dispatches (at_sec 1)) probed dispatched [2%nat]); vm_compute; reflexivity. }
  eapply (rtc_l _ _ (Build_system [dispatched] sent got [0; 1; 0]%nat [] [] (argus_start (started env0)) [])).
  { apply (sys_fetch map_to_list defaultPolicy CreateDefaultRegistry argus_detectors _ [dispatched] sent
      (start no_tables 0) [] [] [] _ _ [0; 1; 0]%nat (sent_docs [0; 1; 0]%nat) got); [|vm_compute; reflexivity].
    repeat (constructor; [eexists _, _; repeat split; vm_compute; reflexivity|]). constructor. }
  eapply (rtc_l _ _ (Build_system [dispatched] sent handled [0; 1; 0]%nat []
    (match attempted got with Some pub => replicate 1 pub | None => [] end) (argus_start (started env0)) [])).
  { apply (sys_message map_to_list defaultPolicy CreateDefaultRegistry argus_detectors _ [dispatched] sent got _ [] []
      _ _ (ROk tt) handled 1); [vm_compute; reflexivity|intros _; lia]. }
  eapply rtc_l; [apply (sys_processor map_to_list defaultPolicy CreateDefaultRegistry argus_detectors _ _ _ handled
    _ _ _ _ _ Send queued_row); vm_compute; reflexivity|].
  eapply rtc_l; [apply (sys_processor map_to_list defaultPolicy CreateDefaultRegistry argus_detectors _ _ _ queued_row
    _ _ _ _ _ (FlushReceive []) (turn (FlushReceive []) queued_row)); vm_compute; reflexivity|].
  eapply rtc_l; [apply (sys_processor map_to_list defaultPolicy CreateDefaultRegistry argus_detectors _ _ _
    (turn (FlushReceive []) queued_row) _ _ _ _ _ (FlushTick []) flushed); vm_compute; reflexivity|].
  apply rtc_refl.
Qed.

Lemma system_traces_witness :
  acked_now end_state = [0%nat] ∧
  seq_stored (sy_reports end_state) (sy_events end_state) (st_tables (pr_store (sy_processor end_state))) 0.
Proof.
  split; [vm_compute; reflexivity|].
  destruct (system_traces map_to_list (λ m, Permutation_refl _) defaultPolicy CreateDefaultRegistry argus_detectors
    (matches "cepheus.probe.ping.*") env0 end_state eq_refl end_state_reached) as (_ & _ & H & _).
  apply H. assert (sy_acked end_state ++ acked_now end_state = [0%nat]) as -> by (vm_compute; reflexivity).
  apply list_elem_of_here.
Defined.
