(* ===== verification/Pipeline.v ===== *)
(** * From a probe to Argus, in every fair run

    A deployment of [System] in which no process is restarted: agents, a
    processor and Argus take turns, an agent's publication is stored a number of
    times that may be zero (the dispatcher gives up after three failed attempts),
    and the two streams deliver.  Its runs show runs of
    each component, so the components' liveness composes: a result that an
    executor hands over is reported, the report is settled, and the event of a
    stored report is folded by Argus. *)

From S2P Require Import Prelude Float64 Float64Round GoTime Json ArgusTypes LeakyBucket Detectors.
From S2P Require Import ArgusDb PolicyEngine PolicyEngineFacts PolicyEngineProps ArgusWorker ArgusWorkerProps.
From S2P Require Import ArgusRun Provenance Reports AgentConfig Supervisor Scamper ScamperProcess AgentPipeline.
From S2P Require Import Processors ProcessorsProps ProcessorRun Environment JetStream AgentRun System.
From S2P Require Import Fairness ProcessorLive ProcessorSpec ArgusLive.
Import PolicyEngine.PolicyEngine.

Local Open Scope nat_scope.

Inductive pipeline_event :=
| AgentTurn (i : nat) (e : agent_event) (copies : nat)
| ReportsDelivered (seqs : list nat)
| ProcessorTurn (e : event)
| EventsDelivered (seqs : list nat)
| ArgusTurn (e : argus_event).

Section Pipeline.
Context {PT : ProtoTime} {RL : RetryLib} {UL : UuidLib}.
Context {M P : Type} {MR : MeasurementRow M} {RP : ReportProcessor M P} {RE : ReportEvents RP}.
Context {B : Type} {BR : Broker B}.
Context (order : gmap string Task → list (string * Task)) (Horder : ∀ m, order m ≡ₚ map_to_list m).
Context (cfg : PolicyEngineConfig) (registry : gmap string (list Extractor)) (detectors : gmap string Detector).
Context {TD : TimelyDetectors detectors}.
Context (filter : string → bool).

Abbreviation system := (system (M:=M) (P:=P)).
Abbreviation system_step := (system_step (B:=B) (RP:=RP) order cfg registry detectors filter).
Abbreviation argus_step := (argus_step cfg registry detectors).

(** ** The deployment *)

(** What a fetch of these sequence numbers returns. *)
Definition report_docs (reps : list (string * json)) (seqs : list nat) : option (list raw) :=
  mapM (λ n, r ← reps !! n; if filter r.1 then Some (RawDoc r.2) else None) seqs.

Definition event_docs (evs : list (string * json)) (seqs : list nat) : option (list raw) :=
  mapM (λ n, RawDoc ∘ snd <$> evs !! n) seqs.

(** The event that a turn of the processor puts into the stream, once; [System]
    lets it be stored more often, and after a failed attempt too. *)
Definition turn_publishes (e : event) (p : processor (M:=M) (P:=P)) : list (string * json) :=
  match e with Message (ROk _) => option_list (attempted p) | _ => [] end.

Definition fetches (e : event) : bool := match e with Fetch _ => true | _ => false end.

(** [copies] is how often a report that the agent's turn publishes gets into the
    stream: not at all when every attempt fails, more than once when an
    acknowledgement is lost. *)
Definition pipeline_step (e : pipeline_event) (s : system) : option system :=
  match e with
  | AgentTurn i e copies =>
      ag ← sy_agents s !! i;
      ag' ← agent_step order e ag;
      let new := drop (length (ar_published ag)) (ar_published ag') in
      Some (Build_system (<[i := ag']> (sy_agents s)) (sy_reports s ++ publish new (replicate (length new) copies))
              (sy_processor s) (sy_deliveries s) (sy_acked s) (sy_events s) (sy_argus s) (sy_known s))
  | ReportsDelivered seqs =>
      docs ← report_docs (sy_reports s) seqs;
      p' ← step (Fetch docs) (sy_processor s);
      Some (Build_system (sy_agents s) (sy_reports s) p' (sy_deliveries s ++ seqs) (sy_acked s) (sy_events s)
              (sy_argus s) (sy_known s))
  | ProcessorTurn e =>
      if fetches e then None
      else p' ← step e (sy_processor s);
           Some (Build_system (sy_agents s) (sy_reports s) p' (sy_deliveries s) (sy_acked s)
                   (sy_events s ++ turn_publishes e (sy_processor s)) (sy_argus s) (sy_known s))
  | EventsDelivered seqs =>
      docs ← event_docs (sy_events s) seqs;
      a' ← argus_step (RouterFetch docs) (sy_argus s);
      Some (Build_system (sy_agents s) (sy_reports s) (sy_processor s) (sy_deliveries s) (sy_acked s) (sy_events s)
              a' (sy_known s))
  | ArgusTurn e =>
      if is_fetch e then None
      else a' ← argus_step e (sy_argus s);
           Some (Build_system (sy_agents s) (sy_reports s) (sy_processor s) (sy_deliveries s) (sy_acked s)
                   (sy_events s) a' (sy_known s))
  end.

(** Its steps are steps of the system, so what holds of that holds here. *)
Lemma pipeline_system e s s' : pipeline_step e s = Some s' → system_step s s'.
Proof.
  destruct s as [ags reps p dl ak evs a kn]. destruct e as [i e c|seqs|e|seqs|e]; simpl.
  - intros (ag & Hag & (ag' & Hst & [= <-])%bind_Some)%bind_Some. by eapply sys_agent.
  - intros (docs & Hd & (p' & Hst & [= <-])%bind_Some)%bind_Some. eapply sys_fetch; [|exact Hst].
    apply mapM_Some in Hd. eapply Forall2_impl; [exact Hd|]. simpl.
    intros n d ([subject doc] & Hn & Hf)%bind_Some. simpl in Hf. destruct (filter subject) eqn:E; [|done].
    injection Hf as <-. eauto.
  - destruct (fetches e) eqn:Ef; [done|]. intros (p' & Hst & [= <-])%bind_Some.
    destruct (plain e) eqn:Ep.
    { assert (turn_publishes e p = []) as -> by (by destruct e). rewrite app_nil_r. by eapply sys_processor. }
    destruct e as [|msgs| | |r| | |fs|fs|]; try done.
    replace (turn_publishes (Message r) p) with
      (match attempted p with Some pub => replicate (if is_ok r then 1 else 0) pub | None => [] end)
      by (by destruct r; simpl; destruct (attempted p)).
    eapply sys_message; [exact Hst|]. intros ->. simpl. lia.
  - intros (docs & Hd & (a' & Hst & [= <-])%bind_Some)%bind_Some. eapply sys_argus_fetch; [|exact Hst].
    clear Hst. apply mapM_Some in Hd. induction Hd as [|n d seqs docs Hn _ IH]; constructor; [|exact IH].
    apply fmap_Some in Hn as (pub & Hn & ->). exists pub. split; [by eapply list_elem_of_lookup_2|done].
  - destruct (is_fetch e) eqn:Ef; [done|]. intros (a' & Hst & [= <-])%bind_Some. by eapply sys_argus.
Qed.

(** A tick with nothing to flush. *)
Lemma tick_idle s :
  step (FlushTick []) (sy_processor s) = Some (sy_processor s) →
  pipeline_step (ProcessorTurn (FlushTick [])) s = Some s.
Proof. intros Hs. simpl. rewrite Hs. simpl. rewrite app_nil_r. by destruct s. Qed.

(** ** Its components *)

Definition processor_own (e : pipeline_event) (s : system) : option event :=
  match e with
  | ProcessorTurn e => Some e
  | ReportsDelivered seqs => Fetch <$> report_docs (sy_reports s) seqs
  | _ => None
  end.

Lemma processor_view e s s' :
  pipeline_step e s = Some s' →
  match processor_own e s with
  | Some e' => step e' (sy_processor s) = Some (sy_processor s')
  | None => sy_processor s' = sy_processor s
  end.
Proof.
  destruct e as [i e c|seqs|e|seqs|e]; simpl.
  - by intros (ag & _ & (ag' & _ & [= <-])%bind_Some)%bind_Some.
  - intros (docs & -> & (p' & Hst & [= <-])%bind_Some)%bind_Some. exact Hst.
  - destruct (fetches e); [done|]. by intros (p' & Hst & [= <-])%bind_Some.
  - by intros (docs & _ & (a' & _ & [= <-])%bind_Some)%bind_Some.
  - destruct (is_fetch e); [done|]. by intros (a' & _ & [= <-])%bind_Some.
Qed.

Definition argus_own (e : pipeline_event) (s : system) : option argus_event :=
  match e with
  | ArgusTurn e => Some e
  | EventsDelivered seqs => RouterFetch <$> event_docs (sy_events s) seqs
  | _ => None
  end.

Lemma argus_view e s s' :
  pipeline_step e s = Some s' →
  match argus_own e s with
  | Some e' => argus_step e' (sy_argus s) = Some (sy_argus s')
  | None => sy_argus s' = sy_argus s
  end.
Proof.
  destruct e as [i e c|seqs|e|seqs|e]; simpl.
  - by intros (ag & _ & (ag' & _ & [= <-])%bind_Some)%bind_Some.
  - by intros (docs & _ & (p' & _ & [= <-])%bind_Some)%bind_Some.
  - destruct (fetches e); [done|]. by intros (p' & _ & [= <-])%bind_Some.
  - intros (docs & -> & (a' & Hst & [= <-])%bind_Some)%bind_Some. exact Hst.
  - destruct (is_fetch e); [done|]. by intros (a' & Hst & [= <-])%bind_Some.
Qed.

(** ** Fairness *)

Definition of_processor (A : event → bool) (e : pipeline_event) : bool :=
  match e with ProcessorTurn e => A e | _ => false end.
Definition of_argus (A : argus_event → bool) (e : pipeline_event) : bool :=
  match e with ArgusTurn e => A e | _ => false end.
Definition dispatch_of (i : nat) (e : pipeline_event) : bool :=
  match e with AgentTurn j (Dispatches _) _ => Nat.eqb i j | _ => false end.

Record fair_pipeline (x : execution pipeline_step) : Prop := {
  fp_agents i : fair _ (dispatch_of i) x;
  fp_message : fair _ (of_processor is_message) x;
  fp_send : fair _ (of_processor is_send) x;
  fp_receive : fair _ (of_processor is_receive) x;
  fp_tick : fair _ (of_processor is_tick) x;
  fp_argus t : fair _ (of_argus (helps t)) x;
}.

Definition processor_run (x : execution pipeline_step) : execution step :=
  project _ _ sy_processor processor_own processor_view x.
Definition argus_run_of (x : execution pipeline_step) : execution argus_step :=
  project _ _ sy_argus argus_own argus_view x.

Lemma processor_fair A x :
  (∀ e, A e = true → fetches e = false) → fair _ (of_processor A) x → fair _ A (processor_run x).
Proof.
  intros HA. apply project_fair.
  - intros e s He _. destruct e as [| |e| |]; try done. by exists e.
  - intros e s He [p' Hp]. exists (ProcessorTurn e). split; [done|]. simpl. rewrite (HA e He), Hp. eauto.
Qed.

Lemma pipeline_fair_processor x : fair_pipeline x → fair_processor (processor_run x).
Proof. intros [_ H1 H2 H3 H4 _]. split_and!; by (apply processor_fair; [by intros []|]). Qed.

Lemma pipeline_fair_argus x : fair_pipeline x → fair_argus cfg registry detectors (argus_run_of x).
Proof.
  intros Hf t. eapply project_fair; [| |apply (fp_argus x Hf t)].
  - intros e s He _. destruct e as [| | | |e]; try done. by exists e.
  - intros e s He [a' Ha]. exists (ArgusTurn e). split; [done|]. simpl.
    assert (is_fetch e = false) as -> by (by destruct t, e). rewrite Ha. eauto.
Qed.
(** ** Agents *)

Lemma agent_step_cases e ag ag' :
  agent_step order e ag = Some ag' →
  (∃ now x, e = Dispatches now ∧ ar_published ag' = ar_published ag ++ [x] ∧ ar_accepted ag' = ar_accepted ag) ∨
  ((∀ now, e ≠ Dispatches now) ∧ ar_published ag' = ar_published ag ∧ ar_accepted ag `prefix_of` ar_accepted ag').
Proof.
  unfold agent_step. destruct (ar_crashed ag); [done|]. destruct e as [replies c now|id r pick|id|now|].
  - intros [= <-]. right. split; [done|]. unfold pull_tick. by repeat case_match.
  - intros (rt & _ & Ht)%bind_Some. right. split; [done|]. by eapply task_turn_frame.
  - intros (rt & _ & Ht)%bind_Some. right. by case_match; simplify_eq.
  - unfold dispatches. repeat case_match; try done. intros [= <-]. left. eauto.
  - destruct (ar_done ag); [done|]. intros [= <-]. by right.
Qed.

(** A report stored at least once is in the stream. *)
Lemma publish_some l n data subject doc :
  (data, Published subject doc) ∈ l → (subject, doc) ∈ publish l (replicate (length l) (S n)).
Proof.
  induction l as [|[data' [|subject' doc']] l IH]; [by intros ?%elem_of_nil|..]; simpl.
  - intros [?|?]%elem_of_cons; [done|auto].
  - intros [?|?]%elem_of_cons; [simplify_eq; left|right; apply elem_of_app; right; auto].
Qed.

(** The streams and what the agents did only grow. *)
Definition grows (s s' : system) : Prop :=
  sy_reports s `prefix_of` sy_reports s' ∧ sy_deliveries s `prefix_of` sy_deliveries s' ∧
  sy_events s `prefix_of` sy_events s' ∧
  ∀ i ag, sy_agents s !! i = Some ag → ∃ ag', sy_agents s' !! i = Some ag' ∧
    ar_published ag `prefix_of` ar_published ag' ∧ ar_accepted ag `prefix_of` ar_accepted ag'.

#[local] Instance grows_preorder : PreOrder grows.
Proof.
  split.
  - intros s. do 3 (split; [done|]). intros i ag Hag. by exists ag.
  - intros s1 s2 s3 (A1 & A2 & A3 & A4) (B1 & B2 & B3 & B4). do 3 (split; [by etrans|]). intros i ag Hag.
    destruct (A4 i ag Hag) as (ag2 & H2 & P2 & Q2). destruct (B4 i ag2 H2) as (ag3 & H3 & P3 & Q3).
    exists ag3. split; [done|]. split; by etrans.
Qed.

Lemma pipeline_grows e s s' : pipeline_step e s = Some s' → grows s s'.
Proof.
  assert (∀ i ag, sy_agents s !! i = Some ag → ∃ ag', sy_agents s !! i = Some ag' ∧
    ar_published ag `prefix_of` ar_published ag' ∧ ar_accepted ag `prefix_of` ar_accepted ag') as Hsame by eauto.
  destruct e as [i e c|seqs|e|seqs|e]; simpl.
  - intros (ag & Hag & (ag' & Hst & [= <-])%bind_Some)%bind_Some. split; [by apply prefix_app_r|].
    do 2 (split; [done|]). intros j ag0 Hj. simpl. destruct (decide (i = j)) as [<-|].
    + rewrite list_lookup_insert_eq by (by eapply lookup_lt_Some). simplify_eq. exists ag'. split; [done|].
      destruct (agent_step_cases e ag ag' Hst) as [(now & x & _ & -> & ->)|(_ & -> & ?)]; [|done].
      split; [by apply prefix_app_r|done].
    + rewrite list_lookup_insert_ne by done. eauto.
  - intros (docs & _ & (p' & _ & [= <-])%bind_Some)%bind_Some. split; [done|]. split; [by apply prefix_app_r|done].
  - destruct (fetches e); [done|]. intros (p' & _ & [= <-])%bind_Some.
    do 2 (split; [done|]). split; [by apply prefix_app_r|done].
  - by intros (docs & _ & (a' & _ & [= <-])%bind_Some)%bind_Some.
  - destruct (is_fetch e); [done|]. by intros (a' & _ & [= <-])%bind_Some.
Qed.

(** What a step adds to the reports of an agent. *)
Lemma published_step e s s' i ag' q data subject doc :
  pipeline_step e s = Some s' → sy_agents s' !! i = Some ag' → ar_published ag' !! q = Some (data, Published subject doc) →
  (∃ ag, sy_agents s !! i = Some ag ∧ ar_published ag !! q = Some (data, Published subject doc)) ∨
  (subject, doc) ∈ sy_reports s' ∨
  ∃ ag now, sy_agents s !! i = Some ag ∧ length (ar_published ag) = q ∧ e = AgentTurn i (Dispatches now) 0.
Proof.
  intros Hst Hag Hq.
  assert (sy_agents s' = sy_agents s → ∃ ag, sy_agents s !! i = Some ag ∧
    ar_published ag !! q = Some (data, Published subject doc)) as Hsame by (intros E; rewrite E in Hag; eauto).
  destruct e as [j e c|seqs|e|seqs|e]; simpl in Hst.
  - apply bind_Some in Hst as (ag & Hj & (ag2 & Ha & [= <-])%bind_Some). clear Hsame. simpl in *.
    destruct (decide (j = i)) as [->|Hne]; [|rewrite list_lookup_insert_ne in Hag by done; left; eauto].
    rewrite list_lookup_insert_eq in Hag by (by eapply lookup_lt_Some). injection Hag as ->.
    destruct (agent_step_cases e ag ag' Ha) as [(now & x & -> & E & _)|(_ & E & _)]; rewrite E in *; [|left; eauto].
    apply lookup_app_Some in Hq as [Hq|[Hle Hq]]; [left; eauto|right].
    apply list_lookup_singleton_Some in Hq as [Hq ->].
    destruct c as [|c]; [right; exists ag, now; split; [done|]; split; [lia|done]|left].
    rewrite drop_app_length. apply elem_of_app. right. eapply publish_some. by left.
  - apply bind_Some in Hst as (docs & _ & (p' & _ & [= <-])%bind_Some). left. by apply Hsame.
  - destruct (fetches e); [done|]. apply bind_Some in Hst as (p' & _ & [= <-]). left. by apply Hsame.
  - apply bind_Some in Hst as (docs & _ & (a' & _ & [= <-])%bind_Some). left. by apply Hsame.
  - destruct (is_fetch e); [done|]. apply bind_Some in Hst as (a' & _ & [= <-]). left. by apply Hsame.
Qed.

(** The turn in which agent [i] took its result number [q] stored nothing: every
    attempt to publish the report failed. *)
Definition dropped (x : execution pipeline_step) (m i q : nat) : Prop :=
  ∃ t now ag, t < m ∧ ex_event _ x t = Some (AgentTurn i (Dispatches now) 0) ∧
    sy_agents (ex_state _ x t) !! i = Some ag ∧ length (ar_published ag) = q.

(** A result that was accepted is where the fifo says. *)
Lemma published_result (ag : agent_run) serial q data :
  agent_ok serial ag → ar_accepted ag !! q = Some data → q < length (ar_published ag) →
  ∃ p, ar_published ag !! q = Some (data, p).
Proof.
  intros Hok Hq Hlt. destruct (lookup_lt_is_Some_2 _ _ Hlt) as [[d p] Hp]. exists p. rewrite Hp. f_equal. f_equal.
  rewrite (ak_fifo _ _ Hok), lookup_app_l in Hq by (by rewrite length_fmap).
  rewrite list_lookup_fmap, Hp in Hq. by injection Hq.
Qed.

Lemma dispatch_enabled (ag : agent_run) serial q data :
  agent_ok serial ag → ar_crashed ag = None → ar_accepted ag !! q = Some data → length (ar_published ag) ≤ q →
  is_Some (agent_step order (Dispatches 0%Z) ag).
Proof.
  intros Hok Hc Hq Hle. unfold agent_step, dispatches, dispatcher_turn. rewrite Hc.
  rewrite (ak_fifo _ _ Hok), lookup_app_r in Hq by (by rewrite length_fmap).
  destruct (ps_buf (ar_stream ag)) as [|d buf]; [done|]. eauto.
Qed.

(** Result number [q] of agent [i] is reported, or [r] results are before it. *)
Definition reported_at (i q : nat) (data : ProbeResult) (s : system) : Prop :=
  ∃ ag p, sy_agents s !! i = Some ag ∧ ar_published ag !! q = Some (data, p).

Definition behind (i q : nat) (data : ProbeResult) (r : nat) (s : system) : Prop :=
  ∃ ag, sy_agents s !! i = Some ag ∧ ar_accepted ag !! q = Some data ∧
    length (ar_published ag) ≤ q ∧ r = q - length (ar_published ag).

Lemma accepted_cases i q data s ag :
  system_ok detectors s → sy_agents s !! i = Some ag → ar_accepted ag !! q = Some data →
  reported_at i q data s ∨ (length (ar_published ag) ≤ q ∧ behind i q data (q - length (ar_published ag)) s).
Proof.
  intros Hok Ha Hd. pose proof (proj1 (Forall_lookup _ _) (so_agents _ _ Hok) i ag Ha) as Hag. simpl in Hag.
  destruct (decide (q < length (ar_published ag))) as [Hlt|Hge].
  - destruct (published_result ag _ q data Hag Hd Hlt) as [p Hp]. left. by exists ag, p.
  - right. split; [lia|]. exists ag. split; [done|]. split; [done|]. split; [lia|done].
Qed.

Lemma dispatch_advances i q data e s s' r :
  system_ok detectors s' → pipeline_step e s = Some s' → behind i q data r s →
  reported_at i q data s' ∨ ∃ r', behind i q data r' s' ∧ r' ≤ r ∧ (dispatch_of i e = true → r' < r).
Proof.
  intros Hok Hx (a & Ha & Hd & Hle & ->). destruct (pipeline_grows _ _ _ Hx) as (_ & _ & _ & Hgr).
  destruct (Hgr i a Ha) as (a' & Ha' & Hpp & Hpa).
  destruct (accepted_cases i q data s' a' Hok Ha') as [?|[Hle' HW]]; [by eapply prefix_lookup_Some|by left|right].
  apply prefix_length in Hpp. exists (q - length (ar_published a')). split; [done|]. split; [lia|].
  intros He. destruct e as [j [| | |now|] c| | | |]; try done. apply Nat.eqb_eq in He as <-.
  simpl in Hx. rewrite Ha in Hx. simpl in Hx. apply bind_Some in Hx as (a2 & Hst & [= Hx]).
  rewrite <- Hx in Ha'. simpl in Ha'. rewrite list_lookup_insert_eq in Ha' by (by eapply lookup_lt_Some).
  injection Ha' as ->. destruct (agent_step_cases _ _ _ Hst) as [(? & y & _ & E & _)|(Hno & _)]; [|by destruct (Hno now)].
  rewrite E, length_app in *. simpl in *. lia.
Qed.

(** Dispatching: what an agent accepted it reports. *)
Lemma result_dispatched (x : execution pipeline_step) i n ag q data :
  (∀ m, system_ok detectors (ex_state _ x m)) → fair _ (dispatch_of i) x →
  (∀ m ag, sy_agents (ex_state _ x m) !! i = Some ag → ar_crashed ag = None) →
  sy_agents (ex_state _ x n) !! i = Some ag → ar_accepted ag !! q = Some data →
  ∃ m, n ≤ m ∧ reported_at i q data (ex_state _ x m).
Proof.
  intros Hok Hf Hlive Hag Hq.
  destruct (accepted_cases i q data _ ag (Hok n) Hag Hq) as [?|[_ HW]]; [by exists n|].
  eapply (fair_rank pipeline_step (λ _, dispatch_of i) (behind i q data)); [by intros _| | |exact HW].
  - intros m r Hr. pose proof (ex_step _ x m) as Hx. destruct (ex_event _ x m) as [e|].
    + destruct (dispatch_advances i q data e _ _ r (Hok (S m)) Hx Hr) as [?|(r' & H1 & H2 & H3)]; [by left|right].
      exists r'. split; [done|]. split; [done|]. by intros e' [= <-].
    + right. exists r. by rewrite Hx.
  - intros m r (a & Ha & Hd & Hle & _). exists (AgentTurn i (Dispatches 0%Z) 1). split; [simpl; apply Nat.eqb_refl|].
    pose proof (proj1 (Forall_lookup _ _) (so_agents _ _ (Hok m)) i a Ha) as Haok. simpl in Haok.
    destruct (dispatch_enabled a _ q data Haok (Hlive m a Ha) Hd Hle) as [a' Ha']. simpl. rewrite Ha. simpl.
    rewrite Ha'. simpl. eauto.
Qed.

(** ** Deliveries *)

(** What JetStream promises of its two streams: a message stored for a consumer
    is delivered to it. *)
Record delivering (x : execution pipeline_step) : Prop := {
  dv_reports n seq r : sy_reports (ex_state _ x n) !! seq = Some r → filter r.1 = true →
    ∃ m, n ≤ m ∧ seq ∈ sy_deliveries (ex_state _ x m);
  dv_events n pub : pub ∈ sy_events (ex_state _ x n) →
    ∃ m, n ≤ m ∧ RawDoc (snd pub) ∈ au_log (sy_argus (ex_state _ x m));
}.

(** No process is cancelled or crashes. *)
Record healthy (s : system) : Prop := {
  hl_agents i ag : sy_agents s !! i = Some ag → ar_crashed ag = None;
  hl_processor : ProcessorLive.live (sy_processor s);
  hl_argus : ArgusLive.live (sy_argus s);
}.

(** A deployment at its start: nothing published yet, processor and Argus fresh. *)
Record deployed (s : system) : Prop := {
  dp_reports : sy_reports s = [];
  dp_events : sy_events s = [];
  dp_agents i ag : sy_agents s !! i = Some ag → ar_published ag = [];
  dp_processor : ∃ t0 n0, sy_processor s = start t0 n0;
  dp_argus : ∃ w, sy_argus s = argus_start w;
}.
(** At [m] the rows of the report are stored; Argus then fetches its event and
    acknowledges it. *)
Definition stored_and_folded (x : execution pipeline_step) (m : nat) (doc : json) : Prop :=
  ∃ id pub meas ps, consumes doc pub meas ps ∧
    (id, meas) ∈ tb_measurements (st_tables (pr_store (sy_processor (ex_state _ x m)))) ∧
    (∀ p, p ∈ ps → (id, p) ∈ tb_probes (st_tables (pr_store (sy_processor (ex_state _ x m))))) ∧
    ∃ m' j, m ≤ m' ∧ au_log (sy_argus (ex_state _ x m')) !! j = Some (RawDoc (snd pub)) ∧
    ∃ m'', m' ≤ m'' ∧ j ∈ au_acked (sy_argus (ex_state _ x m'')).

(** Delivery [k] of a report was refused by then, which the processor does to
    a report it cannot read and when a publication or statement has failed. *)
Definition refused_for (x : execution pipeline_step) (m k : nat) (doc : json) : Prop :=
  Nacked k ∈ st_settled (pr_store (sy_processor (ex_state _ x m))) ∧
  (rp_consume (RawDoc doc) (ROk tt) true = ROk Naked ∨
   ∃ m' e, m' < m ∧ ex_event _ x m' = Some (ProcessorTurn e) ∧ faulty e = true).

Section Run.
Context (e : env) (x : execution pipeline_step).
Context (He : e_db e = empty_db) (Hstart : rtc system_step (system_start e) (ex_state _ x 0)).
Context (Hdep : deployed (ex_state _ x 0)) (Hfair : fair_pipeline x).
Context (Hhealthy : ∀ m, healthy (ex_state _ x m)) (Hdeliver : delivering x).

Lemma pipeline_ok m : system_ok detectors (ex_state _ x m).
Proof.
  eapply system_reachable_ok; [done..|exact He|].
  revert m. apply (execution_inv _ (λ s, rtc system_step (system_start e) s)); [|exact Hstart].
  intros ev s s' Hst Hr. eapply rtc_r; [exact Hr|]. by eapply pipeline_system.
Qed.

Lemma run_grows n m : n ≤ m → grows (ex_state _ x n) (ex_state _ x m).
Proof. apply execution_grows; [apply _|intros ev s s'; apply pipeline_grows]. Qed.

(** Every report an agent made of a result is in the stream, or was dropped. *)
Lemma run_reports m i ag q data subject doc :
  sy_agents (ex_state _ x m) !! i = Some ag → ar_published ag !! q = Some (data, Published subject doc) →
  (subject, doc) ∈ sy_reports (ex_state _ x m) ∨ dropped x m i q.
Proof.
  revert ag. induction m as [|m IH]; intros ag Hag Hq.
  { rewrite (dp_agents _ Hdep i ag Hag) in Hq. done. }
  assert ((∃ ag, sy_agents (ex_state _ x m) !! i = Some ag ∧ ar_published ag !! q = Some (data, Published subject doc)) →
    (subject, doc) ∈ sy_reports (ex_state _ x (S m)) ∨ dropped x (S m) i q) as Hold.
  { intros (ag0 & H1 & H2). destruct (IH ag0 H1 H2) as [Hin|(t & now & a & Ht & Hr)].
    - left. destruct (run_grows m (S m)) as [[k ->] _]; [lia|]. apply elem_of_app. by left.
    - right. exists t, now, a. split; [lia|done]. }
  pose proof (ex_step _ x m) as Hx. destruct (ex_event _ x m) as [e0|] eqn:Ee; [|apply Hold; rewrite <- Hx; eauto].
  destruct (published_step e0 _ _ i ag q data subject doc Hx Hag Hq) as [?|[?|(a & now & H1 & H2 & ->)]];
    [by apply Hold|by left|right]. exists m, now, a. split; [lia|done].
Qed.

(** A delivered report is settled. *)
Lemma delivery_settles n k seq :
  sy_deliveries (ex_state _ x n) !! k = Some seq →
  ∃ m, n ≤ m ∧ settled_delivery k (sy_processor (ex_state _ x m)).
Proof.
  intros Hk. destruct (dp_processor _ Hdep) as (t0 & n0 & Hp).
  apply (delivered_settles t0 n0 (processor_run x) n k).
  - exact Hp.
  - by apply pipeline_fair_processor.
  - intros m. apply hl_processor, Hhealthy.
  - simpl. rewrite <- (Forall2_length _ _ _ (so_deliveries _ _ (pipeline_ok n))). by eapply lookup_lt_Some.
Qed.

(** The event of a report is acknowledged by Argus. *)
Lemma event_folds n doc pub meas ps :
  consumes doc pub meas ps → pub ∈ sy_events (ex_state _ x n) →
  ∃ m j, n ≤ m ∧ au_log (sy_argus (ex_state _ x m)) !! j = Some (RawDoc (snd pub)) ∧
    ∃ m', m ≤ m' ∧ j ∈ au_acked (sy_argus (ex_state _ x m')).
Proof.
  intros Hc Hp. destruct (dv_events x Hdeliver n pub Hp) as (m & Hm & [j Hj]%list_elem_of_lookup).
  exists m, j. split; [done|]. split; [done|]. destruct (dp_argus _ Hdep) as [w Hw].
  destruct (fetched_settles cfg registry detectors w (argus_run_of x) m j (RawDoc (snd pub))) as (m' & Hm' & Hs).
  - pose proof (ao_engine _ (proj1 (so_argus _ _ (pipeline_ok 0)))) as Hi. by rewrite Hw in Hi.
  - exact Hw.
  - by apply pipeline_fair_argus.
  - intros k. apply hl_argus, Hhealthy.
  - exact Hj.
  - exists m'. split; [done|]. destruct (report_event _ _ _ _ Hc) as (pl & ev & _ & Hev & _ & _ & _ & _ & [se Hse] & [mt Hmt]).
    unfold sample_of in Hs. rewrite Hev in Hs. simpl in Hs. rewrite Hse in Hs. simpl in Hs. by rewrite Hmt in Hs.
Qed.

(** A refusal has a cause. *)
Lemma refusal_caused m k seq subject doc :
  sy_deliveries (ex_state _ x m) !! k = Some seq → sy_reports (ex_state _ x m) !! seq = Some (subject, doc) →
  Nacked k ∈ st_settled (pr_store (sy_processor (ex_state _ x m))) → refused_for x m k doc.
Proof.
  intros Hk Hr Hn. split; [done|]. destruct (dp_processor _ Hdep) as (t0 & n0 & Hp).
  destruct (refused_cause t0 n0 (processor_run x) m k Hp) as [(d & Hd & Hc)|(m' & ev & Hm' & He' & Hf)].
  - apply list_elem_of_omap. by exists (Nacked k).
  - left. destruct (Forall2_lookup_l _ _ _ _ _ (so_deliveries _ _ (pipeline_ok m)) Hk) as (d' & Hd' & r & Hr' & ->).
    simpl in Hd. rewrite Hr in Hr'. by simplify_eq.
  - right. exists m'. simpl in He'. unfold own_event in He'. destruct (ex_event _ x m') as [pe|]; [|done]. simpl in He'.
    destruct pe as [i e' c|seqs|e'|seqs|e']; simplify_eq/=; [|by eexists].
    apply fmap_Some in He' as (docs & _ & ->). done.
Qed.

(** What becomes of a report that is in the stream. *)
Lemma report_settles n seq subject doc :
  sy_reports (ex_state _ x n) !! seq = Some (subject, doc) → filter subject = true →
  ∃ m k, n ≤ m ∧ sy_deliveries (ex_state _ x m) !! k = Some seq ∧
    (refused_for x m k doc ∨ stored_and_folded x m doc).
Proof.
  intros Hr Hfl. destruct (dv_reports x Hdeliver n seq _ Hr Hfl) as (m1 & Hm1 & [k Hk]%list_elem_of_lookup).
  destruct (delivery_settles m1 k seq Hk) as (m & Hm & Hs). exists m, k. split; [lia|].
  destruct (run_grows m1 m Hm) as (_ & Hgd & _). assert (n ≤ m) as Hnm by lia.
  destruct (run_grows n m Hnm) as (Hgr & _).
  pose proof (prefix_lookup_Some _ _ _ _ Hk Hgd) as Hk'. split; [done|].
  pose proof (prefix_lookup_Some _ _ _ _ Hr Hgr) as Hr2.
  apply list_elem_of_fmap in Hs as (st & -> & Hst). destruct st as [k|k]; simpl in *;
    [right|left; by eapply refusal_caused].
  destruct (acked_stored detectors (ex_state _ x m) seq (pipeline_ok m)) as ([s' d'] & Hr' & Hrep).
  { apply elem_of_app. right. unfold acked_now. apply list_elem_of_omap. exists k. split; [|done].
    unfold acked. apply list_elem_of_omap. by exists (Acked k). }
  assert (d' = doc) as -> by congruence. simpl in Hrep.
  destruct Hrep as (id & pub & meas & ps & Hc & Hp & Hrow & Hpr).
  destruct (event_folds m doc pub meas ps Hc Hp) as (m' & j & Hm' & Hj & m'' & Hm'' & Hack).
  exists id, pub, meas, ps. do 3 (split; [done|]). exists m', j. do 2 (split; [done|]). by exists m''.
Qed.

(** What becomes of a result of an executor. *)
Lemma result_arrives i n ag q data :
  sy_agents (ex_state _ x n) !! i = Some ag → ar_accepted ag !! q = Some data →
  ∃ m ag' id now, n ≤ m ∧ sy_agents (ex_state _ x m) !! i = Some ag' ∧
    let d := {| di_SerialID := ag_SerialId (ar_agent ag'); di_getAgentConfig := id |} in
    ar_published ag' !! q = Some (data, dispatch_result d now data) ∧
    (dispatch_result d now data = Skipped ∨
     dropped x m i q ∨
     ∃ subject doc seq, dispatch_result d now data = Published subject doc ∧
       sy_reports (ex_state _ x m) !! seq = Some (subject, doc) ∧
       (filter subject = true →
        ∃ m' k, m ≤ m' ∧ sy_deliveries (ex_state _ x m') !! k = Some seq ∧
          (refused_for x m' k doc ∨ stored_and_folded x m' doc))).
Proof.
  intros Hag Hq. destruct (result_dispatched x i n ag q data pipeline_ok (fp_agents x Hfair i)) as (m & Hm & ag' & p & Ha & Hp);
    [intros k a; apply hl_agents, Hhealthy|done|done|].
  pose proof (proj1 (Forall_lookup _ _) (so_agents _ _ (pipeline_ok m)) i ag' Ha) as Hok. simpl in Hok.
  pose proof (proj1 (Forall_lookup _ _) (ak_reported _ _ Hok) q _ Hp) as (id & now & Hd). simpl in Hd.
  exists m, ag', id, now. split; [done|]. split; [done|]. cbv zeta. rewrite <- Hd. split; [done|].
  destruct p as [|subject doc]; [by left|right].
  destruct (run_reports m i ag' q data subject doc Ha Hp) as [[seq Hseq]%list_elem_of_lookup|?]; [right|by left].
  exists subject, doc, seq. split; [done|]. split; [done|]. intros Hfl. by eapply report_settles.
Qed.

End Run.

(** C3. From a probe to Argus.  Take an infinite run of a deployment with a fair
    scheduler, whose streams are empty at the start, deliver what is stored in
    them, and in which no process is cancelled or crashes.  Then every result an
    executor hands to its agent is taken in its turn by that agent's dispatcher
    and made into a report under its serial, unless it has no probe type or
    cannot be marshalled.  The report gets into the stream, or every attempt to
    publish it failed and it is dropped.  A report in the stream whose subject
    the processor consumes is delivered to it, and unless the processor cannot
    read it or a publication or statement of the processor fails, its
    measurement and all its probes are stored and its event is fetched and
    acknowledged by Argus.  Results, reports and events may keep coming all the
    while. *)
Theorem pipeline_delivers e x i n ag q data :
  e_db e = empty_db → rtc system_step (system_start e) (ex_state _ x 0) → deployed (ex_state _ x 0) →
  fair_pipeline x → (∀ m, healthy (ex_state _ x m)) → delivering x →
  sy_agents (ex_state _ x n) !! i = Some ag → ar_accepted ag !! q = Some data →
  ∃ m ag' id now, n ≤ m ∧ sy_agents (ex_state _ x m) !! i = Some ag' ∧
    let d := {| di_SerialID := ag_SerialId (ar_agent ag'); di_getAgentConfig := id |} in
    ar_published ag' !! q = Some (data, dispatch_result d now data) ∧
    (dispatch_result d now data = Skipped ∨
     dropped x m i q ∨
     ∃ subject doc seq, dispatch_result d now data = Published subject doc ∧
       sy_reports (ex_state _ x m) !! seq = Some (subject, doc) ∧
       (filter subject = true →
        ∃ m' k, m ≤ m' ∧ sy_deliveries (ex_state _ x m') !! k = Some seq ∧
          (refused_for x m' k doc ∨ stored_and_folded x m' doc))).
Proof. intros He Hst Hd Hf Hh Hv. by eapply result_arrives. Qed.
End Pipeline.

(** ** Witness: one ping, from the task to Argus, then the flusher ticks for ever *)

#[local] Existing Instance BinaryUuid.
#[local] Existing Instance BetaBinomial.ExampleMath.

Abbreviation ping_pipeline_step :=
  (pipeline_step (RP:=ping_processor) map_to_list defaultPolicy CreateDefaultRegistry argus_detectors
     (matches "cepheus.probe.ping.*")).

Definition pinged_series : DiscoveredSeries := mkSeries SeriesTypePing "agent-1" "192.0.2.1" 0 "".

Definition one_ping : list pipeline_event :=
  [AgentTurn 0 (TaskRuns "t1" (ROk (example_result ProbeTypePing example_ping_doc)) false) 0;
   AgentTurn 0 (Dispatches (at_sec 1)) 1; ReportsDelivered [0]; ProcessorTurn (Message (ROk tt));
   ProcessorTurn Send; ProcessorTurn (FlushReceive []); ProcessorTurn (FlushTick []); EventsDelivered [0];
   ArgusTurn RouterDispatch; ArgusTurn (WorkerPlan pinged_series []); ArgusTurn (WorkerTurn pinged_series 5 [])].

Lemma one_ping_ok : script_ok ping_pipeline_step one_ping one_agent (Some (ProcessorTurn (FlushTick []))).
Proof.
  split; [vm_compute; reflexivity|]. intros e [= <-]. apply tick_idle. vm_compute. reflexivity.
Qed.

Definition one_ping_run : execution ping_pipeline_step := script_run _ _ _ _ one_ping_ok.

Lemma one_ping_fair : fair_pipeline _ _ _ _ _ one_ping_run.
Proof.
  split; [intros i|..|intros t]; apply script_fair.
  - left. intros e He. destruct e as [j [| | |now|] c| | | |]; try discriminate He. apply Nat.eqb_eq in He as <-.
    destruct i as [|i]; vm_compute; reflexivity.
  - left. intros e He. destruct e as [| |[]| |]; try discriminate He; vm_compute; reflexivity.
  - left. intros e He. destruct e as [| |[]| |]; try discriminate He; vm_compute; reflexivity.
  - left. intros e He. destruct e as [| |[]| |]; try discriminate He; vm_compute; reflexivity.
  - right. by eexists.
  - left. intros e He. destruct e as [| | | |e]; try discriminate He. simpl in He. unfold pipeline_step.
    destruct (is_fetch e); [done|]. rewrite (idle_helpless defaultPolicy CreateDefaultRegistry argus_detectors _ t e);
      [done| | | |exact He]; [vm_compute; reflexivity|..]; apply (bool_decide_unpack _); vm_compute; reflexivity.
Qed.

Lemma one_ping_end n : ex_state _ one_ping_run (n + 11) = script_final ping_pipeline_step one_ping one_agent.
Proof. apply script_end. simpl. lia. Qed.

Lemma one_ping_delivers : delivering _ _ _ _ _ one_ping_run.
Proof.
  split.
  - intros n seq r Hr _. exists (n + 11). split; [lia|]. rewrite one_ping_end.
    assert (length (sy_reports (ex_state _ one_ping_run n)) ≤ 1) as Hl.
    { apply (script_always _ _ _ (λ s, length (sy_reports s) ≤ 1)). clear n Hr. intros n Hn. simpl in Hn.
      do 12 (destruct n as [|n]; [vm_compute; lia|]). lia. }
    apply lookup_lt_Some in Hr. assert (seq = 0) as -> by lia.
    assert (sy_deliveries (script_final ping_pipeline_step one_ping one_agent) = [0]) as -> by (vm_compute; reflexivity).
    apply list_elem_of_here.
  - intros n pub Hp. exists (n + 11). split; [lia|]. rewrite one_ping_end.
    assert (sy_events (ex_state _ one_ping_run n) = [] ∨
      RawDoc ∘ snd <$> sy_events (ex_state _ one_ping_run n) =
      au_log (sy_argus (script_final ping_pipeline_step one_ping one_agent))) as [E|<-].
    { apply (script_always _ _ _ (λ s, sy_events s = [] ∨ RawDoc ∘ snd <$> sy_events s =
        au_log (sy_argus (script_final ping_pipeline_step one_ping one_agent)))). clear n Hp. intros n Hn. simpl in Hn.
      do 4 (destruct n as [|n]; [left; vm_compute; reflexivity|]).
      do 8 (destruct n as [|n]; [right; vm_compute; reflexivity|]). lia. }
    + rewrite E in Hp. by apply elem_of_nil in Hp.
    + apply list_elem_of_fmap. by exists pub.
Qed.

Lemma one_ping_healthy m : healthy (ex_state _ one_ping_run m).
Proof.
  revert m. apply (script_always _ _ _ healthy). intros n Hn. simpl in Hn.
  do 12 (destruct n as [|n]; [split; [|split; vm_compute; reflexivity..];
    intros [|i] ag Hag; vm_compute in Hag; [injection Hag as <-; reflexivity|discriminate]|]). lia.
Qed.

(** The report of the ping is published on a subject of the processor, and no
    delivery is refused. *)
Definition reports_ping (s : system (M:=PingMeasurementRow) (P:=PingProbeRow)) : bool :=
  match refused (st_settled (pr_store (sy_processor s))), sy_agents s !! 0 with
  | [], Some a =>
      match ar_published a !! 0 with
      | Some (_, Published subject _) => matches "cepheus.probe.ping.*" subject
      | Some (_, Skipped) => false
      | None => true
      end
  | _, _ => false
  end.

Lemma one_ping_reports m : reports_ping (ex_state _ one_ping_run m) = true.
Proof.
  revert m. apply (script_always _ _ _ (λ s, reports_ping s = true)). intros n Hn. simpl in Hn.
  do 12 (destruct n as [|n]; [vm_compute; reflexivity|]). lia.
Qed.

Lemma one_ping_not_dropped m :
  ~ dropped map_to_list defaultPolicy CreateDefaultRegistry argus_detectors (matches "cepheus.probe.ping.*")
      one_ping_run m 0 0.
Proof.
  intros (t & now & ag & _ & He & _). simpl in He. unfold script_event in He.
  do 11 (destruct t as [|t]; [discriminate He|]). discriminate He.
Qed.

Lemma pipeline_delivers_witness :
  ∃ m doc, (1 ≤ m)%nat ∧ stored_and_folded map_to_list defaultPolicy CreateDefaultRegistry argus_detectors
    (matches "cepheus.probe.ping.*") one_ping_run m doc.
Proof.
  destruct (sy_agents (ex_state _ one_ping_run 1) !! 0) as [ag|] eqn:Hag; [|vm_compute in Hag; discriminate].
  destruct (pipeline_delivers (B:=map_broker) map_to_list (λ m, Permutation_refl _) defaultPolicy CreateDefaultRegistry
    argus_detectors (matches "cepheus.probe.ping.*") env0 one_ping_run 0 1 ag 0
    (example_result ProbeTypePing example_ping_doc)) as (m & ag' & id & now & Hm & Ha & Hp & Hd).
  - reflexivity.
  - apply rtc_once, one_agent_started.
  - split; [reflexivity|reflexivity| |by eexists _, _|by eexists].
    intros [|i] a Ha; vm_compute in Ha; [injection Ha as <-; reflexivity|discriminate].
  - exact one_ping_fair.
  - exact one_ping_healthy.
  - exact one_ping_delivers.
  - exact Hag.
  - assert (match sy_agents (ex_state _ one_ping_run 1) !! 0 with Some a => ar_accepted a !! 0 | None => None end =
      Some (example_result ProbeTypePing example_ping_doc)) as E by (vm_compute; reflexivity).
    by rewrite Hag in E.
  - pose proof (one_ping_reports m) as Hr. unfold reports_ping in Hr. destruct (refused _); [|done]. rewrite Ha, Hp in Hr.
    destruct Hd as [Hs|[Hs|(subject & doc & seq & Hs & _ & Hrest)]];
      [by rewrite Hs in Hr|by apply one_ping_not_dropped in Hs|rewrite Hs in Hr].
    destruct (Hrest Hr) as (m' & k & Hm' & _ & [[Hn _]|Hst]); [|exists m', doc; split; [lia|exact Hst]].
    pose proof (one_ping_reports m') as Hr'. unfold reports_ping in Hr'.
    destruct (refused _) eqn:Er; [|done]. exfalso.
    assert (k ∈ refused (st_settled (pr_store (sy_processor (ex_state _ one_ping_run m'))))) as Hk
      by (apply list_elem_of_omap; by exists (Nacked k)).
    rewrite Er in Hk. by apply elem_of_nil in Hk.
Defined.
