(* ===== verification/Sha256.v ===== *)
(** * crypto/sha256 and encoding/hex

    SHA-256 (FIPS 180-4) on octets, words as integers below 2^32, and the
    lower-case hexadecimal text of octets.  The trace processor fingerprints
    paths with the first eight octets of a digest. *)

From S2P Require Import Prelude.
From Stdlib Require Import Ascii.
From Stdlib Require String.

Local Open Scope Z_scope.

Definition w32 : Z → Z := uint32.
Definition rotr (n x : Z) : Z := Z.lor (Z.shiftr x n) (w32 (Z.shiftl x (32 - n))).
Definition not32 (x : Z) : Z := Z.lxor x 0xffffffff.

(** The constants are the first 32 bits of the fractional parts of the cube
    roots of the first 64 primes, and of the square roots of the first 8. *)

Definition is_prime (n : Z) : bool :=
  forallb (λ d, negb (Z.eqb (n mod Z.of_nat d) 0)) (seq 2 (Z.to_nat (n - 2))).

Definition first_primes : list Z := List.filter is_prime (Z.of_nat <$> seq 2 310).

(** The integer cube root of [n] below 2^36, bit by bit from the top. *)
Definition cube_root (n : Z) : Z :=
  foldl (λ r b, let r' := r + 2 ^ b in if Z.leb (r' * r' * r') n then r' else r) 0
    (rev (Z.of_nat <$> seq 0 36)).

Definition K256 : list Z := Eval vm_compute in (λ p, w32 (cube_root (p * 2 ^ 96))) <$> first_primes.

Definition H256 : list Z := Eval vm_compute in (λ p, w32 (Z.sqrt (p * 2 ^ 64))) <$> take 8 first_primes.

Definition be32 (x : Z) : list Z :=
  [Z.land (Z.shiftr x 24) 255; Z.land (Z.shiftr x 16) 255; Z.land (Z.shiftr x 8) 255; Z.land x 255].

(** Padding: one bit, zeros, and the length in bits on eight octets. *)
Definition sha_pad (m : list Z) : list Z :=
  let n := Z.of_nat (length m) in
  let zeros := Z.to_nat ((55 - n) mod 64) in
  m ++ 0x80 :: replicate zeros 0 ++ be32 (Z.shiftr (8 * n) 32) ++ be32 (w32 (8 * n)).

Fixpoint words (b : list Z) : list Z :=
  match b with
  | a :: c :: d :: e :: b' =>
      Z.lor (Z.shiftl a 24) (Z.lor (Z.shiftl c 16) (Z.lor (Z.shiftl d 8) e)) :: words b'
  | _ => []
  end.

Definition nth_word (l : list Z) (i : nat) : Z := nth i l 0.

(** The message schedule, last word first. *)
Fixpoint schedule (n : nat) (rev_w : list Z) : list Z :=
  match n with
  | O => rev rev_w
  | S n' =>
      let w2 := nth_word rev_w 1 in
      let w15 := nth_word rev_w 14 in
      let s0 := Z.lxor (rotr 7 w15) (Z.lxor (rotr 18 w15) (Z.shiftr w15 3)) in
      let s1 := Z.lxor (rotr 17 w2) (Z.lxor (rotr 19 w2) (Z.shiftr w2 10)) in
      schedule n' (w32 (nth_word rev_w 15 + s0 + nth_word rev_w 6 + s1) :: rev_w)
  end.

Definition sha_round (st : list Z) (kw : Z * Z) : list Z :=
  match st with
  | [a; b; c; d; e; f; g; h] =>
      let s1 := Z.lxor (rotr 6 e) (Z.lxor (rotr 11 e) (rotr 25 e)) in
      let ch := Z.lxor (Z.land e f) (Z.land (not32 e) g) in
      let t1 := h + s1 + ch + kw.1 + kw.2 in
      let s0 := Z.lxor (rotr 2 a) (Z.lxor (rotr 13 a) (rotr 22 a)) in
      let maj := Z.lxor (Z.land a b) (Z.lxor (Z.land a c) (Z.land b c)) in
      [w32 (t1 + s0 + maj); a; b; c; w32 (d + t1); e; f; g]
  | _ => st
  end.

Definition sha_block (st : list Z) (block : list Z) : list Z :=
  let st' := foldl sha_round st (zip K256 (schedule 48 (rev (words block)))) in
  zip_with (λ x y, w32 (x + y)) st st'.

(** Blocks of 64 octets; [n] bounds their number. *)
Fixpoint sha_blocks (n : nat) (st : list Z) (b : list Z) : list Z :=
  match n, b with
  | S n', _ :: _ => sha_blocks n' (sha_block st (take 64 b)) (drop 64 b)
  | _, _ => st
  end.

(** [sha256.Sum256]. *)
Definition Sum256 (m : list Z) : list Z :=
  let b := sha_pad m in
  sha_blocks (length b) H256 b ≫= be32.

Definition octets (s : string) : list Z :=
  (λ c, Z.of_nat (nat_of_ascii c)) <$> String.list_ascii_of_string s.

Definition hex_digit (z : Z) : ascii :=
  ascii_of_nat (Z.to_nat (if Z.ltb z 10 then 48 + z else 87 + z)).

(** [hex.EncodeToString]. *)
Fixpoint EncodeToString (b : list Z) : string :=
  match b with
  | [] => ""
  | x :: b' => String (hex_digit (Z.shiftr x 4)) (String (hex_digit (Z.land x 15)) (EncodeToString b'))
  end.

(** The test vectors of FIPS 180-4: one block, and two blocks. *)
Example Sum256_abc : EncodeToString (Sum256 (octets "abc")) =
  "ba7816bf8f01cfea414140de5dae2223b00361a396177a9cb410ff61f20015ad"%string.
Proof. vm_compute. reflexivity. Qed.

Example Sum256_two_blocks :
  EncodeToString (Sum256 (octets "abcdbcdecdefdefgefghfghighijhijkijkljklmklmnlmnomnopnopq")) =
  "248d6a61d20638b8e5c026930c3e6039a33ce45964ff2167f6ecedd419db06c1"%string.
Proof. vm_compute. reflexivity. Qed.
