(* ===== verification/TraceLinks.v ===== *)
(** * Links of a traceroute (services/trace-processor/extract_links.go)

    Hops are grouped by probe id, ordered by time to live, deduplicated, and
    neighbours become links.  [sort.Slice] is a parameter (it may order equal
    elements as it likes), and so is the order in which Go ranges over the map of
    groups. *)

From S2P Require Import Prelude Float64 GoTime Json.
From stdpp Require Import pretty.
From Stdlib Require Import Ascii.

Local Open Scope Z_scope.

(** The fields of the scamper payload the links are made of. *)
Record Hop := {
  hop_Addr : string; hop_ProbeTTL : Z; hop_ProbeID : Z; hop_Rtt : float64; hop_ReplyTTL : Z;
  hop_IcmpType : Z; hop_IcmpCode : Z }.

Record NoHop := { no_ProbeTTL : Z; no_ProbeID : Z }.

Record ParsedHop := {
  ph_Addr : string; ph_ProbeID : Z; ph_ProbeTTL : Z; ph_ReplyTTL : Z; ph_IsTimeout : bool;
  ph_IcmpCode : Z; ph_RTT : float64 }.

(** Pointers are options. *)
Record TraceLink := {
  tl_ProbeID : Z; tl_SrcIP : option string; tl_DstIP : option string; tl_TTLGap : Z;
  tl_IsSrcRespond : bool; tl_IsDstRespond : bool; tl_DiffRTT : option float64 }.

Definition parsed_hop (h : Hop) : ParsedHop :=
  {| ph_Addr := hop_Addr h; ph_ProbeID := hop_ProbeID h; ph_ProbeTTL := hop_ProbeTTL h;
     ph_ReplyTTL := hop_ReplyTTL h; ph_IcmpCode := hop_IcmpCode h; ph_IsTimeout := false;
     ph_RTT := hop_Rtt h |}.

Definition parsed_no_hop (h : NoHop) : ParsedHop :=
  {| ph_Addr := ""; ph_ProbeID := no_ProbeID h; ph_ProbeTTL := no_ProbeTTL h; ph_ReplyTTL := 0;
     ph_IcmpCode := 0; ph_IsTimeout := true; ph_RTT := fzero |}.

Notation groups_t := (gmap Z (list ParsedHop)).

Definition add_hop (g : groups_t) (h : ParsedHop) : groups_t :=
  <[ph_ProbeID h := default [] (g !! ph_ProbeID h) ++ [h]]> g.

(** The loops over Hops and NoHops. *)
Definition group_hops (hops : list Hop) (noHops : list NoHop) : groups_t :=
  foldl add_hop ∅ ((parsed_hop <$> hops) ++ (parsed_no_hop <$> noHops)).

(** Deduplication keeps the first of neighbours with the same TTL. *)
Fixpoint dedup_from (prev : Z) (l : list ParsedHop) : list ParsedHop :=
  match l with
  | [] => []
  | h :: l' => if Z.eqb (ph_ProbeTTL h) prev then dedup_from (ph_ProbeTTL h) l'
               else h :: dedup_from (ph_ProbeTTL h) l'
  end.

Definition dedup (l : list ParsedHop) : list ParsedHop :=
  match l with [] => [] | h :: l' => h :: dedup_from (ph_ProbeTTL h) l' end.

Definition link_of (probeID : Z) (src dst : ParsedHop) : TraceLink :=
  {| tl_ProbeID := probeID; tl_TTLGap := int64 (ph_ProbeTTL dst - ph_ProbeTTL src);
     tl_IsSrcRespond := negb (ph_IsTimeout src); tl_IsDstRespond := negb (ph_IsTimeout dst);
     tl_SrcIP := if ph_IsTimeout src then None else Some (ph_Addr src);
     tl_DstIP := if ph_IsTimeout dst then None else Some (ph_Addr dst);
     tl_DiffRTT := if negb (ph_IsTimeout src) && negb (ph_IsTimeout dst)
                   then Some (fsub (ph_RTT dst) (ph_RTT src)) else None |}.

Definition link_key (probeID : Z) (src dst : ParsedHop) : string :=
  pretty probeID +:+ ":" +:+ ph_Addr src +:+ "->" +:+ ph_Addr dst.

(** The inner loop, from the hop [src] on. *)
Fixpoint link_loop (probeID : Z) (src : ParsedHop) (l : list ParsedHop)
    (acc : gset string * list TraceLink) : gset string * list TraceLink :=
  match l with
  | [] => acc
  | dst :: l' =>
      let key := link_key probeID src dst in
      link_loop probeID dst l'
        (if decide (key ∈ acc.1) then acc
         else ({[key]} ∪ acc.1, acc.2 ++ [link_of probeID src dst]))
  end.

Definition link_group (acc : gset string * list TraceLink) (kv : Z * list ParsedHop)
    : gset string * list TraceLink :=
  match kv.2 with [] => acc | h :: l => link_loop kv.1 h l acc end.

Section Extract.
Context (sort : list ParsedHop → list ParsedHop).

(** The groups when the link loop starts. *)
Definition ordered_groups (hops : list Hop) (noHops : list NoHop) : groups_t :=
  (dedup ∘ sort) <$> group_hops hops noHops.

Definition extractLinks (order : groups_t → list (Z * list ParsedHop))
    (hops : list Hop) (noHops : list NoHop) : list TraceLink :=
  (foldl link_group (∅, []) (order (ordered_groups hops noHops))).2.

End Extract.

(** ** Keys

    The probe id is read off a key: what precedes its first colon. *)

Fixpoint has_colon (s : string) : bool :=
  match s with EmptyString => false | String c s' => Ascii.eqb c ":" || has_colon s' end.

Lemma has_colon_app s t : has_colon (s +:+ t) = has_colon s || has_colon t.
Proof. induction s as [|c s IH]; simpl; [done|]. by rewrite IH, orb_assoc. Qed.

Lemma split_colon s1 s2 t1 t2 :
  has_colon s1 = false → has_colon s2 = false → s1 +:+ ":" +:+ t1 = s2 +:+ ":" +:+ t2 → s1 = s2.
Proof.
  revert s2. induction s1 as [|c1 s1 IH]; intros [|c2 s2]; simpl; intros H1 H2 E; try done.
  - injection E as <- _. simpl in H2. done.
  - injection E as -> _. simpl in H1. done.
  - injection E as -> E. apply orb_false_iff in H1 as [_ H1], H2 as [_ H2]. f_equal. by apply IH.
Qed.

Lemma pretty_N_char_no_colon (n : N) : Ascii.eqb (pretty_N_char n) ":" = false.
Proof. unfold pretty_N_char. by repeat case_match. Qed.

Lemma pretty_N_go_no_colon x s : has_colon s = false → has_colon (pretty_N_go x s) = false.
Proof.
  revert s. induction (N.lt_wf_0 x) as [x _ IH]; intros s Hs.
  destruct (decide (x = 0)%N) as [->|Hx]; [by rewrite pretty_N_go_0|].
  rewrite pretty_N_go_step by lia. apply IH; [apply N.div_lt; lia|].
  simpl. by rewrite pretty_N_char_no_colon.
Qed.

Lemma pretty_Z_no_colon (z : Z) : has_colon (pretty z) = false.
Proof.
  assert (∀ n : N, has_colon (pretty n) = false) as HN.
  { intros n. unfold pretty, pretty_N. case_decide; [done|]. by apply pretty_N_go_no_colon. }
  destruct z as [|p|p]; [done|apply (HN (Npos p))|].
  change (pretty (Zneg p)) with ("-" +:+ pretty (Npos p)). by rewrite has_colon_app, HN.
Qed.

Lemma link_key_id id1 id2 s1 d1 s2 d2 : link_key id1 s1 d1 = link_key id2 s2 d2 → id1 = id2.
Proof. intros E%split_colon; [by apply (inj pretty)|apply pretty_Z_no_colon..]. Qed.

(** ** One group at a time

    The set of keys never couples two groups. *)

Definition foreign (id : Z) (seen : gset string) : Prop := ∀ s d, link_key id s d ∉ seen.

Definition group_links (kv : Z * list ParsedHop) : list TraceLink := (link_group (∅, []) kv).2.

Lemma link_loop_frame id src l seen links seen' links' :
  foreign id seen' →
  link_loop id src l (seen ∪ seen', links' ++ links) =
  let r := link_loop id src l (seen, links) in (r.1 ∪ seen', links' ++ r.2).
Proof.
  intros Hf. revert src seen links. induction l as [|dst l IH]; intros src seen links; simpl; [done|].
  specialize (Hf src dst).
  destruct (decide (link_key id src dst ∈ seen ∪ seen')) as [Hin|Hin].
  - rewrite decide_True by set_solver. apply IH.
  - rewrite decide_False by set_solver. rewrite <- app_assoc, union_assoc_L. apply IH.
Qed.

Lemma link_loop_keys id src l acc key :
  key ∈ (link_loop id src l acc).1 → key ∈ acc.1 ∨ ∃ s d, key = link_key id s d.
Proof.
  revert src acc. induction l as [|dst l IH]; intros src acc; simpl; [by left|].
  intros [H|H]%IH; [|by right]. case_decide; [by left|]. simpl in H.
  apply elem_of_union in H as [->%elem_of_singleton|H]; eauto.
Qed.

Lemma link_group_frame acc kv :
  foreign kv.1 acc.1 →
  (link_group acc kv).2 = acc.2 ++ group_links kv ∧
  ∀ key, key ∈ (link_group acc kv).1 → key ∈ acc.1 ∨ ∃ s d, key = link_key kv.1 s d.
Proof.
  destruct acc as [seen links], kv as [id [|h l]]; unfold group_links, link_group; simpl; intros Hf.
  { rewrite app_nil_r. auto. }
  split; [|apply link_loop_keys].
  pose proof (link_loop_frame id h l ∅ [] seen links Hf) as E.
  rewrite union_empty_l_L, app_nil_r in E. by rewrite E.
Qed.

Lemma link_groups_concat kvs acc :
  NoDup kvs.*1 → (∀ kv, kv ∈ kvs → foreign kv.1 acc.1) →
  (foldl link_group acc kvs).2 = acc.2 ++ (kvs ≫= group_links).
Proof.
  revert acc. induction kvs as [|kv kvs IH]; intros acc Hnd Hf; simpl; [by rewrite app_nil_r|].
  apply NoDup_cons in Hnd as [Hni Hnd].
  destruct (link_group_frame acc kv) as [E Hk]; [apply Hf; set_solver|].
  rewrite IH, E, app_assoc; [done|done|]. intros kv' Hkv' s d [Hin|(s' & d' & E')]%Hk.
  - by apply (Hf kv' ltac:(set_solver) s d).
  - apply link_key_id in E'. apply Hni. rewrite <- E'. apply list_elem_of_fmap. eauto.
Qed.

(** Every order Go may range over the map in. *)
Definition ranges (order : groups_t → list (Z * list ParsedHop)) : Prop :=
  ∀ g, order g ≡ₚ map_to_list g.

Lemma extractLinks_concat sort order hops noHops :
  ranges order →
  extractLinks sort order hops noHops = order (ordered_groups sort hops noHops) ≫= group_links.
Proof.
  intros Ho. unfold extractLinks. rewrite link_groups_concat; [done| |].
  - rewrite (Ho _). apply NoDup_fst_map_to_list.
  - intros kv _ s d. simpl. set_solver.
Qed.

Lemma extractLinks_order sort order1 order2 hops noHops :
  ranges order1 → ranges order2 →
  extractLinks sort order1 hops noHops ≡ₚ extractLinks sort order2 hops noHops.
Proof. intros H1 H2. rewrite !extractLinks_concat by done. by rewrite (H1 _), (H2 _). Qed.

(** ** Groups *)

Definition all_hops (hops : list Hop) (noHops : list NoHop) : list ParsedHop :=
  (parsed_hop <$> hops) ++ (parsed_no_hop <$> noHops).

Lemma add_hops_lookup g l id :
  default [] (foldl add_hop g l !! id) = default [] (g !! id) ++ filter (λ h, ph_ProbeID h = id) l.
Proof.
  revert g. induction l as [|h l IH]; intros g; simpl; [by rewrite app_nil_r|].
  rewrite IH, filter_cons. unfold add_hop at 1. rewrite lookup_insert.
  case_decide as E; [|done]. subst id. simpl. by rewrite <- app_assoc.
Qed.

(** A group holds the hops of its probe, and a probe with a hop has a group. *)
Lemma group_hops_lookup hops noHops id l :
  group_hops hops noHops !! id = Some l → l = filter (λ h, ph_ProbeID h = id) (all_hops hops noHops).
Proof.
  intros E. pose proof (add_hops_lookup ∅ (all_hops hops noHops) id) as H. unfold group_hops in E.
  fold (all_hops hops noHops) in E. by rewrite E in H.
Qed.

Lemma group_hops_is_Some hops noHops h :
  h ∈ all_hops hops noHops → is_Some (group_hops hops noHops !! ph_ProbeID h).
Proof.
  intros Hh. pose proof (add_hops_lookup ∅ (all_hops hops noHops) (ph_ProbeID h)) as H.
  unfold group_hops. fold (all_hops hops noHops). destruct (foldl add_hop ∅ _ !! _); [done|]. rewrite lookup_empty in H. simpl in H.
  assert (h ∈ filter (λ h0, ph_ProbeID h0 = ph_ProbeID h) (all_hops hops noHops)) as Hin
    by (apply list_elem_of_filter; done).
  rewrite <- H in Hin. set_solver.
Qed.

(** ** Deduplication *)

Definition ttl_le (a b : ParsedHop) : Prop := ph_ProbeTTL a ≤ ph_ProbeTTL b.
Definition ttl_lt (a b : ParsedHop) : Prop := ph_ProbeTTL a < ph_ProbeTTL b.

(** What [sort.Slice] promises of the comparison by TTL. *)
Class SortSlice (sort : list ParsedHop → list ParsedHop) : Prop := {
  sort_perm l : sort l ≡ₚ l;
  sort_sorted l : StronglySorted ttl_le (sort l);
}.

Lemma dedup_from_spec prev l :
  StronglySorted ttl_le l → Forall (λ h, prev ≤ ph_ProbeTTL h) l →
  StronglySorted ttl_lt (dedup_from prev l) ∧ Forall (λ h, prev < ph_ProbeTTL h) (dedup_from prev l) ∧
  dedup_from prev l ⊆ l ∧
  ∀ h, h ∈ l → ph_ProbeTTL h = prev ∨ ∃ h', h' ∈ dedup_from prev l ∧ ph_ProbeTTL h' = ph_ProbeTTL h.
Proof.
  revert prev. induction l as [|h l IH]; intros prev Hs Hp; simpl.
  { split; [constructor|]. split; [constructor|]. split; [done|]. set_solver. }
  apply StronglySorted_inv in Hs as [Hs Hh]. apply Forall_cons in Hp as [Hp _].
  destruct (IH (ph_ProbeTTL h) Hs Hh) as (I1 & I2 & I3 & I4).
  destruct (Z.eqb_spec (ph_ProbeTTL h) prev) as [<-|Hne].
  - split; [done|]. split; [done|]. split; [set_solver|]. intros h' [->|H]%elem_of_cons; [by left|by apply I4].
  - split; [by constructor|]. split.
    { constructor; [lia|]. eapply Forall_impl; [exact I2|]. simpl. lia. }
    split; [set_solver|]. intros h' [->|H]%elem_of_cons; right; [exists h; split; [left|done]|].
    destruct (I4 h' H) as [E|(h2 & H2 & E)]; [exists h; split; [left|done]|exists h2; split; [by right|done]].
Qed.

Lemma dedup_spec l :
  StronglySorted ttl_le l →
  StronglySorted ttl_lt (dedup l) ∧ dedup l ⊆ l ∧
  ∀ h, h ∈ l → ∃ h', h' ∈ dedup l ∧ ph_ProbeTTL h' = ph_ProbeTTL h.
Proof.
  destruct l as [|h l]; simpl; [intros _; split; [constructor|]; set_solver|].
  intros [Hs Hh]%StronglySorted_inv. destruct (dedup_from_spec (ph_ProbeTTL h) l Hs Hh) as (I1 & I2 & I3 & I4).
  split; [by constructor|]. split; [set_solver|]. intros h' [->|H]%elem_of_cons; [exists h; split; [left|done]|].
  destruct (I4 h' H) as [E|(h2 & H2 & E)]; [exists h; split; [left|done]|exists h2; split; [by right|done]].
Qed.

(** ** Neighbours *)

Definition adjacent (s d : ParsedHop) (l : list ParsedHop) : Prop := ∃ pre post, l = pre ++ s :: d :: post.

Lemma adjacent_cons s d h l :
  adjacent s d (h :: l) ↔ (s = h ∧ head l = Some d) ∨ adjacent s d l.
Proof.
  split.
  - intros ([|x pre] & post & [= -> ->]); [by left|right; by exists pre, post].
  - intros [[-> H]|(pre & post & ->)]; [|by exists (h :: pre), post].
    destruct l as [|d' l]; simplify_eq/=. by exists [], l.
Qed.

(** Between neighbours of a strictly ascending list there is nothing. *)
Lemma adjacent_sorted s d l :
  StronglySorted ttl_lt l →
  adjacent s d l ↔ s ∈ l ∧ d ∈ l ∧ ttl_lt s d ∧ ∀ h, h ∈ l → ¬ (ttl_lt s h ∧ ttl_lt h d).
Proof.
  induction l as [|h l IH]; intros Hs.
  { split; [intros ([] & post & ?); done|set_solver]. }
  apply StronglySorted_inv in Hs as [Hs Hh]. rewrite Forall_forall in Hh.
  rewrite adjacent_cons, (IH Hs). split.
  - intros [[-> Hd]|(H1 & H2 & H3 & H4)].
    + destruct l as [|d' l]; simplify_eq/=. apply StronglySorted_inv in Hs as [_ Hd].
      rewrite Forall_forall in Hd. split; [by left|]. split; [by right; left|].
      split; [apply Hh; by left|]. intros h' [->|[->|H]%elem_of_cons]%elem_of_cons [E1 E2]; unfold ttl_lt in *;
        [lia..|]. specialize (Hd _ H). lia.
    + split; [by right|]. split; [by right|]. split; [done|].
      intros h' [->|H]%elem_of_cons; [|by apply H4]. specialize (Hh _ H1). unfold ttl_lt in *. lia.
  - intros (H1 & H2 & H3 & H4). apply elem_of_cons in H1 as [->|H1].
    + left. split; [done|]. apply elem_of_cons in H2 as [->|H2]; [unfold ttl_lt in H3; lia|].
      destruct l as [|d' l]; [set_solver|]. simpl. f_equal. apply elem_of_cons in H2 as [->|H2]; [done|].
      apply StronglySorted_inv in Hs as [_ Hd]. rewrite Forall_forall in Hd.
      exfalso. apply (H4 d'); [by right; left|]. split; [apply Hh; by left|by apply Hd].
    + right. pose proof (Hh _ H1) as Hhs. split; [done|].
      apply elem_of_cons in H2 as [->|H2]; [unfold ttl_lt in *; lia|]. split; [done|]. split; [done|].
      intros h' Hh'. apply H4. by right.
Qed.

Lemma link_loop_spec id src l acc :
  let r := link_loop id src l acc in
  (∀ x, x ∈ r.2 → x ∈ acc.2 ∨ ∃ s d, adjacent s d (src :: l) ∧ x = link_of id s d) ∧
  (∀ x, x ∈ acc.2 → x ∈ r.2) ∧ (∀ k, k ∈ acc.1 → k ∈ r.1) ∧
  (∀ s d, adjacent s d (src :: l) → link_key id s d ∈ r.1) ∧
  (∀ k, k ∈ r.1 → k ∈ acc.1 ∨
     ∃ s d, adjacent s d (src :: l) ∧ k = link_key id s d ∧ link_of id s d ∈ r.2).
Proof.
  revert src acc. induction l as [|dst l IH]; intros src acc; cbn [link_loop].
  { repeat split; auto. intros s d (pre & post & E).
    destruct pre as [|? [|? ?]]; discriminate. }
  set (acc' := if decide _ then _ else _).
  destruct (IH dst acc') as (I1 & I2 & I3 & I4 & I5). cbv zeta. set (r := link_loop id dst l acc') in *.
  assert (adjacent src dst (src :: dst :: l)) as Hadj by (by exists [], l).
  assert (∀ s d, adjacent s d (dst :: l) → adjacent s d (src :: dst :: l)) as Hlift.
  { intros s d H. apply adjacent_cons. by right. }
  assert (∀ x, x ∈ acc.2 → x ∈ acc'.2) as A2 by (subst acc'; case_decide; set_solver).
  assert (∀ k, k ∈ acc.1 → k ∈ acc'.1) as A3 by (subst acc'; case_decide; set_solver).
  assert (link_key id src dst ∈ acc'.1) as A4 by (subst acc'; case_decide; set_solver).
  assert (∀ x, x ∈ acc'.2 → x ∈ acc.2 ∨ x = link_of id src dst) as A1
    by (subst acc'; case_decide; set_solver).
  assert (∀ k, k ∈ acc'.1 → k ∈ acc.1 ∨ (k = link_key id src dst ∧ link_of id src dst ∈ acc'.2)) as A5
    by (subst acc'; case_decide; set_solver).
  split; [|split; [auto|split; [auto|split]]].
  - intros x [[H| ->]%A1|(s & d & H & ->)]%I1; eauto 6.
  - intros s d [[-> [= <-]]|H]%adjacent_cons; [by apply I3|by apply I4].
  - intros k [[H|[-> H]]%A5|(s & d & H & -> & H')]%I5; eauto 8.
Qed.

(** What a link says of the two hops it link_joins. *)
Record link_joins (s d : ParsedHop) (x : TraceLink) : Prop := {
  jn_probe : tl_ProbeID x = ph_ProbeID s ∧ tl_ProbeID x = ph_ProbeID d;
  jn_gap : tl_TTLGap x = int64 (ph_ProbeTTL d - ph_ProbeTTL s);
  jn_src : if ph_IsTimeout s then tl_SrcIP x = None ∧ tl_IsSrcRespond x = false
           else tl_SrcIP x = Some (ph_Addr s) ∧ tl_IsSrcRespond x = true;
  jn_dst : if ph_IsTimeout d then tl_DstIP x = None ∧ tl_IsDstRespond x = false
           else tl_DstIP x = Some (ph_Addr d) ∧ tl_IsDstRespond x = true;
  jn_rtt : tl_DiffRTT x = if ph_IsTimeout s || ph_IsTimeout d then None
                          else Some (fsub (ph_RTT d) (ph_RTT s));
}.

Lemma link_of_joins s d : ph_ProbeID s = ph_ProbeID d → link_joins s d (link_of (ph_ProbeID s) s d).
Proof.
  intros E. split; simpl; try done.
  - by destruct (ph_IsTimeout s).
  - by destruct (ph_IsTimeout d).
  - by destruct (ph_IsTimeout s), (ph_IsTimeout d).
Qed.

(** The pairs of hops that the links so far were made of. *)
Definition pair_link (p : ParsedHop * ParsedHop) : TraceLink := link_of (ph_ProbeID p.1) p.1 p.2.
Definition pair_key (p : ParsedHop * ParsedHop) : string := link_key (ph_ProbeID p.1) p.1 p.2.

Record tracks (acc : gset string * list TraceLink) (pairs : list (ParsedHop * ParsedHop)) : Prop := {
  tk_links : acc.2 = pair_link <$> pairs;
  tk_nodup : NoDup (pair_key <$> pairs);
  tk_keys : ∀ k, k ∈ acc.1 ↔ k ∈ pair_key <$> pairs;
}.

Lemma link_loop_pairs id src l acc pairs :
  Forall (λ h, ph_ProbeID h = id) (src :: l) → tracks acc pairs →
  ∃ new, tracks (link_loop id src l acc) (pairs ++ new) ∧ Forall (λ p, adjacent p.1 p.2 (src :: l)) new.
Proof.
  revert src acc pairs. induction l as [|dst l IH]; intros src acc pairs Hid Ht; cbn [link_loop].
  { exists []. rewrite app_nil_r. split; [done|constructor]. }
  apply Forall_cons in Hid as [Hsrc Hid]. destruct Ht as [T1 T2 T3].
  set (step := if decide _ then _ else _).
  assert (∃ new, tracks step (pairs ++ new) ∧ Forall (λ p, p = (src, dst)) new) as (new1 & Ht1 & Hn1).
  { subst step. case_decide as Hk; [exists []; rewrite app_nil_r; split; [by split|constructor]|].
    exists [(src, dst)]. split; [|by repeat constructor].
    assert (pair_key (src, dst) = link_key id src dst) as Ek by (unfold pair_key; simpl; by rewrite Hsrc).
    split; simpl.
    - rewrite T1, fmap_app. simpl. unfold pair_link at 3. simpl. by rewrite Hsrc.
    - rewrite fmap_app, NoDup_app. split; [done|]. split; [|apply NoDup_singleton].
      intros k Hk1 ->%list_elem_of_singleton. apply Hk. apply T3. by rewrite <- Ek.
    - intros k. rewrite fmap_app, elem_of_app, elem_of_union, elem_of_singleton, T3. simpl.
      rewrite list_elem_of_singleton, Ek. tauto. }
  destruct (IH dst step (pairs ++ new1) Hid Ht1) as (new2 & Ht2 & Hn2). exists (new1 ++ new2).
  rewrite app_assoc. split; [done|]. apply Forall_app. split; (eapply Forall_impl; [eassumption|]).
  - intros p ->. by exists [], l.
  - intros p Hp. apply adjacent_cons. by right.
Qed.

Lemma link_group_pairs acc pairs kv :
  Forall (λ h, ph_ProbeID h = kv.1) kv.2 → tracks acc pairs →
  (∃ new, tracks (link_group acc kv) (pairs ++ new) ∧ Forall (λ p, adjacent p.1 p.2 kv.2) new) ∧
  (∀ k, k ∈ acc.1 → k ∈ (link_group acc kv).1) ∧
  ∀ s d, adjacent s d kv.2 → link_key kv.1 s d ∈ (link_group acc kv).1.
Proof.
  destruct kv as [id [|h l]]; unfold link_group; simpl; intros Hid Ht.
  { split; [exists []; rewrite app_nil_r; split; [done|constructor]|]. split; [done|].
    intros s d ([] & post & ?); done. }
  split; [by apply link_loop_pairs|]. by destruct (link_loop_spec id h l acc) as (_ & _ & I3 & I4 & _).
Qed.

Lemma link_groups_pairs kvs acc pairs :
  (∀ kv, kv ∈ kvs → Forall (λ h, ph_ProbeID h = kv.1) kv.2) → tracks acc pairs →
  (∃ new, tracks (foldl link_group acc kvs) (pairs ++ new) ∧
     Forall (λ p, ∃ kv, kv ∈ kvs ∧ adjacent p.1 p.2 kv.2) new) ∧
  (∀ k, k ∈ acc.1 → k ∈ (foldl link_group acc kvs).1) ∧
  ∀ kv s d, kv ∈ kvs → adjacent s d kv.2 → link_key kv.1 s d ∈ (foldl link_group acc kvs).1.
Proof.
  revert acc pairs. induction kvs as [|kv kvs IH]; intros acc pairs Hk Ht; simpl.
  { split; [exists []; rewrite app_nil_r; split; [done|constructor]|]. split; [done|set_solver]. }
  destruct (link_group_pairs acc pairs kv) as ((new1 & Ht1 & Hn1) & Hm1 & Ha1); [apply Hk; by left|done|].
  destruct (IH (link_group acc kv) (pairs ++ new1)) as ((new2 & Ht2 & Hn2) & Hm2 & Ha2);
    [intros; apply Hk; by right|done|].
  split; [|split].
  - exists (new1 ++ new2). rewrite app_assoc. split; [done|]. apply Forall_app.
    split; (eapply Forall_impl; [eassumption|]).
    + intros p Hp. exists kv. split; [by left|done].
    + intros p (kv' & Hin & Hp). exists kv'. split; [by right|done].
  - auto.
  - intros kv' s d [->|Hin]%elem_of_cons Hadj; [by apply Hm2, Ha1|by apply Ha2].
Qed.

(** Two hops of one probe with ascending TTLs and nothing in between. *)
Definition next_hop (all : list ParsedHop) (s d : ParsedHop) : Prop :=
  s ∈ all ∧ d ∈ all ∧ ph_ProbeID s = ph_ProbeID d ∧ ttl_lt s d ∧
  ∀ h, h ∈ all → ph_ProbeID h = ph_ProbeID s → ¬ (ttl_lt s h ∧ ttl_lt h d).

Section Spec.
Context (sort : list ParsedHop → list ParsedHop) `{!SortSlice sort}.
Context (order : groups_t → list (Z * list ParsedHop)) (Horder : ranges order).
Context (hops : list Hop) (noHops : list NoHop).

Lemma ordered_group id l :
  ordered_groups sort hops noHops !! id = Some l →
  StronglySorted ttl_lt l ∧ (∀ h, h ∈ l → h ∈ all_hops hops noHops ∧ ph_ProbeID h = id) ∧
  (∀ h, h ∈ all_hops hops noHops → ph_ProbeID h = id → ∃ h', h' ∈ l ∧ ph_ProbeTTL h' = ph_ProbeTTL h).
Proof.
  unfold ordered_groups. rewrite lookup_fmap.
  destruct (group_hops hops noHops !! id) as [g|] eqn:Eg; [|done]. intros [= <-].
  apply group_hops_lookup in Eg. destruct (dedup_spec (sort g) (sort_sorted g)) as (H1 & H2 & H3).
  split; [done|]. split.
  - intros h Hh%H2. rewrite (sort_perm g), Eg in Hh. by apply list_elem_of_filter in Hh as [? ?].
  - intros h Hh Hid. apply H3. rewrite (sort_perm g), Eg. by apply list_elem_of_filter.
Qed.

Lemma adjacent_next id l s d :
  ordered_groups sort hops noHops !! id = Some l →
  adjacent s d l ↔ s ∈ l ∧ d ∈ l ∧ next_hop (all_hops hops noHops) s d.
Proof.
  intros (Hs & Hin & Hall)%ordered_group. rewrite (adjacent_sorted s d l Hs). split.
  - intros (H1 & H2 & H3 & H4). destruct (Hin _ H1) as [? Es], (Hin _ H2) as [? Ed].
    split; [done|]. split; [done|]. split; [done|]. split; [done|]. split; [congruence|]. split; [done|].
    intros h Hh Eh [L1 L2]. destruct (Hall h Hh ltac:(congruence)) as (h' & Hh' & E).
    apply (H4 h' Hh'). unfold ttl_lt in *. lia.
  - intros (H1 & H2 & _ & _ & _ & H3 & H4). split; [done|]. split; [done|]. split; [done|].
    intros h Hh. destruct (Hin _ Hh) as [Hh' Eh]. destruct (Hin _ H1) as [_ Es]. apply H4; congruence.
Qed.

(** The links are those of pairs of neighbours, one for each key. *)
Lemma extractLinks_pairs :
  ∃ pairs, extractLinks sort order hops noHops = pair_link <$> pairs ∧ NoDup (pair_key <$> pairs) ∧
    Forall (λ p, next_hop (all_hops hops noHops) p.1 p.2) pairs ∧
    ∀ id l s d, ordered_groups sort hops noHops !! id = Some l → adjacent s d l →
      link_key id s d ∈ pair_key <$> pairs.
Proof.
  assert (∀ kv, kv ∈ order (ordered_groups sort hops noHops) ↔ ordered_groups sort hops noHops !! kv.1 = Some kv.2) as Hkv.
  { intros [id l]. by rewrite (Horder _), elem_of_map_to_list. }
  destruct (link_groups_pairs (order (ordered_groups sort hops noHops)) (∅, []) [])
    as ((pairs & [T1 T2 T3] & Hadj) & _ & Hall).
  { intros kv (_ & Hin & _)%Hkv%ordered_group. apply Forall_forall. intros h Hh. by apply Hin. }
  { split; [done|constructor|set_solver]. }
  exists pairs. split; [done|]. split; [done|]. split.
  - eapply Forall_impl; [exact Hadj|]. intros p (kv & Hin%Hkv & Hp). by apply (adjacent_next _ _ _ _ Hin) in Hp as (_ & _ & ?).
  - intros id l s d Hg Hp. apply T3. apply (Hall (id, l)); [by apply Hkv|done].
Qed.

Lemma links_sound x :
  x ∈ extractLinks sort order hops noHops →
  ∃ s d, next_hop (all_hops hops noHops) s d ∧ x = link_of (ph_ProbeID s) s d.
Proof.
  destruct extractLinks_pairs as (pairs & -> & _ & Hn & _). rewrite list_elem_of_fmap.
  intros ([s d] & -> & Hp). rewrite Forall_forall in Hn. by exists s, d; split; [apply (Hn (s, d))|].
Qed.

(** The hops that stand for a pair of neighbours after the deduplication by
    TTL are neighbours in their group. *)
Lemma neighbours_kept s d :
  next_hop (all_hops hops noHops) s d →
  ∃ l s' d', ordered_groups sort hops noHops !! ph_ProbeID s = Some l ∧ adjacent s' d' l ∧
    next_hop (all_hops hops noHops) s' d' ∧ ph_ProbeID s' = ph_ProbeID s ∧
    ph_ProbeTTL s' = ph_ProbeTTL s ∧ ph_ProbeTTL d' = ph_ProbeTTL d.
Proof.
  intros (Hs & Hd & Hid & Hlt & Hno). destruct (group_hops_is_Some hops noHops s Hs) as [g Hg].
  assert (ordered_groups sort hops noHops !! ph_ProbeID s = Some (dedup (sort g))) as Ho
    by (unfold ordered_groups; by rewrite lookup_fmap, Hg).
  set (l := dedup (sort g)) in *. destruct (ordered_group _ _ Ho) as (_ & Hin & Hall).
  destruct (Hall s Hs eq_refl) as (s' & Hs' & Es), (Hall d Hd (eq_sym Hid)) as (d' & Hd' & Ed).
  destruct (Hin _ Hs') as [Hs1 Hs2], (Hin _ Hd') as [Hd1 Hd2].
  assert (next_hop (all_hops hops noHops) s' d') as Hn.
  { split; [done|]. split; [done|]. split; [congruence|]. unfold ttl_lt in *. split; [lia|].
    intros h Hh Eh. rewrite Es, Ed. apply Hno; [done|congruence]. }
  exists l, s', d'. split; [done|]. split; [by apply (adjacent_next _ _ _ _ Ho)|done].
Qed.

End Spec.

(** ** Theorems *)

(** C35. Links are neighbours, up to deduplication.  With any sorting that orders
    a probe's hops by TTL and any order of ranging over the map: the links join
    pairs of hops, each pair of one probe, with ascending TTLs and nothing of
    that probe in between; a link carries the probe and the gap of its pair, the
    address of each end that answered and none of one that did not, and the
    difference of the RTTs when both did; no two pairs have the same key (probe,
    source and destination address as text, empty for an end that did not
    answer).  And for every two neighbouring TTLs of a probe, some pair of hops
    of that probe at those TTLs has the key of a pair that has a link: the pair
    itself, or an earlier one of the same probe between the same addresses. *)
Theorem extractLinks_neighbours sort order hops noHops :
  SortSlice sort → ranges order →
  let all := all_hops hops noHops in
  ∃ pairs, Forall2 (λ p x, link_joins p.1 p.2 x) pairs (extractLinks sort order hops noHops) ∧
    Forall (λ p, next_hop all p.1 p.2) pairs ∧
    NoDup ((λ p, link_key (ph_ProbeID p.1) p.1 p.2) <$> pairs) ∧
    ∀ s d, next_hop all s d →
      ∃ s' d' p, next_hop all s' d' ∧ ph_ProbeID s' = ph_ProbeID s ∧
        ph_ProbeTTL s' = ph_ProbeTTL s ∧ ph_ProbeTTL d' = ph_ProbeTTL d ∧
        p ∈ pairs ∧ ph_ProbeID p.1 = ph_ProbeID s ∧
        link_key (ph_ProbeID s) p.1 p.2 = link_key (ph_ProbeID s) s' d'.
Proof.
  intros Hsort Ho all. destruct (extractLinks_pairs sort order Ho hops noHops) as (pairs & -> & Hnd & Hn & Hall).
  exists pairs. split; [|split; [done|split; [done|]]].
  - apply Forall2_fmap_r, Forall_Forall2_diag. eapply Forall_impl; [exact Hn|].
    intros p (_ & _ & E & _). by apply link_of_joins.
  - intros s d Hsd. destruct (neighbours_kept sort hops noHops s d Hsd) as (l & s' & d' & Hl & Hadj & H1 & H2 & H3 & H4).
    specialize (Hall _ _ _ _ Hl Hadj). apply list_elem_of_fmap in Hall as (p & Ek & Hp).
    pose proof (link_key_id _ _ _ _ _ _ Ek) as Eid.
    exists s', d', p. do 5 (split; [done|]). split; [done|]. rewrite Ek. unfold pair_key. by rewrite <- Eid.
Qed.

(** ** Witnesses *)

#[local] Instance ttl_le_dec : RelDecision ttl_le.
Proof. intros a b. unfold ttl_le. apply Z_le_dec. Defined.

#[local] Instance ttl_le_total : Total ttl_le.
Proof. intros a b. unfold ttl_le. lia. Qed.

#[local] Instance ttl_le_trans : Transitive ttl_le.
Proof. intros a b c. unfold ttl_le. lia. Qed.

Definition sort_by_ttl : list ParsedHop → list ParsedHop := merge_sort ttl_le.

Lemma sort_by_ttl_ok : SortSlice sort_by_ttl.
Proof.
  split; intros l; [apply merge_sort_Permutation|by apply StronglySorted_merge_sort; apply _].
Qed.

Lemma ranges_map_to_list : ranges map_to_list.
Proof. by intros g. Qed.

Definition hop_at (ttl : Z) (addr : string) : Hop :=
  {| hop_Addr := addr; hop_ProbeTTL := ttl; hop_ProbeID := 1; hop_Rtt := fzero; hop_ReplyTTL := 64;
     hop_IcmpType := 11; hop_IcmpCode := 0 |}.

Lemma extractLinks_neighbours_witness :
  ∃ pairs, Forall2 (λ p x, link_joins p.1 p.2 x) pairs
      (extractLinks sort_by_ttl map_to_list [hop_at 2 "b"; hop_at 1 "a"] []) ∧ length pairs = 1%nat.
Proof.
  destruct (extractLinks_neighbours sort_by_ttl map_to_list [hop_at 2 "b"; hop_at 1 "a"] []
    sort_by_ttl_ok ranges_map_to_list) as (pairs & HF & _).
  exists pairs. split; [exact HF|]. rewrite (Forall2_length _ _ _ HF). vm_compute. reflexivity.
Defined.

(** Keys name hops by address and unanswered hops have none, so the links
    between consecutive unanswered hops of a probe collapse to the first. *)
Example unanswered_links_collapse :
  extractLinks sort_by_ttl map_to_list [hop_at 1 "a"]
    [{| no_ProbeTTL := 2; no_ProbeID := 1 |}; {| no_ProbeTTL := 3; no_ProbeID := 1 |};
     {| no_ProbeTTL := 5; no_ProbeID := 1 |}] =
  [link_of 1 (parsed_hop (hop_at 1 "a")) (parsed_no_hop {| no_ProbeTTL := 2; no_ProbeID := 1 |});
   link_of 1 (parsed_no_hop {| no_ProbeTTL := 2; no_ProbeID := 1 |})
     (parsed_no_hop {| no_ProbeTTL := 3; no_ProbeID := 1 |})].
Proof. vm_compute. reflexivity. Qed.
