(* ===== verification/TraceProcessor.v ===== *)
(** * The trace processor (services/trace-processor/processor.go)

    A trace report is decoded, its hops are enriched with autonomous system
    numbers, its path is fingerprinted, and everything is written in one
    transaction; the measurement event for Argus is published in between.
    net/netip and the client for IP to ASN lookups are parameters. *)

From S2P Require Import Prelude Float64 GoTime Json ArgusTypes ArgusDb ArgusWorker Reports Processors Sha256 TraceLinks.
From stdpp Require Import pretty sorting.

Local Open Scope Z_scope.
Local Open Scope go_scope.

(** ** The scamper payload (libs/common/types.go, TraceDataTracePayload) *)

Record TraceDataTracePayload := {
  tp_Src : string; tp_Dst : string; tp_StopReason : string; tp_HopCount : Z;
  tp_Hops : list Hop; tp_NoHops : list NoHop }.

Definition trace_start_set (a : Z * Z) (k : string) (j : json) : option (Z * Z) :=
  if key_is "ftime" k then unread dec_string "" a j else sec_usec_set a k j.

Definition hop_set (a : Hop) (k : string) (j : json) : option Hop :=
  let '(Build_Hop addr ttl id rtt rttl ty code) := a in
  if key_is "addr" k then v ← dec_string addr j; Some (Build_Hop v ttl id rtt rttl ty code)
  else if key_is "probe_ttl" k then v ← dec_int64 ttl j; Some (Build_Hop addr v id rtt rttl ty code)
  else if key_is "probe_id" k then v ← dec_int64 id j; Some (Build_Hop addr ttl v rtt rttl ty code)
  else if key_is "rtt" k then v ← dec_float rtt j; Some (Build_Hop addr ttl id v rttl ty code)
  else if key_is "reply_ttl" k then v ← dec_int64 rttl j; Some (Build_Hop addr ttl id rtt v ty code)
  else if key_is "icmp_type" k then v ← dec_int64 ty j; Some (Build_Hop addr ttl id rtt rttl v code)
  else if key_is "icmp_code" k then v ← dec_int64 code j; Some (Build_Hop addr ttl id rtt rttl ty v)
  else if is_key ["probe_size"; "reply_tos"; "reply_ipid"; "reply_size"; "icmp_q_ttl"; "icmp_q_ipl";
                  "icmp_q_tos"] k then unread dec_int64 0 a j
  else if key_is "tx" k then unread (dec_struct sec_usec_set) (0, 0) a j
  else if key_is "flags" k then unread (dec_list dec_string "") [] a j
  else Some a.

Definition no_hop_set (a : NoHop) (k : string) (j : json) : option NoHop :=
  let '(Build_NoHop ttl id) := a in
  if key_is "probe_ttl" k then v ← dec_int64 ttl j; Some (Build_NoHop v id)
  else if key_is "probe_id" k then v ← dec_int64 id j; Some (Build_NoHop ttl v)
  else if key_is "probe_size" k then unread dec_int64 0 a j
  else if key_is "tx" k then unread (dec_struct sec_usec_set) (0, 0) a j
  else Some a.

Definition hop_zero : Hop :=
  {| hop_Addr := ""; hop_ProbeTTL := 0; hop_ProbeID := 0; hop_Rtt := fzero; hop_ReplyTTL := 0;
     hop_IcmpType := 0; hop_IcmpCode := 0 |}.

Definition trace_payload_set (a : TraceDataTracePayload) (k : string) (j : json) : option TraceDataTracePayload :=
  let '(Build_TraceDataTracePayload src dst stop hc hops nohops) := a in
  if key_is "src" k then v ← dec_string src j; Some (Build_TraceDataTracePayload v dst stop hc hops nohops)
  else if key_is "dst" k then v ← dec_string dst j; Some (Build_TraceDataTracePayload src v stop hc hops nohops)
  else if key_is "stop_reason" k then
    v ← dec_string stop j; Some (Build_TraceDataTracePayload src dst v hc hops nohops)
  else if key_is "hop_count" k then
    v ← dec_int64 hc j; Some (Build_TraceDataTracePayload src dst stop v hops nohops)
  else if key_is "hops" k then
    v ← dec_list (dec_struct hop_set) hop_zero hops j; Some (Build_TraceDataTracePayload src dst stop hc v nohops)
  else if key_is "no_hops" k then
    v ← dec_list (dec_struct no_hop_set) {| no_ProbeTTL := 0; no_ProbeID := 0 |} nohops j;
    Some (Build_TraceDataTracePayload src dst stop hc hops v)
  else if is_key ["type"; "version"; "method"] k then unread dec_string "" a j
  else if is_key ["userid"; "icmp_sum"; "stop_data"; "attempts"; "hoplimit"; "firsthop"; "wait"; "wait_probe";
                  "tos"; "probe_size"; "probe_count"] k then unread dec_int64 0 a j
  else if key_is "start" k then unread (dec_struct trace_start_set) (0, 0) a j
  else if key_is "flags" k then unread (dec_list dec_string "") [] a j
  else Some a.

Definition trace_payload_zero : TraceDataTracePayload :=
  {| tp_Src := ""; tp_Dst := ""; tp_StopReason := ""; tp_HopCount := 0; tp_Hops := []; tp_NoHops := [] |}.

(** ** net/netip and the ASN client *)

Class NetipLib := {
  addr : Type;
  addr_eq_dec :: EqDecision addr;
  addr_countable :: Countable addr;
  zeroAddr : addr;
  ParseAddr : string → option addr;
  AddrString : addr → string;
}.

Record ASNResult := {
  ar_IP : string; ar_ASN : Z; ar_BGPPrefix : string; ar_ASName : string; ar_CountryCode : string }.

(** ** sort.Strings *)

Definition str_le (a b : string) : Prop := String.leb a b = true.

#[export] Instance str_le_dec : RelDecision str_le.
Proof. intros a b. unfold str_le. apply _. Defined.

Definition Strings : list string → list string := merge_sort str_le.

(** [strings.Join]. *)
Definition Join (l : list string) (sep : string) : string := String.concat sep l.

(** ** Tables *)

Section Trace.
Context `{UuidLib} `{NetipLib}.

Record TraceMeasurementRow := {
  tmr_Timestamp : time; tmr_SerialID : string; tmr_AgentConfigID : PgUUID; tmr_Type : string;
  tmr_Src : addr; tmr_Dst : addr; tmr_Method : string; tmr_StopReason : string; tmr_HopCount : Z;
  tmr_AsnPathHash : string; tmr_LinkPathHash : string; tmr_Raw : raw }.

(** Nullable columns are options. *)
Record TraceHopRow := {
  thr_Timestamp : time; thr_MeasurementID : nat; thr_Ip : option addr; thr_Ttl : Z; thr_Rtt : option Z;
  thr_IcmpType : option Z; thr_IcmpCode : option Z; thr_ReplyTtl : option Z; thr_Asn : option Z;
  thr_IsNoHop : bool }.

Record TraceLinkRow := {
  tlr_Timestamp : time; tlr_MeasurementID : nat; tlr_ProbeID : Z; tlr_SrcIp : option addr;
  tlr_DstIp : option addr; tlr_TtlGap : Z; tlr_DiffRtt : option float64; tlr_IsSrcRespond : bool;
  tlr_IsDstRespond : bool }.

Record AsDetails := {
  ad_Asn : option Z; ad_BgpPrefix : option string; ad_Name : option string; ad_Cc : option string }.

(** The keys of the tables device and agent_config, which trace_measurements
    refers to. *)
Record references := { rf_devices : gset string; rf_configs : gset uuid }.

(** as_details has the address as its primary key. *)
Record trace_tables := {
  tt_measurements : gmap nat TraceMeasurementRow;
  tt_hops : list TraceHopRow;
  tt_links : list TraceLinkRow;
  tt_as : gmap addr AsDetails;
  tt_known : references;
}.

Record trace_env := {
  tv_tables : trace_tables;
  tv_faults : list bool;
  tv_next : nat;
  tv_published : list (string * json);
}.

(** A statement, the commit included, that returns an error has not taken
    effect. *)
Definition tv_call {A} (f : trace_env → trace_env * res A) : go trace_env A := fun s =>
  let s' := {| tv_tables := tv_tables s; tv_faults := tl (tv_faults s); tv_next := tv_next s;
               tv_published := tv_published s |} in
  match tv_faults s with true :: _ => (s', RErr "database unavailable") | _ => f s' end.

Definition set_trace_tables (t : trace_tables) (s : trace_env) : trace_env :=
  {| tv_tables := t; tv_faults := tv_faults s; tv_next := tv_next s; tv_published := tv_published s |}.

(** ** Queries *)

(** The foreign keys of a row: its device exists, and so does its configuration
    unless it is NULL. *)
Definition references_ok (k : references) (row : TraceMeasurementRow) : Prop :=
  tmr_SerialID row ∈ rf_devices k ∧
  match pg_col (tmr_AgentConfigID row) with Some u => u ∈ rf_configs k | None => True end.

#[export] Instance references_ok_dec k row : Decision (references_ok k row).
Proof. unfold references_ok. destruct (pg_col _); apply _. Defined.

Definition InsertTraceMeasurement (row : TraceMeasurementRow) : go trace_env nat :=
  tv_call (fun s =>
    let t := tv_tables s in
    if decide (¬ references_ok (tt_known t) row) then (s, RErr "violates foreign key constraint") else
    ({| tv_tables := {| tt_measurements := <[tv_next s := row]> (tt_measurements t); tt_hops := tt_hops t;
                        tt_links := tt_links t; tt_as := tt_as t; tt_known := tt_known t |};
        tv_faults := tv_faults s; tv_next := S (tv_next s); tv_published := tv_published s |},
     ROk (tv_next s))).

Definition GetExistingIPs (ips : list addr) : go trace_env (list addr) :=
  tv_call (fun s => (s, ROk (filter (λ ip, ip ∈ ips) (map_to_list (tt_as (tv_tables s))).*1))).

Definition GetASNForIPs (ips : list addr) : go trace_env (list (addr * option Z)) :=
  tv_call (fun s =>
    (s, ROk (filter (λ r, r.1 ∈ ips) ((λ kv, (kv.1, ad_Asn kv.2)) <$> map_to_list (tt_as (tv_tables s)))))).

(** COPY into as_details: a duplicate key fails the statement. *)
Fixpoint copy_as (rows : list (addr * AsDetails)) (m : gmap addr AsDetails) : option (gmap addr AsDetails) :=
  match rows with
  | [] => Some m
  | (ip, d) :: rows' => match m !! ip with Some _ => None | None => copy_as rows' (<[ip := d]> m) end
  end.

Definition UpsertAsDetails (rows : list (addr * AsDetails)) : go trace_env unit :=
  tv_call (fun s =>
    let t := tv_tables s in
    match copy_as rows (tt_as t) with
    | None => (s, RErr "duplicate key value violates unique constraint")
    | Some m =>
        (set_trace_tables {| tt_measurements := tt_measurements t; tt_hops := tt_hops t; tt_links := tt_links t;
                             tt_as := m; tt_known := tt_known t |} s, ROk tt)
    end).

Definition UpsertFingerprintHash (asnHash linkHash : string) (id : nat) : go trace_env unit :=
  tv_call (fun s =>
    let t := tv_tables s in
    match tt_measurements t !! id with
    | None => (s, RErr ErrNoRows)
    | Some r =>
        (set_trace_tables
           {| tt_measurements :=
                <[id := {| tmr_Timestamp := tmr_Timestamp r; tmr_SerialID := tmr_SerialID r;
                           tmr_AgentConfigID := tmr_AgentConfigID r; tmr_Type := tmr_Type r; tmr_Src := tmr_Src r;
                           tmr_Dst := tmr_Dst r; tmr_Method := tmr_Method r; tmr_StopReason := tmr_StopReason r;
                           tmr_HopCount := tmr_HopCount r; tmr_AsnPathHash := asnHash;
                           tmr_LinkPathHash := linkHash; tmr_Raw := tmr_Raw r |}]> (tt_measurements t);
              tt_hops := tt_hops t; tt_links := tt_links t; tt_as := tt_as t; tt_known := tt_known t |} s, ROk tt)
    end).

Definition InsertTraceHop (rows : list TraceHopRow) : go trace_env unit :=
  tv_call (fun s =>
    let t := tv_tables s in
    (set_trace_tables {| tt_measurements := tt_measurements t; tt_hops := tt_hops t ++ rows;
                         tt_links := tt_links t; tt_as := tt_as t; tt_known := tt_known t |} s, ROk tt)).

Definition InsertTraceLink (rows : list TraceLinkRow) : go trace_env unit :=
  tv_call (fun s =>
    let t := tv_tables s in
    (set_trace_tables {| tt_measurements := tt_measurements t; tt_hops := tt_hops t;
                         tt_links := tt_links t ++ rows; tt_as := tt_as t; tt_known := tt_known t |} s, ROk tt)).

(** ** Hops *)

(** The first loop: the rows of the hops that answered, as they are handed to
    the driver, and their addresses.  The zero address of a hop without one
    becomes NULL in its column ([TraceQueries.read_hop]). *)
Fixpoint hop_rows (ts : time) (id : nat) (hops : list Hop) : res (list TraceHopRow * list addr) :=
  match hops with
  | [] => ROk ([], [])
  | h :: hops' =>
      let? hopIp :=
        if String.eqb (hop_Addr h) "" then ROk zeroAddr
        else match ParseAddr (hop_Addr h) with Some a => ROk a | None => RErr "ParseAddr" end in
      let? rest := hop_rows ts id hops' in
      ROk ({| thr_Timestamp := ts; thr_MeasurementID := id; thr_Ip := Some hopIp;
              thr_Ttl := int32 (hop_ProbeTTL h); thr_Rtt := Some (msToDuration (hop_Rtt h));
              thr_IcmpType := Some (int32 (hop_IcmpType h)); thr_IcmpCode := Some (int32 (hop_IcmpCode h));
              thr_ReplyTtl := Some (int32 (hop_ReplyTTL h)); thr_Asn := Some 0; thr_IsNoHop := false |}
             :: rest.1, hopIp :: rest.2)
  end.

Definition no_hop_row (ts : time) (id : nat) (h : NoHop) : TraceHopRow :=
  {| thr_Timestamp := ts; thr_MeasurementID := id; thr_Ip := None; thr_Ttl := int32 (no_ProbeTTL h);
     thr_Rtt := None; thr_IcmpType := None; thr_IcmpCode := None; thr_ReplyTtl := None; thr_Asn := None;
     thr_IsNoHop := true |}.

(** ** Enrichment *)

Definition as_details_row (r : ASNResult) : AsDetails :=
  {| ad_Asn := Some (int32 (ar_ASN r));
     ad_BgpPrefix := if String.eqb (ar_BGPPrefix r) "NA" then None else Some (ar_BGPPrefix r);
     ad_Name := if String.eqb (ar_ASName r) "NA" then None else Some (ar_ASName r);
     ad_Cc := if String.eqb (ar_CountryCode r) "" then None else Some (ar_CountryCode r) |}.

Fixpoint as_rows (results : list ASNResult) : res (list (addr * AsDetails)) :=
  match results with
  | [] => ROk []
  | r :: results' =>
      match ParseAddr (ar_IP r) with
      | None => RErr "ParseAddr"
      | Some ip =>
          let? rest := as_rows results' in
          ROk (if Z.eqb (ar_ASN r) 0 then rest else (ip, as_details_row r) :: rest)
      end
  end.

Definition missing_ips (allIPs existingIPs : list addr) : list string :=
  AddrString <$> filter (λ ip, ip ∉ existingIPs) allIPs.

(** [Lookup] is the ASN client. *)
Definition enrichMissingHops (Lookup : list string → res (list ASNResult)) (allIPs existingIPs : list addr)
    : go trace_env unit := fun s =>
  match Lookup (missing_ips allIPs existingIPs) with
  | RErr e => (s, RErr e)
  | RPanic e => (s, RPanic e)
  | ROk results =>
      match as_rows results with
      | RErr e => (s, RErr e)
      | RPanic e => (s, RPanic e)
      | ROk rows => UpsertAsDetails rows s
      end
  end.

Definition getIPToASNMap (ips : list addr) : go trace_env (gmap addr (option Z)) :=
  let* rows := GetASNForIPs ips in
  go_ret (foldl (λ m r, <[r.1 := r.2]> m) ∅ rows).

Definition set_asn (r : TraceHopRow) (asn : option Z) : TraceHopRow :=
  {| thr_Timestamp := thr_Timestamp r; thr_MeasurementID := thr_MeasurementID r; thr_Ip := thr_Ip r;
     thr_Ttl := thr_Ttl r; thr_Rtt := thr_Rtt r; thr_IcmpType := thr_IcmpType r;
     thr_IcmpCode := thr_IcmpCode r; thr_ReplyTtl := thr_ReplyTtl r; thr_Asn := asn;
     thr_IsNoHop := thr_IsNoHop r |}.

(** Whether the number of a hop joins the path: not zero, and not the last. *)
Definition joins (unique : list Z) (asn : Z) : bool :=
  negb (bool_decide (last unique = Some asn)) && negb (Z.eqb asn 0).

(** The second loop, with the numbers collected so far. *)
Fixpoint asn_path (asnMap : gmap addr (option Z)) (hops : list TraceHopRow) (unique : list Z)
    : list TraceHopRow * list Z :=
  match hops with
  | [] => ([], unique)
  | h :: hops' =>
      match thr_Ip h ≫= (asnMap !!.) with
      | None =>
          let '(rows, unique') := asn_path asnMap hops' unique in (set_asn h None :: rows, unique')
      | Some fetched =>
          let asn := default 0 fetched in
          let unique1 := if joins unique asn then unique ++ [asn] else unique in
          let '(rows, unique') := asn_path asnMap hops' unique1 in (set_asn h fetched :: rows, unique')
      end
  end.

(** ** Fingerprints *)

Definition asn_pairs (unique : list Z) : string :=
  foldl (λ acc asn, acc +:+ (":AS" +:+ pretty asn)) "" unique.

Definition ip_pairs (links : list TraceLink) : list string :=
  omap (λ l, match tl_SrcIP l, tl_DstIP l with
             | Some a, Some b => Some (a +:+ "->" +:+ b)
             | _, _ => None
             end) links.

Definition path_hash (text : string) : string := EncodeToString (take 8 (Sum256 (octets text))).

Definition asnPathHash (unique : list Z) : string := path_hash (asn_pairs unique).
Definition linkPathHash (links : list TraceLink) : string := path_hash (Join (Strings (ip_pairs links)) ",").

(** ** Links *)

Definition parse_link_ip (ip : option string) : res (option addr) :=
  match ip with
  | None => ROk None
  | Some a => match ParseAddr a with Some x => ROk (Some x) | None => RErr "ParseAddr" end
  end.

Fixpoint link_rows (ts : time) (id : nat) (links : list TraceLink) : res (list TraceLinkRow) :=
  match links with
  | [] => ROk []
  | l :: links' =>
      let? src := parse_link_ip (tl_SrcIP l) in
      let? dst := parse_link_ip (tl_DstIP l) in
      let? rest := link_rows ts id links' in
      ROk ({| tlr_Timestamp := ts; tlr_MeasurementID := id; tlr_ProbeID := int32 (tl_ProbeID l);
              tlr_SrcIp := src; tlr_DstIp := dst; tlr_TtlGap := int32 (tl_TTLGap l);
              tlr_DiffRtt := tl_DiffRTT l; tlr_IsSrcRespond := tl_IsSrcRespond l;
              tlr_IsDstRespond := tl_IsDstRespond l |} :: rest)
  end.

(** ** Publication *)

Definition trace_event (serialId target src : string) (timestamp : time) (m : TraceMetrics) : MeasurementEvent :=
  {| me_Type := ProbeTypeTrace; me_SerialID := serialId; me_Target := target; me_Port := 0; me_Src := src;
     me_Timestamp := timestamp; me_Metrics := RawDoc (trace_to_json m) |}.

(** [published] is what publishing returns after its retries; only a message
    that was acknowledged counts as published. *)
Definition publishMeasurement (serialId target src : string) (timestamp : time) (m : TraceMetrics)
    (published : res unit) : go trace_env unit := fun s =>
  match event_to_json (trace_event serialId target src timestamp m) with
  | None => (s, RErr "json: unsupported value")
  | Some j =>
      match published with
      | ROk _ =>
          ({| tv_tables := tv_tables s; tv_faults := tv_faults s; tv_next := tv_next s;
              tv_published := tv_published s ++ [("cepheus.measurement.trace." +:+ serialId, j)] |}, ROk tt)
      | r => (s, r)
      end
  end.

(** ** Processing a trace *)

(** A computed result inside the transaction. *)
Definition lift {A} (r : res A) : go trace_env A := fun s => (s, r).

Section Process.
Context (sort : list ParsedHop → list ParsedHop) (order : gmap Z (list ParsedHop) → list (Z * list ParsedHop)).
Context (Lookup : list string → res (list ASNResult)) (published : res unit).

(** The statements between Begin and Commit. *)
Definition trace_body (traceData : TraceData) (tp : TraceDataTracePayload) (src dst : addr) (ts : time)
    (serialId agentConfigId : string) : go trace_env unit :=
  let* cid := lift (match uuid_Parse agentConfigId with Some u => ROk (pg_some u) | None => RErr "invalid UUID" end) in
  let* id := InsertTraceMeasurement
    {| tmr_Timestamp := ts; tmr_SerialID := serialId; tmr_AgentConfigID := cid; tmr_Type := td_Type traceData;
       tmr_Src := src; tmr_Dst := dst; tmr_Method := td_Method traceData; tmr_StopReason := tp_StopReason tp;
       tmr_HopCount := int32 (tp_HopCount tp); tmr_AsnPathHash := ""; tmr_LinkPathHash := "";
       tmr_Raw := td_Data traceData |} in
  let* parsed := lift (hop_rows ts id (tp_Hops tp)) in
  let '(traceHops, hopIPs) := parsed in
  let* existingIPs := GetExistingIPs hopIPs in
  enrichMissingHops Lookup hopIPs existingIPs ;;;
  let* asnMap := getIPToASNMap hopIPs in
  let '(hops, uniqueASNs) := asn_path asnMap traceHops [] in
  let links := extractLinks sort order (tp_Hops tp) (tp_NoHops tp) in
  let metrics := {| tm_AsnPathHash := asnPathHash uniqueASNs; tm_LinkPathHash := linkPathHash links |} in
  publishMeasurement serialId (AddrString dst) (AddrString src) ts metrics published ;;;
  UpsertFingerprintHash (asnPathHash uniqueASNs) (linkPathHash links) id ;;;
  InsertTraceHop (hops ++ (no_hop_row ts id <$> tp_NoHops tp)) ;;;
  let* dbLinks := lift (link_rows ts id links) in
  InsertTraceLink dbLinks ;;;
  tv_call (fun s => (s, ROk tt)).

(** The deferred Rollback restores the tables unless the commit went through. *)
Definition processNormalTrace (traceData : TraceData) (payload : ReportPayload) : go trace_env unit :=
  let* tp := lift (match unmarshal (dec_struct trace_payload_set) trace_payload_zero (td_Data traceData) with
                   | Some tp => ROk tp | None => RErr "json" end) in
  let* src := lift (match ParseAddr (tp_Src tp) with Some a => ROk a | None => RErr "ParseAddr" end) in
  let* dst := lift (match ParseAddr (tp_Dst tp) with Some a => ROk a | None => RErr "ParseAddr" end) in
  let* tx := tv_call (fun s => (s, ROk (tv_tables s))) in
  fun s =>
    match trace_body traceData tp src dst (prr_Timestamp (rpl_Payload payload)) (rpl_SerialID payload)
            (rpl_AgentConfigId payload) s with
    | (s', ROk u) => (s', ROk u)
    | (s', RErr e) => (set_trace_tables tx s', RErr e)
    | (s', RPanic e) => (set_trace_tables tx s', RPanic e)
    end.

(** ** Messages *)

Inductive verdict := Ack | Nak.

Definition consume_trace (msg : raw) : go trace_env verdict := fun s =>
  match unmarshal report_from_json report_zero msg with
  | None => (s, ROk Nak)
  | Some payload =>
      if negb (String.eqb (prr_ProbeType (rpl_Payload payload)) ProbeTypeTrace) then (s, ROk Nak)
      else match unmarshal (dec_struct trace_data_set) trace_data_zero (prr_Data (rpl_Payload payload)) with
      | None => (s, ROk Nak)
      | Some traceData =>
          if negb (String.eqb (td_Format traceData) "json") then (s, ROk Nak)
          else if String.eqb (td_Type traceData) TraceProbeTypeTrace then
            match processNormalTrace traceData payload s with
            | (s', ROk _) => (s', ROk Ack)
            | (s', RErr _) => (s', ROk Nak)
            | (s', RPanic e) => (s', RPanic e)
            end
          else if String.eqb (td_Type traceData) TraceProbeTypeTraceLb then (s, ROk Ack)
          else (s, ROk Nak)
      end
  end.

End Process.
End Trace.
