(* ===== verification/TraceProcessorProps.v ===== *)
(** * Correctness of the trace processor

    A message is acknowledged exactly when its trace was committed, with the
    fingerprints Argus is told; the link fingerprint does not depend on the order
    in which Go ranges over maps; an AS path has no zeros and no repetitions. *)

From S2P Require Import Prelude Float64 GoTime Json ArgusTypes ArgusDb ArgusWorker ArgusWorkerProps Reports.
From S2P Require Import PolicyEngineProps AgentConfig Supervisor AgentPipeline Processors ProcessorsProps Sha256 TraceLinks TraceProcessor.
From stdpp Require Import pretty sorting.
From Stdlib Require Import Ascii.

Local Open Scope Z_scope.
Local Open Scope go_scope.

(** ** sort.Strings gives one answer *)

Lemma string_compare_trans a b c :
  String.compare a b ≠ Gt → String.compare b c ≠ Gt → String.compare a c ≠ Gt.
Proof.
  revert b c. induction a as [|x a IH]; intros [|y b] [|z c]; simpl; try done.
  unfold Ascii.compare in *.
  destruct (N.compare_spec (N_of_ascii x) (N_of_ascii y)), (N.compare_spec (N_of_ascii y) (N_of_ascii z)),
    (N.compare_spec (N_of_ascii x) (N_of_ascii z)); try done; try lia; try apply IH.
Qed.

#[local] Instance str_le_trans : Transitive str_le.
Proof.
  intros a b c. unfold str_le, String.leb.
  pose proof (string_compare_trans a b c) as H.
  destruct (String.compare a b), (String.compare b c), (String.compare a c); try done; exfalso; by apply H.
Qed.

#[local] Instance str_le_total : Total str_le.
Proof. intros a b. apply String.leb_total. Qed.

#[local] Instance str_le_antisymm : AntiSymm (=) str_le.
Proof. intros a b. apply String.leb_antisym. Qed.

Lemma Strings_unique l1 l2 : l1 ≡ₚ l2 → Strings l1 = Strings l2.
Proof.
  intros H. apply (StronglySorted_unique str_le); try apply StronglySorted_merge_sort; try apply _.
  unfold Strings. by rewrite !merge_sort_Permutation.
Qed.

Lemma linkPathHash_perm links1 links2 : links1 ≡ₚ links2 → linkPathHash links1 = linkPathHash links2.
Proof.
  intros H. unfold linkPathHash. do 2 f_equal. apply Strings_unique. unfold ip_pairs. by rewrite H.
Qed.

(** The link fingerprint of a trace does not depend on the order in which
    Go ranges over the map of probes: the links are a permutation of each other
    and the pairs are sorted before they are hashed. *)
Theorem link_fingerprint_stable sort order1 order2 hops noHops :
  ranges order1 → ranges order2 →
  linkPathHash (extractLinks sort order1 hops noHops) = linkPathHash (extractLinks sort order2 hops noHops).
Proof. intros H1 H2. by apply linkPathHash_perm, extractLinks_order. Qed.

(** ** AS paths *)

(** No zero, and no number twice in a row. *)
Definition path_ok (l : list Z) : Prop :=
  (∀ a, a ∈ l → a ≠ 0) ∧ ∀ i a, l !! i = Some a → l !! S i ≠ Some a.

Section Trace.
Context `{UuidLib} `{NetipLib}.

Lemma joins_ok l a : path_ok l → joins l a = true → path_ok (l ++ [a]).
Proof.
  intros [H1 H2]. unfold joins. rewrite andb_true_iff, !negb_true_iff. intros [Hl Ha].
  apply bool_decide_eq_false in Hl. apply Z.eqb_neq in Ha. split.
  - intros b [Hb| ->%list_elem_of_singleton]%elem_of_app; [by apply H1|done].
  - intros i b Hi Hs. destruct (decide (S i < length l)%nat) as [Hlt|Hge].
    + rewrite lookup_app_l in Hs by done. rewrite lookup_app_l in Hi by lia. by apply (H2 i b).
    + assert (S i = length l) as E.
      { apply lookup_lt_Some in Hs. rewrite length_app in Hs. simpl in Hs. lia. }
      rewrite E, list_lookup_middle in Hs by done. injection Hs as <-.
      rewrite lookup_app_l in Hi by lia. apply Hl. rewrite last_lookup, <- E. done.
Qed.

Lemma asn_path_spec m hops unique :
  path_ok unique →
  let '(rows, path) := asn_path m hops unique in
  path_ok path ∧ length rows = length hops ∧
  ∀ i h, hops !! i = Some h → rows !! i = Some (set_asn h (mjoin (thr_Ip h ≫= (m !!.)))).
Proof.
  revert unique. induction hops as [|h hops IH]; intros unique Hu; cbn [asn_path]; [done|].
  destruct (thr_Ip h ≫= (m !!.)) as [fetched|] eqn:E.
  - set (unique1 := if joins _ _ then _ else _).
    assert (path_ok unique1) as Hu1 by (subst unique1; destruct (joins _ _) eqn:Ej; auto using joins_ok).
    specialize (IH unique1 Hu1). destruct (asn_path m hops unique1) as [rows path].
    destruct IH as (I1 & I2 & I3). split; [done|]. split; [simpl; lia|].
    intros [|i] h' Hi; simplify_eq/=; [by rewrite E|by apply I3].
  - specialize (IH unique Hu). destruct (asn_path m hops unique) as [rows path].
    destruct IH as (I1 & I2 & I3). split; [done|]. split; [simpl; lia|].
    intros [|i] h' Hi; simplify_eq/=; [by rewrite E|by apply I3].
Qed.

(** ** The transaction *)

Lemma tv_call_inv {A} (f : trace_env → trace_env * res A) s s' a :
  tv_call f s = (s', ROk a) →
  f {| tv_tables := tv_tables s; tv_faults := tl (tv_faults s); tv_next := tv_next s;
       tv_published := tv_published s |} = (s', ROk a).
Proof. unfold tv_call. by destruct (tv_faults s) as [|[] l]. Qed.

(** The environment after a row was inserted. *)
Definition inserted (row : TraceMeasurementRow) (s : trace_env) : trace_env :=
  {| tv_tables := {| tt_measurements := <[tv_next s := row]> (tt_measurements (tv_tables s));
                     tt_hops := tt_hops (tv_tables s); tt_links := tt_links (tv_tables s);
                     tt_as := tt_as (tv_tables s); tt_known := tt_known (tv_tables s) |};
     tv_faults := tl (tv_faults s); tv_next := S (tv_next s); tv_published := tv_published s |}.

Lemma insert_inv row s s' id :
  InsertTraceMeasurement row s = (s', ROk id) →
  references_ok (tt_known (tv_tables s)) row ∧ s' = inserted row s ∧ id = tv_next s.
Proof.
  intros E%tv_call_inv. simpl in E. case_decide as Hk; [done|]. injection E as <- <-.
  by split.
Qed.

Lemma insert_ok row s :
  tv_faults s = [] → references_ok (tt_known (tv_tables s)) row →
  InsertTraceMeasurement row s = (inserted row s, ROk (tv_next s)).
Proof.
  intros Hf Hk. unfold InsertTraceMeasurement, tv_call, inserted. rewrite Hf. simpl.
  by rewrite decide_False by (intros Hn; by apply Hn).
Qed.

Lemma copy_as_grows rows m m' : copy_as rows m = Some m' → m ⊆ m'.
Proof.
  revert m. induction rows as [|[ip d] rows IH]; intros m; simpl; [by intros [= <-]|].
  destruct (m !! ip) eqn:E; [done|]. intros Hc%IH. etrans; [by apply insert_subseteq|exact Hc].
Qed.

Lemma enrich_inv Lookup all ex s s' u :
  enrichMissingHops Lookup all ex s = (s', ROk u) →
  tv_next s' = tv_next s ∧ tv_published s' = tv_published s ∧
  tt_measurements (tv_tables s') = tt_measurements (tv_tables s) ∧
  tt_hops (tv_tables s') = tt_hops (tv_tables s) ∧ tt_links (tv_tables s') = tt_links (tv_tables s) ∧
  tt_as (tv_tables s) ⊆ tt_as (tv_tables s').
Proof.
  unfold enrichMissingHops. destruct (Lookup _) as [rs|e|e]; [|done..].
  destruct (as_rows rs) as [rows|e|e]; [|done..]. unfold UpsertAsDetails. intros E%tv_call_inv.
  simpl in E. destruct (copy_as rows _) as [m|] eqn:Em; [|done]. injection E as <-.
  simpl. do 5 (split; [done|]). by eapply copy_as_grows.
Qed.

(** A row with the number of its address. *)
Definition with_asn (m : gmap addr (option Z)) (h : TraceHopRow) : TraceHopRow :=
  set_asn h (mjoin (thr_Ip h ≫= (m !!.))).

Lemma asn_path_rows m hops unique : (asn_path m hops unique).1 = with_asn m <$> hops.
Proof.
  revert unique. induction hops as [|h hops IH]; intros unique; [done|].
  rewrite fmap_cons. unfold with_asn at 1. cbn [asn_path]. destruct (thr_Ip h ≫= (m !!.)) as [fetched|].
  - set (u := if joins _ _ then _ else _). specialize (IH u). destruct (asn_path m hops u). simpl in *. by rewrite IH.
  - specialize (IH unique). destruct (asn_path m hops unique). simpl in *. by rewrite IH.
Qed.

(** What a committed trace leaves: one measurement under a fresh id with the
    fingerprints of the published event, the rows of its hops and links, and as
    many AS details as before or more. *)
Definition trace_committed (payload : ReportPayload) (tp : TraceDataTracePayload) (links : list TraceLink)
    (s s' : trace_env) : Prop :=
  ∃ row path rows ips m hops dbLinks j,
    tt_measurements (tv_tables s') = <[tv_next s := row]> (tt_measurements (tv_tables s)) ∧
    tmr_SerialID row = rpl_SerialID payload ∧ tmr_Timestamp row = prr_Timestamp (rpl_Payload payload) ∧
    ParseAddr (tp_Src tp) = Some (tmr_Src row) ∧ ParseAddr (tp_Dst tp) = Some (tmr_Dst row) ∧
    tmr_AsnPathHash row = asnPathHash path ∧ tmr_LinkPathHash row = linkPathHash links ∧ path_ok path ∧
    tt_hops (tv_tables s') =
      tt_hops (tv_tables s) ++ hops ++
      (no_hop_row (prr_Timestamp (rpl_Payload payload)) (tv_next s) <$> tp_NoHops tp) ∧
    hop_rows (prr_Timestamp (rpl_Payload payload)) (tv_next s) (tp_Hops tp) = ROk (rows, ips) ∧
    hops = with_asn m <$> rows ∧
    tt_links (tv_tables s') = tt_links (tv_tables s) ++ dbLinks ∧
    link_rows (prr_Timestamp (rpl_Payload payload)) (tv_next s) links = ROk dbLinks ∧
    tt_as (tv_tables s) ⊆ tt_as (tv_tables s') ∧
    event_to_json (trace_event (rpl_SerialID payload) (AddrString (tmr_Dst row)) (AddrString (tmr_Src row))
      (prr_Timestamp (rpl_Payload payload))
      {| tm_AsnPathHash := tmr_AsnPathHash row; tm_LinkPathHash := tmr_LinkPathHash row |}) = Some j ∧
    tv_published s' = tv_published s ++ [("cepheus.measurement.trace." +:+ rpl_SerialID payload, j)].

Section Process.
Context (sort : list ParsedHop → list ParsedHop) (order : gmap Z (list ParsedHop) → list (Z * list ParsedHop)).
Context (Lookup : list string → res (list ASNResult)) (published : res unit).

Lemma trace_body_ok traceData tp src dst payload s s' :
  trace_body sort order Lookup published traceData tp src dst (prr_Timestamp (rpl_Payload payload))
    (rpl_SerialID payload) (rpl_AgentConfigId payload) s = (s', ROk tt) →
  ParseAddr (tp_Src tp) = Some src → ParseAddr (tp_Dst tp) = Some dst →
  trace_committed payload tp (extractLinks sort order (tp_Hops tp) (tp_NoHops tp)) s s'.
Proof.
  unfold trace_body. intros K Hsrc Hdst.
  apply go_bind_inv in K as (s1 & cid & E1 & K). unfold lift in E1. injection E1 as <- _.
  apply go_bind_inv in K as (s2 & id & (_ & -> & ->)%insert_inv & K).
  apply go_bind_inv in K as (s3 & [hops ips] & E3 & K). unfold lift in E3.
  injection E3 as <- E3.
  apply go_bind_inv in K as (s4 & ex & E4%tv_call_inv & K). injection E4 as <- <-.
  apply go_bind_inv in K as (s5 & u5 & (N5 & P5 & M5 & O5 & L5 & A5)%enrich_inv & K). simpl in *.
  apply go_bind_inv in K as (s6 & m & E6 & K). unfold getIPToASNMap in E6.
  apply go_bind_inv in E6 as (s6' & rows & E6%tv_call_inv & E6'). injection E6 as <- <-.
  injection E6' as <- _.
  pose proof (asn_path_spec m hops [] ltac:(split; set_solver)) as Hpath.
  pose proof (asn_path_rows m hops []) as Hrows.
  destruct (asn_path m hops []) as [hops' path]. destruct Hpath as (Hp & Hl & _). simpl in Hrows.
  set (links := extractLinks _ _ _ _) in *.
  apply go_bind_inv in K as (s7 & u7 & E7 & K). unfold publishMeasurement in E7.
  destruct (event_to_json _) as [j|] eqn:Ej; [|done]. destruct published as [u|e|e]; [|done..].
  injection E7 as <- _.
  apply go_bind_inv in K as (s8 & u8 & E8%tv_call_inv & K). simpl in E8.
  rewrite M5, lookup_insert_eq in E8. injection E8 as <- _.
  apply go_bind_inv in K as (s9 & u9 & E9%tv_call_inv & K). injection E9 as <- _.
  apply go_bind_inv in K as (s10 & dbLinks & E10 & K). unfold lift in E10. injection E10 as <- E10.
  apply go_bind_inv in K as (s11 & u11 & E11%tv_call_inv & K). injection E11 as <- _.
  apply tv_call_inv in K. injection K as <-. simpl.
  rewrite insert_insert_eq. eexists _, path, hops, _, m, hops', dbLinks, j.
  split; [reflexivity|]. simpl. rewrite O5, L5, P5. repeat (split; [done|]). done.
Qed.

Lemma processNormalTrace_spec traceData payload s :
  let '(s', r) := processNormalTrace sort order Lookup published traceData payload s in
  match r with
  | ROk _ => ∃ tp, unmarshal (dec_struct trace_payload_set) trace_payload_zero (td_Data traceData) = Some tp ∧
      trace_committed payload tp (extractLinks sort order (tp_Hops tp) (tp_NoHops tp)) s s'
  | _ => tv_tables s' = tv_tables s
  end.
Proof.
  unfold processNormalTrace, go_bind, lift.
  destruct (unmarshal _ _ (td_Data traceData)) as [tp|] eqn:Et; [|done].
  destruct (ParseAddr (tp_Src tp)) as [src|] eqn:Esrc; [|done].
  destruct (ParseAddr (tp_Dst tp)) as [dst|] eqn:Edst; [|done].
  unfold tv_call. set (s1 := {| tv_tables := tv_tables s |}).
  assert (∀ links s', trace_committed payload tp links s1 s' → trace_committed payload tp links s s')
    as Hs1 by done.
  destruct (tv_faults s) as [|[] l]; [|done|].
  all: destruct (trace_body _ _ _ _ _ _ _ _ _ _ _ s1) as [s' [[]|e|e]] eqn:E; [|done..].
  all: exists tp; split; [done|]; apply Hs1; by eapply trace_body_ok.
Qed.

(** What a message leaves on every outcome. *)
Lemma consume_trace_spec msg s :
  match consume_trace sort order Lookup published msg s with
  | (s', ROk Nak) => tv_tables s' = tv_tables s
  | (s', ROk Ack) => ∃ payload traceData,
      unmarshal report_from_json report_zero msg = Some payload ∧
      unmarshal (dec_struct trace_data_set) trace_data_zero (prr_Data (rpl_Payload payload)) = Some traceData ∧
      (td_Type traceData = TraceProbeTypeTraceLb ∧ s' = s ∨
       td_Type traceData = TraceProbeTypeTrace ∧
       ∃ tp, unmarshal (dec_struct trace_payload_set) trace_payload_zero (td_Data traceData) = Some tp ∧
         trace_committed payload tp (extractLinks sort order (tp_Hops tp) (tp_NoHops tp)) s s')
  | (s', RErr _) => False
  | (s', RPanic _) => tv_tables s' = tv_tables s
  end.
Proof.
  unfold consume_trace. destruct (unmarshal report_from_json _ msg) as [payload|] eqn:Ep; [|done].
  destruct (negb _); [done|].
  destruct (unmarshal (dec_struct trace_data_set) _ _) as [traceData|] eqn:Ed; [|done].
  destruct (negb _); [done|].
  destruct (String.eqb_spec (td_Type traceData) TraceProbeTypeTrace) as [Hty|_].
  - pose proof (processNormalTrace_spec traceData payload s) as Hp.
    destruct (processNormalTrace _ _ _ _ traceData payload s) as [s' [u|e|e]]; [|done..].
    exists payload, traceData. split; [done|]. split; [done|]. by right.
  - destruct (String.eqb_spec (td_Type traceData) TraceProbeTypeTraceLb) as [Hty|_]; [|done].
    exists payload, traceData. split; [done|]. split; [done|]. by left.
Qed.

(** A trace message is settled as one: it is negatively acknowledged with
    the tables as they were, or acknowledged with its trace committed: one
    measurement that carries the fingerprints of the event published for it,
    a row for every hop (the unanswered ones included) and for every link.
    (Acknowledged load-balancer traces, which are not parsed yet, change
    nothing.) *)
Theorem trace_settled_as_one msg s :
  match consume_trace sort order Lookup published msg s with
  | (s', ROk Nak) => tv_tables s' = tv_tables s
  | (s', ROk Ack) => ∃ payload traceData,
      unmarshal report_from_json report_zero msg = Some payload ∧
      unmarshal (dec_struct trace_data_set) trace_data_zero (prr_Data (rpl_Payload payload)) = Some traceData ∧
      (td_Type traceData = TraceProbeTypeTraceLb ∧ s' = s ∨
       td_Type traceData = TraceProbeTypeTrace ∧
       ∃ tp, unmarshal (dec_struct trace_payload_set) trace_payload_zero (td_Data traceData) = Some tp ∧
         trace_committed payload tp (extractLinks sort order (tp_Hops tp) (tp_NoHops tp)) s s')
  | (s', RErr _) => False
  | (s', RPanic _) => tv_tables s' = tv_tables s
  end.
Proof. apply consume_trace_spec. Qed.

(** ** A trace that is well formed, on a healthy database *)

Definition hop_parses (h : Hop) : Prop := hop_Addr h ≠ "" ∧ is_Some (ParseAddr (hop_Addr h)).

Definition hop_ips (hops : list Hop) : list addr := (λ h, default zeroAddr (ParseAddr (hop_Addr h))) <$> hops.

Lemma hop_rows_ok ts id hops :
  Forall hop_parses hops → ∃ rows, hop_rows ts id hops = ROk (rows, hop_ips hops).
Proof.
  induction 1 as [|h hops [Hne [a Ha]] _ [rows IH]]; [by exists []|]. simpl.
  destruct (String.eqb_spec (hop_Addr h) ""); [done|]. rewrite Ha, IH. simpl. eauto.
Qed.

Lemma link_rows_ok ts id links :
  (∀ l a, l ∈ links → tl_SrcIP l = Some a ∨ tl_DstIP l = Some a → is_Some (ParseAddr a)) →
  ∃ rows, link_rows ts id links = ROk rows.
Proof.
  induction links as [|l links IH]; intros Hl; [by exists []|]. simpl.
  assert (∀ ip, tl_SrcIP l = ip ∨ tl_DstIP l = ip → ∃ r, parse_link_ip ip = ROk r) as Hip.
  { intros [a|] Ha; [|by exists None]. destruct (Hl l a ltac:(left) Ha) as [x Hx]. exists (Some x).
    unfold parse_link_ip. by rewrite Hx. }
  destruct (Hip _ (or_introl eq_refl)) as [r1 ->], (Hip _ (or_intror eq_refl)) as [r2 ->].
  destruct IH as [rows ->]; [|simpl; eauto]. intros l' a Hin. apply Hl. by right.
Qed.

Lemma extracted_ips_parse hops noHops l a :
  SortSlice sort → ranges order → Forall hop_parses hops →
  l ∈ extractLinks sort order hops noHops → tl_SrcIP l = Some a ∨ tl_DstIP l = Some a →
  is_Some (ParseAddr a).
Proof.
  intros Hs Ho Hh (s & d & (Hsin & Hdin & _) & ->)%(links_sound sort order Ho) Ha.
  assert (∀ h, h ∈ all_hops hops noHops → (if ph_IsTimeout h then None else Some (ph_Addr h)) = Some a →
    is_Some (ParseAddr a)) as Hall.
  { intros h [(h0 & -> & Hin)%list_elem_of_fmap|(h0 & -> & _)%list_elem_of_fmap]%elem_of_app; [|done].
    intros [= <-]. rewrite Forall_forall in Hh. by destruct (Hh _ Hin). }
  destruct Ha as [Ha|Ha]; eauto.
Qed.

Lemma tv_call_ok {A} (f : trace_env → trace_env * res A) s : tv_faults s = [] → tv_call f s = f s.
Proof. intros E. unfold tv_call. rewrite E. by destruct s as [t fs n pub]; simplify_eq/=. Qed.

(** What the ASN client must return for a trace to be stored. *)
Definition lookup_fits (ips : list addr) (s : trace_env) : Prop :=
  let existing := filter (λ ip, ip ∈ ips) (map_to_list (tt_as (tv_tables s))).*1 in
  ∃ results rows, Lookup (missing_ips ips existing) = ROk results ∧ as_rows results = ROk rows ∧
    is_Some (copy_as rows (tt_as (tv_tables s))).

Lemma trace_body_total traceData tp src dst ts serial cid u s t :
  SortSlice sort → ranges order → published = ROk tt → tv_faults s = [] →
  uuid_Parse cid = Some u → serial ∈ rf_devices (tt_known (tv_tables s)) →
  u ∈ rf_configs (tt_known (tv_tables s)) → Forall hop_parses (tp_Hops tp) → enc_time ts = Some t →
  lookup_fits (hop_ips (tp_Hops tp)) s →
  ∃ s', trace_body sort order Lookup published traceData tp src dst ts serial cid s = (s', ROk tt).
Proof.
  intros Hs Ho Hpub Hf Hu Hdev Hcfg Hh Ht (results & rows & HL & Hrows & [m Hm]).
  unfold trace_body, lift. rewrite Hu. erewrite go_bind_ok by reflexivity.
  erewrite go_bind_ok by (apply insert_ok; done). unfold inserted. rewrite Hf. simpl tl.
  destruct (hop_rows_ok ts (tv_next s) (tp_Hops tp) Hh) as [hops Hrow].
  rewrite Hrow. erewrite go_bind_ok by reflexivity. cbv beta iota.
  unfold GetExistingIPs. erewrite go_bind_ok by (rewrite tv_call_ok by done; reflexivity).
  unfold enrichMissingHops. simpl tv_tables. simpl tt_as. erewrite go_bind_ok
    by (rewrite HL, Hrows; unfold UpsertAsDetails; rewrite tv_call_ok by done; simpl; rewrite Hm; reflexivity).
  unfold getIPToASNMap, GetASNForIPs. erewrite go_bind_ok
    by (erewrite go_bind_ok by (rewrite tv_call_ok by done; reflexivity); reflexivity).
  destruct (asn_path _ hops []) as [hops' path]. set (links := extractLinks _ _ _ _).
  unfold publishMeasurement. destruct (event_to_json _) as [j|] eqn:Ej.
  2: { unfold event_to_json in Ej. simpl in Ej. by rewrite Ht in Ej. }
  rewrite Hpub. erewrite go_bind_ok by reflexivity.
  unfold UpsertFingerprintHash. erewrite go_bind_ok
    by (rewrite tv_call_ok by done; simpl; rewrite lookup_insert_eq; reflexivity).
  unfold InsertTraceHop. erewrite go_bind_ok by (rewrite tv_call_ok by done; reflexivity).
  destruct (link_rows_ok ts (tv_next s) links) as [dbLinks Hdb].
  { intros l a. by apply extracted_ips_parse. }
  rewrite Hdb. erewrite go_bind_ok by reflexivity.
  unfold InsertTraceLink. erewrite go_bind_ok by (rewrite tv_call_ok by done; reflexivity).
  rewrite tv_call_ok by done. eauto.
Qed.

Lemma trace_metrics_roundtrip e m :
  me_Type e = ProbeTypeTrace → me_Metrics e = RawDoc (trace_to_json m) →
  decodeMetrics e = Some (RowTrace m).
Proof. intros Ht Hm. unfold decodeMetrics. rewrite Ht, Hm. by destruct m. Qed.

(** C17. From the agent to Argus: a trace report the dispatcher publishes, with
    parseable addresses, of a device and under a configuration that are in the
    database, when no statement meets an error, the publication succeeds and the
    AS lookup answers with rows that as_details takes, is committed and
    acknowledged; its row has the report's serial, time, source and destination,
    and the event published for it lands in the Argus inbox of the series
    (serial, destination, source), when that has room, with exactly the
    fingerprints stored in the row. *)
Theorem trace_pipeline D now r td tp u t src dst s routes msg :
  SortSlice sort → ranges order → published = ROk tt → tv_faults s = [] →
  prr_ProbeType r = ProbeTypeTrace → prr_Data r = RawDoc (trace_data_to_json td) →
  td_Type td = TraceProbeTypeTrace → td_Format td = "json" →
  unmarshal (dec_struct trace_payload_set) trace_payload_zero (td_Data td) = Some tp →
  ParseAddr (tp_Src tp) = Some src → ParseAddr (tp_Dst tp) = Some dst → Forall hop_parses (tp_Hops tp) →
  uuid_Parse (di_getAgentConfig D) = Some u → enc_time (prr_Timestamp r) = Some t → enc_time now ≠ None →
  di_SerialID D ∈ rf_devices (tt_known (tv_tables s)) → u ∈ rf_configs (tt_known (tv_tables s)) →
  lookup_fits (hop_ips (tp_Hops tp)) s →
  let series := mkSeries SeriesTypeTrace (di_SerialID D) (AddrString dst) 0 (AddrString src) in
  (length (default [] (routes !! series)) < inboxCapacity)%nat →
  ∃ report s' row j,
    dispatch_result D now r = Published ("cepheus.probe.trace." +:+ di_SerialID D) report ∧
    consume_trace sort order Lookup published (RawDoc report) s = (s', ROk Ack) ∧
    tt_measurements (tv_tables s') !! tv_next s = Some row ∧
    tmr_SerialID row = di_SerialID D ∧ tmr_Timestamp row = prr_Timestamp r ∧
    tmr_Src row = src ∧ tmr_Dst row = dst ∧
    tv_published s' = tv_published s ++ [("cepheus.measurement.trace." +:+ di_SerialID D, j)] ∧
    dispatch routes msg (RawDoc j) =
      (<[series := default [] (routes !! series) ++
          [{| it_sample := {| rs_TS := prr_Timestamp r;
                rs_Row := RowTrace {| tm_AsnPathHash := tmr_AsnPathHash row;
                                      tm_LinkPathHash := tmr_LinkPathHash row |} |}; it_msg := msg |}]]> routes,
       Enqueued series (bool_decide (routes !! series = None))).
Proof.
  intros Hs Ho Hpub Hf Hty Hdata Htd Hfmt Htp Hsrc Hdst Hh Hu Ht Hnow Hdev Hcfg Hfit series Hlen.
  destruct (dispatch_result_roundtrip D now r _ ltac:(by rewrite Hty) Hdata ltac:(by rewrite Ht) Hnow)
    as (report & Hrep & Hdec).
  rewrite Hty in Hrep. exists report.
  pose proof (trace_body_total td tp src dst (prr_Timestamp r) (di_SerialID D) (di_getAgentConfig D) u s t
    Hs Ho Hpub Hf Hu Hdev Hcfg Hh Ht Hfit) as [s' Hbody].
  assert (consume_trace sort order Lookup published (RawDoc report) s = (s', ROk Ack)) as Hack.
  { unfold consume_trace. rewrite Hdec. cbn [rpl_Payload]. rewrite Hty, Hdata, trace_data_roundtrip.
    simpl negb. rewrite Hfmt, Htd. simpl. unfold processNormalTrace, lift. rewrite Htp.
    do 3 (erewrite go_bind_ok by (rewrite ?Hsrc, ?Hdst; reflexivity)).
    erewrite go_bind_ok by (rewrite tv_call_ok by done; reflexivity). simpl. by rewrite Hbody. }
  apply trace_body_ok with (payload := {| rpl_Payload := r; rpl_SerialID := di_SerialID D;
    rpl_SentTimestamp := now; rpl_AgentConfigId := di_getAgentConfig D |}) in Hbody as
    (row & path & rows & ips & am & hops & dbLinks & j & Hm & Hser & Hts & Hr1 & Hr2 & _ & _ & _ & _ & _ & _ & _ & _ & _ & Hj & Hout);
    [|done..].
  rewrite Hsrc in Hr1. rewrite Hdst in Hr2. injection Hr1 as Es. injection Hr2 as Ed.
  rewrite <- Es, <- Ed in Hj. simpl in Hj.
  set (m := {| tm_AsnPathHash := tmr_AsnPathHash row; tm_LinkPathHash := tmr_LinkPathHash row |}) in *.
  set (e := trace_event _ _ _ _ m) in *.
  destruct (dispatch_event e series (RowTrace m) (trace_to_json m) t routes msg) as (j' & Hj' & Hdis);
    [done|simpl; lia|done|done|by apply trace_metrics_roundtrip|done|].
  assert (j' = j) as -> by congruence. exists s', row, j. split; [done|]. split; [done|].
  split; [by rewrite Hm, lookup_insert_eq|]. repeat (split; [done|]). done.
Qed.

(** A trace of a device that is not in the database is refused, with nothing
    written. *)
Lemma unknown_device_rejected traceData payload s :
  rpl_SerialID payload ∉ rf_devices (tt_known (tv_tables s)) →
  let '(s', r) := processNormalTrace sort order Lookup published traceData payload s in
  is_ok r = false ∧ tv_tables s' = tv_tables s.
Proof.
  intros Hdev. pose proof (processNormalTrace_spec traceData payload s) as Hspec.
  destruct (processNormalTrace _ _ _ _ traceData payload s) as [s' [u|e|e]] eqn:E; [|done..].
  exfalso. clear Hspec. unfold processNormalTrace, lift in E.
  apply go_bind_inv in E as (s1 & tp & E1 & E). injection E1 as <- _.
  apply go_bind_inv in E as (s2 & src & E2 & E). injection E2 as <- _.
  apply go_bind_inv in E as (s3 & dst & E3 & E). injection E3 as <- _.
  apply go_bind_inv in E as (s4 & tx & E4%tv_call_inv & E). injection E4 as <- _.
  destruct (trace_body _ _ _ _ _ _ _ _ _ _ _ _) as [s5 [[]|e|e]] eqn:K; [|done..]. clear E.
  unfold trace_body, lift in K.
  apply go_bind_inv in K as (s6 & cid & E6 & K). injection E6 as <- _.
  apply go_bind_inv in K as (s7 & id & ([Hk _] & _)%insert_inv & _). done.
Qed.

(** ** An address that appears twice *)

Lemma copy_as_fresh rows m m' :
  copy_as rows m = Some m' → NoDup rows.*1 ∧ ∀ ip, ip ∈ rows.*1 → m !! ip = None.
Proof.
  revert m. induction rows as [|[ip d] rows IH]; intros m; simpl.
  { intros _. split; [constructor|set_solver]. }
  destruct (m !! ip) eqn:E; [done|]. intros [Hnd Hf]%IH. split.
  - constructor; [|done]. intros Hin%Hf. by rewrite lookup_insert_eq in Hin.
  - intros ip' [->|Hin]%elem_of_cons; [done|]. apply Hf in Hin.
    rewrite lookup_insert in Hin. by destruct (decide (ip = ip')).
Qed.

Lemma as_rows_app rs1 rs2 rows :
  as_rows (rs1 ++ rs2) = ROk rows → ∃ rows1 rows2,
    as_rows rs1 = ROk rows1 ∧ as_rows rs2 = ROk rows2 ∧ rows = rows1 ++ rows2.
Proof.
  revert rows. induction rs1 as [|r rs1 IH]; intros rows; simpl; [eauto|].
  destruct (ParseAddr (ar_IP r)) as [ip|]; [|done].
  destruct (as_rows (rs1 ++ rs2)) as [rest|e|e]; simpl; [|done..]. intros [= <-].
  destruct (IH rest eq_refl) as (rows1 & rows2 & -> & -> & ->). simpl.
  destruct (Z.eqb (ar_ASN r) 0); eauto.
Qed.

Lemma as_rows_head r rs rows x :
  ParseAddr (ar_IP r) = Some x → ar_ASN r ≠ 0 → as_rows (r :: rs) = ROk rows →
  ∃ d rest, rows = (x, d) :: rest ∧ as_rows rs = ROk rest.
Proof.
  intros Hx Ha. simpl. rewrite Hx. destruct (as_rows rs) as [rest|e|e]; simpl; [|done..].
  destruct (Z.eqb_spec (ar_ASN r) 0); [done|]. intros [= <-]. eauto.
Qed.

(** The client answers every address it is asked about, and knows [x]. *)
Definition answers_all (x : addr) : Prop :=
  ∀ l results, Lookup l = ROk results →
    ar_IP <$> results = l ∧ ∀ r, r ∈ results → ar_IP r = AddrString x → ar_ASN r ≠ 0.

Lemma enrich_duplicate x l1 l2 l3 existing s :
  answers_all x → ParseAddr (AddrString x) = Some x → x ∉ existing →
  is_ok (snd (enrichMissingHops Lookup (l1 ++ x :: l2 ++ x :: l3) existing s)) = false.
Proof.
  intros Hans Hx Hex. unfold enrichMissingHops, missing_ips.
  rewrite filter_app, filter_cons_True, filter_app, filter_cons_True, !fmap_app, !fmap_cons by done.
  rewrite !fmap_app, !fmap_cons.
  destruct (Lookup _) as [results|e|e] eqn:EL; [|done..]. apply Hans in EL as [EL Hne].
  apply fmap_app_inv in EL as (rs1 & rs' & _ & EL & ->). symmetry in EL.
  apply fmap_cons_inv in EL as (a & rs2' & Ea & EL & ->). symmetry in EL.
  apply fmap_app_inv in EL as (rs2 & rs3' & _ & EL & ->). symmetry in EL.
  apply fmap_cons_inv in EL as (b & rs3 & Eb & _ & ->).
  destruct (as_rows _) as [rows|e|e] eqn:Er; [|done..].
  apply as_rows_app in Er as (rows1 & rows' & _ & Er & ->).
  apply (as_rows_head a _ _ x) in Er as (da & rest & -> & Er);
    [|by rewrite <- Ea|apply Hne; [set_solver|done]].
  apply as_rows_app in Er as (rows2 & rows3 & _ & Er & ->).
  apply (as_rows_head b _ _ x) in Er as (db & rest & -> & _);
    [|by rewrite <- Eb|apply Hne; [set_solver|done]].
  unfold UpsertAsDetails, tv_call. destruct (tv_faults s) as [|[] fs]; [|done|]; simpl.
  all: destruct (copy_as _ _) as [m|] eqn:Em; [|done]; exfalso.
  all: apply copy_as_fresh in Em as [Hnd _]; rewrite fmap_app in Hnd; csimpl in Hnd.
  all: rewrite fmap_app in Hnd; csimpl in Hnd.
  all: apply NoDup_app in Hnd as (_ & _ & [Hni _]%NoDup_cons); apply Hni; set_solver.
Qed.


End Process.
End Trace.

(** ** Witnesses *)

#[local] Existing Instance BinaryUuid.

(** Addresses as their texts. *)
#[local] Instance TextNetip : NetipLib :=
  {| addr := string; zeroAddr := "invalid IP"; AddrString := λ a, a;
     ParseAddr := λ s, if String.eqb s "" then None else Some s |}.

Lemma link_fingerprint_stable_witness :
  linkPathHash (extractLinks sort_by_ttl map_to_list [hop_at 2 "b"; hop_at 1 "a"] []) =
  linkPathHash (extractLinks sort_by_ttl (reverse ∘ map_to_list) [hop_at 2 "b"; hop_at 1 "a"] []).
Proof.
  apply (link_fingerprint_stable sort_by_ttl map_to_list (reverse ∘ map_to_list)).
  - intros g. reflexivity.
  - intros g. apply reverse_Permutation.
Defined.

Definition hop_json (ttl : Z) (a : string) : json :=
  JObj [("addr", JStr a); ("probe_ttl", enc_int ttl); ("probe_id", enc_int 1); ("rtt", JNum (Some 3) (f64 3))].

Definition trace_json (hops : list json) : json :=
  JObj [("type", JStr "trace"); ("src", JStr "192.0.2.9"); ("dst", JStr "192.0.2.1");
        ("stop_reason", JStr "COMPLETED"); ("hop_count", enc_int 2); ("hops", JArr hops);
        ("no_hops", JArr [JObj [("probe_ttl", enc_int 3); ("probe_id", enc_int 1)]])].

Definition trace_data (hops : list json) : TraceData :=
  {| td_Type := TraceProbeTypeTrace; td_Method := "icmp-paris"; td_Format := "json";
     td_Data := RawDoc (trace_json hops) |}.

Definition trace_payload (hops : list json) : TraceDataTracePayload :=
  default trace_payload_zero (unmarshal (dec_struct trace_payload_set) trace_payload_zero (RawDoc (trace_json hops))).

Definition cymru (l : list string) : res (list ASNResult) :=
  ROk ((λ a, {| ar_IP := a; ar_ASN := 64500; ar_BGPPrefix := "NA"; ar_ASName := "NA"; ar_CountryCode := "" |}) <$> l).

(** No traces yet; one device and its configuration. *)
Definition empty_trace_env : trace_env :=
  {| tv_tables := {| tt_measurements := ∅; tt_hops := []; tt_links := []; tt_as := ∅;
                     tt_known := {| rf_devices := {["agent-1"]}; rf_configs := {[1%N]} |} |}; tv_faults := [];
     tv_next := 0; tv_published := [] |}.

Definition two_hops : list json := [hop_json 1 "198.51.100.1"; hop_json 2 "192.0.2.1"].

Lemma trace_pipeline_witness :
  ∃ report s', consume_trace sort_by_ttl map_to_list cymru (ROk tt) (RawDoc report) empty_trace_env = (s', ROk Ack).
Proof.
  destruct (trace_pipeline sort_by_ttl map_to_list cymru (ROk tt) example_dispatcher (at_sec 1)
    (example_result ProbeTypeTrace (trace_data_to_json (trace_data two_hops))) (trace_data two_hops)
    (trace_payload two_hops) 1%N (JTime (at_sec 0)) ("192.0.2.9" : addr (NetipLib:=TextNetip)) ("192.0.2.1" : addr (NetipLib:=TextNetip)) empty_trace_env ∅ 0%nat)
    as (report & s' & row & j & _ & E & _).
  - exact sort_by_ttl_ok.
  - exact ranges_map_to_list.
  - reflexivity.
  - reflexivity.
  - reflexivity.
  - reflexivity.
  - reflexivity.
  - reflexivity.
  - vm_compute. reflexivity.
  - vm_compute. reflexivity.
  - vm_compute. reflexivity.
  - vm_compute. repeat constructor; (discriminate || (eexists; reflexivity)).
  - vm_compute. reflexivity.
  - vm_compute. reflexivity.
  - vm_compute. discriminate.
  - apply (bool_decide_unpack _). vm_compute. reflexivity.
  - apply (bool_decide_unpack _). vm_compute. reflexivity.
  - eexists _, _. split; [reflexivity|]. split; [vm_compute; reflexivity|]. vm_compute. eexists. reflexivity.
  - vm_compute. lia.
  - exists report, s'. exact E.
Defined.

Definition looping_hops : list json := [hop_json 1 "198.51.100.1"; hop_json 2 "198.51.100.1"].

