(* ===== verification/TraceRun.v ===== *)
(** * Running the trace processor (Start of services/trace-processor)

    One goroutine fetches reports and settles each of them before it takes the
    next.  As for the other processors, an event is one turn of the loop with
    what NATS, the database, the AS lookup and the map iteration do in it, and
    a delivery is known by its position in the log of what was fetched. *)

From S2P Require Import Prelude Float64 GoTime Json ArgusTypes ArgusDb ArgusWorker ArgusWorkerProps Reports.
From S2P Require Import PolicyEngineProps AgentConfig Supervisor AgentPipeline Processors ProcessorsProps Sha256 TraceLinks TraceProcessor TraceProcessorProps.
From S2P Require Import ProcessorRun.

Local Open Scope go_scope.

Section Run.
Context `{UuidLib} `{NetipLib}.

(** [tr_msgs] are the messages of the last fetch still to be handled, [None]
    once the goroutine has returned. *)
Record trace_processor := {
  tr_done : bool;
  tr_log : list raw;
  tr_msgs : option (list (nat * raw));
  tr_env : trace_env;
  tr_settled : list settled;
  tr_crashed : option string;
}.

Inductive trace_turn :=
| TraceCancel
| TraceFetch (msgs : list raw)
| TraceFetchFailed
| TraceExit
| TraceMessage (faults : list bool) (published : res unit)
    (sort : list ParsedHop → list ParsedHop) (order : gmap Z (list ParsedHop) → list (Z * list ParsedHop))
    (Lookup : list string → res (list ASNResult)).

Definition trace_start (e : trace_env) : trace_processor :=
  {| tr_done := false; tr_log := []; tr_msgs := Some []; tr_env := e; tr_settled := []; tr_crashed := None |}.

(** The environment a message finds. *)
Definition env_faults (faults : list bool) (e : trace_env) : trace_env :=
  {| tv_tables := tv_tables e; tv_faults := faults; tv_next := tv_next e; tv_published := tv_published e |}.

Definition trace_verdict (id : nat) (v : verdict) : settled :=
  match v with Ack => Acked id | Nak => Nacked id end.

(** The body of the loop over the messages; [consume_trace] settles every
    message one way or the other unless it panics. *)
Definition trace_message (id : nat) (d : raw) (rest : list (nat * raw)) (c : go trace_env verdict)
    (s : trace_processor) : option trace_processor :=
  match c (tr_env s) with
  | (e, ROk v) =>
      Some {| tr_done := tr_done s; tr_log := tr_log s; tr_msgs := Some rest; tr_env := e;
              tr_settled := tr_settled s ++ [trace_verdict id v]; tr_crashed := None |}
  | (e, RPanic why) =>
      Some {| tr_done := tr_done s; tr_log := tr_log s; tr_msgs := tr_msgs s; tr_env := e;
              tr_settled := tr_settled s; tr_crashed := Some why |}
  | (_, RErr _) => None
  end.

Definition trace_fetch (msgs : list raw) (s : trace_processor) : trace_processor :=
  {| tr_done := tr_done s; tr_log := tr_log s ++ msgs;
     tr_msgs := Some (imap (λ i d, ((length (tr_log s) + i)%nat, d)) msgs);
     tr_env := tr_env s; tr_settled := tr_settled s; tr_crashed := tr_crashed s |}.

Definition trace_step (t : trace_turn) (s : trace_processor) : option trace_processor :=
  match tr_crashed s with
  | Some _ => None
  | None =>
  match t, tr_msgs s with
  | TraceCancel, _ =>
      if tr_done s then None
      else Some {| tr_done := true; tr_log := tr_log s; tr_msgs := tr_msgs s; tr_env := tr_env s;
                   tr_settled := tr_settled s; tr_crashed := None |}
  | TraceFetch msgs, Some [] =>
      if tr_done s || Nat.ltb fetchBatch (length msgs) then None else Some (trace_fetch msgs s)
  | TraceFetchFailed, Some [] => if tr_done s then None else Some s
  | TraceExit, Some [] =>
      if tr_done s then
        Some {| tr_done := true; tr_log := tr_log s; tr_msgs := None; tr_env := tr_env s;
                tr_settled := tr_settled s; tr_crashed := None |}
      else None
  | TraceMessage faults published sort order Lookup, Some ((id, d) :: rest) =>
      trace_message id d rest (λ e, consume_trace sort order Lookup published d (env_faults faults e)) s
  | _, _ => None
  end
  end.

Fixpoint trace_run (ts : list trace_turn) (s : trace_processor) : option trace_processor :=
  match ts with
  | [] => Some s
  | t :: ts' => s' ← trace_step t s; trace_run ts' s'
  end.

(** ** Identifiers and events only grow *)

Definition env_le (s s' : trace_env) : Prop :=
  (tv_next s ≤ tv_next s')%nat ∧ tv_published s `prefix_of` tv_published s'.

#[local] Instance env_le_preorder : PreOrder env_le.
Proof.
  split; [by intros s|]. intros a b c [H1 H2] [H3 H4]. split; [lia|by etrans].
Qed.

Definition env_grows {A} (c : go trace_env A) : Prop := ∀ s, env_le s (fst (c s)).

Lemma env_grows_bind {A B} (c : go trace_env A) (k : A → go trace_env B) :
  env_grows c → (∀ a, env_grows (k a)) → env_grows (go_bind c k).
Proof.
  intros Hc Hk s. unfold go_bind. specialize (Hc s). destruct (c s) as [s1 [a|e|e]]; [|done..].
  etrans; [exact Hc|apply Hk].
Qed.

Lemma env_grows_call {A} (f : trace_env → trace_env * res A) : env_grows f → env_grows (tv_call f).
Proof.
  intros Hf s. unfold tv_call. destruct (tv_faults s) as [|[] l]; [|by split|].
  all: etrans; [|apply Hf]; by split.
Qed.

Lemma env_grows_lift {A} (r : res A) : env_grows (lift r).
Proof. by intros s. Qed.

Lemma env_grows_tables {A} (f : trace_env → trace_env * res A) :
  (∀ s, tv_next (fst (f s)) = tv_next s ∧ tv_published (fst (f s)) = tv_published s) → env_grows f.
Proof. intros Hf s. destruct (Hf s) as [Hn Hp]. split; [lia|by rewrite Hp]. Qed.

#[local] Hint Resolve env_grows_call env_grows_lift : cepheus.

Section Message.
Context (sort : list ParsedHop → list ParsedHop) (order : gmap Z (list ParsedHop) → list (Z * list ParsedHop)).
Context (Lookup : list string → res (list ASNResult)) (published : res unit).

Lemma env_grows_insert row : env_grows (InsertTraceMeasurement row).
Proof. apply env_grows_call. intros s. simpl. case_decide; (split; [simpl; lia|done]). Qed.

Lemma env_grows_enrich a b : env_grows (enrichMissingHops Lookup a b).
Proof.
  unfold enrichMissingHops. destruct (Lookup _) as [rs|e|e]; [|done..].
  destruct (as_rows rs) as [rows|e|e]; [|done..].
  apply env_grows_call, env_grows_tables. intros s. simpl. by case_match.
Qed.

Lemma env_grows_publish a b c t m : env_grows (publishMeasurement a b c t m published).
Proof.
  intros s. unfold publishMeasurement. destruct (event_to_json _); [|done]. destruct published; [|done..].
  split; [done|]. by apply prefix_app_r.
Qed.

Lemma env_grows_hash a b id : env_grows (UpsertFingerprintHash a b id).
Proof. apply env_grows_call, env_grows_tables. intros s. simpl. by case_match. Qed.

Lemma env_grows_statement {A} (f : trace_env → trace_env * res A) :
  (∀ s, tv_next (fst (f s)) = tv_next s ∧ tv_published (fst (f s)) = tv_published s) →
  env_grows (tv_call f).
Proof. intros. by apply env_grows_call, env_grows_tables. Qed.

(** The statements after the measurement was inserted. *)
Ltac grow :=
  repeat first
    [ apply env_grows_bind; [|intros ?] | apply env_grows_lift | apply env_grows_enrich
    | apply env_grows_insert | apply env_grows_publish | apply env_grows_hash | case_match
    | by apply env_grows_statement; intros ? ].

Lemma trace_body_grows traceData tp src dst ts serial cid :
  env_grows (trace_body sort order Lookup published traceData tp src dst ts serial cid).
Proof. unfold trace_body. grow. Qed.

(** A committed trace has used up its identifier. *)
Lemma trace_body_next traceData tp src dst ts serial cid s s' u :
  trace_body sort order Lookup published traceData tp src dst ts serial cid s = (s', ROk u) →
  (tv_next s < tv_next s')%nat.
Proof.
  unfold trace_body. intros K.
  apply go_bind_inv in K as (s1 & c & E1 & K). unfold lift in E1. injection E1 as <- _.
  apply go_bind_inv in K as (s2 & id & (_ & -> & ->)%insert_inv & K).
  match type of K with ?c ?s2 = _ => assert (env_grows c) as Hg by grow; specialize (Hg s2) end.
  rewrite K in Hg. destruct Hg as [Hn _]. simpl in Hn. lia.
Qed.

Lemma processNormalTrace_grows traceData payload s s' r :
  processNormalTrace sort order Lookup published traceData payload s = (s', r) →
  env_le s s' ∧ (r = ROk tt → (tv_next s < tv_next s')%nat).
Proof.
  unfold processNormalTrace, go_bind, lift. intros K.
  repeat (case_match; simplify_eq/=; try (by split; [reflexivity|])).
  all: unfold tv_call in *; repeat (case_match; simplify_eq/=).
  all: try (by split).
  all: match goal with E : trace_body _ _ _ _ ?a ?b ?c ?d ?e ?f ?g ?s1 = _ |- _ =>
         pose proof (trace_body_grows a b c d e f g s1) as Hg; rewrite E in Hg;
         try apply trace_body_next in E end.
  all: by split.
Qed.

(** A report of a plain traceroute, decoded. *)
Definition normal_trace (d : raw) : option (ReportPayload * TraceDataTracePayload) :=
  payload ← unmarshal report_from_json report_zero d;
  traceData ← unmarshal (dec_struct trace_data_set) trace_data_zero (prr_Data (rpl_Payload payload));
  if String.eqb (td_Type traceData) TraceProbeTypeTrace then
    tp ← unmarshal (dec_struct trace_payload_set) trace_payload_zero (td_Data traceData);
    Some (payload, tp)
  else None.

Lemma consume_trace_effect d s s' r :
  consume_trace sort order Lookup published d s = (s', r) →
  env_le s s' ∧
  match r with
  | ROk Ack =>
      match normal_trace d with
      | Some (payload, tp) =>
          (tv_next s < tv_next s')%nat ∧
          trace_committed payload tp (extractLinks sort order (tp_Hops tp) (tp_NoHops tp)) s s'
      | None => tv_tables s' = tv_tables s
      end
  | ROk Nak | RPanic _ => tv_tables s' = tv_tables s
  | RErr _ => False
  end.
Proof.
  unfold consume_trace, normal_trace. destruct (unmarshal report_from_json _ d) as [payload|]; [|by intros [= <- <-]].
  case_match; [by intros [= <- <-]|]. simpl.
  destruct (unmarshal (dec_struct trace_data_set) _ _) as [traceData|]; [|by intros [= <- <-]].
  case_match; [by intros [= <- <-]|]. simpl. destruct (String.eqb (td_Type traceData) _) eqn:Et.
  - pose proof (processNormalTrace_spec sort order Lookup published traceData payload s) as Hs.
    destruct (processNormalTrace _ _ _ _ _ _ s) as [s1 r1] eqn:E.
    apply processNormalTrace_grows in E as [Hle Hlt].
    destruct r1 as [[]|e|e]; intros [= <- <-]; [|by split..]. split; [done|].
    destruct Hs as (tp & -> & Hc). simpl. auto.
  - case_match; by intros [= <- <-].
Qed.

End Message.

(** ** The invariant *)

(** The row committed for a report, with its event. *)
Definition trace_stored (d : raw) (row : TraceMeasurementRow) (pubs : list (string * json)) : Prop :=
  ∃ payload tp j, normal_trace d = Some (payload, tp) ∧
    tmr_SerialID row = rpl_SerialID payload ∧
    ParseAddr (tp_Src tp) = Some (tmr_Src row) ∧ ParseAddr (tp_Dst tp) = Some (tmr_Dst row) ∧
    event_to_json (trace_event (rpl_SerialID payload) (AddrString (tmr_Dst row)) (AddrString (tmr_Src row))
      (prr_Timestamp (rpl_Payload payload))
      {| tm_AsnPathHash := tmr_AsnPathHash row; tm_LinkPathHash := tmr_LinkPathHash row |}) = Some j ∧
    ("cepheus.measurement.trace." +:+ rpl_SerialID payload, j) ∈ pubs.

(** The acknowledged deliveries that were plain traceroutes, in order. *)
Definition acked_traces (log : list raw) (l : list settled) : list nat :=
  omap (λ x, match x with
             | Acked i => match log !! i ≫= normal_trace with Some _ => Some i | None => None end
             | Nacked _ => None
             end) l.

(** [committed] pairs the acknowledged traces with their measurements. *)
Record trace_rows (m0 m : gmap nat TraceMeasurementRow) (log : list raw) (pubs : list (string * json))
    (next : nat) (committed : list (nat * nat)) : Prop := {
  tw_old : m0 ⊆ m;
  tw_below : ∀ id, is_Some (m !! id) → (id < next)%nat;
  tw_fresh : ∀ id, id ∈ committed.*2 → m0 !! id = None;
  tw_nodup : NoDup committed.*2;
  tw_only : ∀ id, is_Some (m !! id) → is_Some (m0 !! id) ∨ id ∈ committed.*2;
  tw_rows : ∀ i id, (i, id) ∈ committed →
    ∃ d row, log !! i = Some d ∧ m !! id = Some row ∧ trace_stored d row pubs;
}.

Record trace_ok (e0 : trace_env) (s : trace_processor) : Prop := {
  to_settled : settled_id <$> tr_settled s = seq 0 (length (tr_settled s));
  to_le : (length (tr_settled s) ≤ length (tr_log s))%nat;
  to_walk : default [] (tr_msgs s) =
    imap (λ i d, ((length (tr_settled s) + i)%nat, d)) (drop (length (tr_settled s)) (tr_log s));
  to_rows : ∃ committed, committed.*1 = acked_traces (tr_log s) (tr_settled s) ∧
    trace_rows (tt_measurements (tv_tables e0)) (tt_measurements (tv_tables (tr_env s))) (tr_log s)
      (tv_published (tr_env s)) (tv_next (tr_env s)) committed;
}.

Lemma trace_stored_mono d row pubs pubs' :
  pubs `prefix_of` pubs' → trace_stored d row pubs → trace_stored d row pubs'.
Proof.
  intros [l ->] (payload & tp & j & ? & ? & ? & ? & ? & Hin). exists payload, tp, j.
  repeat (split; [done|]). apply elem_of_app. by left.
Qed.

(** Nothing is committed while the environment and the log grow. *)
Lemma trace_rows_mono m0 m log more pubs pubs' next next' committed :
  pubs `prefix_of` pubs' → (next ≤ next')%nat →
  trace_rows m0 m log pubs next committed → trace_rows m0 m (log ++ more) pubs' next' committed.
Proof.
  intros Hp Hn [H1 H2 H3 H4 H5 H6]. split; try done.
  - intros id Hid. specialize (H2 id Hid). lia.
  - intros i id Hin. destruct (H6 i id Hin) as (d & row & Hd & Hr & Hst).
    exists d, row. split; [by apply lookup_app_l_Some|]. split; [done|]. by eapply trace_stored_mono.
Qed.

Lemma acked_traces_app log l1 l2 :
  acked_traces log (l1 ++ l2) = acked_traces log l1 ++ acked_traces log l2.
Proof. apply omap_app. Qed.

Lemma acked_traces_log log more l :
  Forall (λ x, settled_id x < length log)%nat l → acked_traces (log ++ more) l = acked_traces log l.
Proof.
  induction 1 as [|x l Hx _ IH]; [done|]. change (x :: l) with ([x] ++ l).
  rewrite !acked_traces_app, IH. f_equal. unfold acked_traces. simpl.
  destruct x as [i|i]; [|done]. by rewrite lookup_app_l.
Qed.

Lemma trace_rows_commit m0 log committed i d payload tp links s s' :
  trace_rows m0 (tt_measurements (tv_tables s)) log (tv_published s) (tv_next s) committed →
  log !! i = Some d → normal_trace d = Some (payload, tp) → (tv_next s < tv_next s')%nat →
  trace_committed payload tp links s s' →
  trace_rows m0 (tt_measurements (tv_tables s')) log (tv_published s') (tv_next s')
    (committed ++ [(i, tv_next s)]).
Proof.
  intros [H1 H2 H3 H4 H5 H6] Hd Hn Hlt
    (row & path & rows & ips & m & hops & dbLinks & j & Hm & Hser & _ & Hsrc & Hdst & _ & _ & _ & _ & _ & _ & _ & _ & _ & Hj & Hp).
  assert (tt_measurements (tv_tables s) !! tv_next s = None) as Hfresh.
  { destruct (tt_measurements (tv_tables s) !! tv_next s) eqn:E; [|done].
    specialize (H2 (tv_next s) ltac:(eauto)). lia. }
  assert (m0 !! tv_next s = None) as Hfresh0.
  { destruct (m0 !! tv_next s) eqn:E; [|done]. by rewrite (lookup_weaken _ _ _ _ E H1) in Hfresh. }
  assert (tv_published s `prefix_of` tv_published s') as Hpre by (rewrite Hp; by apply prefix_app_r).
  assert (tv_next s ∉ committed.*2) as Hnew.
  { intros ([i' id] & Heq & Hin)%list_elem_of_fmap. destruct (H6 _ _ Hin) as (? & ? & _ & Hr & _).
    simpl in *. congruence. }
  rewrite Hm. split.
  - by apply insert_subseteq_r.
  - intros id. rewrite lookup_insert. case_decide; [lia|]. intros Hid. specialize (H2 id Hid). lia.
  - rewrite fmap_app. intros id [Hid|Hid]%elem_of_app; [auto|]. set_solver.
  - rewrite fmap_app. apply NoDup_app. split; [done|]. split; [set_solver|apply NoDup_singleton].
  - intros id. rewrite lookup_insert, fmap_app, elem_of_app. case_decide; [set_solver|].
    intros Hid. destruct (H5 id Hid); auto.
  - intros i' id [Hin|Hin]%elem_of_app.
    + destruct (H6 _ _ Hin) as (d' & row' & Hd' & Hr & Hst). exists d', row'.
      split; [done|]. split; [|by eapply trace_stored_mono].
      rewrite lookup_insert_ne; [done|]. intros <-. congruence.
    + apply list_elem_of_singleton in Hin as [= -> ->]. exists d, row. split; [done|].
      split; [apply lookup_insert_eq|]. exists payload, tp, j. repeat (split; [done|]).
      rewrite Hp. apply elem_of_app. right. set_solver.
Qed.

(** ** Every turn keeps the invariant *)

Section Turns.
Context (e0 : trace_env).

Lemma ids_below s : trace_ok e0 s → Forall (λ x, settled_id x < length (tr_log s))%nat (tr_settled s).
Proof.
  intros [H1 H2 _ _]. apply Forall_forall. intros x Hx.
  assert (settled_id x ∈ settled_id <$> tr_settled s) as Hin by (by apply list_elem_of_fmap_2).
  rewrite H1 in Hin. apply elem_of_seq in Hin. lia.
Qed.

Lemma trace_fetch_ok msgs s : trace_ok e0 s → tr_msgs s = Some [] → trace_ok e0 (trace_fetch msgs s).
Proof.
  intros Hok Hm. pose proof (ids_below s Hok) as Hb. destruct Hok as [H1 H2 H3 (c & Hc & Hr)].
  rewrite Hm in H3. simpl in H3.
  assert (length (tr_settled s) = length (tr_log s)) as Hlen.
  { destruct (drop (length (tr_settled s)) (tr_log s)) eqn:E; [|done].
    apply (f_equal length) in E. rewrite length_drop in E. simpl in E. lia. }
  split; simpl; [done|rewrite length_app; lia| |].
  - rewrite Hlen, drop_app_length. done.
  - exists c. rewrite acked_traces_log by done. split; [done|]. by eapply trace_rows_mono.
Qed.

Lemma trace_message_ok sort order Lookup published faults id d rest s s' :
  trace_ok e0 s → tr_msgs s = Some ((id, d) :: rest) →
  trace_message id d rest (λ e, consume_trace sort order Lookup published d (env_faults faults e)) s = Some s' →
  trace_ok e0 s'.
Proof.
  intros Hok Hm. destruct Hok as [H1 H2 H3 (c & Hc & Hr)]. unfold trace_message.
  set (n := length (tr_settled s)) in *.
  rewrite Hm in H3. simpl in H3. destruct (drop n (tr_log s)) as [|d' l] eqn:E; [done|].
  simpl in H3. injection H3 as -> -> Hrest. rewrite Nat.add_0_r in *.
  assert (tr_log s !! n = Some d') as Hd.
  { rewrite <- (Nat.add_0_r n), <- lookup_drop, E. done. }
  pose proof (lookup_lt_Some _ _ _ Hd) as Hlt.
  destruct (consume_trace _ _ _ _ _ _) as [e r] eqn:Ec.
  apply consume_trace_effect in Ec as [[Hn Hp] Heff]. simpl in Hn, Hp.
  destruct r as [v|why|why]; intros [= <-].
  - split; simpl.
    + rewrite fmap_app, H1, length_app. simpl. rewrite seq_app. simpl. by destruct v.
    + rewrite length_app. simpl. fold n. lia.
    + rewrite Hrest, length_app. simpl. fold n.
      replace (drop (n + 1) (tr_log s)) with l by (rewrite <- drop_drop, E; done).
      apply imap_ext. intros i x _. simpl. f_equal. lia.
    + rewrite acked_traces_app. unfold acked_traces at 2. simpl.
      destruct v; simpl; [rewrite Hd; simpl; destruct (normal_trace d') as [[payload tp]|] eqn:En|].
      * destruct Heff as [Hlt' Hcom]. exists (c ++ [(n, tv_next (tr_env s))]).
        rewrite fmap_app, Hc. split; [done|].
        by eapply (trace_rows_commit _ _ _ _ _ _ _ _ (env_faults faults (tr_env s))).
      * exists c. rewrite app_nil_r, Heff. split; [done|].
        rewrite <- (app_nil_r (tr_log s)). by eapply trace_rows_mono.
      * exists c. rewrite app_nil_r, Heff. split; [done|].
        rewrite <- (app_nil_r (tr_log s)). by eapply trace_rows_mono.
  - split; simpl; try done.
    + fold n. rewrite Hm, E. simpl. by rewrite Hrest, Nat.add_0_r.
    + exists c. split; [done|]. rewrite Heff. rewrite <- (app_nil_r (tr_log s)). by eapply trace_rows_mono.
Qed.

Lemma trace_step_ok t s s' : trace_ok e0 s → trace_step t s = Some s' → trace_ok e0 s'.
Proof.
  intros Hok. unfold trace_step. destruct (tr_crashed s); [done|].
  destruct t as [|msgs| | |faults published sort order Lookup].
  - case_match; [done|]. intros [= <-]. by destruct Hok.
  - destruct (tr_msgs s) as [[|]|] eqn:Em; try done. case_match; [done|]. intros [= <-]. by apply trace_fetch_ok.
  - destruct (tr_msgs s) as [[|]|]; try done. case_match; [done|]. by intros [= <-].
  - destruct (tr_msgs s) as [[|]|] eqn:Em; try done. case_match; [|done]. intros [= <-].
    destruct Hok as [K1 K2 K3 K4]. split; try done. simpl. by rewrite Em in K3.
  - destruct (tr_msgs s) as [[|[id d] rest]|] eqn:Em; try done. by eapply trace_message_ok.
Qed.

Lemma trace_run_ok ts s s' : trace_ok e0 s → trace_run ts s = Some s' → trace_ok e0 s'.
Proof.
  revert s. induction ts as [|t ts IH]; intros s Hok; simpl; [by intros [= <-]|].
  destruct (trace_step t s) as [s1|] eqn:E; [|done]. simpl. eauto using trace_step_ok.
Qed.

End Turns.

Lemma trace_start_ok e0 :
  (∀ id, is_Some (tt_measurements (tv_tables e0) !! id) → (id < tv_next e0)%nat) →
  trace_ok e0 (trace_start e0).
Proof.
  intros Hb. split; simpl; [done|lia|done|]. exists []. split; [done|].
  split; try done; [set_solver|constructor|by left|set_solver].
Qed.

(** ** Shutdown *)

(** The turns a cancelled goroutine has left. *)
Definition trace_work (s : trace_processor) : nat :=
  match tr_crashed s, tr_msgs s with
  | None, Some l => S (length l)
  | _, _ => 0%nat
  end.

Lemma trace_turn_works t s s' :
  tr_done s = true → trace_step t s = Some s' →
  tr_done s' = true ∧ (trace_work s' < trace_work s)%nat.
Proof.
  intros Hd. unfold trace_step, trace_work. destruct (tr_crashed s); [done|]. rewrite Hd.
  destruct t as [|msgs| | |faults published sort order Lookup], (tr_msgs s) as [[|[id d] rest]|]; try done.
  - intros [= <-]. simpl. split; [done|lia].
  - unfold trace_message. destruct (consume_trace _ _ _ _ _ _) as [e [v|why|why]]; intros [= <-]; simpl;
      (split; [done|lia]).
Qed.

Lemma trace_run_work ts s s' :
  tr_done s = true → trace_run ts s = Some s' →
  tr_done s' = true ∧ (length ts + trace_work s' ≤ trace_work s)%nat.
Proof.
  revert s. induction ts as [|t ts IH]; intros s Hd; simpl; [by intros [= <-]|].
  destruct (trace_step t s) as [s1|] eqn:E; [|done]. simpl. intros Hr.
  destruct (trace_turn_works t s s1 Hd E) as [Hd1 Hlt]. destruct (IH s1 Hd1 Hr). split; [done|lia].
Qed.

(** C11. Every delivery the trace processor fetched is settled at most once and
    in the order of arrival; between two fetches, and when its goroutine has
    returned, all of them are.  The acknowledged traceroutes are exactly the
    committed ones: each has a measurement of its own with the addresses,
    the serial and the fingerprints of the event published for it, rows that
    were there before stay, and no other row appears, whatever fails. *)
Theorem trace_accounts e0 ts s :
  (∀ id, is_Some (tt_measurements (tv_tables e0) !! id) → (id < tv_next e0)%nat) →
  trace_run ts (trace_start e0) = Some s →
  settled_id <$> tr_settled s = seq 0 (length (tr_settled s)) ∧
  (default [] (tr_msgs s) = [] → length (tr_settled s) = length (tr_log s)) ∧
  ∃ committed, committed.*1 = acked_traces (tr_log s) (tr_settled s) ∧
    trace_rows (tt_measurements (tv_tables e0)) (tt_measurements (tv_tables (tr_env s))) (tr_log s)
      (tv_published (tr_env s)) (tv_next (tr_env s)) committed.
Proof.
  intros He Hr. destruct (trace_run_ok e0 ts _ s (trace_start_ok e0 He) Hr) as [H1 H2 H3 H4].
  split; [done|]. split; [|done]. intros Hm. rewrite Hm in H3.
  apply (f_equal length) in H3. rewrite length_imap, length_drop in H3. simpl in H3. lia.
Qed.

(** Shutdown of the trace processor terminates: once its context is done,
    at most one turn for every message in hand and one to return are left, and
    as long as the goroutine has neither returned nor died there is such a
    turn, whatever the database, NATS and the AS lookup do. *)
Theorem trace_shutdown_terminates s ts s' :
  tr_done s = true → trace_run ts s = Some s' →
  (length ts ≤ S (length (default [] (tr_msgs s))))%nat ∧
  (tr_crashed s' = None → tr_msgs s' ≠ None →
   ∀ faults published sort order Lookup,
     is_Some (trace_step TraceExit s') ∨
     is_Some (trace_step (TraceMessage faults published sort order Lookup) s')).
Proof.
  intros Hd Hr. destruct (trace_run_work ts s s' Hd Hr) as [Hd' Hw]. split.
  - unfold trace_work at 2 in Hw. destruct (tr_crashed s), (tr_msgs s); simpl; lia.
  - intros Hc Hm faults published sort order Lookup. unfold trace_step. rewrite Hc, Hd'.
    destruct (tr_msgs s') as [[|[id d] rest]|]; [by left; eauto| |done]. right.
    unfold trace_message. destruct (consume_trace _ _ _ _ _ _) as [e r] eqn:Ec.
    apply consume_trace_effect in Ec as [_ Heff]. by destruct r; [eauto| |eauto].
Qed.

End Run.

(** ** Witnesses *)

#[local] Existing Instance BinaryUuid.
#[local] Existing Instance TextNetip.

(** What the example agent publishes for a traceroute over two hops. *)
Definition example_trace_report : raw :=
  match dispatch_result example_dispatcher (at_sec 1)
          (example_result ProbeTypeTrace (trace_data_to_json (trace_data two_hops))) with
  | Published _ j => RawDoc j
  | _ => RawBad
  end.

Definition healthy : trace_turn := TraceMessage [] (ROk tt) sort_by_ttl map_to_list cymru.
Definition broken : trace_turn := TraceMessage [true] (ROk tt) sort_by_ttl map_to_list cymru.

(** A fetch of a report, garbage and the report again, whose third message
    meets a database that fails; the shutdown comes after the first. *)
Definition example_trace_run : list trace_turn :=
  [TraceFetch [example_trace_report; RawBad; example_trace_report]; healthy; TraceCancel; healthy; broken; TraceExit].

Definition trace_after (ts : list trace_turn) : trace_processor :=
  default (trace_start empty_trace_env) (trace_run ts (trace_start empty_trace_env)).

Lemma ran {A} (o : option A) (x : A) : (if o then true else false) = true → o = Some (default x o).
Proof. by destruct o. Qed.

Lemma trace_accounts_witness :
  tr_settled (trace_after example_trace_run) = [Acked 0; Nacked 1; Nacked 2] ∧
  ∃ committed : list (nat * nat), committed.*1 = acked_traces (tr_log (trace_after example_trace_run))
                                (tr_settled (trace_after example_trace_run)) ∧
    acked_traces (tr_log (trace_after example_trace_run)) (tr_settled (trace_after example_trace_run)) = [0%nat].
Proof.
  split; [vm_compute; reflexivity|].
  destruct (trace_accounts empty_trace_env example_trace_run (trace_after example_trace_run))
    as (_ & _ & committed & Hc & _).
  - intros id. change (is_Some ((∅ : gmap nat TraceMeasurementRow) !! id) → (id < 0)%nat).
    rewrite lookup_empty. intros []. done.
  - apply ran. vm_compute. reflexivity.
  - exists committed. split; [exact Hc|]. vm_compute. reflexivity.
Defined.

Lemma trace_shutdown_terminates_witness :
  let s := trace_after (take 3 example_trace_run) in
  tr_done s = true ∧ (length (drop 3 example_trace_run) ≤ S (length (default [] (tr_msgs s))))%nat.
Proof.
  split; [vm_compute; reflexivity|].
  apply (trace_shutdown_terminates (trace_after (take 3 example_trace_run)) (drop 3 example_trace_run)
           (default (trace_start empty_trace_env)
              (trace_run (drop 3 example_trace_run) (trace_after (take 3 example_trace_run))))).
  - vm_compute. reflexivity.
  - apply ran. vm_compute. reflexivity.
Defined.
