(* ===== verification/TraceLive.v ===== *)
(** * The trace processor settles what it fetches

    The goroutine of services/trace-processor looks at its context only between
    fetches: a scheduler that keeps giving it turns makes it settle every
    message it has fetched, cancelled or not. *)

From S2P Require Import Prelude Float64 GoTime Json ArgusTypes ArgusDb ArgusWorker ArgusWorkerProps Reports.
From S2P Require Import PolicyEngineProps AgentConfig Supervisor AgentPipeline Processors ProcessorsProps Sha256 TraceLinks TraceProcessor TraceProcessorProps.
From S2P Require Import ProcessorRun TraceRun Fairness.

Section Live.
Context `{UuidLib} `{NetipLib}.

Definition is_trace_message (t : trace_turn) : bool :=
  match t with TraceMessage _ _ _ _ _ => true | _ => false end.

(** The messages to settle before delivery [k] is. *)
Definition trace_rank (k r : nat) (s : trace_processor) : Prop :=
  k = (length (tr_settled s) + r)%nat ∧ (k < length (tr_log s))%nat.

(** The walk holds exactly the deliveries that are not settled. *)
Lemma trace_walk_head e0 s :
  trace_ok e0 s → (length (tr_settled s) < length (tr_log s))%nat →
  ∃ id d rest, tr_msgs s = Some ((id, d) :: rest).
Proof.
  intros Hok Hlt. pose proof (to_walk _ _ Hok) as Hw.
  destruct (drop (length (tr_settled s)) (tr_log s)) as [|d l] eqn:E.
  - apply (f_equal length) in E. rewrite length_drop in E. simpl in E. lia.
  - destruct (tr_msgs s) as [[|[id d'] rest]|]; simpl in Hw; [done|eauto|done].
Qed.

Lemma trace_message_enabled e0 s :
  trace_ok e0 s → tr_crashed s = None → (length (tr_settled s) < length (tr_log s))%nat →
  ∃ t, is_trace_message t = true ∧ is_Some (trace_step t s).
Proof.
  intros Hok Hc Hlt. destruct (trace_walk_head _ _ Hok Hlt) as (id & d & rest & Hm).
  exists (TraceMessage [] (ROk tt) (λ l, l) (λ _, []) (λ _, ROk [])). split; [done|].
  unfold trace_step, trace_message. rewrite Hc, Hm. destruct (consume_trace _ _ _ _ _ _) as [e r] eqn:Ec.
  apply consume_trace_effect in Ec as [_ Heff]. by destruct r; [eauto| |eauto].
Qed.

(** A turn on a message settles one; no turn takes a settlement back. *)
Lemma trace_step_progress t s s' :
  trace_step t s = Some s' → tr_crashed s' = None →
  (length (tr_log s) ≤ length (tr_log s'))%nat ∧
  length (tr_settled s') = (length (tr_settled s) + if is_trace_message t then 1 else 0)%nat.
Proof.
  unfold trace_step. destruct (tr_crashed s); [done|]. intros Hs Hc'.
  destruct t as [|msgs| | |faults published sort order Lookup].
  5: { destruct (tr_msgs s) as [[|[id d] rest]|]; [done| |done]. unfold trace_message in Hs.
    destruct (consume_trace _ _ _ _ _ _) as [e [v|why|why]]; simplify_eq/=. rewrite length_app. simpl. split; lia. }
  all: destruct (tr_msgs s) as [[|[id d] rest]|]; simpl in *; repeat (case_match; simplify_eq/=);
    rewrite ?length_app, ?Nat.add_0_r; split; first [done|lia].
Qed.

(** Settled deliveries are the first ones, so the next in line is known by the
    number of them. *)
Lemma trace_settled_iff e0 s k :
  trace_ok e0 s → k ∈ (settled_id <$> tr_settled s) ↔ (k < length (tr_settled s))%nat.
Proof. intros Hok. rewrite (to_settled _ _ Hok), elem_of_seq. lia. Qed.

(** C14. Every delivery is settled.  On every infinite run of the trace processor
    that is weakly fair to its turns on messages and in which no report crashes
    it, each delivery it fetched is acknowledged or refused at some later
    instant: whatever the database, NATS and the AS lookup do, however much
    more is fetched, and also when the context is cancelled in the meantime. *)
Theorem trace_deliveries_settle e0 (x : execution trace_step) n k :
  (∀ id, is_Some (tt_measurements (tv_tables e0) !! id) → (id < tv_next e0)%nat) →
  ex_state _ x 0 = trace_start e0 → fair _ is_trace_message x →
  (∀ m, tr_crashed (ex_state _ x m) = None) → (k < length (tr_log (ex_state _ x n)))%nat →
  ∃ m, (n ≤ m)%nat ∧ k ∈ (settled_id <$> tr_settled (ex_state _ x m)).
Proof.
  intros He Hs0 Hf Hc Hk.
  assert (∀ m, trace_ok e0 (ex_state _ x m)) as Hok.
  { apply execution_inv; [intros t s s' Hs Ho; by eapply trace_step_ok|]. rewrite Hs0. by apply trace_start_ok. }
  assert (∀ m, k ∈ (settled_id <$> tr_settled (ex_state _ x m)) ∨
    ((k < length (tr_log (ex_state _ x m)))%nat → ∃ r, trace_rank k r (ex_state _ x m))) as Hcase.
  { intros m. rewrite (trace_settled_iff e0) by done.
    destruct (decide (k < length (tr_settled (ex_state _ x m)))%nat); [by left|right]. intros Hl.
    exists (k - length (tr_settled (ex_state _ x m)))%nat. split; [lia|done]. }
  destruct (Hcase n) as [?|Hr]; [by exists n|]. destruct (Hr Hk) as [r HP].
  apply (fair_rank _ (λ _, is_trace_message) (trace_rank k) (λ s, k ∈ (settled_id <$> tr_settled s)) x (λ _, Hf)) with (r := r); [..|done].
  - intros m r' [Hr1 Hr2]. pose proof (ex_step _ x m) as Hs. destruct (ex_event _ x m) as [t|].
    + destruct (trace_step_progress _ _ _ Hs (Hc _)) as [Hl Hn].
      destruct (Hcase (S m)) as [?|Hr']; [by left|right].
      destruct (Hr' ltac:(lia)) as [r'' [Hr3 Hr4]]. exists r''. split; [done|].
      split; [lia|]. intros t' [= <-] Ht. rewrite Ht in Hn. lia.
    + rewrite Hs. right. exists r'. done.
  - intros m r' [Hr1 Hr2]. eapply trace_message_enabled; [done..|lia].
Qed.

End Live.

(** ** Witness: a fetch of two messages, cancelled before the second *)

#[local] Existing Instance BinaryUuid.
#[local] Existing Instance TextNetip.

Definition late_cancel : list trace_turn := [TraceFetch [example_trace_report; RawBad]; healthy; TraceCancel; broken; TraceExit].

Lemma late_cancel_ok : script_ok trace_step late_cancel (trace_start empty_trace_env) None.
Proof. split; [vm_compute; reflexivity|done]. Qed.

Definition late_cancel_run : execution trace_step := script_run _ _ _ _ late_cancel_ok.

Lemma trace_deliveries_settle_witness :
  ∃ m, (1 ≤ m)%nat ∧ 1%nat ∈ (settled_id <$> tr_settled (ex_state _ late_cancel_run m)).
Proof.
  apply (trace_deliveries_settle empty_trace_env late_cancel_run 1 1).
  - intros id. change (is_Some ((∅ : gmap nat TraceMeasurementRow) !! id) → (id < 0)%nat).
    rewrite lookup_empty. intros []. done.
  - reflexivity.
  - apply script_fair. left. intros t Ht. destruct t; try discriminate Ht. vm_compute. reflexivity.
  - apply (script_always _ _ _ (λ s, tr_crashed s = None)). intros n Hn. simpl in Hn.
    do 6 (destruct n as [|n]; [vm_compute; reflexivity|]). lia.
  - vm_compute. lia.
Defined.
