(* ===== verification/TraceQueries.v ===== *)
(** * Reading traceroutes back (services/trace-processor/db/queries.sql.go)

    The two reading queries of the trace processor, over the tables its
    transactions write, and the round trip of a committed traceroute: what an
    acknowledged message stored is what the queries return, in their order, and
    the rows of every other measurement are as before. *)

From S2P Require Import Prelude Float64 GoTime Json ArgusTypes ArgusDb ArgusWorker ArgusWorkerProps Reports.
From S2P Require Import PolicyEngineProps AgentConfig Supervisor AgentPipeline Processors ProcessorsProps Sha256 TraceLinks TraceProcessor TraceProcessorProps TraceRun.
From stdpp Require Import sorting.

Local Open Scope Z_scope.

(** What ORDER BY promises: the rows, in an order that [le] allows.  Rows with
    equal keys come in any order. *)
Class OrderBy {A} (le : A → A → Prop) (sort : list A → list A) : Prop := {
  order_perm l : sort l ≡ₚ l;
  order_sorted l : StronglySorted le (sort l);
}.

Section Queries.
Context {UL : UuidLib} {NL : NetipLib}.

(** ** Rows as they are read

    A timestamptz column holds microseconds, so that is what a row read back
    carries; and the driver writes an address that is not valid as NULL. *)

Definition read_ip (ip : option addr) : option addr :=
  match ip with Some a => if decide (a = zeroAddr) then None else Some a | None => None end.

Definition read_hop (h : TraceHopRow) : TraceHopRow :=
  {| thr_Timestamp := timestamptz (thr_Timestamp h); thr_MeasurementID := thr_MeasurementID h;
     thr_Ip := read_ip (thr_Ip h); thr_Ttl := thr_Ttl h; thr_Rtt := thr_Rtt h; thr_IcmpType := thr_IcmpType h;
     thr_IcmpCode := thr_IcmpCode h; thr_ReplyTtl := thr_ReplyTtl h; thr_Asn := thr_Asn h;
     thr_IsNoHop := thr_IsNoHop h |}.

Record TraceMeasurement := {
  me_ID : nat; me_SerialID : string; me_AgentConfigID : PgUUID; me_Timestamp : time; me_Type : string;
  me_Src : addr; me_Dst : addr; me_Method : string; me_StopReason : string; me_HopCount : Z;
  me_AsnPathHash : string; me_LinkPathHash : string; me_Raw : raw }.

Definition read_measurement (kv : nat * TraceMeasurementRow) : TraceMeasurement :=
  let '(id, r) := kv in
  {| me_ID := id; me_SerialID := tmr_SerialID r; me_AgentConfigID := tmr_AgentConfigID r;
     me_Timestamp := timestamptz (tmr_Timestamp r); me_Type := tmr_Type r; me_Src := tmr_Src r;
     me_Dst := tmr_Dst r; me_Method := tmr_Method r; me_StopReason := tmr_StopReason r;
     me_HopCount := tmr_HopCount r; me_AsnPathHash := tmr_AsnPathHash r; me_LinkPathHash := tmr_LinkPathHash r;
     me_Raw := tmr_Raw r |}.

(** ** The queries *)

Definition ttl_asc (a b : TraceHopRow) : Prop := thr_Ttl a ≤ thr_Ttl b.
Definition timestamp_desc (a b : TraceMeasurement) : Prop := me_Timestamp b ≤ me_Timestamp a.

(** WHERE measurement_id = $1. *)
Definition hops_of (id : nat) (s : trace_env) : list TraceHopRow :=
  read_hop <$> filter (λ h, thr_MeasurementID h = id) (tt_hops (tv_tables s)).

(** WHERE src = $1 AND dst = $2 AND timestamp > NOW() - $3; [since] is the
    difference of the clock and the interval. *)
Definition on_path (src dst : addr) (since : time) (m : TraceMeasurement) : Prop :=
  me_Src m = src ∧ me_Dst m = dst ∧ since < me_Timestamp m.

#[export] Instance on_path_dec src dst since m : Decision (on_path src dst since m).
Proof. unfold on_path. apply _. Defined.

Definition path_of (src dst : addr) (since : time) (s : trace_env) : list TraceMeasurement :=
  filter (on_path src dst since) (read_measurement <$> map_to_list (tt_measurements (tv_tables s))).

Definition GetHopsByMeasurement (by_ttl : list TraceHopRow → list TraceHopRow) (measurementID : nat)
    : go trace_env (list TraceHopRow) :=
  tv_call (fun s => (s, ROk (by_ttl (hops_of measurementID s)))).

Definition GetMeasurementsByPath (newest : list TraceMeasurement → list TraceMeasurement) (src dst : addr)
    (since : time) : go trace_env (list TraceMeasurement) :=
  tv_call (fun s => (s, ROk (newest (path_of src dst since s)))).

(** ** Identifiers

    Every row carries an identifier that was handed out. *)

Definition ids_used (s : trace_env) : Prop :=
  (∀ id, is_Some (tt_measurements (tv_tables s) !! id) → (id < tv_next s)%nat) ∧
  Forall (λ h, (thr_MeasurementID h < tv_next s)%nat) (tt_hops (tv_tables s)).

Lemma hop_rows_id ts id hops rows ips :
  hop_rows ts id hops = ROk (rows, ips) → Forall (λ h, thr_MeasurementID h = id) rows.
Proof.
  revert rows ips. induction hops as [|h hops IH]; intros rows ips; simpl; [by intros [= <- <-]|].
  destruct (if String.eqb _ _ then _ else _) as [ip|e|e]; simpl; [|done..].
  destruct (hop_rows ts id hops) as [[rows' ips']|e|e]; simpl; [|done..].
  intros [= <- <-]. constructor; [done|]. by eapply IH.
Qed.

(** The hops a trace adds all carry its identifier. *)
Lemma added_hops_id ts id tp rows ips m :
  hop_rows ts id (tp_Hops tp) = ROk (rows, ips) →
  Forall (λ h, thr_MeasurementID h = id) ((with_asn m <$> rows) ++ (no_hop_row ts id <$> tp_NoHops tp)).
Proof.
  intros Hr%hop_rows_id. apply Forall_app. split; apply Forall_fmap; [|by apply Forall_true].
  eapply Forall_impl; [exact Hr|]. done.
Qed.

Lemma filter_none {A} (P : A → Prop) `{!∀ x, Decision (P x)} l : Forall (λ x, ¬ P x) l → filter P l = [].
Proof. induction 1 as [|x l Hx _ IH]; [done|]. by rewrite filter_cons_False. Qed.

Lemma filter_all {A} (P : A → Prop) `{!∀ x, Decision (P x)} l : Forall P l → filter P l = l.
Proof. induction 1 as [|x l Hx _ IH]; [done|]. rewrite filter_cons_True by done. by rewrite IH. Qed.

(** What a committed trace adds to what the queries select. *)
Lemma committed_selects payload tp links s s' :
  ids_used s → (tv_next s < tv_next s')%nat → trace_committed payload tp links s s' →
  let ts := prr_Timestamp (rpl_Payload payload) in
  ids_used s' ∧
  ∃ row rows ips m,
    hop_rows ts (tv_next s) (tp_Hops tp) = ROk (rows, ips) ∧
    ParseAddr (tp_Src tp) = Some (tmr_Src row) ∧ ParseAddr (tp_Dst tp) = Some (tmr_Dst row) ∧
    tmr_Timestamp row = ts ∧ tmr_LinkPathHash row = linkPathHash links ∧
    (∀ id, hops_of id s' =
      hops_of id s ++ (if decide (id = tv_next s) then
        read_hop <$> ((with_asn m <$> rows) ++ (no_hop_row ts (tv_next s) <$> tp_NoHops tp)) else [])) ∧
    hops_of (tv_next s) s = [] ∧
    ∀ src dst since, path_of src dst since s' ≡ₚ
      filter (on_path src dst since) [read_measurement (tv_next s, row)] ++ path_of src dst since s.
Proof.
  intros [Hm Hh] Hlt (row & path & rows & ips & m & hops & dbl & j & E & _ & Ets & Hsrc & Hdst & _ & Hlh & _ & Eh &
    Er & -> & _). simpl.
  pose proof (added_hops_id _ _ tp _ _ m Er) as Hids. split; [split|].
  - intros id. rewrite E, lookup_insert_is_Some. intros [<-|[_ Hid]]; [done|]. specialize (Hm id Hid). lia.
  - rewrite Eh. apply Forall_app. split; (eapply Forall_impl; [eassumption|]); simpl; lia.
  - exists row, rows, ips, m. do 5 (split; [done|]). split; [|split].
    + intros id. unfold hops_of. rewrite Eh, filter_app, fmap_app. f_equal. case_decide as Hid.
      * subst id. by rewrite filter_all.
      * rewrite filter_none; [done|]. eapply Forall_impl; [exact Hids|]. simpl. congruence.
    + unfold hops_of. rewrite filter_none; [done|]. eapply Forall_impl; [exact Hh|]. simpl. lia.
    + intros src dst since. unfold path_of. rewrite E, map_to_list_insert.
      * by rewrite fmap_cons, <- filter_app.
      * destruct (tt_measurements (tv_tables s) !! tv_next s) eqn:Ef; [|done].
        specialize (Hm (tv_next s) ltac:(eauto)). lia.
Qed.

Section ReadBack.
Context (sort : list ParsedHop → list ParsedHop) (order : gmap Z (list ParsedHop) → list (Z * list ParsedHop)).
Context (Lookup : list string → res (list ASNResult)) (published : res unit).
Context (by_ttl : list TraceHopRow → list TraceHopRow) (newest : list TraceMeasurement → list TraceMeasurement).

(** Messages keep the identifiers used, whatever becomes of them. *)
Lemma consume_ids_used d s : ids_used s → ids_used (consume_trace sort order Lookup published d s).1.
Proof.
  intros Hi. destruct (consume_trace _ _ _ _ d s) as [s' r] eqn:Hc. simpl.
  apply consume_trace_effect in Hc as [[Hle _] Hc].
  assert (tv_tables s' = tv_tables s → ids_used s') as Hsame.
  { intros E. destruct Hi as [Hm Hh]. unfold ids_used. rewrite E. split.
    - intros id Hid. specialize (Hm id Hid). lia.
    - eapply Forall_impl; [exact Hh|]. simpl. lia. }
  destruct r as [[]|e|e]; [|by auto|done|by auto].
  destruct (normal_trace d) as [[payload tp]|]; [|by auto].
  destruct Hc as [Hlt Hc]. by eapply committed_selects.
Qed.

(** C24. An acknowledged traceroute reads back.  When every row of the tables
    carries an identifier handed out before, that still holds afterwards; the
    hops of the new measurement are exactly those of the report (answered ones
    with the number of their address, then the unanswered ones), by increasing
    TTL; the hops of no other measurement change; and the measurements of a path
    are those it had, the newest first, with the new one when its path and time
    are those asked for. *)
Theorem trace_reads_back d payload tp s s' :
  OrderBy ttl_asc by_ttl → OrderBy timestamp_desc newest → ids_used s →
  consume_trace sort order Lookup published d s = (s', ROk Ack) →
  normal_trace d = Some (payload, tp) → tv_faults s' = [] →
  let ts := prr_Timestamp (rpl_Payload payload) in
  ids_used s' ∧
  ∃ row rows ips m,
    hop_rows ts (tv_next s) (tp_Hops tp) = ROk (rows, ips) ∧
    ParseAddr (tp_Src tp) = Some (tmr_Src row) ∧ ParseAddr (tp_Dst tp) = Some (tmr_Dst row) ∧
    tmr_LinkPathHash row = linkPathHash (extractLinks sort order (tp_Hops tp) (tp_NoHops tp)) ∧
    (∃ l, GetHopsByMeasurement by_ttl (tv_next s) s' = (s', ROk l) ∧ StronglySorted ttl_asc l ∧
      l ≡ₚ read_hop <$> ((with_asn m <$> rows) ++ (no_hop_row ts (tv_next s) <$> tp_NoHops tp))) ∧
    (∀ id, id ≠ tv_next s → GetHopsByMeasurement by_ttl id s' = (s', ROk (by_ttl (hops_of id s)))) ∧
    (∀ since, ∃ l, GetMeasurementsByPath newest (tmr_Src row) (tmr_Dst row) since s' = (s', ROk l) ∧
      StronglySorted timestamp_desc l ∧
      l ≡ₚ (if decide (since < timestamptz ts) then [read_measurement (tv_next s, row)] else []) ++
            path_of (tmr_Src row) (tmr_Dst row) since s) ∧
    (∀ src dst since, src ≠ tmr_Src row ∨ dst ≠ tmr_Dst row →
      ∃ l, GetMeasurementsByPath newest src dst since s' = (s', ROk l) ∧ l ≡ₚ path_of src dst since s).
Proof.
  intros Ht Hn Hi Hc Hd Hf. apply consume_trace_effect in Hc as [_ Hc]. rewrite Hd in Hc.
  destruct Hc as [Hlt Hc]. destruct (committed_selects _ _ _ _ _ Hi Hlt Hc) as
    (Hi' & row & rows & ips & m & Er & Hsrc & Hdst & Ets & Hlh & Hhops & Hnone & Hpath).
  split; [done|]. exists row, rows, ips, m. do 4 (split; [done|]).
  unfold GetHopsByMeasurement, GetMeasurementsByPath. split; [|split; [|split]].
  - eexists. split; [by rewrite tv_call_ok|]. split; [apply order_sorted|].
    rewrite order_perm, Hhops, Hnone. by rewrite decide_True.
  - intros id Hid. rewrite tv_call_ok, Hhops, decide_False, app_nil_r by done. done.
  - intros since. eexists. split; [by rewrite tv_call_ok|]. split; [apply order_sorted|].
    rewrite order_perm, Hpath. apply Permutation_app_tail. rewrite filter_cons, filter_nil.
    unfold on_path. simpl. rewrite Ets. repeat case_decide; naive_solver.
  - intros src dst since Hne. eexists. split; [by rewrite tv_call_ok|].
    rewrite order_perm, Hpath, filter_cons_False; [done|]. unfold on_path. simpl. naive_solver.
Qed.

End ReadBack.
End Queries.

(** ** Witness *)

#[local] Existing Instance BinaryUuid.

#[local] Instance TextNetip : NetipLib :=
  {| addr := string; zeroAddr := "invalid IP"; AddrString := λ a, a;
     ParseAddr := λ s, if String.eqb s "" then None else Some s |}.

#[local] Instance ttl_asc_dec : RelDecision ttl_asc.
Proof. intros a b. unfold ttl_asc. apply _. Defined.
#[local] Instance timestamp_desc_dec : RelDecision timestamp_desc.
Proof. intros a b. unfold timestamp_desc. apply _. Defined.

Lemma merge_sort_orders {A} (le : A → A → Prop) `{!RelDecision le} :
  Transitive le → Total le → OrderBy le (merge_sort le).
Proof. split; intros l; [apply merge_sort_Permutation|by apply StronglySorted_merge_sort; apply _]. Qed.

Lemma by_ttl_orders : OrderBy ttl_asc (merge_sort ttl_asc).
Proof. apply merge_sort_orders; unfold ttl_asc; intros a b; lia. Qed.

Lemma newest_orders : OrderBy timestamp_desc (merge_sort timestamp_desc).
Proof. apply merge_sort_orders; unfold timestamp_desc; intros a b; lia. Qed.

(** Hops reported out of order, with an unanswered one after them. *)
Definition late_hops : list json := [hop_json 2 "192.0.2.1"; hop_json 1 "198.51.100.1"].

Definition late_report : raw :=
  match dispatch_result example_dispatcher (at_sec 1)
          (example_result ProbeTypeTrace (trace_data_to_json (trace_data late_hops))) with
  | Published _ j => RawDoc j
  | Skipped => RawDoc JNull
  end.

Definition late_env : trace_env := (consume_trace sort_by_ttl map_to_list cymru (ROk tt) late_report empty_trace_env).1.

(** The hops of the first measurement, read back. *)
Definition late_read : list Z :=
  match (GetHopsByMeasurement (merge_sort ttl_asc) 0 late_env).2 with ROk l => thr_Ttl <$> l | _ => [] end.

Example late_read_sorted : late_read = [1; 2; 3].
Proof. vm_compute. reflexivity. Qed.

Lemma trace_reads_back_witness : ids_used late_env ∧ late_read = [1; 2; 3].
Proof.
  split; [|exact late_read_sorted].
  destruct (normal_trace late_report) as [[payload tp]|] eqn:En; [|vm_compute in En; discriminate].
  apply (trace_reads_back sort_by_ttl map_to_list cymru (ROk tt) (merge_sort ttl_asc) (merge_sort timestamp_desc)
    late_report payload tp empty_trace_env late_env).
  - exact by_ttl_orders.
  - exact newest_orders.
  - split; [intros id [x Hx]; vm_compute in Hx; discriminate|constructor].
  - vm_compute. reflexivity.
  - exact En.
  - vm_compute. reflexivity.
Defined.
