(* ===== verification/CopyFrom.v ===== *)
(** * COPY sources (db/copyfrom.go of the processors)

    The processors write their rows with [CopyFrom], which pulls them one at a
    time from an iterator.  The five generated iterators are the same code over
    their rows; they differ in the columns they list.  The theorems say that
    whoever pulls from such an iterator by the contract of [CopyFromSource]
    gets every row once, in order, and that every row has a value for each
    column of its statement. *)

From S2P Require Import Prelude Float64 GoTime Json ArgusTypes ArgusDb Reports Processors TraceLinks TraceProcessor.

Local Open Scope go_scope.

(** ** Iterators *)

(** The values a row offers; the addresses are those of net/netip. *)
Inductive column (A : Type) :=
| CId (measurement : nat)
| CTime (t : option time)
| CBool (b : bool)
| CInt (n : option Z)
| CFloat (f : option float64)
| CText (s : option string)
| CAddr (a : option A).
Arguments CId {A} measurement.
Arguments CTime {A} t.
Arguments CBool {A} b.
Arguments CInt {A} n.
Arguments CFloat {A} f.
Arguments CText {A} s.
Arguments CAddr {A} a.

Section Iterator.
Context {R A : Type}.

Record iterator := { it_rows : list R; it_skippedFirstNextCall : bool }.

Definition new_iterator (rows : list R) : iterator :=
  {| it_rows := rows; it_skippedFirstNextCall := false |}.

Definition Next (r : iterator) : iterator * bool :=
  match it_rows r with
  | [] => (r, false)
  | _ :: rest =>
      if it_skippedFirstNextCall r then
        ({| it_rows := rest; it_skippedFirstNextCall := true |}, match rest with [] => false | _ => true end)
      else ({| it_rows := it_rows r; it_skippedFirstNextCall := true |}, true)
  end.

(** [r.rows[0]] panics on an empty slice. *)
Definition Values (values : R → list (column A)) (r : iterator) : res (list (column A)) :=
  match it_rows r with
  | [] => RPanic "index out of range"
  | row :: _ => ROk (values row)
  end.

(** Pulling by the contract of [CopyFromSource]: [Next], and while it returns
    true, [Values] and [Next] again; the rows that were read. *)
Inductive pulled (values : R → list (column A)) : iterator → res (list (list (column A))) → Prop :=
| pulled_end r r' : Next r = (r', false) → pulled values r (ROk [])
| pulled_row r r' v out :
    Next r = (r', true) → Values values r' = ROk v → pulled values r' (ROk out) →
    pulled values r (ROk (v :: out))
| pulled_panic r r' e : Next r = (r', true) → Values values r' = RPanic e → pulled values r (RPanic e)
| pulled_later r r' v e :
    Next r = (r', true) → Values values r' = ROk v → pulled values r' (RPanic e) →
    pulled values r (RPanic e).

(** One row is current and was read; the rest is to come. *)
Lemma pulled_rest values row rest out :
  pulled values {| it_rows := row :: rest; it_skippedFirstNextCall := true |} out ↔ out = ROk (values <$> rest).
Proof.
  revert row out. induction rest as [|row' rest IH]; intros row out; split.
  - by inversion 1.
  - intros ->. by eapply pulled_end.
  - inversion 1; unfold Next, Values in *; simplify_eq/=; try done.
    + match goal with K : pulled _ _ (ROk _) |- _ => apply IH in K as [= ->] end. done.
    + match goal with K : pulled _ _ (RPanic _) |- _ => apply IH in K end. done.
  - intros ->. eapply pulled_row; [done..|]. by apply IH.
Qed.

Lemma pulled_rows values rows out : pulled values (new_iterator rows) out ↔ out = ROk (values <$> rows).
Proof.
  destruct rows as [|row rest]; split.
  - by inversion 1.
  - intros ->. by eapply pulled_end.
  - inversion 1; unfold Next, Values in *; simplify_eq/=; try done.
    + match goal with K : pulled _ _ (ROk _) |- _ => apply pulled_rest in K as [= ->] end. done.
    + match goal with K : pulled _ _ (RPanic _) |- _ => apply pulled_rest in K end. done.
  - intros ->. eapply pulled_row; [done..|]. by apply pulled_rest.
Qed.

End Iterator.
Arguments iterator : clear implicits.

(** ** The five statements *)

(** A COPY: the table, its columns, and the values of a row. *)
Record copy (R A : Type) := {
  cp_table : string;
  cp_columns : list string;
  cp_values : R → list (column A);
}.
Arguments cp_table {R A}.
Arguments cp_columns {R A}.
Arguments cp_values {R A}.

Section Statements.
Context `{UuidLib} `{NetipLib}.

Definition copy_stamp_probes : copy (nat * StampProbeRow) addr := {|
  cp_table := "stamp_probes";
  cp_columns := ["measurement_id"; "tx"; "is_lost"; "rx"; "rtt"; "forward_delay"; "backward_delay"];
  cp_values := λ '(id, r), [CId id; CTime (Some (spr_Tx r)); CBool (spr_IsLost r); CTime (spr_Rx r);
    CInt (spr_Rtt r); CInt (spr_ForwardDelay r); CInt (spr_BackwardDelay r)];
|}.

Definition copy_ping_probes : copy (nat * PingProbeRow) addr := {|
  cp_table := "ping_probes";
  cp_columns := ["measurement_id"; "tx"; "rx"; "is_lost"; "seq"; "rtt"];
  cp_values := λ '(id, r), [CId id; CTime (Some (ppr_Tx r)); CTime (ppr_Rx r); CBool (ppr_IsLost r);
    CInt (ppr_Seq r); CInt (ppr_Rtt r)];
|}.

Definition copy_trace_hops : copy TraceHopRow addr := {|
  cp_table := "trace_hops";
  cp_columns := ["timestamp"; "measurement_id"; "ip"; "ttl"; "rtt"; "icmp_type"; "icmp_code"; "reply_ttl";
                 "asn"; "is_no_hop"];
  cp_values := λ r, [CTime (Some (thr_Timestamp r)); CId (thr_MeasurementID r); CAddr (thr_Ip r);
    CInt (Some (thr_Ttl r)); CInt (thr_Rtt r); CInt (thr_IcmpType r); CInt (thr_IcmpCode r);
    CInt (thr_ReplyTtl r); CInt (thr_Asn r); CBool (thr_IsNoHop r)];
|}.

Definition copy_trace_links : copy TraceLinkRow addr := {|
  cp_table := "trace_links";
  cp_columns := ["timestamp"; "measurement_id"; "probe_id"; "src_ip"; "dst_ip"; "ttl_gap"; "diff_rtt";
                 "is_src_respond"; "is_dst_respond"];
  cp_values := λ r, [CTime (Some (tlr_Timestamp r)); CId (tlr_MeasurementID r); CInt (Some (tlr_ProbeID r));
    CAddr (tlr_SrcIp r); CAddr (tlr_DstIp r); CInt (Some (tlr_TtlGap r)); CFloat (tlr_DiffRtt r);
    CBool (tlr_IsSrcRespond r); CBool (tlr_IsDstRespond r)];
|}.

Definition copy_as_details : copy (addr * AsDetails) addr := {|
  cp_table := "as_details";
  cp_columns := ["ip"; "asn"; "bgp_prefix"; "name"; "cc"];
  cp_values := λ '(ip, d), [CAddr (Some ip); CInt (ad_Asn d); CText (ad_BgpPrefix d); CText (ad_Name d);
    CText (ad_Cc d)];
|}.

(** What the iterator of a statement may hand over for [rows]. *)
Definition copied {R A} (c : copy R A) (rows : list R) : res (list (list (column A))) → Prop :=
  pulled (cp_values c) (new_iterator rows).

(** A statement is well formed when every row has one value for each column. *)
Definition fits {R A} (c : copy R A) : Prop :=
  ∀ r, length (cp_values c r) = length (cp_columns c).

(** The rows stored by [InsertProbes] are the rows COPY was given. *)
Lemma InsertProbes_copied {M P} (c : copy (nat * P) addr) id (l : list P) (s s' : store M P) :
  InsertProbes id l s = (s', ROk tt) →
  ∃ rows, tb_probes (st_tables s') = tb_probes (st_tables s) ++ rows ∧
    ∀ out, copied c rows out ↔ out = ROk (cp_values c <$> ((id,.) <$> l)).
Proof.
  unfold InsertProbes, st_call. intros E. exists ((id,.) <$> l).
  split; [|intros out; apply pulled_rows].
  by destruct (st_faults s) as [|[] ?]; simplify_eq/=.
Qed.

(** Whoever pulls rows from an iterator of the five COPY statements gets
    every row exactly once and in order, without a panic and whatever their
    number, and every row has exactly one value for each column named. *)
Theorem copy_sends_rows :
  (∀ rows out, copied copy_stamp_probes rows out ↔ out = ROk (cp_values copy_stamp_probes <$> rows)) ∧
  (∀ rows out, copied copy_ping_probes rows out ↔ out = ROk (cp_values copy_ping_probes <$> rows)) ∧
  (∀ rows out, copied copy_trace_hops rows out ↔ out = ROk (cp_values copy_trace_hops <$> rows)) ∧
  (∀ rows out, copied copy_trace_links rows out ↔ out = ROk (cp_values copy_trace_links <$> rows)) ∧
  (∀ rows out, copied copy_as_details rows out ↔ out = ROk (cp_values copy_as_details <$> rows)) ∧
  fits copy_stamp_probes ∧ fits copy_ping_probes ∧ fits copy_trace_hops ∧ fits copy_trace_links ∧
  fits copy_as_details.
Proof.
  do 5 (split; [intros; apply pulled_rows|]).
  repeat split; intros r; by try destruct r.
Qed.

End Statements.
